(** * APA: the MPFR value pool, its free list, and the dense matrix kernels

    A shallow embedding of [inst/mex/gmp_mpfr_interface.h],
    [inst/mex/mex_mpfr_algorithms.c] and [inst/mex/mex_mpfr_algorithms_mmm.c].

    Conventions.
    - [size_t] and [uint64_t] values are integers in [0, 2^64); every
      addition, subtraction and multiplication the C code performs on them
      is written with its wrap-around ([wrap]).  The one exception is the
      increment of a loop counter: it happens only while the counter is
      below a [size_t] bound, so it cannot wrap.
    - The globals [data], [data_capacity], [data_size], [free_list],
      [free_list_capacity], [free_list_size] are the fields of [pool]; a
      pointer is [None] when it is [NULL] and otherwise the list of the
      cells of the block it points to.
    - A C function is a function into [res]: [Ok] carries what the call
      leaves behind, [Err] says why the call has no defined result. *)

From Stdlib Require Import ZArith Lia Bool.
From Stdlib Require Import Floats.SpecFloat.
From stdpp Require Import base tactics option numbers list sorting.

Local Open Scope Z_scope.

(** ** Machine integers *)

Definition wrap (z : Z) : Z := z mod 2 ^ 64.

Definition DATA_CHUNK_SIZE : Z := 1000.

(** ** Results of C calls *)

Inductive error : Type :=
  | OutOfBounds      (* an access outside the block a pointer points to *)
  | NullPointer      (* an access through a NULL pointer *)
  | DivisionByZero   (* unsigned division by zero *)
  | UndefinedCast    (* double to integer conversion out of range *)
  | NotModelled      (* a path whose callee is not part of this development *)
  | OutOfFuel.       (* a loop did not finish within the given fuel *)

Inductive res (A : Type) : Type :=
  | Ok (a : A)
  | Err (e : error).
Arguments Ok {A} a.
Arguments Err {A} e.

#[export] Instance res_ret : MRet res := fun A a => Ok a.
#[export] Instance res_bind : MBind res := fun A B f m =>
  match m with Ok a => f a | Err e => Err e end.

(** Array cells addressed by an unsigned index. *)
Definition load {A} (a : list A) (i : Z) : res A :=
  if i <? 0 then Err OutOfBounds
  else match a !! Z.to_nat i with Some x => Ok x | None => Err OutOfBounds end.

Definition store {A} (a : list A) (i : Z) (x : A) : res (list A) :=
  if (0 <=? i) && (i <? Z.of_nat (length a))
  then Ok (<[Z.to_nat i := x]> a)
  else Err OutOfBounds.

Definition deref {A} (p : option (list A)) : res (list A) :=
  match p with Some a => Ok a | None => Err NullPointer end.

(** ** The memory manager of the host ([mxMalloc], [mxRealloc])

    Whether a request succeeds is not decided by the program: it is an
    input of the model.  A fresh cell holds an indeterminate value, which
    the oracle supplies. *)

Inductive mx_alloc (A : Type) : Type :=
  | mx_null
  | mx_block (junk : A).
Arguments mx_null {A}.
Arguments mx_block {A} junk.

Definition mxMalloc {A} (o : mx_alloc A) (n : Z) : option (list A) :=
  match o with
  | mx_null => None
  | mx_block junk => Some (replicate (Z.to_nat n) junk)
  end.

Definition mxRealloc {A} (o : mx_alloc A) (old : list A) (n : Z)
  : option (list A) :=
  match o with
  | mx_null => None
  | mx_block junk =>
      Some (take (Z.to_nat n) old ++ replicate (Z.to_nat n - length old)%nat junk)
  end.

(** ** The MPFR library, as the interface the program uses

    [mpfr_t] is the content of one MPFR variable (its precision and its
    value).  An operation that writes [rop] is given the old content of
    [rop], whose precision decides the rounding, and returns the new
    content with the ternary value. *)

Inductive mpfr_rnd_t : Type :=
  | MPFR_RNDN | MPFR_RNDZ | MPFR_RNDU | MPFR_RNDD | MPFR_RNDA.

Class Mpfr : Type := {
  mpfr_t : Type;
  MPFR_PREC_MIN : Z;
  MPFR_PREC_MAX : Z;
  mpfr_init : mpfr_t;
  mpfr_get_prec : mpfr_t -> Z;
  mpfr_set : mpfr_t -> mpfr_t -> mpfr_rnd_t -> mpfr_t * Z;
  mpfr_fma : mpfr_t -> mpfr_t -> mpfr_t -> mpfr_t -> mpfr_rnd_t -> mpfr_t * Z
}.

(** ** Index ranges *)

Record idx_t : Type := { start : Z; end_ : Z }.

#[export] Instance idx_t_eq_dec : EqDecision idx_t.
Proof. solve_decision. Defined.

Module Range.
(** [length]: [idx->end - idx->start + 1] in [size_t]. *)
Definition length (idx : idx_t) : Z := wrap (wrap (end_ idx - start idx) + 1).
End Range.

(** The test of Rule 2 of [free_list_compress],
    [free_list[i].end + 1 == free_list[j].start
     || free_list[j].end + 1 == free_list[i].start],
    and the entry the rule writes to [free_list[i]]. *)
Definition neighbours (fi fj : idx_t) : bool :=
  (wrap (end_ fi + 1) =? start fj) || (wrap (end_ fj + 1) =? start fi).

Definition merged (fi fj : idx_t) : idx_t :=
  {| start := if start fi <=? start fj then start fi else start fj;
     end_ := if end_ fi >=? end_ fj then end_ fi else end_ fj |}.

Section Pool.
Context `{Mpfr}.

Record pool : Type := {
  data : option (list mpfr_t);
  data_capacity : Z;
  data_size : Z;
  free_list : option (list idx_t);
  free_list_capacity : Z;
  free_list_size : Z
}.

(** The globals as the program initialises them. *)
Definition initial_pool : pool :=
  {| data := None; data_capacity := 0; data_size := 0;
     free_list := None; free_list_capacity := 0; free_list_size := 0 |}.

Definition set_data (d : option (list mpfr_t)) (s : pool) : pool :=
  {| data := d; data_capacity := data_capacity s; data_size := data_size s;
     free_list := free_list s; free_list_capacity := free_list_capacity s;
     free_list_size := free_list_size s |}.
Definition set_data_capacity (c : Z) (s : pool) : pool :=
  {| data := data s; data_capacity := c; data_size := data_size s;
     free_list := free_list s; free_list_capacity := free_list_capacity s;
     free_list_size := free_list_size s |}.
Definition set_data_size (n : Z) (s : pool) : pool :=
  {| data := data s; data_capacity := data_capacity s; data_size := n;
     free_list := free_list s; free_list_capacity := free_list_capacity s;
     free_list_size := free_list_size s |}.
Definition set_free_list (a : option (list idx_t)) (s : pool) : pool :=
  {| data := data s; data_capacity := data_capacity s; data_size := data_size s;
     free_list := a; free_list_capacity := free_list_capacity s;
     free_list_size := free_list_size s |}.
Definition set_free_list_capacity (c : Z) (s : pool) : pool :=
  {| data := data s; data_capacity := data_capacity s; data_size := data_size s;
     free_list := free_list s; free_list_capacity := c;
     free_list_size := free_list_size s |}.
Definition set_free_list_size (n : Z) (s : pool) : pool :=
  {| data := data s; data_capacity := data_capacity s; data_size := data_size s;
     free_list := free_list s; free_list_capacity := free_list_capacity s;
     free_list_size := n |}.

(** [is_valid] *)
Definition is_valid (idx : idx_t) (s : pool) : bool :=
  (1 <=? start idx) && (start idx <=? end_ idx) && (end_ idx <=? data_size s).

(** [free_list[i]] read and written through the global pointer. *)
Definition fl_get (s : pool) (i : Z) : res idx_t :=
  a ← deref (free_list s); load a i.
Definition fl_put (s : pool) (i : Z) (e : idx_t) : res pool :=
  a ← deref (free_list s);
  a' ← store a i e;
  mret (set_free_list (Some a') s).

(** [free_list_remove]: the loop [for (; i < free_list_size; i++)] runs
    [free_list_size - i] times; each turn copies cell [i + 1] to cell
    [i]. *)
Fixpoint free_list_remove_loop (n : nat) (i : Z) (s : pool) : res pool :=
  match n with
  | O => mret s
  | S n' =>
      e ← fl_get s (i + 1);
      s' ← fl_put s i e;
      free_list_remove_loop n' (i + 1) s'
  end.

Definition free_list_remove (i : Z) (s : pool) : res pool :=
  s' ← free_list_remove_loop (Z.to_nat (free_list_size s - i)) i s;
  mret (set_free_list_size (wrap (free_list_size s' - 1)) s').

(** [free_list_compress], Rule 2: the loop over [j] for a fixed [i].
    [Some s'] when the rule fired (the C code then leaves both loops). *)
Fixpoint free_list_compress_inner (n : nat) (i j : Z) (s : pool)
  : res (option pool) :=
  match n with
  | O => mret None
  | S n' =>
      fi ← fl_get s i;
      fj ← fl_get s j;
      if neighbours fi fj
      then
        s1 ← fl_put s i (merged fi fj);
        s2 ← free_list_remove j s1;
        mret (Some s2)
      else free_list_compress_inner n' i (j + 1) s
  end.

(** One turn of the [do ... while]: the loop over [i], Rule 1 first. *)
Fixpoint free_list_compress_pass (n : nat) (i : Z) (s : pool)
  : res (option pool) :=
  match n with
  | O => mret None
  | S n' =>
      fi ← fl_get s i;
      if end_ fi =? data_size s then
        s' ← free_list_remove i (set_data_size (wrap (start fi - 1)) s);
        mret (Some s')
      else
        r ← free_list_compress_inner
              (Z.to_nat (free_list_size s - (i + 1))) i (i + 1) s;
        match r with
        | Some s' => mret (Some s')
        | None => free_list_compress_pass n' (i + 1) s
        end
  end.

(** [do { ... } while (have_merge)] *)
Fixpoint free_list_compress_loop (fuel : nat) (s : pool) : res pool :=
  match fuel with
  | O => Err OutOfFuel
  | S fuel' =>
      r ← free_list_compress_pass (Z.to_nat (free_list_size s)) 0 s;
      match r with
      | Some s' => free_list_compress_loop fuel' s'
      | None => mret s
      end
  end.

(** Every turn but the last removes one entry, so one turn more than
    there are entries is enough (lemma [free_list_compress_fuel]). *)
Definition free_list_compress (s : pool) : res pool :=
  free_list_compress_loop (S (Z.to_nat (free_list_size s))) s.

(** [mpfr_init (data + i)] for [n] consecutive cells from [i]; after
    [mpfr_clear] in [mex_mpfr_mark_free], alone in [mex_mpfr_allocate]. *)
Fixpoint init_cells (n : nat) (i : Z) (d : list mpfr_t) : res (list mpfr_t) :=
  match n with
  | O => mret d
  | S n' => d' ← store d i mpfr_init; init_cells n' (i + 1) d'
  end.

(** [mex_mpfr_mark_free], "Extend space if necessary": [inl] when the
    function returns from here (memory allocation failed), [inr] when it
    goes on. *)
Definition mark_free_extend (o : mx_alloc idx_t) (s : pool) : pool + pool :=
  if free_list_size s =? free_list_capacity s then
    let new_capacity := wrap (free_list_capacity s + DATA_CHUNK_SIZE) in
    match match free_list s with
          | None => mxMalloc o new_capacity
          | Some a => mxRealloc o a new_capacity
          end with
    | None => inl (set_free_list None s)
    | Some a =>
        inr (set_free_list_capacity new_capacity (set_free_list (Some a) s))
    end
  else inr s.

(** [mex_mpfr_mark_free] *)
Definition mex_mpfr_mark_free (o : mx_alloc idx_t) (idx : idx_t) (s : pool)
  : res pool :=
  if negb (is_valid idx s) then mret s
  else
    match mark_free_extend o s with
    | inl s' => mret s'
    | inr s1 =>
        d ← deref (data s1);
        d' ← init_cells (Z.to_nat (end_ idx - wrap (start idx - 1)))
               (wrap (start idx - 1)) d;
        s3 ← fl_put (set_data (Some d') s1) (free_list_size s1) idx;
        free_list_compress (set_free_list_size (wrap (free_list_size s3 + 1)) s3)
    end.

(** [mex_mpfr_allocate], the loop that tries to reuse a free range.
    [Some (ret, idx, s')] when the function returned from inside it. *)
Fixpoint allocate_reuse (n : nat) (i : Z) (count : Z) (s : pool)
  : res (option (Z * idx_t * pool)) :=
  match n with
  | O => mret None
  | S n' =>
      fi ← fl_get s i;
      if count <=? Range.length fi then
        let idx := {| start := start fi;
                      end_ := wrap (wrap (start fi + count) - 1) |} in
        s' ← (if count <? Range.length fi
              then fl_put s i {| start := wrap (start fi + count);
                                 end_ := end_ fi |}
              else free_list_remove i s);
        mret (Some (Z.b2z (is_valid idx s'), idx, s'))
      else allocate_reuse n' (i + 1) count s
  end.

(** [while ((data_size + count) > new_capacity) new_capacity += DATA_CHUNK_SIZE] *)
Fixpoint new_capacity_loop (fuel : nat) (need new_capacity : Z) : res Z :=
  match fuel with
  | O => if need >? new_capacity then Err OutOfFuel else mret new_capacity
  | S fuel' =>
      if need >? new_capacity
      then new_capacity_loop fuel' need (wrap (new_capacity + DATA_CHUNK_SIZE))
      else mret new_capacity
  end.

(** [mex_mpfr_allocate], "Check if there is enough space to create new
    MPFR variables": [inl] when the function returns 0 from here (memory
    allocation failed), [inr] when it goes on. *)
Definition allocate_extend (fuel : nat) (o : mx_alloc mpfr_t) (count : Z)
    (s : pool) : res (pool + pool) :=
  if wrap (data_size s + count) >? data_capacity s then
    new_capacity ← new_capacity_loop fuel (wrap (data_size s + count))
                     (data_capacity s);
    match match data s with
          | None => mxMalloc o new_capacity
          | Some d => mxRealloc o d new_capacity
          end with
    | None => mret (inl (set_data None s))
    | Some d =>
        d' ← init_cells (Z.to_nat (new_capacity - data_capacity s))
               (data_capacity s) d;
        mret (inr (set_data_capacity new_capacity (set_data (Some d') s)))
    end
  else mret (inr s).

(** [mex_mpfr_allocate].  [idx] is the content of [*idx] at entry; the
    result is the returned [int], the content of [*idx] at exit and the
    pool. *)
Definition mex_mpfr_allocate (fuel : nat) (o : mx_alloc mpfr_t)
    (count : Z) (idx : idx_t) (s : pool) : res (Z * idx_t * pool) :=
  if count =? 0 then mret (0, idx, s)
  else
    r ← allocate_reuse (Z.to_nat (free_list_size s)) 0 count s;
    match r with
    | Some out => mret out
    | None =>
        extended ← allocate_extend fuel o count s;
        match extended with
        | inl s' => mret (0, idx, s')
        | inr s1 =>
            let s2 := set_data_size (wrap (data_size s1 + count)) s1 in
            let idx' := {| start := wrap (data_size s1 + 1);
                           end_ := data_size s2 |} in
            mret (Z.b2z (is_valid idx' s2), idx', s2)
        end
    end.
End Pool.

(** ** Arguments of a MEX call

    An [mxArray] of the host, as far as the program looks at it: whether
    it is numeric, and its elements in storage order.  Numeric arrays are
    arrays of [double]; [mxGetM * mxGetN] is the number of elements and
    [mxIsScalar] holds of an array with one element. *)

Record mxArray : Type := { mx_numeric : bool; mx_pr : list spec_float }.

Definition mxIsNumeric (a : mxArray) : bool := mx_numeric a.
Definition mxIsScalar (a : mxArray) : bool := Nat.eqb (length (mx_pr a)) 1.
Definition mxGetScalar (a : mxArray) : spec_float :=
  match mx_pr a with d :: _ => d | [] => S754_zero false end.

Definition mxIsFinite (d : spec_float) : bool :=
  match d with S754_zero _ | S754_finite _ _ _ => true | _ => false end.

(** [floor (d) == d] *)
Definition floor_eq (d : spec_float) : bool :=
  match d with
  | S754_zero _ | S754_infinity _ => true
  | S754_nan => false
  | S754_finite _ m e => if 0 <=? e then true else Z.pos m mod 2 ^ (- e) =? 0
  end.

(** [d >= 0.0] *)
Definition ge_zero (d : spec_float) : bool :=
  match d with
  | S754_zero _ => true
  | S754_infinity sign | S754_finite sign _ _ => negb sign
  | S754_nan => false
  end.

(** The integer a finite [double] is truncated to. *)
Definition trunc (d : spec_float) : Z :=
  match d with
  | S754_finite sign m e =>
      let v := if 0 <=? e then Z.pos m * 2 ^ e else Z.pos m / 2 ^ (- e) in
      if sign then - v else v
  | _ => 0
  end.

(** [(int64_t) d] and [(uint64_t) d] of a finite [d]: undefined when the
    truncated value is not representable. *)
Definition double_to_int64 (d : spec_float) : res Z :=
  if (- 2 ^ 63 <=? trunc d) && (trunc d <? 2 ^ 63)
  then Ok (trunc d) else Err UndefinedCast.
Definition double_to_uint64 (d : spec_float) : res Z :=
  if (0 <=? trunc d) && (trunc d <? 2 ^ 64)
  then Ok (trunc d) else Err UndefinedCast.

(** The [extract_*] functions return [int] and write through a pointer
    when they return 1: [Some v] is "returned 1, wrote [v]", [None] is
    "returned 0". *)

Definition failed {A : Type} (o : option A) : bool :=
  match o with Some _ => false | None => true end.

Definition extract_d (idx : nat) (prhs : list mxArray) : option spec_float :=
  match prhs !! idx with
  | Some a => if mxIsScalar a && mxIsNumeric a then Some (mxGetScalar a) else None
  | None => None
  end.

Definition extract_si (idx : nat) (prhs : list mxArray) : res (option Z) :=
  match extract_d idx prhs with
  | Some d =>
      if mxIsFinite d && floor_eq d
      then si ← double_to_int64 d; mret (Some si)
      else mret None
  | None => mret None
  end.

Definition extract_ui (idx : nat) (prhs : list mxArray) : res (option Z) :=
  osi ← extract_si idx prhs;
  match osi with
  | Some si => if si >=? 0 then mret (Some (wrap si)) else mret None
  | None => mret None
  end.

(** The loop of [extract_ui_vector] over the first [len] elements. *)
Fixpoint extract_ui_vector_loop (vec : list spec_float) : res (option (list Z)) :=
  match vec with
  | [] => mret (Some [])
  | d :: vec' =>
      if ge_zero d && mxIsFinite d && floor_eq d
      then u ← double_to_uint64 d;
           r ← extract_ui_vector_loop vec';
           mret (option_map (cons u) r)
      else mret None
  end.

Definition extract_ui_vector (idx : nat) (prhs : list mxArray) (len : nat)
  : res (option (list Z)) :=
  match prhs !! idx with
  | Some a =>
      if mxIsNumeric a && (len <=? length (mx_pr a))%nat
      then extract_ui_vector_loop (take len (mx_pr a))
      else mret None
  | None => mret None
  end.

Definition extract_rounding_mode (idx : nat) (prhs : list mxArray)
  : res (option mpfr_rnd_t) :=
  osi ← extract_si idx prhs;
  mret (match osi with
        | Some (-1) => Some MPFR_RNDD
        | Some 0 => Some MPFR_RNDN
        | Some 1 => Some MPFR_RNDU
        | Some 2 => Some MPFR_RNDZ
        | Some 3 => Some MPFR_RNDA
        | _ => None
        end).

Section Extract.
Context `{Mpfr}.

(** [extract_prec].  The comparisons are made in [uint64_t], to which
    the two constants are converted. *)
Definition extract_prec (idx : nat) (prhs : list mxArray) : res (option Z) :=
  oui ← extract_ui idx prhs;
  match oui with
  | Some ui =>
      if (wrap MPFR_PREC_MIN <? ui) && (ui <? wrap MPFR_PREC_MAX)
      then mret (Some ui) else mret None
  | None => mret None
  end.

(** [extract_idx] *)
Definition extract_idx (idx : nat) (prhs : list mxArray) (s : pool)
  : res (option idx_t) :=
  oui ← extract_ui_vector idx prhs 2;
  match oui with
  | Some [ui0; ui1] =>
      let idx_vec := {| start := ui0; end_ := ui1 |} in
      if is_valid idx_vec s then mret (Some idx_vec) else mret None
  | _ => mret None
  end.
End Extract.

(** ** The matrix kernels *)

(** [for (uint64_t i = 0; i < bound; i++) body] *)
Fixpoint for_loop {S : Type} (n : nat) (i : Z) (body : Z -> S -> res S) (s : S)
  : res S :=
  match n with
  | O => mret s
  | S n' => s' ← body i s; for_loop n' (i + 1) body s'
  end.

Definition for_ {S : Type} (bound : Z) (body : Z -> S -> res S) (s : S) : res S :=
  for_loop (Z.to_nat bound) 0 body s.

(** Unsigned division. *)
Definition udiv (a b : Z) : res Z :=
  if b =? 0 then Err DivisionByZero else Ok (a / b).

Section Algorithms.
Context `{Mpfr}.

(** Whether the program was compiled with [MPLAPACK] defined. *)
Variable MPLAPACK : bool.

(** What a command leaves behind: the pool, the flag [throw_error] that
    [MEX_FCN_ERR] sets, and the array [plhs[0]] of status codes. *)
Record mex : Type := {
  mex_pool : pool;
  throw_error : bool;
  plhs0 : option (list Z)
}.

Definition MEX_FCN_ERR (m : mex) : mex :=
  {| mex_pool := mex_pool m; throw_error := true; plhs0 := plhs0 m |}.

(** The statement of the innermost loop of [mpfr_apa_mmm]:
    [ret |= mpfr_fma (C + (M * j) + i, B + k + (K * j), A + i + (M * k),
                      C + (M * j) + i, rnd)].
    [C], [A], [B] are the positions in [data] the three pointers point
    to. *)
Definition mmm_fma (C A B : Z) (rnd : mpfr_rnd_t) (M K i j k : Z)
    (st : list mpfr_t * Z) : res (list mpfr_t * Z) :=
  let c := C + wrap (M * j) + i in
  rop ← load st.1 c;
  op1 ← load st.1 (B + k + wrap (K * j));
  op2 ← load st.1 (A + i + wrap (M * k));
  d' ← store st.1 c (mpfr_fma rop op1 op2 rop rnd).1;
  mret (d', Z.lor st.2 (mpfr_fma rop op1 op2 rop rnd).2).

(** The body of the two outer loops, the same in strategies 1 to 6. *)
Definition mmm_entry (C A B : Z) (rnd : mpfr_rnd_t) (M K ret_stride i j : Z)
    (st : list mpfr_t * list Z) : res (list mpfr_t * list Z) :=
  r ← for_ K (mmm_fma C A B rnd M K i j) (st.1, 0);
  ret_ptr ← store st.2 (wrap (wrap (wrap (M * j) + i) * ret_stride)) r.2;
  mret (r.1, ret_ptr).

(** [mpfr_apa_mmm].  The result is the data array, the status array and
    whether [MEX_FCN_ERR] was run.  Strategies 3 to 6 run the loops of
    strategies 1 and 2 under OpenMP, where the order of the statements is
    not fixed by the text: they are [mpfr_apa_mmm_omp] below, which takes
    that order as an argument.  Strategy 7 calls [mpfr_apa_dot] and
    strategy 8 [mplapack_Rgemm], whose text is not among the three files;
    these two have no result here. *)
Definition mpfr_apa_mmm (d : list mpfr_t) (C A B : Z) (prec : Z)
    (rnd : mpfr_rnd_t) (M N K : Z) (ret_ptr : list Z) (ret_stride : Z)
    (strategy : Z) : res (list mpfr_t * list Z * bool) :=
  match strategy with
  | 1 =>
      r ← for_ M (fun i => for_ N (fun j =>
             mmm_entry C A B rnd M K ret_stride i j)) (d, ret_ptr);
      mret (r, false)
  | 2 =>
      r ← for_ N (fun j => for_ M (fun i =>
             mmm_entry C A B rnd M K ret_stride i j)) (d, ret_ptr);
      mret (r, false)
  | 3 | 4 | 5 | 6 | 7 => Err NotModelled
  | 8 => if MPLAPACK then Err NotModelled else mret (d, ret_ptr, true)
  | _ => mret (d, ret_ptr, true)
  end.

(** The statement of the inner loop of the transposition:
    [ret_ptr[i * ret_stride] =
       (double) mpfr_set (rop_ptr + j * ropM + i, op_ptr + i * ropN + j, rnd)]. *)
Definition transpose_set (rop_ptr op_ptr : Z) (rnd : mpfr_rnd_t)
    (ropM ropN ret_stride i j : Z) (st : list mpfr_t * list Z)
  : res (list mpfr_t * list Z) :=
  let r := rop_ptr + wrap (j * ropM) + i in
  rop ← load st.1 r;
  op ← load st.1 (op_ptr + wrap (i * ropN) + j);
  d' ← store st.1 r (mpfr_set rop op rnd).1;
  ret_ptr ← store st.2 (wrap (i * ret_stride)) (mpfr_set rop op rnd).2;
  mret (d', ret_ptr).

(** [mxCreateNumericMatrix (nlhs ? len : 1, 1, mxDOUBLE_CLASS, mxREAL)] *)
Definition new_status_array (nlhs len : Z) : list Z :=
  replicate (Z.to_nat (if nlhs =? 0 then 1 else len)) 0.

(** [case 2000] of [mex_mpfr_algorithms]: [mpfr_t.transpose]. *)
Definition cmd_transpose (nlhs : Z) (prhs : list mxArray) (m : mex) : res mex :=
  if negb (Nat.eqb (length prhs) 5) then mret (MEX_FCN_ERR m) else
  orop ← extract_idx 1 prhs (mex_pool m);
  match orop with None => mret (MEX_FCN_ERR m) | Some rop =>
  oop ← extract_idx 2 prhs (mex_pool m);
  match oop with None => mret (MEX_FCN_ERR m) | Some op =>
  let m1 := if negb (Range.length rop =? Range.length op)
            then MEX_FCN_ERR m else m in
  ornd ← extract_rounding_mode 3 prhs;
  match ornd with None => mret (MEX_FCN_ERR m1) | Some rnd =>
  oropM ← extract_ui 4 prhs;
  let ropM := default 0 oropM in
  let m2 := if failed oropM || (ropM =? 0)
            then MEX_FCN_ERR m1 else m1 in
  ropN ← udiv (Range.length rop) ropM;
  let ret_stride := if nlhs =? 0 then 0 else 1 in
  d ← deref (data (mex_pool m2));
  r ← for_ ropM (fun i => for_ ropN (fun j =>
         transpose_set (wrap (start rop - 1)) (wrap (start op - 1)) rnd
           ropM ropN ret_stride i j))
        (d, new_status_array nlhs (Range.length rop));
  mret {| mex_pool := set_data (Some r.1) (mex_pool m2);
          throw_error := throw_error m2;
          plhs0 := Some r.2 |}
  end end end.

(** [case 2001] of [mex_mpfr_algorithms]: [mpfr_t.mtimes]. *)
Definition cmd_mtimes (nlhs : Z) (prhs : list mxArray) (m : mex) : res mex :=
  if negb (Nat.eqb (length prhs) 8) then mret (MEX_FCN_ERR m) else
  oC ← extract_idx 1 prhs (mex_pool m);
  match oC with None => mret (MEX_FCN_ERR m) | Some C =>
  oA ← extract_idx 2 prhs (mex_pool m);
  match oA with None => mret (MEX_FCN_ERR m) | Some A =>
  oB ← extract_idx 3 prhs (mex_pool m);
  match oB with None => mret (MEX_FCN_ERR m) | Some B =>
  oprec ← extract_prec 4 prhs;
  match oprec with None => mret (MEX_FCN_ERR m) | Some prec =>
  ornd ← extract_rounding_mode 5 prhs;
  match ornd with None => mret (MEX_FCN_ERR m) | Some rnd =>
  oM ← extract_ui 6 prhs;
  let M := default 0 oM in
  let m1 := if failed oM || (M =? 0)
            then MEX_FCN_ERR m else m in
  ostrategy ← extract_ui 7 prhs;
  let strategy := default 0 ostrategy in
  let m2 := if failed ostrategy
            then MEX_FCN_ERR m1 else m1 in
  N ← udiv (Range.length C) M;
  let m3 := if negb (Range.length C =? wrap (M * N))
            then MEX_FCN_ERR m2 else m2 in
  K ← udiv (Range.length A) M;
  let m4 := if negb (Range.length A =? wrap (M * K))
            then MEX_FCN_ERR m3 else m3 in
  let m5 := if negb (Range.length B =? wrap (K * N))
            then MEX_FCN_ERR m4 else m4 in
  let ret_stride := if nlhs =? 0 then 0 else 1 in
  d ← deref (data (mex_pool m5));
  r ← mpfr_apa_mmm d (wrap (start C - 1)) (wrap (start A - 1))
        (wrap (start B - 1)) prec rnd M N K
        (new_status_array nlhs (Range.length C)) ret_stride strategy;
  mret {| mex_pool := set_data (Some r.1.1) (mex_pool m5);
          throw_error := throw_error m5 || r.2;
          plhs0 := Some r.1.2 |}
  end end end end end.

(** [mex_mpfr_algorithms] *)
Definition mex_mpfr_algorithms (nlhs : Z) (prhs : list mxArray) (cmd_code : Z)
    (m : mex) : res mex :=
  match cmd_code with
  | 2000 => cmd_transpose nlhs prhs m
  | 2001 => cmd_mtimes nlhs prhs m
  | _ => mret (MEX_FCN_ERR m)
  end.
End Algorithms.

(** ** What the kernels compute, cell by cell *)

(** A list of statements run in order. *)
Fixpoint foldM {A S : Type} (body : A -> S -> res S) (l : list A) (s : S)
  : res S :=
  match l with
  | [] => mret s
  | x :: l' => s' ← body x s; foldM body l' s'
  end.

Section Cells.
Context `{Mpfr}.

(** The content of cell [p] of the data array. *)
Definition cell (d : list mpfr_t) (p : Z) : mpfr_t :=
  default mpfr_init (d !! Z.to_nat p).

(** The content of [C[i,j]] and the accumulated status after the first
    [k] fused multiply-adds [C[i,j] <- B[k,j] * A[i,k] + C[i,j]], starting
    from the content [c0]; [A] and [B] are read from [d]. *)
Fixpoint dot_acc (d : list mpfr_t) (A B : Z) (rnd : mpfr_rnd_t) (M K i j : Z)
    (c0 : mpfr_t) (k : nat) : mpfr_t * Z :=
  match k with
  | O => (c0, 0)
  | S k' =>
      let acc := dot_acc d A B rnd M K i j c0 k' in
      let r := mpfr_fma acc.1 (cell d (B + Z.of_nat k' + K * j))
                 (cell d (A + i + M * Z.of_nat k')) acc.1 rnd in
      (r.1, Z.lor acc.2 r.2)
  end.

(** [C[i,j]] and its status after all [K] steps. *)
Definition entry_after (d : list mpfr_t) (C A B : Z) (rnd : mpfr_rnd_t)
    (M K i j : Z) : mpfr_t * Z :=
  dot_acc d A B rnd M K i j (cell d (C + M * j + i)) (Z.to_nat K).

(** The array [a] after the writes [a[pos x] = v x] for [x] along [l]. *)
Definition writes {X Y : Type} (pos : X -> nat) (v : X -> Y) (l : list X)
    (a : list Y) : list Y :=
  foldl (fun a' x => <[pos x := v x]> a') a l.

(** The operands of a multiplication lie inside the data array, and [C]
    overlaps neither [A] nor [B]. *)
Record mmm_shape (d : list mpfr_t) (C A B M N K : Z) : Prop := {
  shape_M : 0 <= M;
  shape_N : 0 <= N;
  shape_K : 0 <= K;
  shape_len : Z.of_nat (length d) < 2 ^ 64;
  shape_C : 0 <= C /\ C + M * N <= Z.of_nat (length d);
  shape_A : 0 <= A /\ A + M * K <= Z.of_nat (length d);
  shape_B : 0 <= B /\ B + K * N <= Z.of_nat (length d);
  shape_CA : C + M * N <= A \/ A + M * K <= C;
  shape_CB : C + M * N <= B \/ B + K * N <= C
}.

(** Row [ij.1] and column [ij.2] of an [M] by [N] matrix. *)
Definition in_matrix (M N : Z) (ij : Z * Z) : Prop :=
  0 <= ij.1 < M /\ 0 <= ij.2 < N.

(** Where [C[i,j]] lies in the data array, and its status in the status
    array. *)
Definition cpos (C M : Z) (ij : Z * Z) : nat := Z.to_nat (C + M * ij.2 + ij.1).
Definition spos (M ret_stride : Z) (ij : Z * Z) : nat :=
  Z.to_nat ((M * ij.2 + ij.1) * ret_stride).

(** The entries of an [M] by [N] matrix in the order in which the loops of
    strategy 1 ([i] outside, [j] inside) and of strategy 2 ([j] outside,
    [i] inside) visit them. *)
Definition order_ij (M N : Z) : list (Z * Z) :=
  i ← seqZ 0 M; (fun j => (i, j)) <$> seqZ 0 N.
Definition order_ji (M N : Z) : list (Z * Z) :=
  j ← seqZ 0 N; (fun i => (i, j)) <$> seqZ 0 M.

(** The decoded arguments of [mpfr_t.mtimes]. *)
Record mtimes_args : Type := {
  arg_C : idx_t;
  arg_A : idx_t;
  arg_B : idx_t;
  arg_prec : Z;
  arg_rnd : mpfr_rnd_t;
  arg_M : Z;
  arg_strategy : Z
}.

(** [prhs] holds eight arguments, and each of the seven after the command
    is accepted by the function that reads it. *)
Definition decodes (prhs : list mxArray) (s : pool) (a : mtimes_args) : Prop :=
  length prhs = 8%nat /\
  extract_idx 1 prhs s = Ok (Some (arg_C a)) /\
  extract_idx 2 prhs s = Ok (Some (arg_A a)) /\
  extract_idx 3 prhs s = Ok (Some (arg_B a)) /\
  extract_prec 4 prhs = Ok (Some (arg_prec a)) /\
  extract_rounding_mode 5 prhs = Ok (Some (arg_rnd a)) /\
  extract_ui 6 prhs = Ok (Some (arg_M a)) /\
  extract_ui 7 prhs = Ok (Some (arg_strategy a)).

(** [C] is [M] by [N], [A] is [M] by [K], [B] is [K] by [N]. *)
Definition conforming (a : mtimes_args) (N K : Z) : Prop :=
  0 < arg_M a /\ 0 <= N /\ 0 <= K /\
  end_ (arg_C a) - start (arg_C a) + 1 = arg_M a * N /\
  end_ (arg_A a) - start (arg_A a) + 1 = arg_M a * K /\
  end_ (arg_B a) - start (arg_B a) + 1 = K * N.

(** The range of [C] overlaps neither the range of [A] nor that of [B]. *)
Definition no_alias (a : mtimes_args) : Prop :=
  (end_ (arg_C a) < start (arg_A a) \/ end_ (arg_A a) < start (arg_C a)) /\
  (end_ (arg_C a) < start (arg_B a) \/ end_ (arg_B a) < start (arg_C a)).

(** The ranges of a transposition lie inside the data array and do not
    overlap; [rop] is [ropM] by [ropN]. *)
Record transpose_shape (d : list mpfr_t) (R O ropM ropN : Z) : Prop := {
  tshape_M : 0 <= ropM;
  tshape_N : 0 <= ropN;
  tshape_len : Z.of_nat (length d) < 2 ^ 64;
  tshape_R : 0 <= R /\ R + ropM * ropN <= Z.of_nat (length d);
  tshape_O : 0 <= O /\ O + ropM * ropN <= Z.of_nat (length d);
  tshape_RO : R + ropM * ropN <= O \/ O + ropM * ropN <= R
}.

(** What [mpfr_set] leaves in [rop[i,j]], with its ternary value. *)
Definition transposed (d : list mpfr_t) (R O : Z) (rnd : mpfr_rnd_t)
    (ropM ropN : Z) (ij : Z * Z) : mpfr_t * Z :=
  mpfr_set (cell d (R + ropM * ij.2 + ij.1)) (cell d (O + ropN * ij.1 + ij.2)) rnd.

(** The decoded arguments of [mpfr_t.transpose]. *)
Definition transpose_decodes (prhs : list mxArray) (s : pool)
    (rop op : idx_t) (rnd : mpfr_rnd_t) (ropM : Z) : Prop :=
  length prhs = 5%nat /\
  extract_idx 1 prhs s = Ok (Some rop) /\
  extract_idx 2 prhs s = Ok (Some op) /\
  extract_rounding_mode 3 prhs = Ok (Some rnd) /\
  extract_ui 4 prhs = Ok (Some ropM).

(** The status array fits the way it is indexed. *)
Definition status_shape (ret_ptr : list Z) (ret_stride M N : Z) : Prop :=
  (ret_stride = 0 /\ (0 < length ret_ptr)%nat) \/
  (ret_stride = 1 /\ M * N <= Z.of_nat (length ret_ptr)).
End Cells.

(** ** An instance of the MPFR interface for tests

    MPFR on integers that fit the significand of every variable involved:
    each operation is exact and its ternary value is 0.  Used to run the
    model on concrete pools. *)
Module ExactInt.
#[export] Instance mpfr : Mpfr := {|
  mpfr_t := Z;
  MPFR_PREC_MIN := 1;
  MPFR_PREC_MAX := 2 ^ 63 - 1 - 256;
  mpfr_init := 0;
  mpfr_get_prec := fun _ => 53;
  mpfr_set := fun _ op _ => (op, 0);
  mpfr_fma := fun _ op1 op2 op3 _ => (op1 * op2 + op3, 0)
|}.
End ExactInt.


(** ** Concrete pools *)

Module Examples.
Import ExactInt.

Definition idx0 : idx_t := {| start := 0; end_ := 0 |}.

(** The pool before the first call: nothing allocated. *)
Definition empty_pool : pool := initial_pool.

(** A pool of [size] live slots with the given values and free entries;
    both arrays have 1000 cells. *)
Definition mk_pool (values : list Z) (entries : list idx_t) : pool :=
  {| data := Some (values ++ replicate (1000 - length values) 0);
     data_capacity := 1000;
     data_size := Z.of_nat (length values);
     free_list := Some (entries ++ replicate (1000 - length entries) idx0);
     free_list_capacity := 1000;
     free_list_size := Z.of_nat (length entries) |}.

(** The empty pool after [allocate (5)]. *)
Definition pool_of_5 : pool :=
  {| data := Some (replicate 1000 0); data_capacity := 1000; data_size := 5;
     free_list := None; free_list_capacity := 0; free_list_size := 0 |}.

(** Arguments of a MEX call. *)
Definition double_of_Z (z : Z) : spec_float :=
  match z with
  | Z0 => S754_zero false
  | Zpos p => S754_finite false p 0
  | Zneg p => S754_finite true p 0
  end.
Definition mx_numbers (l : list Z) : mxArray :=
  {| mx_numeric := true; mx_pr := double_of_Z <$> l |}.
Definition mx_string : mxArray := {| mx_numeric := false; mx_pr := [] |}.

Definition args_prec_53 : list mxArray := [mx_string; mx_numbers [53]].
Definition args_prec_min : list mxArray := [mx_string; mx_numbers [1]].
Definition args_prec_max : list mxArray :=
  [mx_string; mx_numbers [2 ^ 63 - 1 - 256]].

(** A call of [mpfr_t.mtimes] with precision 53 and rounding to nearest
    on a pool that holds [values] and has no free entry. *)
Definition mex_of (values : list Z) : mex :=
  {| mex_pool := mk_pool values []; throw_error := false; plhs0 := None |}.

Definition mtimes_prhs (C A B : idx_t) (M strategy : Z) : list mxArray :=
  [mx_string; mx_numbers [start C; end_ C]; mx_numbers [start A; end_ A];
   mx_numbers [start B; end_ B]; mx_numbers [53]; mx_numbers [0];
   mx_numbers [M]; mx_numbers [strategy]].

Definition mtimes_call (nlhs : Z) (values : list Z) (C A B : idx_t)
    (M strategy : Z) : res mex :=
  mex_mpfr_algorithms false nlhs (mtimes_prhs C A B M strategy) 2001
    (mex_of values).

(** What a call leaves in the first [n] cells, in the flag and in the
    status array. *)
Definition outcome (n : nat) (r : res mex)
  : option (list Z * bool * option (list Z)) :=
  match r with
  | Ok m' =>
      match data (mex_pool m') with
      | Some d => Some (take n d, throw_error m', plhs0 m')
      | None => None
      end
  | Err _ => None
  end.

Definition range (s e : Z) : idx_t := {| start := s; end_ := e |}.

(** The product of the 2 by 2 identity [A] (slots 5 to 8) with [B] (slots
    9 to 12) into a cleared [C] (slots 1 to 4). *)
Definition identity_values : list Z := [0; 0; 0; 0; 1; 0; 0; 1; 1; 2; 3; 4].
Definition identity_data : list mpfr_t :=
  identity_values ++ replicate (1000 - 12) 0.
Definition identity_args (strategy : Z) : mtimes_args :=
  {| arg_C := range 1 4; arg_A := range 5 8; arg_B := range 9 12;
     arg_prec := 53; arg_rnd := MPFR_RNDN; arg_M := 2;
     arg_strategy := strategy |}.
Definition identity_prhs (strategy : Z) : list mxArray :=
  mtimes_prhs (range 1 4) (range 5 8) (range 9 12) 2 strategy.

(** A 2 by 3 matrix in slots 1 to 6 and a scratch range in slots 7 to 12. *)
Definition matrix_values : list Z := [1; 2; 3; 4; 5; 6; 0; 0; 0; 0; 0; 0].
Definition matrix_data : list mpfr_t :=
  matrix_values ++ replicate (1000 - 12) 0.
Definition transpose_prhs (rop op : idx_t) (ropM : Z) : list mxArray :=
  [mx_string; mx_numbers [start rop; end_ rop]; mx_numbers [start op; end_ op];
   mx_numbers [0]; mx_numbers [ropM]].

(** Eleven live slots of which the first five are free. *)
Definition pool_1_5_free : pool :=
  mk_pool (replicate 11 0) [range 1 5].

(** A pool whose 1000 cells are all in use. *)
Definition busy_pool : pool :=
  {| data := Some (replicate 1000 7); data_capacity := 1000;
     data_size := 1000;
     free_list := None; free_list_capacity := 0; free_list_size := 0 |}.

(** 2001 slots of which every second one, [2], [4], ..., [2000], is free:
    the free list holds 1000 entries and its array of 1000 cells is
    full.  (Reached by 2001 calls [allocate (1)] followed by
    [mark_free] of the even slots.) *)
Definition full_free_list : list idx_t :=
  (fun k => {| start := 2 * Z.of_nat k + 2; end_ := 2 * Z.of_nat k + 2 |})
    <$> seq 0 1000.

Definition full_pool : pool :=
  {| data := Some (replicate 3000 0); data_capacity := 3000;
     data_size := 2001;
     free_list := Some full_free_list; free_list_capacity := 1000;
     free_list_size := 1000 |}.
(** The empty pool after [allocate (21)], [mark_free ([1, 5])] and
    [mark_free ([10, 20])]. *)
Definition two_free_entries : res pool :=
  '(_, _, s) ← mex_mpfr_allocate 1 (mx_block 0) 21 idx0 empty_pool;
  s ← mex_mpfr_mark_free (mx_block idx0) (range 1 5) s;
  mex_mpfr_mark_free (mx_block idx0) (range 10 20) s.

(** [allocate (count)], [mark_free] of the range it returned, and
    [allocate (count)] again: the two ranges. *)
Definition allocate_free_allocate_run (count : Z) (s : pool)
  : res (idx_t * idx_t) :=
  '(_, idx1, s1) ← mex_mpfr_allocate 1 (mx_block 0) count idx0 s;
  s2 ← mex_mpfr_mark_free (mx_block idx0) idx1 s1;
  '(_, idx2, _) ← mex_mpfr_allocate 1 (mx_block 0) count idx0 s2;
  mret (idx1, idx2).
End Examples.

(** ** The free-list invariant, as predicates on a pool *)

Section Invariant.
Context `{Mpfr}.

(** The entries of the free list: the first [free_list_size] cells. *)
Definition live (s : pool) : list idx_t :=
  match free_list s with
  | Some a => take (Z.to_nat (free_list_size s)) a
  | None => []
  end.

Definition entry_ok (size : Z) (e : idx_t) : Prop :=
  1 <= start e /\ start e <= end_ e /\ end_ e <= size.

Definition disjoint (e f : idx_t) : Prop :=
  end_ e < start f \/ end_ f < start e.

Definition adjacent (e f : idx_t) : Prop :=
  end_ e + 1 = start f \/ end_ f + 1 = start e.

Definition pairwise (R : idx_t -> idx_t -> Prop) (l : list idx_t) : Prop :=
  forall (i j : nat) e f,
    i <> j -> l !! i = Some e -> l !! j = Some f -> R e f.

(** The array behind [free_list] has [free_list_capacity] cells; before
    the first [mex_mpfr_mark_free] there is none. *)
Definition free_list_block (s : pool) : Prop :=
  0 <= free_list_size s <= free_list_capacity s /\
  free_list_capacity s < 2 ^ 64 /\
  match free_list s with
  | Some a => Z.of_nat (length a) = free_list_capacity s
  | None => free_list_capacity s = 0
  end.

(** The array behind [data] has [data_capacity] cells. *)
Definition data_block (s : pool) : Prop :=
  exists d, data s = Some d /\
            Z.of_nat (length d) = data_capacity s /\
            0 <= data_size s <= data_capacity s /\
            data_capacity s < 2 ^ 64.

(** Entries are sub-ranges of [1, size] and do not overlap. *)
Definition free_list_inv (s : pool) : Prop :=
  Forall (entry_ok (data_size s)) (live s) /\ pairwise disjoint (live s).

(** [s'] differs from [s] in the free-list array and its size at most. *)
Definition same_data (s s' : pool) : Prop :=
  data s' = data s /\ data_capacity s' = data_capacity s /\
  data_size s' = data_size s /\ free_list_capacity s' = free_list_capacity s.

(** [s'] has the arrays and capacities of [s]; the two sizes have not
    grown. *)
Definition shrunk (s s' : pool) : Prop :=
  data s' = data s /\ data_capacity s' = data_capacity s /\
  free_list_capacity s' = free_list_capacity s /\
  data_size s' <= data_size s /\ free_list_size s' <= free_list_size s.

(** The invariant of the pool that the allocator maintains. *)
Definition pool_inv (s : pool) : Prop :=
  free_list_block s /\ 0 <= data_size s < 2 ^ 64 /\ free_list_inv s.

(** [idx] is a valid range of the pool and spans [count] slots. *)
Definition valid_of_length (count : Z) (idx : idx_t) (s : pool) : Prop :=
  is_valid idx s = true /\
  (1 <= start idx /\ start idx <= end_ idx /\ end_ idx <= data_size s) /\
  Range.length idx = count /\
  end_ idx - start idx + 1 = count.

(** The array behind [data] has [data_capacity] cells; before the first
    [mex_mpfr_allocate] there is none. *)
Definition data_array (s : pool) : Prop :=
  0 <= data_size s <= data_capacity s /\ data_capacity s < 2 ^ 64 /\
  match data s with
  | Some d => Z.of_nat (length d) = data_capacity s
  | None => data_capacity s = 0
  end.

(** [mex_mpfr_mark_free] finds two cells after the entries of the free
    list, or none and then the memory manager extends the array. *)
Definition room_to_free (o : mx_alloc idx_t) (s : pool) : Prop :=
  free_list_size s + 1 < free_list_capacity s \/
  (free_list_size s = free_list_capacity s /\ o <> mx_null /\
   free_list_capacity s + DATA_CHUNK_SIZE < 2 ^ 64).

(** Entry [k] is the first of [count] slots or more (the entry first fit
    takes), it has exactly [count] slots, and entry [j] behind it is the
    next of [count] slots or more. *)
Definition exact_fit_then_later_fit (count : Z) (l : list idx_t)
    (k j : nat) (fk fj : idx_t) : Prop :=
  l !! k = Some fk /\ Range.length fk = count /\
  (forall (k' : nat) f', (k' < k)%nat -> l !! k' = Some f' ->
                         Range.length f' < count) /\
  (k < j)%nat /\ l !! j = Some fj /\ count <= Range.length fj /\
  (forall (j' : nat) f', (k < j' < j)%nat -> l !! j' = Some f' ->
                         Range.length f' < count).

(** [P] holds of the result of a call that returns. *)
Definition returns {A : Type} (r : res A) (P : A -> Prop) : Prop :=
  match r with Ok a => P a | Err _ => False end.

(** What compaction establishes. *)
Definition compacted (s : pool) : Prop :=
  Forall (fun e => end_ e <> data_size s) (live s) /\
  pairwise (fun e f => ~ adjacent e f) (live s).

(** The pools that calls of [mex_mpfr_allocate] and [mex_mpfr_mark_free]
    reach from the initial one, when every request of memory is granted,
    the pool stays below [2^64] slots, and only ranges that overlap no
    free entry are freed. *)
Inductive reachable : pool -> Prop :=
  | reachable_initial : reachable initial_pool
  | reachable_allocate s fuel o count idx r idx' s' :
      reachable s -> 0 <= count -> data_size s + count < 2 ^ 64 ->
      mex_mpfr_allocate fuel o count idx s = Ok (r, idx', s') -> r <> 0 ->
      reachable s'
  | reachable_mark_free s o idx s' :
      reachable s -> is_valid idx s = true ->
      (forall e, e ∈ live s -> disjoint idx e) ->
      free_list_capacity s + DATA_CHUNK_SIZE < 2 ^ 64 ->
      mex_mpfr_mark_free o idx s = Ok s' -> free_list s' <> None ->
      reachable s'.
End Invariant.

(** ** Slots and the free list *)

Section Slots.
Context `{Mpfr}.

(** Slot [p] (1-based) lies in the range [idx]. *)
Definition in_range (idx : idx_t) (p : Z) : Prop := start idx <= p <= end_ idx.

(** Slot [p] lies in an entry of the free list. *)
Definition free_slot (s : pool) (p : Z) : Prop :=
  exists e, e ∈ live s /\ in_range e p.

(** [mpfr_tidy_up]: [mpfr_clear (&data[i])] for every [i < data_size],
    which reads the cell; then both arrays are released and the globals
    are as the program initialises them. *)
Definition mpfr_tidy_up (s : pool) : res pool :=
  _ ← for_ (data_size s)
        (fun i (_ : unit) => d ← deref (data s); _ ← load d i; mret tt) tt;
  mret initial_pool.
End Slots.

(** ** Rounding modes on the way out *)

(** The [double] that the literal of an integer denotes. *)
Definition double_lit (z : Z) : spec_float := binary_normalize 53 1024 z 0 false.

(** [export_rounding_mode].  The [default] branch of the [switch] is for
    values of the C enumeration other than these five, of which
    [mpfr_rnd_t] has none. *)
Definition export_rounding_mode (rnd : mpfr_rnd_t) : spec_float :=
  match rnd with
  | MPFR_RNDD => double_lit (-1)
  | MPFR_RNDN => double_lit 0
  | MPFR_RNDU => double_lit 1
  | MPFR_RNDZ => double_lit 2
  | MPFR_RNDA => double_lit 3
  end.

(** [mxCreateDoubleScalar (d)] *)
Definition mxCreateDoubleScalar (d : spec_float) : mxArray :=
  {| mx_numeric := true; mx_pr := [d] |}.

(** ** Small pools *)

Module SmallPools.
Import ExactInt.

(** Twelve cells that hold 1 to 12, of which the first [size] are in use;
    the free list holds [entries] in an array of eight cells. *)
Definition small_pool (size : Z) (entries : list idx_t) : pool :=
  {| data := Some (seqZ 1 12); data_capacity := 12; data_size := size;
     free_list := Some (entries ++ replicate (8 - length entries) Examples.idx0);
     free_list_capacity := 8;
     free_list_size := Z.of_nat (length entries) |}.

(** Eleven slots in use; three free entries of which two are adjacent and
    one ends at the last slot. *)
Definition fragmented : pool :=
  small_pool 11 [Examples.range 1 3; Examples.range 7 11; Examples.range 4 5].

(** Eleven slots in use; two free entries of three slots each. *)
Definition compact : pool :=
  small_pool 11 [Examples.range 1 3; Examples.range 7 9].

(** [compact] after [mex_mpfr_allocate (4)] has extended the array. *)
Definition grown : pool :=
  {| data := Some (seqZ 1 12 ++ replicate 1000 0); data_capacity := 1012;
     data_size := 15;
     free_list := free_list compact; free_list_capacity := 8;
     free_list_size := 2 |}.

Definition small_mex (s : pool) : mex :=
  {| mex_pool := s; throw_error := false; plhs0 := None |}.

(** Twelve slots in use and no free entry, after the two by three matrix
    in slots 1 to 6 has been transposed into slots 7 to 12. *)
Definition after_transpose : mex :=
  {| mex_pool := set_data (Some [1; 2; 3; 4; 5; 6; 1; 3; 5; 2; 4; 6])
                   (small_pool 12 []);
     throw_error := false;
     plhs0 := Some [0; 0; 0; 0; 0; 0] |}.
End SmallPools.

(** ** The multiplication statement by statement

    The loops of [mpfr_apa_mmm] run two statements: the fused
    multiply-add of the innermost loop,
    [ret |= mpfr_fma (C + (M * j) + i, B + k + (K * j), A + i + (M * k),
                      C + (M * j) + i, rnd)],
    and, after the loop over [k], the store of the status,
    [ret_ptr[((M * j) + i) * ret_stride] = (double) ret]. *)
Inductive mmm_stmt : Type :=
  | Fma (i j k : Z)
  | Ret (i j : Z).

(** The entry of [C] a statement belongs to, and its place in the body
    of the two outer loops: the multiply-adds for [k = 0 .. K-1], then
    the store. *)
Definition stmt_entry (x : mmm_stmt) : Z * Z :=
  match x with Fma i j _ => (i, j) | Ret i j => (i, j) end.
Definition stmt_step (K : Z) (x : mmm_stmt) : Z :=
  match x with Fma _ _ k => k | Ret _ _ => K end.

(** The statements of the body for [C[i,j]], as the text has them. *)
Definition mmm_body (K : Z) (ij : Z * Z) : list mmm_stmt :=
  (Fma ij.1 ij.2 <$> seqZ 0 K) ++ [Ret ij.1 ij.2].

(** The order of the statements in the loops [i], [j], [k] and in the
    loops [j], [i], [k]. *)
Definition before_ijk (K : Z) (x y : mmm_stmt) : Prop :=
  (stmt_entry x).1 < (stmt_entry y).1 \/
  ((stmt_entry x).1 = (stmt_entry y).1 /\
   ((stmt_entry x).2 < (stmt_entry y).2 \/
    ((stmt_entry x).2 = (stmt_entry y).2 /\ stmt_step K x < stmt_step K y))).
Definition before_jik (K : Z) (x y : mmm_stmt) : Prop :=
  (stmt_entry x).2 < (stmt_entry y).2 \/
  ((stmt_entry x).2 = (stmt_entry y).2 /\
   ((stmt_entry x).1 < (stmt_entry y).1 \/
    ((stmt_entry x).1 = (stmt_entry y).1 /\ stmt_step K x < stmt_step K y))).

(** Strategies 3 to 6 put [#pragma omp parallel for] before the outer
    loop (3: loops [i], [j]; 4: loops [j], [i]) or before both outer loops
    (5 and 6).  The iterations of such a loop are shared out among the
    threads of a team; what the program fixes is the order of the
    statements inside one iteration.  [omp_order strategy x y]: when [x]
    and [y] belong to the same iteration of the parallel loops, [x] comes
    before [y]. *)
Definition omp_order (K : Z) (strategy : Z) (x y : mmm_stmt) : Prop :=
  match strategy with
  | 3 => (stmt_entry x).1 = (stmt_entry y).1 -> before_ijk K x y
  | 4 => (stmt_entry x).2 = (stmt_entry y).2 -> before_jik K x y
  | 5 | 6 => stmt_entry x = stmt_entry y -> stmt_step K x < stmt_step K y
  | _ => False
  end.

(** A run under OpenMP: every statement of the loops once, in an order
    that keeps each iteration's own order. *)
Definition omp_schedule (strategy M N K : Z) (sched : list mmm_stmt) : Prop :=
  sched ≡ₚ (order_ij M N ≫= mmm_body K) /\
  StronglySorted (omp_order K strategy) sched.

(** Entries of [C] that belong to different iterations of the parallel
    loops of a strategy. *)
Definition concurrent (strategy : Z) (e e' : Z * Z) : Prop :=
  match strategy with
  | 3 => e.1 <> e'.1
  | 4 => e.2 <> e'.2
  | 5 | 6 => e <> e'
  | _ => True
  end.

(** Entries that strategy 1 and strategy 2 compute in different order. *)
Definition crossing (e e' : Z * Z) : Prop :=
  (e.1 < e'.1 /\ e'.2 < e.2) \/ (e'.1 < e.1 /\ e.2 < e'.2).

(** No cell [C[i,j]] is an operand ([A[i',k]] or [B[k,j']]) of an entry
    [C[i',j']] that stands in the relation [rel] to it. *)
Definition conflict_free (C A B M N K : Z) (rel : Z * Z -> Z * Z -> Prop) : Prop :=
  forall e e' k,
    in_matrix M N e -> in_matrix M N e' -> 0 <= k < K -> rel e e' ->
    C + M * e.2 + e.1 <> A + e'.1 + M * k /\
    C + M * e.2 + e.1 <> B + k + K * e'.2.

Section Statements.
Context `{Mpfr}.
Variables (C A B : Z) (rnd : mpfr_rnd_t) (M N K : Z).

(** The place of the variable [ret] of the body for [C[i,j]] among the
    variables [ret] of all bodies. *)
Definition epos (ij : Z * Z) : nat := Z.to_nat (M * ij.2 + ij.1).

(** One statement.  The state is the data array, the status array and the
    variables [ret], one for each entry; the pointer arithmetic is that
    of [mmm_fma] and [mmm_entry]. *)
Definition mmm_stmt_run (ret_stride : Z) (x : mmm_stmt)
    (s : list mpfr_t * list Z * list Z) : res (list mpfr_t * list Z * list Z) :=
  match x with
  | Fma i j k =>
      r ← mmm_fma C A B rnd M K i j k (s.1.1, default 0 (s.2 !! epos (i, j)));
      mret (r.1, s.1.2, <[epos (i, j) := r.2]> s.2)
  | Ret i j =>
      ret_ptr ← store s.1.2 (wrap (wrap (wrap (M * j) + i) * ret_stride))
                  (default 0 (s.2 !! epos (i, j)));
      mret (s.1.1, ret_ptr, s.2)
  end.

(** [mpfr_apa_mmm] with strategy 3, 4, 5 or 6, for the order [sched] in
    which the statements of the threads happen to run.  A statement is
    one step: a fused multiply-add with its [ret |=], or a store of a
    status.  Each body has its own variable [ret], and every
    [int ret = 0] is done at the start.  Which orders can occur is
    [omp_schedule]. *)
Definition mpfr_apa_mmm_omp (sched : list mmm_stmt) (d : list mpfr_t)
    (ret_ptr : list Z) (ret_stride : Z) : res (list mpfr_t * list Z) :=
  r ← foldM (mmm_stmt_run ret_stride) sched
        (d, ret_ptr, replicate (Z.to_nat (M * N)) 0);
  mret r.1.

(** What a statement does when its accesses are inside the arrays (lemma
    [run_effect]). *)
Definition stmt_effect (ret_stride : Z) (s : list mpfr_t * list Z * list Z)
    (x : mmm_stmt) : list mpfr_t * list Z * list Z :=
  match x with
  | Fma i j k =>
      let c := C + M * j + i in
      let f := mpfr_fma (cell s.1.1 c) (cell s.1.1 (B + k + K * j))
                 (cell s.1.1 (A + i + M * k)) (cell s.1.1 c) rnd in
      (<[Z.to_nat c := f.1]> s.1.1, s.1.2,
       <[epos (i, j) := Z.lor (default 0 (s.2 !! epos (i, j))) f.2]> s.2)
  | Ret i j =>
      (s.1.1,
       <[Z.to_nat ((M * j + i) * ret_stride) := default 0 (s.2 !! epos (i, j))]>
         s.1.2,
       s.2)
  end.

(** The operands lie inside the data array. *)
Record mmm_bounds (d : list mpfr_t) : Prop := {
  bounds_M : 0 <= M;
  bounds_N : 0 <= N;
  bounds_K : 0 <= K;
  bounds_len : Z.of_nat (length d) < 2 ^ 64;
  bounds_C : 0 <= C /\ C + M * N <= Z.of_nat (length d);
  bounds_A : 0 <= A /\ A + M * K <= Z.of_nat (length d);
  bounds_B : 0 <= B /\ B + K * N <= Z.of_nat (length d)
}.

(** The cells the two entries write are no operands of each other. *)
Definition apart (e e' : Z * Z) : Prop :=
  forall k, 0 <= k < K ->
    C + M * e.2 + e.1 <> A + e'.1 + M * k /\
    C + M * e.2 + e.1 <> B + k + K * e'.2 /\
    C + M * e'.2 + e'.1 <> A + e.1 + M * k /\
    C + M * e'.2 + e'.1 <> B + k + K * e.2.

(** A statement of the loops. *)
Definition stmt_in (x : mmm_stmt) : Prop :=
  in_matrix M N (stmt_entry x) /\
  match x with Fma _ _ k => 0 <= k < K | Ret _ _ => True end.

(** The entries whose status is stored, in the order of the stores. *)
Definition stored (l : list mmm_stmt) : list (Z * Z) :=
  omap (fun x => match x with Ret i j => Some (i, j) | Fma _ _ _ => None end) l.
End Statements.

(** ** Calls of the two commands *)

(** A product in place: [C] and [A] are the same 3 by 2 range (slots 1 to
    6), [B] is 2 by 2 (slots 7 to 10). *)
Module InPlace.
Import ExactInt.
Definition values : list Z := [1; 2; 3; 4; 5; 6; 1; 1; 0; 1].
Definition data : list mpfr_t := values ++ replicate (1000 - 10) 0.
Definition args (strategy : Z) : mtimes_args :=
  {| arg_C := Examples.range 1 6; arg_A := Examples.range 1 6;
     arg_B := Examples.range 7 10;
     arg_prec := 53; arg_rnd := MPFR_RNDN; arg_M := 3;
     arg_strategy := strategy |}.
Definition prhs (strategy : Z) : list mxArray :=
  Examples.mtimes_prhs (Examples.range 1 6) (Examples.range 1 6)
    (Examples.range 7 10) 3 strategy.
End InPlace.

(** A two by three matrix in slots 1 to 6 and two scratch ranges, slots 7
    to 12 and 13 to 18. *)
Module ThreeRanges.
Import ExactInt.
Definition values : list Z :=
  [1; 2; 3; 4; 5; 6; 0; 0; 0; 0; 0; 0; 9; 9; 9; 9; 9; 9].
Definition data : list mpfr_t := values ++ replicate (1000 - 18) 0.
End ThreeRanges.

(** * Properties *)

(** ** Machine integers and array cells *)

Lemma wrap_small z : 0 <= z < 2 ^ 64 -> wrap z = z.
Proof. intros. unfold wrap. by apply Z.mod_small. Qed.

Lemma wrap_range z : 0 <= wrap z < 2 ^ 64.
Proof. unfold wrap. apply Z.mod_pos_bound. lia. Qed.

Lemma wrap_wrap_add a b : wrap (wrap a + b) = wrap (a + b).
Proof. unfold wrap. by rewrite Zplus_mod_idemp_l. Qed.

Lemma wrap_wrap_sub a b : wrap (wrap a - b) = wrap (a - b).
Proof. unfold wrap. by rewrite Zminus_mod_idemp_l. Qed.

Lemma wrap_over z : 2 ^ 64 <= z < 2 * 2 ^ 64 -> wrap z = z - 2 ^ 64.
Proof.
  intros. unfold wrap.
  replace z with (z - 2 ^ 64 + 1 * 2 ^ 64) at 1 by lia.
  rewrite Z_mod_plus_full. apply Z.mod_small. lia.
Qed.

Lemma load_Ok {A} (a : list A) (i : nat) x :
  a !! i = Some x -> load a (Z.of_nat i) = Ok x.
Proof.
  intros Hx. unfold load.
  destruct (Z.ltb_spec (Z.of_nat i) 0); [lia|].
  by rewrite Nat2Z.id, Hx.
Qed.

Lemma load_inv {A} (a : list A) (i : Z) x :
  load a i = Ok x -> 0 <= i /\ a !! Z.to_nat i = Some x.
Proof.
  unfold load. destruct (Z.ltb_spec i 0); [done|].
  destruct (a !! Z.to_nat i) eqn:E; [|done]. intros [= ->]. split; [lia|done].
Qed.

Lemma load_oob {A} (a : list A) (i : nat) :
  (length a <= i)%nat -> load a (Z.of_nat i) = Err OutOfBounds.
Proof.
  intros Hi. unfold load.
  destruct (Z.ltb_spec (Z.of_nat i) 0); [done|].
  rewrite Nat2Z.id. by rewrite (lookup_ge_None_2 a i).
Qed.

Lemma store_Ok {A} (a : list A) (i : nat) x :
  (i < length a)%nat -> store a (Z.of_nat i) x = Ok (<[i := x]> a).
Proof.
  intros Hi. unfold store.
  destruct (Z.leb_spec 0 (Z.of_nat i)); [|lia].
  destruct (Z.ltb_spec (Z.of_nat i) (Z.of_nat (length a))); [|lia].
  simpl. by rewrite Nat2Z.id.
Qed.

Lemma store_inv {A} (a a' : list A) (i : Z) x :
  store a i x = Ok a' ->
  0 <= i /\ (Z.to_nat i < length a)%nat /\ a' = <[Z.to_nat i := x]> a.
Proof.
  unfold store.
  destruct (Z.leb_spec 0 i); [|done].
  destruct (Z.ltb_spec i (Z.of_nat (length a))); [|done].
  simpl. intros [= <-]. repeat split; [done|lia].
Qed.

(** ** [free_list_remove] *)

Section FreeListRemove.
Context `{Mpfr}.

Lemma fl_get_Ok (s : pool) a (i : nat) e :
  free_list s = Some a -> a !! i = Some e -> fl_get s (Z.of_nat i) = Ok e.
Proof. intros Ha He. unfold fl_get. rewrite Ha. simpl. by apply load_Ok. Qed.

Lemma fl_get_inv (s : pool) (i : Z) e :
  fl_get s i = Ok e ->
  exists a, free_list s = Some a /\ 0 <= i /\ a !! Z.to_nat i = Some e.
Proof.
  unfold fl_get. destruct (free_list s) as [a|]; [|done]. simpl.
  intros Hl. exists a. split; [done|]. by apply load_inv.
Qed.

Lemma fl_put_Ok (s : pool) a (i : nat) e :
  free_list s = Some a -> (i < length a)%nat ->
  fl_put s (Z.of_nat i) e = Ok (set_free_list (Some (<[i := e]> a)) s).
Proof.
  intros Ha Hi. unfold fl_put. rewrite Ha. simpl.
  by rewrite store_Ok.
Qed.

(** The loop moves cells [i + 1 .. i + k] one place down; it needs cell
    [i + k] to exist. *)
Lemma free_list_remove_loop_Ok (k i : nat) (s : pool) a :
  free_list s = Some a -> (i + k < length a)%nat ->
  exists a', free_list_remove_loop k (Z.of_nat i) s
             = Ok (set_free_list (Some a') s) /\
    length a' = length a /\
    forall p : nat,
      a' !! p = if decide (i <= p < i + k)%nat then a !! S p else a !! p.
Proof.
  revert i s a. induction k as [|k IH]; intros i s a Ha Hlen.
  - exists a. split; [|split; [done|]].
    + simpl. destruct s; simpl in *. by subst.
    + intros p. case_decide; [lia|done].
  - destruct (lookup_lt_is_Some_2 a (S i)) as [e He]; [lia|].
    simpl. replace (Z.of_nat i + 1) with (Z.of_nat (S i)) by lia.
    rewrite (fl_get_Ok s a (S i) e Ha He). simpl.
    rewrite (fl_put_Ok s a i e Ha) by lia. simpl.
    destruct (IH (S i) (set_free_list (Some (<[i:=e]> a)) s) (<[i:=e]> a))
      as (a' & Hrun & Hl & Hlook); [done|rewrite length_insert; lia|].
    exists a'. split; [|split].
    + rewrite Hrun. done.
    + by rewrite Hl, length_insert.
    + intros p. rewrite Hlook.
      destruct (decide (p = i)) as [->|Hne].
      * rewrite decide_False by lia. rewrite decide_True by lia.
        rewrite list_lookup_insert_eq by lia. done.
      * repeat case_decide; try lia; by rewrite list_lookup_insert_ne by lia.
Qed.

(** The same loop on an array that ends with the last live entry: the
    last turn reads one cell past the end. *)
Lemma free_list_remove_loop_oob (k i : nat) (s : pool) a :
  free_list s = Some a -> (0 < k)%nat -> (i + k = length a)%nat ->
  free_list_remove_loop k (Z.of_nat i) s = Err OutOfBounds.
Proof.
  revert i s a. induction k as [|k IH]; intros i s a Ha Hk Hlen; [lia|].
  simpl. replace (Z.of_nat i + 1) with (Z.of_nat (S i)) by lia.
  destruct (decide (k = 0%nat)) as [->|Hk0].
  - unfold fl_get. rewrite Ha. simpl. rewrite load_oob by lia. done.
  - destruct (lookup_lt_is_Some_2 a (S i)) as [e He]; [lia|].
    rewrite (fl_get_Ok s a (S i) e Ha He). simpl.
    rewrite (fl_put_Ok s a i e Ha) by lia. simpl.
    apply (IH (S i) _ (<[i:=e]> a)); [done|lia|rewrite length_insert; lia].
Qed.

(** With a spare cell after the live entries, [free_list_remove] leaves
    the live entries with entry [i] deleted. *)
Lemma free_list_remove_Ok (i : nat) (s : pool) a :
  free_list s = Some a ->
  (i < Z.to_nat (free_list_size s))%nat ->
  (Z.to_nat (free_list_size s) < length a)%nat ->
  free_list_size s < 2 ^ 64 ->
  exists a',
    free_list_remove (Z.of_nat i) s
    = Ok (set_free_list_size (free_list_size s - 1) (set_free_list (Some a') s)) /\
    length a' = length a /\
    take (Z.to_nat (free_list_size s - 1)) a'
    = delete i (take (Z.to_nat (free_list_size s)) a) /\
    a' !! Z.to_nat (free_list_size s - 1)
    = a !! Z.to_nat (free_list_size s).
Proof.
  intros Ha Hi Hn Hb. unfold free_list_remove.
  destruct (free_list_remove_loop_Ok (Z.to_nat (free_list_size s - Z.of_nat i))
              i s a Ha) as (a' & Hrun & Hl & Hlook); [lia|].
  exists a'. rewrite Hrun. simpl. rewrite wrap_small by lia.
  split; [done|]. split; [done|]. split.
  - apply list_eq. intros p.
    destruct (decide (p < Z.to_nat (free_list_size s - 1))%nat).
    + rewrite lookup_take_lt by done. rewrite Hlook.
      destruct (decide (p < i)%nat).
      * rewrite decide_False by lia.
        rewrite list_lookup_delete_lt by done.
        by rewrite lookup_take_lt by lia.
      * rewrite decide_True by lia.
        rewrite list_lookup_delete_ge by lia.
        by rewrite lookup_take_lt by lia.
    + rewrite lookup_take_ge by lia. symmetry.
      apply lookup_ge_None_2. rewrite length_delete.
      * rewrite length_take. lia.
      * apply lookup_lt_is_Some_2. rewrite length_take. lia.
  - rewrite Hlook. rewrite decide_True by lia. f_equal. lia.
Qed.

Lemma free_list_remove_oob (i : nat) (s : pool) a :
  free_list s = Some a ->
  (i < Z.to_nat (free_list_size s))%nat ->
  Z.to_nat (free_list_size s) = length a ->
  free_list_remove (Z.of_nat i) s = Err OutOfBounds.
Proof.
  intros Ha Hi Hn. unfold free_list_remove.
  rewrite (free_list_remove_loop_oob _ i s a Ha); [done|lia|lia].
Qed.
End FreeListRemove.

(** C8 (the code departs from the claim).  The claim: [free_list_remove (i)]
    on a list of [n] entries touches only cells below [n].  The loop runs
    while [i < free_list_size] and reads cell [i + 1], so its last turn
    reads cell [n].  On a pool whose free-list array is full (1000 entries
    in 1000 cells) that read is outside the array, both when the function
    is called directly and when [mex_mpfr_allocate] reaches it through an
    exact fit. *)
Theorem free_list_remove_reads_cell_n :
  free_list_remove 0 Examples.full_pool = Err OutOfBounds /\
  mex_mpfr_allocate (H := ExactInt.mpfr) 0 (mx_block 0) 1
    Examples.idx0 Examples.full_pool
  = Err OutOfBounds.
Proof. split; vm_compute; reflexivity. Qed.

(** ** [mex_mpfr_allocate] returns valid ranges of the requested length *)

Section AllocateRange.
Context `{Mpfr}.

Lemma reuse_end (st count : Z) :
  0 < count < 2 ^ 64 -> 1 <= st ->
  st <= wrap (wrap (st + count) - 1) ->
  wrap (wrap (st + count) - 1) = st + count - 1.
Proof.
  intros Hc Hst. rewrite wrap_wrap_sub. intros Hle.
  pose proof (wrap_range (st + count - 1)) as Hr.
  destruct (Z_lt_ge_dec (st + count - 1) (2 ^ 64)).
  - apply wrap_small. lia.
  - rewrite wrap_over in Hle by lia. lia.
Qed.

Lemma fresh_end (size count : Z) :
  0 < count < 2 ^ 64 ->
  1 <= wrap (size + 1) -> wrap (size + 1) <= wrap (size + count) ->
  wrap (size + count) - wrap (size + 1) + 1 = count.
Proof.
  intros Hc. rewrite <- (wrap_wrap_add size 1), <- (wrap_wrap_add size count).
  pose proof (wrap_range size) as Hr. revert Hr.
  generalize (wrap size). intros z Hz H1 Hle.
  destruct (Z_lt_ge_dec (z + 1) (2 ^ 64)).
  - rewrite (wrap_small (z + 1)) in * by lia.
    destruct (Z_lt_ge_dec (z + count) (2 ^ 64)).
    + rewrite wrap_small by lia. lia.
    + rewrite wrap_over in Hle by lia. lia.
  - replace (z + 1) with (2 ^ 64) in H1 by lia.
    unfold wrap in H1. rewrite Z_mod_same_full in H1. lia.
Qed.

Lemma length_of_count (e : idx_t) (count : Z) :
  0 < count < 2 ^ 64 -> end_ e - start e + 1 = count -> Range.length e = count.
Proof.
  intros Hc He. unfold Range.length.
  rewrite wrap_wrap_add. rewrite He. apply wrap_small. lia.
Qed.

Lemma is_valid_true (idx : idx_t) (s : pool) :
  is_valid idx s = true <->
  1 <= start idx /\ start idx <= end_ idx /\ end_ idx <= data_size s.
Proof. unfold is_valid. rewrite !andb_true_iff, !Z.leb_le. tauto. Qed.

Lemma allocate_reuse_valid (n : nat) (i count : Z) (s : pool) r idx' s' :
  0 < count < 2 ^ 64 ->
  allocate_reuse n i count s = Ok (Some (r, idx', s')) -> r <> 0 ->
  valid_of_length count idx' s'.
Proof.
  intros Hc. revert i. induction n as [|n IH]; intros i; simpl; [done|].
  destruct (fl_get s i) as [fi|]; simpl; [|done].
  destruct (count <=? Range.length fi); [|by apply IH].
  match goal with |- (?m ≫= _) = _ -> _ => destruct m as [s1|] end;
    simpl; [|done].
  intros [= <- <- <-] Hr.
  destruct (is_valid _ s1) eqn:Hv; [|done].
  pose proof Hv as Hv'. apply is_valid_true in Hv'. simpl in Hv'.
  destruct Hv' as (H1 & H2 & H3).
  pose proof (reuse_end (start fi) count Hc H1 H2) as He.
  assert (end_ {| start := start fi; end_ := wrap (wrap (start fi + count) - 1) |}
          - start fi + 1 = count) as Hlen by (simpl; lia).
  split; [done|]. split; [simpl; lia|]. split; [|done].
  by apply length_of_count.
Qed.
End AllocateRange.

(** C6.  [mex_mpfr_allocate (count, idx)] returns 0 when [count == 0];
    whenever it returns nonzero, the range it wrote to [*idx] is valid in
    the pool it leaves ([1 <= start <= end <= data_size]) and its length
    [end - start + 1] is exactly [count].  This holds in every pool, for
    every outcome of the memory manager and with the wrap-around of
    [size_t]. *)
Theorem allocate_valid_range `{Mpfr} (fuel : nat) (o : mx_alloc mpfr_t)
    (count : Z) (idx : idx_t) (s : pool) :
  0 <= count < 2 ^ 64 ->
  (count = 0 -> mex_mpfr_allocate fuel o count idx s = Ok (0, idx, s)) /\
  (forall r idx' s',
      mex_mpfr_allocate fuel o count idx s = Ok (r, idx', s') -> r <> 0 ->
      valid_of_length count idx' s').
Proof.
  intros Hc. split.
  - intros ->. reflexivity.
  - intros r idx' s'. unfold mex_mpfr_allocate.
    destruct (Z.eqb_spec count 0) as [->|Hne].
    { intros [= <- <- <-]. done. }
    assert (0 < count < 2 ^ 64) as Hc' by lia.
    destruct (allocate_reuse _ 0 count s) as [[out|]|] eqn:Hreuse; simpl;
      [| |done].
    { intros [= ->]. by eapply allocate_reuse_valid. }
    match goal with |- (?m ≫= _) = _ -> _ => destruct m as [[sl|sr]|] end;
      simpl; [| |done].
    { intros [= <- <- <-]. done. }
    intros [= <- <- <-] Hr.
    match goal with Hr : Z.b2z (is_valid ?i ?p) <> 0 |- _ =>
      destruct (is_valid i p) eqn:Hv; [|done] end.
    pose proof Hv as Hv'. apply is_valid_true in Hv'. simpl in Hv'.
    destruct Hv' as (H1 & H2 & H3).
    pose proof (fresh_end (data_size sr) count Hc' H1 H2) as He.
    split; [done|]. split; [simpl; lia|].
    split; [|done]. by apply length_of_count.
Qed.

Lemma allocate_valid_range_witness :
  valid_of_length 5 {| start := 1; end_ := 5 |} Examples.pool_of_5.
Proof.
  apply (proj2 (allocate_valid_range (H := ExactInt.mpfr) 1 (mx_block 0) 5
                  Examples.idx0 Examples.empty_pool ltac:(lia)) 1).
  - vm_compute. reflexivity.
  - lia.
Defined.

(** ** Failure of the memory manager *)

Section GrowthFailure.
Context `{Mpfr}.

(** When [mxRealloc] fails, [data = mxRealloc (data, ...)] has already
    overwritten the pointer: the function returns 0 with [data == NULL],
    [data_capacity] and [data_size] as before. *)
Lemma allocate_realloc_failure (fuel : nat) (count : Z) (idx : idx_t)
    (s : pool) d new_capacity :
  count <> 0 ->
  allocate_reuse (Z.to_nat (free_list_size s)) 0 count s = Ok None ->
  data s = Some d ->
  wrap (data_size s + count) > data_capacity s ->
  new_capacity_loop fuel (wrap (data_size s + count)) (data_capacity s)
  = Ok new_capacity ->
  mex_mpfr_allocate fuel mx_null count idx s = Ok (0, idx, set_data None s).
Proof.
  intros Hc Hreuse Hd Hgrow Hloop. unfold mex_mpfr_allocate, allocate_extend.
  destruct (Z.eqb_spec count 0); [done|].
  rewrite Hreuse. simpl.
  destruct (Z.gtb_spec (wrap (data_size s + count)) (data_capacity s)); [|lia].
  rewrite Hloop, Hd. reflexivity.
Qed.

(** The first allocation ([data == NULL]) fails without a trace. *)
Lemma allocate_malloc_failure (fuel : nat) (count : Z) (idx : idx_t)
    (s : pool) new_capacity :
  count <> 0 ->
  allocate_reuse (Z.to_nat (free_list_size s)) 0 count s = Ok None ->
  data s = None ->
  wrap (data_size s + count) > data_capacity s ->
  new_capacity_loop fuel (wrap (data_size s + count)) (data_capacity s)
  = Ok new_capacity ->
  mex_mpfr_allocate fuel mx_null count idx s = Ok (0, idx, s).
Proof.
  intros Hc Hreuse Hd Hgrow Hloop. unfold mex_mpfr_allocate, allocate_extend.
  destruct (Z.eqb_spec count 0); [done|].
  rewrite Hreuse. simpl.
  destruct (Z.gtb_spec (wrap (data_size s + count)) (data_capacity s)); [|lia].
  rewrite Hloop, Hd. simpl. destruct s; simpl in *. by subst.
Qed.

(** [mex_mpfr_mark_free] with a full free-list array and a failing
    [mxRealloc]: the function returns, [free_list == NULL], and
    [free_list_size] still counts the entries that were there. *)
Lemma mark_free_realloc_failure (idx : idx_t) (s : pool) a :
  is_valid idx s = true ->
  free_list s = Some a ->
  free_list_size s = free_list_capacity s ->
  mex_mpfr_mark_free mx_null idx s = Ok (set_free_list None s).
Proof.
  intros Hv Ha Hfull. unfold mex_mpfr_mark_free, mark_free_extend.
  rewrite Hv. simpl. rewrite Hfull, Z.eqb_refl, Ha. reflexivity.
Qed.
End GrowthFailure.

(** C7 (the code departs from the claim).  The claim: a failed growth
    leaves capacity, size, free-list entries and the stored values as they
    were.  In [mex_mpfr_allocate] on a pool whose 1000 cells are in use,
    a failing [mxRealloc] makes the call return 0 with [data == NULL]: the
    1000 stored values are no longer reachable while [data_size] is still
    1000.  In [mex_mpfr_mark_free] on a pool whose free-list array is full,
    a failing [mxRealloc] makes the call return (it has no way to report
    anything) with [free_list == NULL] and [free_list_size] still 1000. *)
Theorem growth_failure_drops_the_array :
  (mex_mpfr_allocate 1 mx_null 1 Examples.idx0 Examples.busy_pool
   = Ok (0, Examples.idx0, set_data None Examples.busy_pool) /\
   data Examples.busy_pool = Some (replicate 1000 7) /\
   data_size (set_data None Examples.busy_pool) = 1000) /\
  (mex_mpfr_mark_free mx_null {| start := 1; end_ := 1 |} Examples.full_pool
   = Ok (set_free_list None Examples.full_pool) /\
   free_list Examples.full_pool = Some Examples.full_free_list /\
   free_list_size (set_free_list None Examples.full_pool) = 1000).
Proof.
  split.
  - split; [|done].
    by apply (allocate_realloc_failure (H := ExactInt.mpfr) 1 1 _ _
                (replicate 1000 7) 2000).
  - split; [|done].
    by apply (mark_free_realloc_failure (H := ExactInt.mpfr) _ _
                Examples.full_free_list).
Qed.

(** ** [extract_prec] *)

Section ExtractPrec.
Context `{Mpfr}.

Lemma extract_ui_Some (idx : nat) (prhs : list mxArray) (d : spec_float) :
  extract_d idx prhs = Some d ->
  mxIsFinite d = true -> floor_eq d = true ->
  0 <= trunc d < 2 ^ 63 ->
  extract_ui idx prhs = Ok (Some (trunc d)).
Proof.
  intros Hd Hfin Hint Hr. unfold extract_ui, extract_si, double_to_int64.
  rewrite Hd, Hfin, Hint. simpl.
  destruct (Z.leb_spec (- 2 ^ 63) (trunc d)); [|lia].
  destruct (Z.ltb_spec (trunc d) (2 ^ 63)); [|lia].
  simpl. destruct (Z.geb_spec (trunc d) 0); [|lia].
  by rewrite wrap_small by lia.
Qed.

Lemma extract_ui_inv (idx : nat) (prhs : list mxArray) (ui : Z) :
  extract_ui idx prhs = Ok (Some ui) ->
  exists d, extract_d idx prhs = Some d /\
            mxIsFinite d = true /\ floor_eq d = true /\
            trunc d = ui /\ 0 <= ui < 2 ^ 63.
Proof.
  unfold extract_ui, extract_si, double_to_int64.
  destruct (extract_d idx prhs) as [d|]; [|done].
  destruct (mxIsFinite d) eqn:Hfin; [|done].
  destruct (floor_eq d) eqn:Hint; [|done]. simpl.
  destruct (Z.leb_spec (- 2 ^ 63) (trunc d)); [|done].
  destruct (Z.ltb_spec (trunc d) (2 ^ 63)); [|done].
  simpl. destruct (Z.geb_spec (trunc d) 0); [|done].
  rewrite wrap_small by lia. intros [= <-].
  exists d. repeat split; (done || lia).
Qed.
End ExtractPrec.

(** C10.  [extract_prec] returns 1 exactly when the argument is a numeric
    scalar whose value is finite and integral and lies strictly between
    [MPFR_PREC_MIN] and [MPFR_PREC_MAX]; an argument equal to either bound
    makes it return 0.  (The two constants come from [mpfr.h]; they are
    non-negative values of the signed 64-bit type [mpfr_prec_t].  The
    text of the message printed on failure is not part of the model.) *)
Theorem extract_prec_strict_bounds `{Mpfr} (idx : nat) (prhs : list mxArray) :
  0 <= MPFR_PREC_MIN < 2 ^ 63 -> 0 <= MPFR_PREC_MAX < 2 ^ 63 ->
  (forall p,
      extract_prec idx prhs = Ok (Some p) <->
      exists d, extract_d idx prhs = Some d /\
                mxIsFinite d = true /\ floor_eq d = true /\
                trunc d = p /\ MPFR_PREC_MIN < p < MPFR_PREC_MAX) /\
  (forall d, extract_d idx prhs = Some d ->
             mxIsFinite d = true -> floor_eq d = true ->
             trunc d = MPFR_PREC_MIN \/ trunc d = MPFR_PREC_MAX ->
             extract_prec idx prhs = Ok None).
Proof.
  intros Hmin Hmax.
  assert (wrap MPFR_PREC_MIN = MPFR_PREC_MIN) as Emin by (apply wrap_small; lia).
  assert (wrap MPFR_PREC_MAX = MPFR_PREC_MAX) as Emax by (apply wrap_small; lia).
  split.
  - intros p. unfold extract_prec. rewrite Emin, Emax. split.
    + destruct (extract_ui idx prhs) as [[ui|]|] eqn:Hui; simpl; [| done..].
      destruct (Z.ltb_spec MPFR_PREC_MIN ui); [|done].
      destruct (Z.ltb_spec ui MPFR_PREC_MAX); [|done].
      simpl. intros [= <-].
      destruct (extract_ui_inv _ _ _ Hui) as (d & Hd & Hfin & Hint & Ht & Hr).
      exists d. repeat split; (done || lia).
    + intros (d & Hd & Hfin & Hint & <- & Hr).
      rewrite (extract_ui_Some idx prhs d) by (done || lia). simpl.
      destruct (Z.ltb_spec MPFR_PREC_MIN (trunc d)); [|lia].
      destruct (Z.ltb_spec (trunc d) MPFR_PREC_MAX); [|lia].
      done.
  - intros d Hd Hfin Hint Hb. unfold extract_prec. rewrite Emin, Emax.
    rewrite (extract_ui_Some idx prhs d) by (done || lia). simpl.
    destruct (Z.ltb_spec MPFR_PREC_MIN (trunc d)),
             (Z.ltb_spec (trunc d) MPFR_PREC_MAX); (done || lia).
Qed.

Lemma extract_prec_strict_bounds_witness :
  extract_prec (H := ExactInt.mpfr) 1 Examples.args_prec_53 = Ok (Some 53) /\
  extract_prec (H := ExactInt.mpfr) 1 Examples.args_prec_min = Ok None /\
  extract_prec (H := ExactInt.mpfr) 1 Examples.args_prec_max = Ok None.
Proof.
  split; [|split].
  - apply (proj1 (extract_prec_strict_bounds (H := ExactInt.mpfr) 1
                    Examples.args_prec_53 ltac:(simpl; lia) ltac:(simpl; lia))).
    exists (S754_finite false 53 0). repeat split; simpl; lia.
  - apply (proj2 (extract_prec_strict_bounds (H := ExactInt.mpfr) 1
                    Examples.args_prec_min ltac:(simpl; lia) ltac:(simpl; lia))
             (S754_finite false 1 0)); try reflexivity.
    left. reflexivity.
  - apply (proj2 (extract_prec_strict_bounds (H := ExactInt.mpfr) 1
                    Examples.args_prec_max ltac:(simpl; lia) ltac:(simpl; lia))
             (S754_finite false (2 ^ 63 - 257) 0)); try reflexivity.
    right. reflexivity.
Defined.

(** ** Loops *)

Lemma for_loop_foldM {S : Type} (n : nat) (i : Z) (body : Z -> S -> res S) (s : S) :
  for_loop n i body s = foldM body (seqZ i (Z.of_nat n)) s.
Proof.
  revert i s. induction n as [|n IH]; intros i s.
  - done.
  - rewrite seqZ_cons by lia. simpl.
    destruct (body i s) as [s'|]; simpl; [|done].
    rewrite IH. do 2 f_equal; lia.
Qed.

Lemma for_foldM {S : Type} (bound : Z) (body : Z -> S -> res S) (s : S) :
  for_ bound body s = foldM body (seqZ 0 bound) s.
Proof.
  unfold for_. rewrite for_loop_foldM.
  destruct (Z_le_gt_dec 0 bound).
  - by rewrite Z2Nat.id.
  - replace (Z.to_nat bound) with 0%nat by lia.
    simpl. by rewrite (seqZ_nil 0 bound) by lia.
Qed.

Lemma foldM_app {A S : Type} (body : A -> S -> res S) (l1 l2 : list A) (s : S) :
  foldM body (l1 ++ l2) s = s' ← foldM body l1 s; foldM body l2 s'.
Proof.
  revert s. induction l1 as [|x l1 IH]; intros s; simpl; [done|].
  destruct (body x s); simpl; [apply IH|done].
Qed.

Lemma foldM_fmap {A B S : Type} (f : A -> B) (body : B -> S -> res S)
    (l : list A) (s : S) :
  foldM body (f <$> l) s = foldM (fun a => body (f a)) l s.
Proof.
  revert s. induction l as [|a l IH]; intros s; [done|].
  rewrite fmap_cons. simpl. destruct (body (f a) s); simpl; [apply IH|done].
Qed.

(** Two nested loops run their body on the pairs of counters, the outer
    counter varying slowest. *)
Lemma foldM_nested {A B X S : Type} (mk : A -> B -> X) (body : X -> S -> res S)
    (la : list A) (lb : list B) (s : S) :
  foldM (fun a => foldM (fun b => body (mk a b)) lb) la s
  = foldM body (a ← la; (mk a <$> lb)) s.
Proof.
  revert s. induction la as [|a la IH]; intros s; simpl; [done|].
  rewrite foldM_app, foldM_fmap. simpl.
  destruct (foldM _ lb s); simpl; [apply IH|done].
Qed.

Lemma foldM_ext {A S : Type} (f g : A -> S -> res S) (l : list A) (s : S) :
  (forall x s', f x s' = g x s') -> foldM f l s = foldM g l s.
Proof.
  intros Hfg. revert s. induction l as [|x l IH]; intros s; simpl; [done|].
  rewrite Hfg. destruct (g x s); simpl; [apply IH|done].
Qed.

(** ** Cells of the data array *)

Section CellLemmas.
Context `{Mpfr}.

Lemma load_cell (d : list mpfr_t) (p : Z) :
  0 <= p < Z.of_nat (length d) -> load d p = Ok (cell d p).
Proof.
  intros Hp. unfold load, cell.
  destruct (Z.ltb_spec p 0); [lia|].
  destruct (lookup_lt_is_Some_2 d (Z.to_nat p)) as [x Hx]; [lia|].
  by rewrite Hx.
Qed.

Lemma store_cell {A} (d : list A) (p : Z) (x : A) :
  0 <= p < Z.of_nat (length d) -> store d p x = Ok (<[Z.to_nat p := x]> d).
Proof.
  intros Hp. unfold store.
  destruct (Z.leb_spec 0 p); [|lia].
  destruct (Z.ltb_spec p (Z.of_nat (length d))); [|lia]. done.
Qed.

Lemma cell_insert (d : list mpfr_t) (c p : Z) (x : mpfr_t) :
  0 <= c < Z.of_nat (length d) -> 0 <= p ->
  cell (<[Z.to_nat c := x]> d) p = if decide (p = c) then x else cell d p.
Proof.
  intros Hc Hp. unfold cell. case_decide as Hpc.
  - subst. rewrite list_lookup_insert_eq by lia. done.
  - rewrite list_lookup_insert_ne by lia. done.
Qed.

Lemma cell_ext (d d' : list mpfr_t) :
  length d = length d' ->
  (forall p, 0 <= p < Z.of_nat (length d) -> cell d p = cell d' p) ->
  d = d'.
Proof.
  intros Hl Hc. apply list_eq. intros n.
  destruct (decide (n < length d)%nat) as [Hn|Hn].
  - specialize (Hc (Z.of_nat n) ltac:(lia)). unfold cell in Hc.
    rewrite Nat2Z.id in Hc.
    destruct (lookup_lt_is_Some_2 d n Hn) as [x Hx].
    destruct (lookup_lt_is_Some_2 d' n ltac:(lia)) as [x' Hx'].
    rewrite Hx, Hx' in *. simpl in Hc. by subst.
  - rewrite !lookup_ge_None_2 by lia. done.
Qed.
End CellLemmas.

(** ** Arrays after a sequence of writes *)

Lemma writes_cons {X Y : Type} (pos : X -> nat) (v : X -> Y) (x : X)
    (l : list X) (a : list Y) :
  writes pos v (x :: l) a = writes pos v l (<[pos x := v x]> a).
Proof. reflexivity. Qed.

Lemma writes_length {X Y : Type} (pos : X -> nat) (v : X -> Y) (l : list X)
    (a : list Y) :
  length (writes pos v l a) = length a.
Proof.
  revert a. induction l as [|x l IH]; intros a; [done|].
  rewrite writes_cons, IH. apply length_insert.
Qed.

Lemma writes_lookup_other {X Y : Type} (pos : X -> nat) (v : X -> Y)
    (l : list X) (a : list Y) (n : nat) :
  (forall x, x ∈ l -> pos x <> n) -> writes pos v l a !! n = a !! n.
Proof.
  revert a. induction l as [|x l IH]; intros a Hn; [done|].
  rewrite writes_cons, IH.
  - apply list_lookup_insert_ne. apply Hn, list_elem_of_here.
  - intros y Hy. by apply Hn, list_elem_of_further.
Qed.

Lemma writes_lookup_at {X Y : Type} (pos : X -> nat) (v : X -> Y)
    (l : list X) (a : list Y) (x : X) :
  x ∈ l ->
  (forall y, y ∈ l -> pos y = pos x -> v y = v x) ->
  (pos x < length a)%nat ->
  writes pos v l a !! pos x = Some (v x).
Proof.
  revert x a. induction l as [|y l IH]; intros x a Hx Hv Hlen.
  - by apply not_elem_of_nil in Hx.
  - rewrite writes_cons.
    destruct (decide (Exists (fun z => pos z = pos x) l)) as [Hex|Hex].
    + apply Exists_exists in Hex as (z & Hz & Hpz).
      assert (v z = v x) as Hvz by (apply Hv; [by apply list_elem_of_further|done]).
      rewrite <- Hpz, <- Hvz.
      apply (IH z).
      * done.
      * intros w Hw Hpw. rewrite Hvz.
        apply Hv; [by apply list_elem_of_further|congruence].
      * rewrite length_insert. congruence.
    + rewrite writes_lookup_other.
      * apply elem_of_cons in Hx as [->|Hx].
        -- by apply list_lookup_insert_eq.
        -- exfalso. apply Hex, Exists_exists. eauto.
      * intros z Hz Hpz. apply Hex, Exists_exists. eauto.
Qed.

(** Two orders of the same writes give the same array, when writes to
    the same place write the same value. *)
Lemma writes_reorder {X Y : Type} (pos : X -> nat) (v : X -> Y)
    (l l' : list X) (a : list Y) :
  (forall x, x ∈ l <-> x ∈ l') ->
  (forall x y, x ∈ l -> y ∈ l -> pos x = pos y -> v x = v y) ->
  (forall x, x ∈ l -> (pos x < length a)%nat) ->
  writes pos v l a = writes pos v l' a.
Proof.
  intros Hmem Hv Hlen. apply list_eq. intros n.
  destruct (decide (Exists (fun z => pos z = n) l)) as [Hex|Hex].
  - apply Exists_exists in Hex as (z & Hz & <-).
    rewrite (writes_lookup_at pos v l a z);
      [|done|by intros y Hy Hp; apply Hv|by apply Hlen].
    rewrite (writes_lookup_at pos v l' a z);
      [done|by apply Hmem| |by apply Hlen].
    intros y Hy Hp. apply Hv; [by apply Hmem|done|done].
  - rewrite (writes_lookup_other pos v l), (writes_lookup_other pos v l').
    + done.
    + intros x Hx Hp. apply Hex, Exists_exists. exists x. split; [|done].
      by apply Hmem.
    + intros x Hx Hp. apply Hex, Exists_exists. eauto.
Qed.

(** Writes that all go to one place leave the last value there. *)
Lemma writes_same_place {X Y : Type} (n : nat) (v : X -> Y)
    (l : list X) (a : list Y) :
  writes (fun _ => n) v l a
  = match last l with Some x => <[n := v x]> a | None => a end.
Proof.
  revert a. induction l as [|x l IH]; intros a; [done|].
  rewrite writes_cons, IH, last_cons.
  destruct (last l); [|done].
  by rewrite list_insert_insert_eq.
Qed.

(** ** One entry of the product *)

Section MmmEntry.
Context `{Mpfr}.
Variables (C A B : Z) (rnd : mpfr_rnd_t) (M N K : Z).

Lemma shape_index_C d i j :
  mmm_shape d C A B M N K -> in_matrix M N (i, j) ->
  wrap (M * j) = M * j /\ 0 <= M * j + i < M * N /\
  0 <= C + M * j + i < Z.of_nat (length d).
Proof.
  intros [] [Hi Hj]. simpl in *.
  assert (0 <= M * j + i < M * N) by nia.
  split; [apply wrap_small; nia|]. split; [done|lia].
Qed.

Lemma shape_index_B d i j k :
  mmm_shape d C A B M N K -> in_matrix M N (i, j) -> 0 <= k < K ->
  wrap (K * j) = K * j /\ 0 <= k + K * j < K * N /\
  0 <= B + k + K * j < Z.of_nat (length d).
Proof.
  intros [] [Hi Hj] Hk. simpl in *.
  assert (0 <= k + K * j < K * N) by nia.
  split; [apply wrap_small; nia|]. split; [done|lia].
Qed.

Lemma shape_index_A d i j k :
  mmm_shape d C A B M N K -> in_matrix M N (i, j) -> 0 <= k < K ->
  wrap (M * k) = M * k /\ 0 <= i + M * k < M * K /\
  0 <= A + i + M * k < Z.of_nat (length d).
Proof.
  intros [] [Hi Hj] Hk. simpl in *.
  assert (0 <= i + M * k < M * K) by nia.
  split; [apply wrap_small; nia|]. split; [done|lia].
Qed.

(** One fused multiply-add, on an array that differs from [d] in the
    cell being accumulated only. *)
Lemma mmm_fma_Ok d i j k x r :
  mmm_shape d C A B M N K -> in_matrix M N (i, j) -> 0 <= k < K ->
  let c := C + M * j + i in
  let f := mpfr_fma x (cell d (B + k + K * j)) (cell d (A + i + M * k)) x rnd in
  mmm_fma C A B rnd M K i j k (<[Z.to_nat c := x]> d, r)
  = Ok (<[Z.to_nat c := f.1]> d, Z.lor r f.2).
Proof.
  intros Hs Hij Hk c f.
  destruct (shape_index_C d i j Hs Hij) as (Ew & Hc1 & Hc2).
  destruct (shape_index_B d i j k Hs Hij Hk) as (EwB & HB1 & HB2).
  destruct (shape_index_A d i j k Hs Hij Hk) as (EwA & HA1 & HA2).
  destruct Hs.
  unfold mmm_fma. cbn [fst snd].
  rewrite Ew. fold c.
  rewrite load_cell by (rewrite length_insert; lia).
  cbn [mbind res_bind]. rewrite EwB.
  rewrite load_cell by (rewrite length_insert; lia).
  cbn [mbind res_bind]. rewrite EwA.
  rewrite load_cell by (rewrite length_insert; lia).
  cbn [mbind res_bind].
  rewrite !cell_insert by lia.
  rewrite decide_True by done.
  rewrite !decide_False by (unfold c; lia).
  rewrite store_cell by (rewrite length_insert; lia).
  cbn [mbind res_bind mret res_ret].
  by rewrite list_insert_insert_eq.
Qed.

(** The loop over [k], from its [k0]-th turn on. *)
Lemma mmm_kloop d i j (n k0 : nat) :
  mmm_shape d C A B M N K -> in_matrix M N (i, j) ->
  (k0 + n <= Z.to_nat K)%nat ->
  let c := C + M * j + i in
  let acc := dot_acc d A B rnd M K i j (cell d c) in
  for_loop n (Z.of_nat k0) (mmm_fma C A B rnd M K i j)
    (<[Z.to_nat c := (acc k0).1]> d, (acc k0).2)
  = Ok (<[Z.to_nat c := (acc (k0 + n)%nat).1]> d, (acc (k0 + n)%nat).2).
Proof.
  intros Hs Hij. revert k0. induction n as [|n IH]; intros k0 Hk c acc.
  - rewrite Nat.add_0_r. done.
  - cbn [for_loop].
    rewrite (mmm_fma_Ok d i j (Z.of_nat k0)) by (done || lia).
    cbn [mbind res_bind].
    replace (Z.of_nat k0 + 1) with (Z.of_nat (S k0)) by lia.
    replace (k0 + S n)%nat with (S k0 + n)%nat by lia.
    apply (IH (S k0)). lia.
Qed.

(** The body of the outer loops writes one cell of [C] and one status. *)
Lemma mmm_entry_Ok d ret_ptr ret_stride ij :
  mmm_shape d C A B M N K -> status_shape ret_ptr ret_stride M N ->
  in_matrix M N ij ->
  mmm_entry C A B rnd M K ret_stride ij.1 ij.2 (d, ret_ptr)
  = Ok (<[cpos C M ij := (entry_after d C A B rnd M K ij.1 ij.2).1]> d,
        <[spos M ret_stride ij := (entry_after d C A B rnd M K ij.1 ij.2).2]>
          ret_ptr).
Proof.
  destruct ij as [i j]. intros Hs Hr Hij. cbn [fst snd].
  destruct (shape_index_C d i j Hs Hij) as (Ew & Hc1 & Hc2).
  unfold mmm_entry, for_. cbn [fst snd].
  pose proof (mmm_kloop d i j (Z.to_nat K) 0 Hs Hij ltac:(lia)) as Hloop.
  cbn zeta in Hloop. cbn [dot_acc fst snd] in Hloop.
  rewrite list_insert_id in Hloop.
  2:{ unfold cell. destruct (lookup_lt_is_Some_2 d (Z.to_nat (C + M * j + i)))
        as [x Hx]; [lia|]. by rewrite Hx. }
  change (Z.of_nat 0) with 0 in Hloop. rewrite Hloop.
  cbn [mbind res_bind fst snd]. rewrite Ew.
  assert (wrap (wrap (M * j + i) * ret_stride) = (M * j + i) * ret_stride
          /\ 0 <= (M * j + i) * ret_stride < Z.of_nat (length ret_ptr))
    as [Ews Hsp].
  { destruct Hs. destruct Hr as [[-> Hl]|[-> Hl]].
    - rewrite !Z.mul_0_r. split; [by apply wrap_small|lia].
    - rewrite !Z.mul_1_r. rewrite !(wrap_small (M * j + i)) by lia. lia. }
  rewrite Ews. rewrite store_cell by done. done.
Qed.
End MmmEntry.

(** ** The entries of the product in any order *)

Section MmmOrder.
Context `{Mpfr}.
Variables (C A B : Z) (rnd : mpfr_rnd_t) (M N K : Z).

Lemma mmm_shape_length d d' :
  length d = length d' -> mmm_shape d' C A B M N K -> mmm_shape d C A B M N K.
Proof. intros Hl []. split; rewrite ?Hl; done. Qed.

Lemma cpos_inj ij ij' :
  0 <= C -> in_matrix M N ij -> in_matrix M N ij' ->
  cpos C M ij = cpos C M ij' -> ij = ij'.
Proof.
  destruct ij as [i j], ij' as [i' j']. unfold cpos, in_matrix. simpl.
  intros HC [Hi Hj] [Hi' Hj'] Hp.
  assert (M * j + i = M * j' + i') as Heq by nia.
  assert (j = j') as -> by nia.
  f_equal. lia.
Qed.

Lemma spos_inj ij ij' :
  in_matrix M N ij -> in_matrix M N ij' ->
  spos M 1 ij = spos M 1 ij' -> ij = ij'.
Proof.
  destruct ij as [i j], ij' as [i' j']. unfold spos, in_matrix. simpl.
  intros [Hi Hj] [Hi' Hj'] Hp.
  assert (M * j + i = M * j' + i') as Heq by nia.
  assert (j = j') as -> by nia.
  f_equal. lia.
Qed.

(** [dot_acc] reads [d] in the ranges of [A] and [B] only. *)
Lemma dot_acc_ext d d' i j c0 (k : nat) :
  in_matrix M N (i, j) -> (k <= Z.to_nat K)%nat ->
  (forall p, A <= p < A + M * K -> cell d p = cell d' p) ->
  (forall p, B <= p < B + K * N -> cell d p = cell d' p) ->
  dot_acc d A B rnd M K i j c0 k = dot_acc d' A B rnd M K i j c0 k.
Proof.
  intros [Hi Hj] Hk HA HB. simpl in *. induction k as [|k IH]; [done|].
  cbn [dot_acc]. rewrite IH by lia.
  rewrite (HA (A + i + M * Z.of_nat k)) by nia.
  rewrite (HB (B + Z.of_nat k + K * j)) by nia.
  done.
Qed.

Lemma entry_after_ext d d' ij :
  in_matrix M N ij ->
  (forall p, A <= p < A + M * K -> cell d p = cell d' p) ->
  (forall p, B <= p < B + K * N -> cell d p = cell d' p) ->
  cell d (C + M * ij.2 + ij.1) = cell d' (C + M * ij.2 + ij.1) ->
  entry_after d C A B rnd M K ij.1 ij.2 = entry_after d' C A B rnd M K ij.1 ij.2.
Proof.
  destruct ij as [i j]. intros Hij HA HB Hc. unfold entry_after.
  rewrite Hc. by apply (dot_acc_ext d d').
Qed.

(** Entries computed one after the other, in the order of [l]: each one
    is what it would be if it were computed alone on the initial array. *)
Lemma mmm_entries_Ok d0 ret_stride (l : list (Z * Z)) :
  mmm_shape d0 C A B M N K ->
  NoDup l -> (forall ij, ij ∈ l -> in_matrix M N ij) ->
  forall d ret_ptr,
    status_shape ret_ptr ret_stride M N ->
    length d = length d0 ->
    (forall p, A <= p < A + M * K -> cell d p = cell d0 p) ->
    (forall p, B <= p < B + K * N -> cell d p = cell d0 p) ->
    (forall ij, ij ∈ l ->
                cell d (C + M * ij.2 + ij.1) = cell d0 (C + M * ij.2 + ij.1)) ->
    foldM (fun ij => mmm_entry C A B rnd M K ret_stride ij.1 ij.2) l (d, ret_ptr)
    = Ok (writes (cpos C M) (fun ij => (entry_after d0 C A B rnd M K ij.1 ij.2).1) l d,
          writes (spos M ret_stride)
            (fun ij => (entry_after d0 C A B rnd M K ij.1 ij.2).2) l ret_ptr).
Proof.
  intros Hs. induction l as [|ij l IH]; intros Hnd Hin d ret_ptr Hr Hl HA HB HC;
    [done|].
  apply NoDup_cons in Hnd as [Hij Hnd].
  assert (in_matrix M N ij) as Hm by apply Hin, list_elem_of_here.
  pose proof (mmm_shape_length d d0 Hl Hs) as Hsd.
  cbn [foldM]. rewrite (mmm_entry_Ok C A B rnd M N K d ret_ptr ret_stride ij)
    by done.
  cbn [mbind res_bind]. rewrite !writes_cons.
  rewrite (entry_after_ext d d0 ij Hm HA HB) by apply HC, list_elem_of_here.
  destruct (shape_index_C C A B M N K d ij.1 ij.2 Hsd) as (_ & Hc1 & Hc2);
    [by destruct ij|].
  destruct Hsd.
  assert (forall p, 0 <= p -> Z.to_nat p <> cpos C M ij ->
            cell (<[cpos C M ij := (entry_after d0 C A B rnd M K ij.1 ij.2).1]> d) p
            = cell d p) as Hother.
  { intros p Hp Hne. unfold cell. by rewrite list_lookup_insert_ne. }
  apply IH.
  - done.
  - intros ij' Hij'. by apply Hin, list_elem_of_further.
  - destruct Hr as [[-> Hlen]|[-> Hlen]]; [left|right];
      (split; [done|rewrite length_insert; lia]).
  - rewrite length_insert. done.
  - intros p Hp. rewrite Hother; [by apply HA|lia|unfold cpos; lia].
  - intros p Hp. rewrite Hother; [by apply HB|lia|unfold cpos; lia].
  - intros ij' Hij'.
    assert (in_matrix M N ij') as Hm' by by apply Hin, list_elem_of_further.
    rewrite Hother.
    + by apply HC, list_elem_of_further.
    + destruct Hm' as [? ?]. nia.
    + intros Hp. apply Hij.
      replace ij with ij'; [done|].
      apply cpos_inj; try done. lia.
Qed.
End MmmOrder.

(** ** The two sequential strategies *)

Lemma elem_of_order_ij (M N : Z) (ij : Z * Z) :
  ij ∈ order_ij M N <-> in_matrix M N ij.
Proof.
  unfold order_ij, in_matrix. rewrite list_elem_of_bind. split.
  - intros (i & Hj & Hi). apply list_elem_of_fmap in Hj as (j & -> & Hj).
    apply elem_of_seqZ in Hi, Hj. simpl. lia.
  - destruct ij as [i j]. simpl. intros [Hi Hj]. exists i. split.
    + apply list_elem_of_fmap. exists j. split; [done|]. apply elem_of_seqZ. lia.
    + apply elem_of_seqZ. lia.
Qed.

Lemma elem_of_order_ji (M N : Z) (ij : Z * Z) :
  ij ∈ order_ji M N <-> in_matrix M N ij.
Proof.
  unfold order_ji, in_matrix. rewrite list_elem_of_bind. split.
  - intros (j & Hi & Hj). apply list_elem_of_fmap in Hi as (i & -> & Hi).
    apply elem_of_seqZ in Hi, Hj. simpl. lia.
  - destruct ij as [i j]. simpl. intros [Hi Hj]. exists j. split.
    + apply list_elem_of_fmap. exists i. split; [done|]. apply elem_of_seqZ. lia.
    + apply elem_of_seqZ. lia.
Qed.

Lemma NoDup_order_ij (M N : Z) : NoDup (order_ij M N).
Proof.
  unfold order_ij. apply NoDup_bind.
  - intros i1 i2 ij _ _ H1 H2.
    apply list_elem_of_fmap in H1 as (j1 & -> & _).
    apply list_elem_of_fmap in H2 as (j2 & [= -> _] & _). done.
  - intros i _. apply NoDup_fmap_2; [|apply NoDup_seqZ].
    intros j1 j2 [= ->]. done.
  - apply NoDup_seqZ.
Qed.

Lemma NoDup_order_ji (M N : Z) : NoDup (order_ji M N).
Proof.
  unfold order_ji. apply NoDup_bind.
  - intros j1 j2 ij _ _ H1 H2.
    apply list_elem_of_fmap in H1 as (i1 & -> & _).
    apply list_elem_of_fmap in H2 as (i2 & [= _ ->] & _). done.
  - intros j _. apply NoDup_fmap_2; [|apply NoDup_seqZ].
    intros i1 i2 [= ->]. done.
  - apply NoDup_seqZ.
Qed.

Lemma loops_ij {S : Type} (M N : Z) (body : Z -> Z -> S -> res S) (s : S) :
  for_ M (fun i => for_ N (fun j => body i j)) s
  = foldM (fun ij => body ij.1 ij.2) (order_ij M N) s.
Proof.
  rewrite for_foldM.
  rewrite (foldM_ext _ (fun i => foldM (fun j => body i j) (seqZ 0 N)))
    by (intros; apply for_foldM).
  apply (foldM_nested (fun i j => (i, j)) (fun ij => body ij.1 ij.2)).
Qed.

Lemma loops_ji {S : Type} (M N : Z) (body : Z -> Z -> S -> res S) (s : S) :
  for_ N (fun j => for_ M (fun i => body i j)) s
  = foldM (fun ij => body ij.1 ij.2) (order_ji M N) s.
Proof.
  rewrite for_foldM.
  rewrite (foldM_ext _ (fun j => foldM (fun i => body i j) (seqZ 0 M)))
    by (intros; apply for_foldM).
  apply (foldM_nested (fun j i => (i, j)) (fun ij => body ij.1 ij.2)).
Qed.

(** The last entry visited is the same in both orders. *)
Lemma last_order_ij (M N : Z) :
  last (order_ij M N)
  = if decide (0 < M /\ 0 < N) then Some (M - 1, N - 1) else None.
Proof.
  unfold order_ij. case_decide as Hmn.
  - destruct Hmn as [HM HN].
    replace M with (Z.of_nat (S (Z.to_nat (M - 1)))) at 1 by lia.
    rewrite seqZ_S, bind_app. simpl. rewrite app_nil_r, last_app, fmap_last.
    replace N with (Z.of_nat (S (Z.to_nat (N - 1)))) at 1 by lia.
    rewrite seqZ_S, last_snoc. simpl. do 2 f_equal; lia.
  - destruct (decide (0 < M)) as [HM|HM].
    + rewrite (seqZ_nil 0 N) by lia.
      induction (seqZ 0 M) as [|i l IH]; [done|]. by rewrite bind_cons.
    + by rewrite (seqZ_nil 0 M) by lia.
Qed.

Lemma last_order_ji (M N : Z) :
  last (order_ji M N)
  = if decide (0 < M /\ 0 < N) then Some (M - 1, N - 1) else None.
Proof.
  unfold order_ji. case_decide as Hmn.
  - destruct Hmn as [HM HN].
    replace N with (Z.of_nat (S (Z.to_nat (N - 1)))) at 1 by lia.
    rewrite seqZ_S, bind_app. simpl. rewrite app_nil_r, last_app, fmap_last.
    replace M with (Z.of_nat (S (Z.to_nat (M - 1)))) at 1 by lia.
    rewrite seqZ_S, last_snoc. simpl. do 2 f_equal; lia.
  - destruct (decide (0 < N)) as [HN|HN].
    + rewrite (seqZ_nil 0 M) by lia.
      induction (seqZ 0 N) as [|i l IH]; [done|]. by rewrite bind_cons.
    + by rewrite (seqZ_nil 0 N) by lia.
Qed.

Lemma writes_ext {X Y : Type} (pos pos' : X -> nat) (v : X -> Y) (l : list X)
    (a : list Y) :
  (forall x, x ∈ l -> pos x = pos' x) -> writes pos v l a = writes pos' v l a.
Proof.
  revert a. induction l as [|x l IH]; intros a Hp; [done|].
  rewrite !writes_cons, (Hp x) by apply list_elem_of_here.
  apply IH. intros y Hy. by apply Hp, list_elem_of_further.
Qed.

Section MmmStrategies.
Context `{Mpfr}.
Variable MPLAPACK : bool.
Variables (C A B : Z) (prec : Z) (rnd : mpfr_rnd_t) (M N K : Z).

(** The order in which a sequential strategy visits the entries. *)
Lemma mpfr_apa_mmm_writes d ret_ptr ret_stride strategy :
  mmm_shape d C A B M N K -> status_shape ret_ptr ret_stride M N ->
  strategy = 1 \/ strategy = 2 ->
  mpfr_apa_mmm MPLAPACK d C A B prec rnd M N K ret_ptr ret_stride strategy
  = Ok (writes (cpos C M) (fun ij => (entry_after d C A B rnd M K ij.1 ij.2).1)
          (if decide (strategy = 1) then order_ij M N else order_ji M N) d,
        writes (spos M ret_stride)
          (fun ij => (entry_after d C A B rnd M K ij.1 ij.2).2)
          (if decide (strategy = 1) then order_ij M N else order_ji M N) ret_ptr,
        false).
Proof.
  intros Hs Hr [-> | ->]; unfold mpfr_apa_mmm.
  - rewrite loops_ij.
    rewrite (mmm_entries_Ok C A B rnd M N K d ret_stride (order_ij M N));
      try done.
    + apply NoDup_order_ij.
    + intros ij. apply elem_of_order_ij.
  - rewrite loops_ji.
    rewrite (mmm_entries_Ok C A B rnd M N K d ret_stride (order_ji M N));
      try done.
    + apply NoDup_order_ji.
    + intros ij. apply elem_of_order_ji.
Qed.

(** The data array after the writes, cell by cell. *)
Lemma mmm_cells d (v : Z * Z -> mpfr_t) (l : list (Z * Z)) :
  mmm_shape d C A B M N K ->
  (forall ij, ij ∈ l <-> in_matrix M N ij) ->
  length (writes (cpos C M) v l d) = length d /\
  (forall i j, in_matrix M N (i, j) ->
               cell (writes (cpos C M) v l d) (C + M * j + i) = v (i, j)) /\
  (forall p, 0 <= p -> p < C \/ C + M * N <= p ->
             cell (writes (cpos C M) v l d) p = cell d p).
Proof.
  intros Hs Hl. split; [apply writes_length|]. split.
  - intros i j Hij. unfold cell.
    destruct (shape_index_C C A B M N K d i j Hs Hij) as (_ & Hc1 & Hc2).
    change (Z.to_nat (C + M * j + i)) with (cpos C M (i, j)).
    rewrite (writes_lookup_at (cpos C M) v l d (i, j)); [done|by apply Hl| |].
    + intros ij' Hij' Hp. f_equal. apply (cpos_inj C M N); try done.
      * by destruct Hs as [_ _ _ _ [? _]].
      * by apply Hl.
    + unfold cpos. simpl. lia.
  - intros p Hp Hout. unfold cell. rewrite writes_lookup_other; [done|].
    intros [i j] Hij Hpos. apply Hl in Hij.
    destruct (shape_index_C C A B M N K d i j Hs Hij) as (_ & Hc1 & Hc2).
    unfold cpos in Hpos. simpl in Hpos. lia.
Qed.
End MmmStrategies.

(** ** [mpfr_t.mtimes] on a well-formed call *)

Section Mtimes.
Context `{Mpfr}.
Variable MPLAPACK : bool.

Lemma extract_idx_valid (k : nat) (prhs : list mxArray) (s : pool) (idx : idx_t) :
  extract_idx k prhs s = Ok (Some idx) -> is_valid idx s = true.
Proof.
  unfold extract_idx.
  destruct (extract_ui_vector k prhs 2) as [[[|u0 [|u1 [|u2 l]]]|]|]; simpl;
    try done.
  destruct (is_valid _ s) eqn:Hv; [|done]. by intros [= <-].
Qed.

(** A valid range in a pool whose data block is in place. *)
Lemma valid_range_facts (s : pool) (idx : idx_t) :
  data_block s -> is_valid idx s = true ->
  wrap (start idx - 1) = start idx - 1 /\
  Range.length idx = end_ idx - start idx + 1 /\
  1 <= start idx /\ start idx <= end_ idx /\ end_ idx <= data_size s.
Proof.
  intros (d & Hd & Hl & Hsz & Hcap) Hv. apply is_valid_true in Hv.
  split; [apply wrap_small; lia|]. split; [|done].
  unfold Range.length. rewrite wrap_wrap_add. apply wrap_small. lia.
Qed.

Lemma mtimes_shape (s : pool) d (a : mtimes_args) (N K : Z) :
  data s = Some d -> data_block s ->
  is_valid (arg_C a) s = true -> is_valid (arg_A a) s = true ->
  is_valid (arg_B a) s = true ->
  conforming a N K -> no_alias a ->
  mmm_shape d (start (arg_C a) - 1) (start (arg_A a) - 1) (start (arg_B a) - 1)
    (arg_M a) N K.
Proof.
  intros Hd Hblock HC HA HB (HM & HN & HK & HlC & HlA & HlB) [HCA HCB].
  destruct Hblock as (d' & Hd' & Hl & Hsz & Hcap).
  rewrite Hd in Hd'. injection Hd' as <-.
  apply is_valid_true in HC, HA, HB.
  split; lia.
Qed.

Lemma status_shape_new (nlhs M N : Z) :
  0 <= M * N ->
  status_shape (new_status_array nlhs (M * N)) (if nlhs =? 0 then 0 else 1) M N.
Proof.
  intros Hmn. unfold status_shape, new_status_array.
  destruct (nlhs =? 0); rewrite length_replicate; [left|right]; split;
    (done || lia).
Qed.

(** On a conforming call none of the checks fires and the kernel runs on
    the three ranges. *)
Lemma cmd_mtimes_conforming (nlhs : Z) (prhs : list mxArray) (m : mex) d
    (a : mtimes_args) (N K : Z) :
  data (mex_pool m) = Some d -> data_block (mex_pool m) ->
  decodes prhs (mex_pool m) a -> conforming a N K ->
  mex_mpfr_algorithms MPLAPACK nlhs prhs 2001 m
  = r ← mpfr_apa_mmm MPLAPACK d (start (arg_C a) - 1) (start (arg_A a) - 1)
          (start (arg_B a) - 1) (arg_prec a) (arg_rnd a) (arg_M a) N K
          (new_status_array nlhs (arg_M a * N)) (if nlhs =? 0 then 0 else 1)
          (arg_strategy a);
    mret {| mex_pool := set_data (Some r.1.1) (mex_pool m);
            throw_error := throw_error m || r.2;
            plhs0 := Some r.1.2 |}.
Proof.
  intros Hd Hblock (Hn & HC & HA & HB & Hprec & Hrnd & HM & Hstrat)
    (HMpos & HN & HK & HlC & HlA & HlB).
  pose proof (extract_idx_valid _ _ _ _ HC) as HvC.
  pose proof (extract_idx_valid _ _ _ _ HA) as HvA.
  pose proof (extract_idx_valid _ _ _ _ HB) as HvB.
  destruct (valid_range_facts _ _ Hblock HvC) as (EC & LC & ? & ? & ?).
  destruct (valid_range_facts _ _ Hblock HvA) as (EA & LA & ? & ? & ?).
  destruct (valid_range_facts _ _ Hblock HvB) as (EB & LB & ? & ? & ?).
  destruct Hblock as (d' & Hd' & Hl & Hsz & Hcap).
  unfold mex_mpfr_algorithms, cmd_mtimes.
  rewrite Hn, HC. cbn [Nat.eqb negb mbind res_bind].
  rewrite HA. cbn [mbind res_bind]. rewrite HB. cbn [mbind res_bind].
  rewrite Hprec. cbn [mbind res_bind]. rewrite Hrnd. cbn [mbind res_bind].
  rewrite HM. cbn [mbind res_bind default from_option failed orb].
  rewrite Hstrat. cbn [mbind res_bind default from_option failed negb].
  unfold id, udiv. rewrite LC, LA, LB, HlC, HlA, HlB.
  destruct (Z.eqb_spec (arg_M a) 0) as [?|_]; [lia|].
  replace ((arg_M a * N) `div` arg_M a) with N
    by (rewrite Z.mul_comm, Z.div_mul; lia).
  replace ((arg_M a * K) `div` arg_M a) with K
    by (rewrite Z.mul_comm, Z.div_mul; lia).
  cbn [mbind res_bind].
  rewrite (wrap_small (arg_M a * N)), (wrap_small (arg_M a * K)),
    (wrap_small (K * N)) by lia.
  rewrite !Z.eqb_refl. cbn [negb].
  rewrite Hd. cbn [deref mbind res_bind].
  rewrite EC, EA, EB. done.
Qed.
End Mtimes.

(** C1 (the code departs from the claim).  The claim: a call whose shapes
    do not match fails with a shape error, performs no arithmetic and
    leaves [C] as it was.  The shape checks of [mpfr_t.mtimes] run
    [MEX_FCN_ERR] and go on (the macros that read the arguments [break],
    these checks do not): with [C = [1,4]], [A = [5,7]] of length 3 and
    [M = 2], [K] is [3 / 2 = 1], the error flag is set and the kernel
    still runs with [K = 1], turning [C] from [0,0,0,0] into [1,2,1,2]. *)
Theorem mtimes_shape_error_still_multiplies :
  Examples.outcome 9
    (Examples.mtimes_call 1 [0; 0; 0; 0; 1; 2; 3; 1; 1]
       (Examples.range 1 4) (Examples.range 5 7) (Examples.range 8 9) 2 1)
  = Some ([1; 2; 1; 2; 1; 2; 3; 1; 1], true, Some [0; 0; 0; 0]).
Proof. vm_compute. reflexivity. Qed.

(** C2, the claim as stated fails: the kernel never clears [C], so what is
    left in [C] depends on what was there.  With [A = B = (1)], a [C] that
    holds 1 ends as 2, a [C] that holds 0 ends as 1. *)
Lemma mtimes_adds_to_old_C :
  Examples.outcome 3
    (Examples.mtimes_call 1 [1; 1; 1]
       (Examples.range 1 1) (Examples.range 2 2) (Examples.range 3 3) 1 1)
  = Some ([2; 1; 1], false, Some [0]) /\
  Examples.outcome 3
    (Examples.mtimes_call 1 [0; 1; 1]
       (Examples.range 1 1) (Examples.range 2 2) (Examples.range 3 3) 1 1)
  = Some ([1; 1; 1], false, Some [0]).
Proof. split; vm_compute; reflexivity. Qed.

(** C2, amended.  On a conforming call ([C] is [M] by [N], [A] is [M] by
    [K], [B] is [K] by [N]) whose range [C] overlaps neither [A] nor [B],
    strategies 1 and 2 return without an error and leave in every
    [C[i,j]] the result of [K] fused multiply-adds
    [C[i,j] <- B[k,j] * A[i,k] + C[i,j]], [k = 0 .. K-1], each rounded to
    the precision of [C[i,j]] in the given rounding mode, starting from
    the content [C[i,j]] had before the call; every cell outside [C] is
    unchanged. *)
Theorem mtimes_accumulates `{Mpfr} (MPLAPACK : bool) (nlhs : Z)
    (prhs : list mxArray) (m : mex) d (a : mtimes_args) (N K : Z) :
  data (mex_pool m) = Some d -> data_block (mex_pool m) ->
  decodes prhs (mex_pool m) a ->
  arg_strategy a = 1 \/ arg_strategy a = 2 ->
  conforming a N K -> no_alias a ->
  exists m' d',
    mex_mpfr_algorithms MPLAPACK nlhs prhs 2001 m = Ok m' /\
    throw_error m' = throw_error m /\
    data (mex_pool m') = Some d' /\ length d' = length d /\
    (forall i j, in_matrix (arg_M a) N (i, j) ->
       cell d' (start (arg_C a) - 1 + arg_M a * j + i)
       = (entry_after d (start (arg_C a) - 1) (start (arg_A a) - 1)
            (start (arg_B a) - 1) (arg_rnd a) (arg_M a) K i j).1) /\
    (forall p, 0 <= p -> p < start (arg_C a) - 1 \/ end_ (arg_C a) <= p ->
       cell d' p = cell d p).
Proof.
  intros Hd Hblock Hdec Hstrat Hconf Halias.
  pose proof Hdec as (_ & HC & HA & HB & _).
  apply extract_idx_valid in HC, HA, HB.
  pose proof (mtimes_shape _ d a N K Hd Hblock HC HA HB Hconf Halias) as Hs.
  rewrite (cmd_mtimes_conforming MPLAPACK nlhs prhs m d a N K) by done.
  rewrite (mpfr_apa_mmm_writes MPLAPACK) by
    (done || apply status_shape_new; destruct Hconf; nia).
  cbn [mbind res_bind mret res_ret fst snd].
  eexists _, _. split; [reflexivity|]. cbn [throw_error mex_pool plhs0].
  split; [by rewrite orb_false_r|]. split; [reflexivity|].
  set (l := if decide (arg_strategy a = 1) then _ else _).
  assert (forall ij, ij ∈ l <-> in_matrix (arg_M a) N ij) as Hl.
  { intros ij. unfold l. case_decide;
      [apply elem_of_order_ij|apply elem_of_order_ji]. }
  destruct (mmm_cells _ _ _ _ _ _ d
              (fun ij => (entry_after d (start (arg_C a) - 1)
                            (start (arg_A a) - 1) (start (arg_B a) - 1)
                            (arg_rnd a) (arg_M a) K ij.1 ij.2).1) l Hs Hl)
    as (Hlen & Hin & Hout).
  split; [done|]. split.
  - intros i j Hij. by rewrite Hin.
  - intros p Hp Hrange. apply Hout; [done|].
    destruct Hconf as (_ & _ & _ & HlC & _). lia.
Qed.

Lemma mtimes_accumulates_witness :
  exists m' d',
    mex_mpfr_algorithms (H := ExactInt.mpfr) false 1 (Examples.identity_prhs 1)
      2001 (Examples.mex_of Examples.identity_values) = Ok m' /\
    throw_error m' = false /\
    data (mex_pool m') = Some d' /\ length d' = 1000%nat /\
    (forall i j, in_matrix 2 2 (i, j) ->
       cell d' (1 - 1 + 2 * j + i)
       = (entry_after Examples.identity_data
            (1 - 1) (5 - 1) (9 - 1) MPFR_RNDN 2 2 i j).1) /\
    (forall p, 0 <= p -> p < 1 - 1 \/ 4 <= p ->
       cell d' p = cell Examples.identity_data p).
Proof.
  apply (mtimes_accumulates (H := ExactInt.mpfr) false 1
           (Examples.identity_prhs 1) (Examples.mex_of Examples.identity_values)
           Examples.identity_data
           (Examples.identity_args 1) 2 2).
  - reflexivity.
  - eexists. split; [reflexivity|]. vm_compute. repeat split; congruence.
  - repeat split; vm_compute; reflexivity.
  - left. reflexivity.
  - unfold conforming. simpl. lia.
  - unfold no_alias. simpl. lia.
Defined.

(** ** Strategy 1 against the other strategies *)

(** ** Runs that differ in the order of independent statements *)

Lemma foldl_move_front {X S : Type} (f : S -> X -> S) (x : X) (a b : list X) :
  (forall y, y ∈ a -> forall s, f (f s y) x = f (f s x) y) ->
  forall s, foldl f s (a ++ x :: b) = foldl f (f s x) (a ++ b).
Proof.
  induction a as [|y a IH]; intros Hc s; [done|].
  simpl. rewrite IH.
  - by rewrite Hc by apply list_elem_of_here.
  - intros z Hz. apply Hc. by apply list_elem_of_further.
Qed.

(** Two runs of the same statements give the same state when every two
    statements that the runs take in different order commute. *)
Lemma foldl_reorder {X S : Type} (f : S -> X -> S) (R1 R2 : X -> X -> Prop)
    (l1 l2 : list X) :
  (forall x y, x ∈ l1 -> y ∈ l1 -> R1 x y -> R2 y x ->
               forall s, f (f s y) x = f (f s x) y) ->
  l1 ≡ₚ l2 -> StronglySorted R1 l1 -> StronglySorted R2 l2 ->
  forall s, foldl f s l1 = foldl f s l2.
Proof.
  revert l2. induction l1 as [|x l1 IH]; intros l2 Hc Hp H1 H2 s.
  - apply Permutation_nil in Hp as ->. done.
  - assert (x ∈ l2) as Hx by (rewrite <- Hp; apply list_elem_of_here).
    apply list_elem_of_split in Hx as (a & b & ->).
    apply Permutation_cons_app_inv in Hp.
    apply StronglySorted_cons in H1 as [Hx1 H1].
    rewrite foldl_move_front.
    + simpl. apply IH; [| done | done |].
      * intros y z Hy Hz. apply Hc; by apply list_elem_of_further.
      * apply StronglySorted_app in H2 as (Hab & Ha & Hb).
        apply StronglySorted_cons in Hb as [_ Hb].
        apply StronglySorted_app. split; [|done].
        intros y z Hy Hz. apply Hab; [done|by apply list_elem_of_further].
    + intros y Hy. apply Hc.
      * apply list_elem_of_here.
      * apply list_elem_of_further. rewrite Hp. apply elem_of_app. by left.
      * apply (proj1 (Forall_forall _ _) Hx1). rewrite Hp.
        apply elem_of_app. by left.
      * apply (StronglySorted_app_1_elem_of _ a (x :: b)); [done|done|].
        apply list_elem_of_here.
Qed.

Lemma StronglySorted_bind {X Y : Type} (RX : X -> X -> Prop)
    (R : Y -> Y -> Prop) (f : X -> list Y) (l : list X) :
  StronglySorted RX l ->
  (forall x, x ∈ l -> StronglySorted R (f x)) ->
  (forall x x' y y', x ∈ l -> x' ∈ l -> RX x x' -> y ∈ f x -> y' ∈ f x' -> R y y') ->
  StronglySorted R (l ≫= f).
Proof.
  induction l as [|x l IH]; intros Hl Hf Hcross; [constructor|].
  apply StronglySorted_cons in Hl as [Hx Hl]. rewrite bind_cons.
  apply StronglySorted_app. split; [|split].
  - intros y y' Hy Hy'. apply list_elem_of_bind in Hy' as (x' & Hy' & Hx').
    apply (Hcross x x'); try done.
    + apply list_elem_of_here.
    + by apply list_elem_of_further.
    + by apply (proj1 (Forall_forall _ _) Hx).
  - apply Hf, list_elem_of_here.
  - apply IH; [done| |].
    + intros x' Hx'. by apply Hf, list_elem_of_further.
    + intros x1 x2 y y' H1 H2. apply Hcross; by apply list_elem_of_further.
Qed.

Lemma StronglySorted_seqZ (m n : Z) : StronglySorted Z.lt (seqZ m n).
Proof.
  destruct (Z_le_gt_dec n 0) as [?|Hn]; [rewrite seqZ_nil by lia; constructor|].
  replace n with (Z.of_nat (Z.to_nat n)) by lia.
  generalize (Z.to_nat n). clear. intros n. revert m.
  induction n as [|n IH]; intros m; [constructor|].
  rewrite seqZ_cons by lia. apply StronglySorted_cons. split.
  - apply Forall_forall. intros k Hk. apply elem_of_seqZ in Hk. lia.
  - replace (Z.pred (Z.of_nat (S n))) with (Z.of_nat n) by lia. apply IH.
Qed.

(** ** One statement *)

Section StatementLemmas.
Context `{Mpfr}.
Variables (C A B : Z) (rnd : mpfr_rnd_t) (M N K : Z).

Local Abbreviation effect := (stmt_effect C A B rnd M K).
Local Abbreviation run := (mmm_stmt_run C A B rnd M K).
Local Abbreviation bounds := (mmm_bounds C A B M N K).
Local Abbreviation stmt_ok := (stmt_in M N K).
Local Abbreviation apart := (apart C A B M K).

Lemma cell_insert_ne (d : list mpfr_t) (c p : Z) (x : mpfr_t) :
  0 <= c -> 0 <= p -> p <> c -> cell (<[Z.to_nat c := x]> d) p = cell d p.
Proof.
  intros Hc Hp Hne. unfold cell. rewrite list_lookup_insert_ne by lia. done.
Qed.

Lemma bounds_length d d' :
  length d' = length d -> bounds d -> bounds d'.
Proof. intros Hl []. split; rewrite ?Hl; done. Qed.

Lemma bounds_index d i j k :
  bounds d -> in_matrix M N (i, j) -> 0 <= k < K ->
  wrap (M * j) = M * j /\ wrap (K * j) = K * j /\ wrap (M * k) = M * k /\
  0 <= C + M * j + i < Z.of_nat (length d) /\
  0 <= B + k + K * j < Z.of_nat (length d) /\
  0 <= A + i + M * k < Z.of_nat (length d).
Proof.
  intros [] [Hi Hj] Hk. simpl in *.
  assert (0 <= M * j + i < M * N) by nia.
  assert (0 <= k + K * j < K * N) by nia.
  assert (0 <= i + M * k < M * K) by nia.
  split; [apply wrap_small; nia|]. split; [apply wrap_small; nia|].
  split; [apply wrap_small; nia|]. lia.
Qed.

Lemma bounds_index_C d i j :
  bounds d -> in_matrix M N (i, j) ->
  wrap (M * j) = M * j /\ 0 <= M * j + i < M * N /\
  0 <= C + M * j + i < Z.of_nat (length d).
Proof.
  intros [] [Hi Hj]. simpl in *.
  assert (0 <= M * j + i < M * N) by nia.
  split; [apply wrap_small; nia|]. lia.
Qed.

(** One fused multiply-add of the loop over [k]. *)
Lemma mmm_fma_bounds d i j k r :
  bounds d -> in_matrix M N (i, j) -> 0 <= k < K ->
  let c := C + M * j + i in
  let f := mpfr_fma (cell d c) (cell d (B + k + K * j))
             (cell d (A + i + M * k)) (cell d c) rnd in
  mmm_fma C A B rnd M K i j k (d, r) = Ok (<[Z.to_nat c := f.1]> d, Z.lor r f.2).
Proof.
  intros Hb Hij Hk c f.
  destruct (bounds_index d i j k Hb Hij Hk) as (Ew & EwB & EwA & Hc & HB & HA).
  unfold mmm_fma. cbn [fst snd]. rewrite Ew, EwB, EwA. fold c.
  rewrite !load_cell by done. cbn [mbind res_bind].
  rewrite store_cell by done. done.
Qed.

Lemma effect_length s x ret_stride :
  length (effect ret_stride s x).1.1 = length s.1.1 /\
  length (effect ret_stride s x).1.2 = length s.1.2 /\
  length (effect ret_stride s x).2 = length s.2.
Proof. destruct x; simpl; by rewrite ?length_insert. Qed.

Lemma effects_length s l ret_stride :
  length (foldl (effect ret_stride) s l).1.1 = length s.1.1 /\
  length (foldl (effect ret_stride) s l).1.2 = length s.1.2 /\
  length (foldl (effect ret_stride) s l).2 = length s.2.
Proof.
  revert s. induction l as [|x l IH]; intros s; [done|]. simpl.
  destruct (IH (effect ret_stride s x)) as (-> & -> & ->).
  apply effect_length.
Qed.

(** A statement whose accesses are inside the arrays does what
    [stmt_effect] says. *)
Lemma run_effect ret_stride s x :
  bounds s.1.1 -> status_shape s.1.2 ret_stride M N -> stmt_ok x ->
  run ret_stride x s = Ok (effect ret_stride s x).
Proof.
  intros Hb Hr [Hij Hk]. destruct x as [i j k|i j]; simpl in *.
  - rewrite mmm_fma_bounds by done. done.
  - destruct (bounds_index_C s.1.1 i j Hb Hij) as (Ew & Hc1 & Hc2).
    assert (wrap (wrap (M * j + i) * ret_stride) = (M * j + i) * ret_stride
            /\ 0 <= (M * j + i) * ret_stride < Z.of_nat (length s.1.2))
      as [Ews Hsp].
    { destruct Hb. destruct Hr as [[-> Hl]|[-> Hl]].
      - rewrite !Z.mul_0_r. split; [by apply wrap_small|lia].
      - rewrite !Z.mul_1_r. rewrite !(wrap_small (M * j + i)) by lia. lia. }
    rewrite Ew, Ews, store_cell by done. done.
Qed.

Lemma runs_effect ret_stride l s :
  bounds s.1.1 -> status_shape s.1.2 ret_stride M N -> Forall stmt_ok l ->
  foldM (run ret_stride) l s = Ok (foldl (effect ret_stride) s l).
Proof.
  revert s. induction l as [|x l IH]; intros s Hb Hr Hl; [done|].
  apply Forall_cons in Hl as [Hx Hl]. simpl.
  rewrite run_effect by done. cbn [mbind res_bind].
  destruct (effect_length s x ret_stride) as (Hd & Hs & _).
  apply IH; [by apply (bounds_length s.1.1)| |done].
  destruct Hr as [[-> Hlen]|[-> Hlen]]; [left|right]; rewrite Hs; done.
Qed.

(** ** Statements of different entries *)

Lemma epos_ne e e' :
  in_matrix M N e -> in_matrix M N e' -> e <> e' -> epos M e <> epos M e'.
Proof.
  intros He He' Hne Hp. apply Hne. apply (spos_inj M N); [done|done|].
  unfold spos. by rewrite !Z.mul_1_r.
Qed.

Lemma entry_ne e e' :
  in_matrix M N e -> in_matrix M N e' -> e <> e' ->
  M * e.2 + e.1 <> M * e'.2 + e'.1 /\
  0 <= M * e.2 + e.1 /\ 0 <= M * e'.2 + e'.1.
Proof.
  intros He He' Hne.
  pose proof (epos_ne e e' He He' Hne) as Hp. unfold epos in Hp.
  destruct e as [i j], e' as [i' j'], He as [? ?], He' as [? ?]. simpl in *.
  assert (0 <= M * j + i) by nia. assert (0 <= M * j' + i') by nia. lia.
Qed.

(** Statements of two entries that are apart commute, when they do not
    store their status in the same place. *)
Lemma operand_nonneg i j k :
  0 <= A -> 0 <= B -> in_matrix M N (i, j) -> 0 <= k < K ->
  0 <= A + i + M * k /\ 0 <= B + k + K * j.
Proof. intros HA HB [Hi Hj] Hk. simpl in *. split; nia. Qed.

Lemma effect_commute ret_stride x y s :
  0 <= C -> 0 <= A -> 0 <= B ->
  stmt_ok x -> stmt_ok y -> stmt_entry x <> stmt_entry y ->
  apart (stmt_entry x) (stmt_entry y) ->
  ret_stride = 1 ->
  effect ret_stride (effect ret_stride s y) x
  = effect ret_stride (effect ret_stride s x) y.
Proof.
  intros HC HA HB [Hx Hkx] [Hy Hky] Hne Hap ->.
  destruct (entry_ne _ _ Hx Hy Hne) as (Hcc & Hc0 & Hc0').
  pose proof (epos_ne _ _ Hx Hy Hne) as Hee.
  destruct s as [[d st] rets].
  destruct x as [i j k|i j], y as [i' j' k'|i' j']; cbn [stmt_entry] in *;
    cbn [stmt_effect fst snd].
  - destruct (Hap k Hkx) as (_ & _ & H3 & H4).
    destruct (Hap k' Hky) as (H1' & H2' & _ & _).
    destruct (operand_nonneg i j k HA HB Hx Hkx) as [Ha0 Hb0].
    destruct (operand_nonneg i' j' k' HA HB Hy Hky) as [Ha0' Hb0'].
    cbn [fst snd] in *. clear Hap Hx Hy Hne.
    rewrite (cell_insert_ne d (C + M * j' + i') (C + M * j + i)) by lia.
    rewrite (cell_insert_ne d (C + M * j' + i') (B + k + K * j)) by lia.
    rewrite (cell_insert_ne d (C + M * j' + i') (A + i + M * k)) by lia.
    rewrite (cell_insert_ne d (C + M * j + i) (C + M * j' + i')) by lia.
    rewrite (cell_insert_ne d (C + M * j + i) (B + k' + K * j')) by lia.
    rewrite (cell_insert_ne d (C + M * j + i) (A + i' + M * k')) by lia.
    rewrite !list_lookup_insert_ne by done.
    f_equal; [f_equal|].
    + apply list_insert_insert_ne. lia.
    + apply list_insert_insert_ne. done.
  - rewrite list_lookup_insert_ne by done. done.
  - rewrite list_lookup_insert_ne by done. done.
  - cbn [fst snd] in *. f_equal. f_equal. apply list_insert_insert_ne. lia.
Qed.
End StatementLemmas.

(** ** The loops of strategies 1 and 2, statement by statement *)

Section Loops.
Context `{Mpfr}.
Variables (C A B : Z) (rnd : mpfr_rnd_t) (M N K : Z).

Local Abbreviation effect := (stmt_effect C A B rnd M K).
Local Abbreviation bounds := (mmm_bounds C A B M N K).
Local Abbreviation stmt_ok := (stmt_in M N K).

Lemma elem_of_body (e : Z * Z) (x : mmm_stmt) :
  x ∈ mmm_body K e ->
  stmt_entry x = e /\
  match x with Fma _ _ k => 0 <= k < K | Ret _ _ => True end.
Proof.
  unfold mmm_body. intros [Hx|Hx]%elem_of_app.
  - apply list_elem_of_fmap in Hx as (k & -> & Hk). apply elem_of_seqZ in Hk.
    simpl. split; [by destruct e|]. lia.
  - apply list_elem_of_singleton in Hx as ->. simpl. split; [by destruct e|done].
Qed.

Lemma body_stmt_in (l : list (Z * Z)) :
  (forall e, e ∈ l -> in_matrix M N e) -> Forall stmt_ok (l ≫= mmm_body K).
Proof.
  intros Hl. apply Forall_forall. intros x Hx.
  apply list_elem_of_bind in Hx as (e & Hx & He).
  apply elem_of_body in Hx as [<- Hk]. split; [by apply Hl|done].
Qed.

(** The multiply-adds of one entry leave the status array and the
    variables [ret] of the other entries alone. *)
Lemma fma_effects_frame ret_stride i j (ks : list Z) s :
  (foldl (effect ret_stride) s (Fma i j <$> ks)).1.2 = s.1.2 /\
  forall q, q <> epos M (i, j) ->
    (foldl (effect ret_stride) s (Fma i j <$> ks)).2 !! q = s.2 !! q.
Proof.
  revert s. induction ks as [|k ks IH]; intros s; [done|].
  rewrite fmap_cons. cbn [foldl].
  destruct (IH (effect ret_stride s (Fma i j k))) as [Hst Hq].
  split; [by rewrite Hst|]. intros q Hne. rewrite Hq by done.
  cbn [stmt_effect fst snd]. by rewrite list_lookup_insert_ne.
Qed.

Lemma body_effects_rets ret_stride e s q :
  q <> epos M e ->
  (foldl (effect ret_stride) s (mmm_body K e)).2 !! q = s.2 !! q.
Proof.
  intros Hq. unfold mmm_body. rewrite foldl_app. simpl.
  by apply fma_effects_frame.
Qed.

(** The loop over [k]. *)
Lemma fma_loop_effect ret_stride i j (n : nat) (k0 : Z) s :
  bounds s.1.1 -> in_matrix M N (i, j) -> 0 <= k0 -> k0 + Z.of_nat n <= K ->
  (epos M (i, j) < length s.2)%nat ->
  for_loop n k0 (mmm_fma C A B rnd M K i j) (s.1.1, default 0 (s.2 !! epos M (i, j)))
  = Ok ((foldl (effect ret_stride) s (Fma i j <$> seqZ k0 (Z.of_nat n))).1.1,
        default 0 ((foldl (effect ret_stride) s
                      (Fma i j <$> seqZ k0 (Z.of_nat n))).2 !! epos M (i, j))).
Proof.
  revert k0 s. induction n as [|n IH]; intros k0 s Hb Hij Hk0 Hk Hlen; [done|].
  cbn [for_loop]. rewrite (mmm_fma_bounds C A B rnd M N K) by (done || lia).
  cbn [mbind res_bind]. rewrite seqZ_cons by lia.
  replace (Z.pred (Z.of_nat (S n))) with (Z.of_nat n) by lia.
  replace (Z.succ k0) with (k0 + 1) by lia.
  rewrite fmap_cons. cbn [foldl].
  set (s1 := effect ret_stride s (Fma i j k0)).
  destruct (effect_length C A B rnd M K s (Fma i j k0) ret_stride)
    as (Hd & _ & Hr).
  specialize (IH (k0 + 1) s1). fold s1 in Hd, Hr.
  rewrite <- IH; [|by apply (bounds_length _ _ _ _ _ _ s.1.1)|done|lia|lia|lia].
  do 3 f_equal. unfold s1. simpl.
  by rewrite list_lookup_insert_eq.
Qed.

(** The body of the two outer loops is its statements in a row. *)
Lemma entry_effect ret_stride e s :
  bounds s.1.1 -> status_shape s.1.2 ret_stride M N -> in_matrix M N e ->
  s.2 !! epos M e = Some 0 ->
  mmm_entry C A B rnd M K ret_stride e.1 e.2 s.1
  = Ok (foldl (effect ret_stride) s (mmm_body K e)).1.
Proof.
  destruct e as [i j]. intros Hb Hr Hij Hret. cbn [fst snd].
  destruct (bounds_index_C C A B M N K s.1.1 i j Hb Hij) as (Ew & Hc1 & Hc2).
  unfold mmm_entry, for_.
  pose proof (fma_loop_effect ret_stride i j (Z.to_nat K) 0 s Hb Hij) as Hloop.
  rewrite Hret in Hloop. change (default 0 (Some 0)) with 0 in Hloop.
  destruct s as [[d st] rets]. cbn [fst snd] in *.
  destruct Hb. rewrite Hloop; [|lia|lia|by apply lookup_lt_Some in Hret].
  rewrite Z2Nat.id by lia. cbn [mbind res_bind fst snd].
  unfold mmm_body. rewrite foldl_app. cbn [foldl fst snd].
  destruct (fma_effects_frame ret_stride i j (seqZ 0 K) (d, st, rets))
    as [Hst _]. cbn [fst snd] in Hst.
  set (s1 := foldl (effect ret_stride) (d, st, rets) (Fma i j <$> seqZ 0 K)) in *.
  assert (wrap (wrap (M * j + i) * ret_stride) = (M * j + i) * ret_stride
          /\ 0 <= (M * j + i) * ret_stride < Z.of_nat (length st))
    as [Ews Hsp].
  { destruct Hr as [[-> Hl]|[-> Hl]].
    - rewrite !Z.mul_0_r. split; [by apply wrap_small|lia].
    - rewrite !Z.mul_1_r. rewrite !(wrap_small (M * j + i)) by lia. lia. }
  rewrite Ew, Ews, store_cell by done. cbn [mbind res_bind mret res_ret].
  simpl. by rewrite Hst.
Qed.

Lemma entries_effect ret_stride (l : list (Z * Z)) :
  NoDup l -> (forall e, e ∈ l -> in_matrix M N e) ->
  forall s, bounds s.1.1 -> status_shape s.1.2 ret_stride M N ->
    (forall e, e ∈ l -> s.2 !! epos M e = Some 0) ->
    foldM (fun ij => mmm_entry C A B rnd M K ret_stride ij.1 ij.2) l s.1
    = Ok (foldl (effect ret_stride) s (l ≫= mmm_body K)).1.
Proof.
  induction l as [|e l IH]; intros Hnd Hin s Hb Hr Hret; [done|].
  apply NoDup_cons in Hnd as [He Hnd].
  assert (in_matrix M N e) as Hm by apply Hin, list_elem_of_here.
  cbn [foldM]. rewrite (entry_effect ret_stride e s) by
    (done || apply Hret, list_elem_of_here).
  cbn [mbind res_bind]. rewrite bind_cons, foldl_app.
  set (s1 := foldl (effect ret_stride) s (mmm_body K e)).
  destruct (effects_length C A B rnd M K s (mmm_body K e) ret_stride)
    as (Hd & Hs & _). fold s1 in Hd, Hs.
  apply IH.
  - done.
  - intros e' He'. by apply Hin, list_elem_of_further.
  - by apply (bounds_length _ _ _ _ _ _ s.1.1).
  - destruct Hr as [[-> Hlen]|[-> Hlen]]; [left|right]; rewrite Hs; done.
  - intros e' He'. unfold s1. rewrite body_effects_rets.
    + by apply Hret, list_elem_of_further.
    + apply (epos_ne M N); [by apply Hin, list_elem_of_further|done|].
      intros ->. done.
Qed.
End Loops.

(** ** The order of the statements *)

Section Orders.
Variables (M N K : Z).

Lemma stored_bodies (l : list (Z * Z)) : stored (l ≫= mmm_body K) = l.
Proof.
  induction l as [|[i j] l IH]; [done|].
  rewrite bind_cons. unfold stored in *. rewrite omap_app, IH.
  unfold mmm_body. rewrite omap_app. cbn [fst snd].
  replace (omap _ (Fma i j <$> seqZ 0 K)) with (@nil (Z * Z)); [done|].
  induction (seqZ 0 K) as [|k ks IHk]; [done|]. by rewrite fmap_cons.
Qed.

Lemma sorted_body (R : relation mmm_stmt) (e : Z * Z) :
  (forall x y, stmt_entry x = e -> stmt_entry y = e ->
               stmt_step K x < stmt_step K y -> R x y) ->
  StronglySorted R (mmm_body K e).
Proof.
  intros HR. unfold mmm_body. apply StronglySorted_app. split; [|split].
  - intros x y Hx Hy. apply list_elem_of_fmap in Hx as (k & -> & Hk).
    apply list_elem_of_singleton in Hy as ->. apply elem_of_seqZ in Hk.
    apply HR; simpl; try (by destruct e). lia.
  - apply (StronglySorted_fmap _ Z.lt); [|apply StronglySorted_seqZ].
    intros k k' Hk. apply HR; simpl; by destruct e.
  - apply StronglySorted_cons. split; [constructor|constructor].
Qed.

Lemma sorted_order_ij :
  StronglySorted (fun e e' : Z * Z => e.1 < e'.1 \/ (e.1 = e'.1 /\ e.2 < e'.2))
    (order_ij M N).
Proof.
  unfold order_ij. apply (StronglySorted_bind Z.lt).
  - apply StronglySorted_seqZ.
  - intros i _. apply (StronglySorted_fmap _ Z.lt); [|apply StronglySorted_seqZ].
    intros j j' Hj. simpl. lia.
  - intros i i' e e' _ _ Hi He He'.
    apply list_elem_of_fmap in He as (j & -> & _).
    apply list_elem_of_fmap in He' as (j' & -> & _). simpl. lia.
Qed.

Lemma sorted_order_ji :
  StronglySorted (fun e e' : Z * Z => e.2 < e'.2 \/ (e.2 = e'.2 /\ e.1 < e'.1))
    (order_ji M N).
Proof.
  unfold order_ji. apply (StronglySorted_bind Z.lt).
  - apply StronglySorted_seqZ.
  - intros j _. apply (StronglySorted_fmap _ Z.lt); [|apply StronglySorted_seqZ].
    intros i i' Hi. simpl. lia.
  - intros j j' e e' _ _ Hj He He'.
    apply list_elem_of_fmap in He as (i & -> & _).
    apply list_elem_of_fmap in He' as (i' & -> & _). simpl. lia.
Qed.

(** The statements of strategy 1 in the order of its loops. *)
Lemma sorted_ijk :
  StronglySorted (before_ijk K) (order_ij M N ≫= mmm_body K).
Proof.
  eapply StronglySorted_bind; [apply sorted_order_ij| |].
  - intros e _. apply sorted_body. intros x y Hx Hy Hs.
    unfold before_ijk. rewrite Hx, Hy. cbv beta in *. lia.
  - intros e e' x y _ _ He Hx Hy.
    apply elem_of_body in Hx as [Hx _]. apply elem_of_body in Hy as [Hy _].
    unfold before_ijk. rewrite Hx, Hy. cbv beta in *. lia.
Qed.

(** The statements of strategy 2 in the order of its loops. *)
Lemma sorted_jik :
  StronglySorted (before_jik K) (order_ji M N ≫= mmm_body K).
Proof.
  eapply StronglySorted_bind; [apply sorted_order_ji| |].
  - intros e _. apply sorted_body. intros x y Hx Hy Hs.
    unfold before_jik. rewrite Hx, Hy. cbv beta in *. lia.
  - intros e e' x y _ _ He Hx Hy.
    apply elem_of_body in Hx as [Hx _]. apply elem_of_body in Hy as [Hy _].
    unfold before_jik. rewrite Hx, Hy. cbv beta in *. lia.
Qed.

(** Both strategies run the same statements. *)
Lemma bodies_permutation :
  order_ji M N ≫= mmm_body K ≡ₚ order_ij M N ≫= mmm_body K.
Proof.
  apply bind_Permutation.
  apply NoDup_Permutation; [apply NoDup_order_ji|apply NoDup_order_ij|].
  intros e. by rewrite elem_of_order_ij, elem_of_order_ji.
Qed.

(** Statements that strategy 1 and strategy 2 take in different order
    belong to crossing entries. *)
Lemma crossing_order (x y : mmm_stmt) :
  before_ijk K x y -> before_jik K y x ->
  stmt_entry x <> stmt_entry y /\
  crossing (stmt_entry x) (stmt_entry y) /\
  crossing (stmt_entry y) (stmt_entry x).
Proof.
  unfold before_ijk, before_jik, crossing.
  destruct (stmt_entry x) as [i j], (stmt_entry y) as [i' j']. simpl.
  intros H1 H2. split; [intros [= -> ->]; lia|]. lia.
Qed.

(** Statements that a parallel run may take in another order than
    strategy 1 belong to different iterations of the parallel loops. *)
Lemma concurrent_order (strategy : Z) (x y : mmm_stmt) :
  3 <= strategy <= 6 ->
  before_ijk K x y -> omp_order K strategy y x ->
  stmt_entry x <> stmt_entry y /\
  concurrent strategy (stmt_entry x) (stmt_entry y) /\
  concurrent strategy (stmt_entry y) (stmt_entry x).
Proof.
  intros Hs.
  assert (strategy = 3 \/ strategy = 4 \/ strategy = 5 \/ strategy = 6)
    as [-> | [-> | [-> | ->]]] by lia;
    unfold omp_order, concurrent, before_ijk, before_jik;
    destruct (stmt_entry x) as [i j], (stmt_entry y) as [i' j'];
    cbn [fst snd]; intros H1 H2.
  - assert (i <> i') by (intros ->; lia).
    split; [congruence|]. split; congruence.
  - assert (j <> j') by (intros ->; lia).
    split; [congruence|]. split; congruence.
  - assert ((i, j) <> (i', j'))
      by (intros [= -> ->]; specialize (H2 eq_refl); lia).
    split; [done|]. split; congruence.
  - assert ((i, j) <> (i', j'))
      by (intros [= -> ->]; specialize (H2 eq_refl); lia).
    split; [done|]. split; congruence.
Qed.
End Orders.

(** ** Runs of the same statements in different order *)

Section Schedules.
Context `{Mpfr}.
Variables (C A B : Z) (rnd : mpfr_rnd_t) (M N K : Z).

Local Abbreviation effect := (stmt_effect C A B rnd M K).
Local Abbreviation bounds := (mmm_bounds C A B M N K).
Local Abbreviation stmt_ok := (stmt_in M N K).
Local Abbreviation zeros := (replicate (Z.to_nat (M * N)) 0).

(** The data array and the variables [ret] depend neither on
    [ret_stride] nor on the status array. *)
Lemma effects_data_rets r r' (l : list mmm_stmt) d st st' rets :
  (foldl (effect r) (d, st, rets) l).1.1
  = (foldl (effect r') (d, st', rets) l).1.1 /\
  (foldl (effect r) (d, st, rets) l).2
  = (foldl (effect r') (d, st', rets) l).2.
Proof.
  revert d st st' rets. induction l as [|x l IH]; intros d st st' rets; [done|].
  cbn [foldl]. destruct x as [i j k|i j]; cbn [stmt_effect fst snd]; apply IH.
Qed.

Lemma stored_snoc (l : list mmm_stmt) (x : mmm_stmt) :
  stored (l ++ [x])
  = stored l ++ match x with Ret i j => [(i, j)] | Fma _ _ _ => [] end.
Proof. unfold stored. rewrite omap_app. by destruct x. Qed.

(** With [ret_stride = 0] every store goes to [ret_ptr[0]]: what is left
    there is the status of the entry that stored last, which is what a
    run with [ret_stride = 1] leaves in that entry's own place. *)
Lemma effects_stride0 (l : list mmm_stmt) d st0 g0 rets :
  (forall e, e ∈ stored l -> (epos M e < length g0)%nat) ->
  (forall e, e ∈ stored l -> 0 <= M * e.2 + e.1) ->
  (foldl (effect 0) (d, st0, rets) l).1.2
  = match last (stored l) with
    | Some e =>
        <[0%nat := default 0 ((foldl (effect 1) (d, g0, rets) l).1.2 !! epos M e)]>
          st0
    | None => st0
    end.
Proof.
  induction l as [|x l IH] using rev_ind; intros Hlen Hpos; [done|].
  rewrite stored_snoc in Hlen, Hpos |- *.
  rewrite !foldl_app. cbn [foldl].
  destruct (effects_data_rets 0 1 l d st0 g0 rets) as [_ Hrets].
  destruct (effects_length C A B rnd M K (d, g0, rets) l 1) as (_ & Hg & _).
  cbn [fst snd] in Hg.
  destruct x as [i j k|i j]; cbn [stmt_effect fst snd].
  - rewrite app_nil_r in Hlen, Hpos |- *. by apply IH.
  - rewrite last_snoc.
    assert (epos M (i, j) < length g0)%nat as Hl
      by (apply Hlen; rewrite elem_of_app; right; apply list_elem_of_here).
    assert (0 <= M * j + i) as Hp
      by (apply (Hpos (i, j)); rewrite elem_of_app; right;
          apply list_elem_of_here).
    rewrite Z.mul_0_r, Z.mul_1_r. change (Z.to_nat 0) with 0%nat.
    change (Z.to_nat (M * j + i)) with (epos M (i, j)).
    rewrite list_lookup_insert_eq by (rewrite Hg; done).
    cbn [default from_option]. rewrite Hrets. rewrite IH.
    + destruct (last _); [|done]. rewrite list_insert_insert.
      by rewrite decide_True.
    + intros e He. apply Hlen. rewrite elem_of_app. by left.
    + intros e He. apply Hpos. rewrite elem_of_app. by left.
Qed.

Lemma zeros_lookup e : in_matrix M N e -> zeros !! epos M e = Some 0.
Proof.
  intros [Hi Hj]. apply lookup_replicate_2. unfold epos.
  assert (0 <= M * e.2 + e.1 < M * N) by nia. lia.
Qed.

(** The loops of strategies 1 and 2 are their statements in a row. *)
Lemma mmm_loops_effect (MPLAPACK : bool) (prec : Z) d ret_ptr ret_stride
    strategy :
  bounds d -> status_shape ret_ptr ret_stride M N ->
  strategy = 1 \/ strategy = 2 ->
  mpfr_apa_mmm MPLAPACK d C A B prec rnd M N K ret_ptr ret_stride strategy
  = Ok ((foldl (effect ret_stride) (d, ret_ptr, zeros)
           ((if decide (strategy = 1) then order_ij M N else order_ji M N)
              ≫= mmm_body K)).1,
        false).
Proof.
  intros Hb Hr [-> | ->]; unfold mpfr_apa_mmm.
  - rewrite loops_ij. rewrite decide_True by done.
    pose proof (entries_effect C A B rnd M N K ret_stride (order_ij M N)
                  (NoDup_order_ij M N)
                  (fun e => proj1 (elem_of_order_ij M N e))
                  (d, ret_ptr, zeros) Hb Hr) as E.
    cbn [fst] in E. rewrite E; [done|].
    intros e He. apply zeros_lookup. by apply elem_of_order_ij.
  - rewrite loops_ji. rewrite decide_False by done.
    pose proof (entries_effect C A B rnd M N K ret_stride (order_ji M N)
                  (NoDup_order_ji M N)
                  (fun e => proj1 (elem_of_order_ji M N e))
                  (d, ret_ptr, zeros) Hb Hr) as E.
    cbn [fst] in E. rewrite E; [done|].
    intros e He. apply zeros_lookup. by apply elem_of_order_ji.
Qed.

(** A run that takes in another order than strategy 1 only statements of
    entries in the relation [rel], when no cell of [C] is an operand of
    an entry that stands in that relation to it: with [ret_stride = 1] it
    ends in the state in which strategy 1 ends. *)
Lemma schedule_effect (R : relation mmm_stmt) (rel : relation (Z * Z))
    (sched : list mmm_stmt) s :
  0 <= C -> 0 <= A -> 0 <= B ->
  sched ≡ₚ order_ij M N ≫= mmm_body K -> StronglySorted R sched ->
  (forall x y, before_ijk K x y -> R y x ->
     stmt_entry x <> stmt_entry y /\
     rel (stmt_entry x) (stmt_entry y) /\ rel (stmt_entry y) (stmt_entry x)) ->
  conflict_free C A B M N K rel ->
  foldl (effect 1) s sched = foldl (effect 1) s (order_ij M N ≫= mmm_body K).
Proof.
  intros HC HA HB Hp Hs HR Hfree. symmetry.
  apply (foldl_reorder _ (before_ijk K) R); [|done|apply sorted_ijk|done].
  intros x y Hx Hy H1 H2 s'.
  pose proof (body_stmt_in M N K (order_ij M N)
                (fun e => proj1 (elem_of_order_ij M N e))) as Hok.
  rewrite Forall_forall in Hok.
  destruct (HR x y H1 H2) as (Hne & Hxy & Hyx).
  pose proof (Hok x Hx) as Hsx. pose proof (Hok y Hy) as Hsy.
  apply (effect_commute C A B rnd M N K); try done.
  intros k Hk.
  destruct (Hfree _ _ k (proj1 Hsx) (proj1 Hsy) Hk Hxy) as [H3 H4].
  destruct (Hfree _ _ k (proj1 Hsy) (proj1 Hsx) Hk Hyx) as [H5 H6].
  done.
Qed.

(** The same for both values of [ret_stride]: the data array is that of
    strategy 1; with [ret_stride = 1] so is the status array, with
    [ret_stride = 0] the one status is that of the entry stored last. *)
Lemma schedule_agrees (R : relation mmm_stmt) (rel : relation (Z * Z))
    (sched : list mmm_stmt) d st0 ret_stride :
  bounds d -> status_shape st0 ret_stride M N ->
  sched ≡ₚ order_ij M N ≫= mmm_body K -> StronglySorted R sched ->
  (forall x y, before_ijk K x y -> R y x ->
     stmt_entry x <> stmt_entry y /\
     rel (stmt_entry x) (stmt_entry y) /\ rel (stmt_entry y) (stmt_entry x)) ->
  conflict_free C A B M N K rel ->
  (foldl (effect ret_stride) (d, st0, zeros) sched).1.1
  = (foldl (effect 1) (d, zeros, zeros) (order_ij M N ≫= mmm_body K)).1.1 /\
  (foldl (effect ret_stride) (d, st0, zeros) sched).1.2
  = if decide (ret_stride = 1)
    then (foldl (effect 1) (d, st0, zeros) (order_ij M N ≫= mmm_body K)).1.2
    else match last (stored sched) with
         | Some e =>
             <[0%nat := default 0
                  ((foldl (effect 1) (d, zeros, zeros)
                      (order_ij M N ≫= mmm_body K)).1.2 !! epos M e)]> st0
         | None => st0
         end.
Proof.
  intros Hb Hr Hp Hs HR Hfree.
  pose proof Hb as [_ _ _ _ [HC _] [HA _] [HB _]].
  pose proof (fun s => schedule_effect R rel sched s HC HA HB Hp Hs HR Hfree)
    as Heq.
  split.
  - destruct (effects_data_rets ret_stride 1 sched d st0 zeros zeros) as [-> _].
    by rewrite Heq.
  - case_decide as Hstride.
    + subst ret_stride. by rewrite Heq.
    + destruct Hr as [[-> Hlen]|[-> _]]; [|done].
      rewrite (effects_stride0 sched d st0 zeros zeros).
      * by rewrite Heq.
      * intros e He. rewrite length_replicate.
        assert (in_matrix M N e) as [Hi Hj].
        { apply elem_of_order_ij. rewrite <- (stored_bodies K (order_ij M N)).
          unfold stored in *. by rewrite <- Hp. }
        unfold epos. assert (0 <= M * e.2 + e.1 < M * N) by nia. lia.
      * intros e He.
        assert (in_matrix M N e) as [Hi Hj].
        { apply elem_of_order_ij. rewrite <- (stored_bodies K (order_ij M N)).
          unfold stored in *. by rewrite <- Hp. }
        nia.
Qed.
End Schedules.

(** ** The strategies against strategy 1 *)

Section Strategies.
Context `{Mpfr}.
Variables (C A B : Z) (rnd : mpfr_rnd_t) (M N K : Z).

Local Abbreviation effect := (stmt_effect C A B rnd M K).
Local Abbreviation bounds := (mmm_bounds C A B M N K).
Local Abbreviation zeros := (replicate (Z.to_nat (M * N)) 0).
Local Abbreviation reference d :=
  (foldl (effect 1) (d, zeros, zeros) (order_ij M N ≫= mmm_body K)).

(** The status array a call leaves, from the array [g] of all status
    codes and the entry stored last. *)
Lemma status_new_cases (nlhs : Z) :
  (nlhs = 0 /\ new_status_array nlhs (M * N) = [0] /\
   (if nlhs =? 0 then 0 else 1) = 0) \/
  (nlhs <> 0 /\ new_status_array nlhs (M * N) = zeros /\
   (if nlhs =? 0 then 0 else 1) = 1).
Proof.
  unfold new_status_array. destruct (Z.eqb_spec nlhs 0) as [->|Hn];
    [left|right]; done.
Qed.

Lemma ordered_ijk_asym (rel : relation (Z * Z)) (x y : mmm_stmt) :
  before_ijk K x y -> before_ijk K y x ->
  stmt_entry x <> stmt_entry y /\
  rel (stmt_entry x) (stmt_entry y) /\ rel (stmt_entry y) (stmt_entry x).
Proof. unfold before_ijk. lia. Qed.

(** What a run leaves that takes in another order than strategy 1 only
    statements of entries in the relation [rel]. *)
Lemma schedule_run (R : relation mmm_stmt) (rel : relation (Z * Z))
    (sched : list mmm_stmt) d (nlhs : Z) :
  bounds d ->
  sched ≡ₚ order_ij M N ≫= mmm_body K -> StronglySorted R sched ->
  (forall x y, before_ijk K x y -> R y x ->
     stmt_entry x <> stmt_entry y /\
     rel (stmt_entry x) (stmt_entry y) /\ rel (stmt_entry y) (stmt_entry x)) ->
  conflict_free C A B M N K rel ->
  (foldl (effect (if nlhs =? 0 then 0 else 1))
     (d, new_status_array nlhs (M * N), zeros) sched).1
  = ((reference d).1.1,
     if decide (nlhs = 0)
     then match last (stored sched) with
          | Some e => [default 0 ((reference d).1.2 !! epos M e)]
          | None => [0]
          end
     else (reference d).1.2).
Proof.
  intros Hb Hp Hs HR Hfree.
  assert (0 <= M * N) as Hmn by (destruct Hb; nia).
  pose proof (status_shape_new nlhs M N Hmn) as Hr.
  destruct (schedule_agrees C A B rnd M N K R rel sched d _ _ Hb Hr Hp Hs HR
              Hfree) as [Hd Hst].
  apply injective_projections; cbn [fst snd]; [done|].
  rewrite Hst.
  destruct (status_new_cases nlhs) as [(-> & -> & ->)|(Hn & -> & ->)].
  - rewrite decide_False by done. rewrite decide_True by done.
    by destruct (last _).
  - rewrite decide_True by done. by rewrite decide_False by done.
Qed.

Lemma bounds_status_zeros d : bounds d -> status_shape zeros 1 M N.
Proof.
  intros Hb. right. split; [done|]. rewrite length_replicate.
  destruct Hb. nia.
Qed.

(** Strategy 1 on a cleared status array with [ret_stride = 1]. *)
Lemma reference_run (MPLAPACK : bool) (prec : Z) d :
  bounds d ->
  mpfr_apa_mmm MPLAPACK d C A B prec rnd M N K zeros 1 1
  = Ok ((reference d).1.1, (reference d).1.2, false).
Proof.
  intros Hb.
  rewrite (mmm_loops_effect C A B rnd M N K) by
    (done || (by left) || by apply (bounds_status_zeros d)).
  rewrite decide_True by done. do 2 f_equal.
  by apply injective_projections.
Qed.

(** Strategy 1 as [mpfr_t.mtimes] calls it. *)
Lemma strategy_1_run (MPLAPACK : bool) (prec : Z) d (nlhs : Z) :
  bounds d ->
  mpfr_apa_mmm MPLAPACK d C A B prec rnd M N K
    (new_status_array nlhs (M * N)) (if nlhs =? 0 then 0 else 1) 1
  = Ok ((reference d).1.1,
        if decide (nlhs = 0)
        then match last (order_ij M N) with
             | Some e => [default 0 ((reference d).1.2 !! epos M e)]
             | None => [0]
             end
        else (reference d).1.2,
        false).
Proof.
  intros Hb.
  assert (0 <= M * N) as Hmn by (destruct Hb; nia).
  rewrite (mmm_loops_effect C A B rnd M N K) by
    (done || (by left) || by apply status_shape_new).
  rewrite decide_True by done.
  rewrite (schedule_run (before_ijk K) (fun _ _ => False)); try done.
  - by rewrite stored_bodies.
  - apply sorted_ijk.
  - intros x y. apply (ordered_ijk_asym (fun _ _ => False)).
Qed.

(** Strategy 2 as [mpfr_t.mtimes] calls it, when no cell of [C] is an
    operand of an entry that the two strategies compute in the other
    order. *)
Lemma strategy_2_run (MPLAPACK : bool) (prec : Z) d (nlhs : Z) :
  bounds d -> conflict_free C A B M N K crossing ->
  mpfr_apa_mmm MPLAPACK d C A B prec rnd M N K
    (new_status_array nlhs (M * N)) (if nlhs =? 0 then 0 else 1) 2
  = mpfr_apa_mmm MPLAPACK d C A B prec rnd M N K
      (new_status_array nlhs (M * N)) (if nlhs =? 0 then 0 else 1) 1.
Proof.
  intros Hb Hfree.
  assert (0 <= M * N) as Hmn by (destruct Hb; nia).
  rewrite (strategy_1_run MPLAPACK prec d nlhs Hb).
  rewrite (mmm_loops_effect C A B rnd M N K) by
    (done || (by right) || by apply status_shape_new).
  rewrite decide_False by done.
  rewrite (schedule_run (before_jik K) crossing); try done.
  - by rewrite stored_bodies, last_order_ij, last_order_ji.
  - apply bodies_permutation.
  - apply sorted_jik.
  - apply crossing_order.
Qed.

(** Strategies 3 to 6, for every order in which the statements may run,
    when no cell of [C] is an operand of an entry computed in another
    iteration of the parallel loops. *)
Lemma omp_run (strategy : Z) (sched : list mmm_stmt) d (nlhs : Z) :
  bounds d -> 3 <= strategy <= 6 -> omp_schedule strategy M N K sched ->
  conflict_free C A B M N K (concurrent strategy) ->
  exists st',
    mpfr_apa_mmm_omp C A B rnd M N K sched d (new_status_array nlhs (M * N))
      (if nlhs =? 0 then 0 else 1)
    = Ok ((reference d).1.1, st') /\
    (nlhs <> 0 -> st' = (reference d).1.2) /\
    (nlhs = 0 ->
       (N = 0 \/ M = 0) /\ st' = [0] \/
       exists e, in_matrix M N e /\
         st' = [default 0 ((reference d).1.2 !! epos M e)]).
Proof.
  intros Hb Hstrat [Hp Hs] Hfree.
  assert (0 <= M * N) as Hmn by (destruct Hb; nia).
  assert (Forall (stmt_in M N K) sched) as Hok.
  { rewrite Hp. apply body_stmt_in. intros e. apply elem_of_order_ij. }
  unfold mpfr_apa_mmm_omp.
  rewrite (runs_effect C A B rnd M N K) by
    (done || by apply status_shape_new).
  cbn [mbind res_bind mret res_ret].
  rewrite (schedule_run (omp_order K strategy) (concurrent strategy));
    try done; [|intros x y; by apply concurrent_order].
  eexists. split; [reflexivity|]. split.
  - intros Hn. by rewrite decide_False.
  - intros Hn. rewrite decide_True by done.
    assert (stored sched ≡ₚ order_ij M N) as Hst.
    { rewrite <- (stored_bodies K (order_ij M N)). unfold stored.
      by rewrite Hp. }
    destruct (last (stored sched)) as [e|] eqn:Hlast.
    + right. exists e. split; [|done].
      apply elem_of_order_ij. rewrite <- Hst.
      apply last_Some in Hlast as [l' ->]. rewrite elem_of_app. right.
      apply list_elem_of_here.
    + left. split; [|done]. apply last_None in Hlast.
      rewrite Hlast in Hst. apply Permutation_nil in Hst.
      destruct (decide (0 < M /\ 0 < N)) as [[HM HN]|Hmn'];
        [|destruct Hb; lia].
      assert ((0, 0) ∈ order_ij M N) as H0
        by (apply elem_of_order_ij; split; simpl; lia).
      rewrite Hst in H0. by apply elem_of_nil in H0.
Qed.
End Strategies.

(** ** Orders in which the parallel strategies may run *)

Lemma StronglySorted_weaken {X : Type} (R1 R2 : relation X) (l : list X) :
  (forall x y, R1 x y -> R2 x y) -> StronglySorted R1 l -> StronglySorted R2 l.
Proof.
  intros HR. induction 1 as [|x l Hl IH Hx]; constructor; [done|].
  eapply Forall_impl; [exact Hx|]. intros y. apply HR.
Qed.

(** The order of the loops themselves is one of them. *)
Lemma loops_omp_schedule (strategy M N K : Z) :
  3 <= strategy <= 6 ->
  omp_schedule strategy M N K (order_ij M N ≫= mmm_body K).
Proof.
  intros Hs. split; [done|].
  apply (StronglySorted_weaken (before_ijk K)); [|apply sorted_ijk].
  intros x y. unfold before_ijk, omp_order, before_ijk, before_jik.
  assert (strategy = 3 \/ strategy = 4 \/ strategy = 5 \/ strategy = 6)
    as [-> | [-> | [-> | ->]]] by lia; intros Hxy.
  - intros _. exact Hxy.
  - intros Hj. lia.
  - intros He. rewrite He in Hxy. lia.
  - intros He. rewrite He in Hxy. lia.
Qed.

(** Strategies 5 and 6 fix no order among the entries. *)
Lemma entries_omp_schedule (strategy M N K : Z) (l : list (Z * Z)) :
  strategy = 5 \/ strategy = 6 -> NoDup l -> l ≡ₚ order_ij M N ->
  omp_schedule strategy M N K (l ≫= mmm_body K).
Proof.
  intros Hs Hnd Hp. split; [by rewrite Hp|].
  apply (StronglySorted_bind (fun e e' : Z * Z => e <> e')).
  - clear Hp. induction Hnd as [|e l He Hnd IH]; [constructor|].
    apply StronglySorted_cons. split; [|done].
    apply Forall_forall. intros e' He' ->. done.
  - intros e _. apply sorted_body. intros x y Hx Hy Hstep.
    destruct Hs as [-> | ->]; intros _; done.
  - intros e e' x y _ _ Hne Hx Hy.
    apply elem_of_body in Hx as [Hx _]. apply elem_of_body in Hy as [Hy _].
    destruct Hs as [-> | ->]; intros He; congruence.
Qed.

(** ** [mpfr_t.mtimes] with strategy 1 and with the others *)

Lemma mtimes_bounds `{Mpfr} (s : pool) d (a : mtimes_args) (N K : Z) :
  data s = Some d -> data_block s ->
  is_valid (arg_C a) s = true -> is_valid (arg_A a) s = true ->
  is_valid (arg_B a) s = true ->
  conforming a N K ->
  mmm_bounds (start (arg_C a) - 1) (start (arg_A a) - 1) (start (arg_B a) - 1)
    (arg_M a) N K d.
Proof.
  intros Hd Hblock HC HA HB (HM & HN & HK & HlC & HlA & HlB).
  destruct Hblock as (d' & Hd' & Hl & Hsz & Hcap).
  rewrite Hd in Hd'. injection Hd' as <-.
  apply is_valid_true in HC, HA, HB.
  split; lia.
Qed.

(** When the range [C] overlaps neither [A] nor [B], no cell of [C] is an
    operand of any entry. *)
Lemma no_alias_conflict_free (a : mtimes_args) (N K : Z)
    (rel : relation (Z * Z)) :
  conforming a N K -> no_alias a ->
  conflict_free (start (arg_C a) - 1) (start (arg_A a) - 1)
    (start (arg_B a) - 1) (arg_M a) N K rel.
Proof.
  intros (HM & HN & HK & HlC & HlA & HlB) [HCA HCB].
  intros [i j] [i' j'] k [Hi Hj] [Hi' Hj'] Hk _. cbn [fst snd] in *.
  assert (0 <= arg_M a * j + i < arg_M a * N) by nia.
  assert (0 <= i' + arg_M a * k < arg_M a * K) by nia.
  assert (0 <= k + K * j' < K * N) by nia.
  lia.
Qed.

(** When [C] and [A] are the same range and [B] is elsewhere, a cell of
    [C] is an operand only of the entries in its own row: of no entry
    that strategies 1 and 2 compute in the other order, and of no entry
    of another iteration of the parallel loop of strategy 3. *)
Lemma in_place_conflict_free (a : mtimes_args) (N K : Z)
    (rel : relation (Z * Z)) :
  conforming a N K -> arg_A a = arg_C a ->
  end_ (arg_C a) < start (arg_B a) \/ end_ (arg_B a) < start (arg_C a) ->
  (forall e e', rel e e' -> e.1 <> e'.1) ->
  conflict_free (start (arg_C a) - 1) (start (arg_A a) - 1)
    (start (arg_B a) - 1) (arg_M a) N K rel.
Proof.
  intros (HM & HN & HK & HlC & HlA & HlB) EA HCB Hrel. rewrite EA.
  intros [i j] [i' j'] k [Hi Hj] [Hi' Hj'] Hk Hr.
  apply Hrel in Hr. cbn [fst snd] in *.
  assert (0 <= arg_M a * j + i < arg_M a * N) by nia.
  assert (0 <= k + K * j' < K * N) by nia.
  split; [|lia]. intros Heq.
  assert (j = k) by nia. subst. lia.
Qed.

Lemma crossing_rows (e e' : Z * Z) : crossing e e' -> e.1 <> e'.1.
Proof. unfold crossing. lia. Qed.

(** The condition on the operands cannot be dropped: on the product in
    place of [InPlace], strategies 5 and 6 may compute column 1 of a row
    before column 0, and then the data differ from those of strategy 1. *)
Lemma parallel_entries_differ_in_place :
  omp_schedule 5 3 2 2 (rev (order_ij 3 2) ≫= mmm_body 2) /\
  (r ← mpfr_apa_mmm_omp (H := ExactInt.mpfr) 0 0 6 MPFR_RNDN 3 2 2
         (rev (order_ij 3 2) ≫= mmm_body 2) InPlace.data (replicate 6 0) 1;
   mret (take 10 r.1, r.2))
  = Ok ([10; 14; 18; 8; 10; 12; 1; 1; 0; 1], [0; 0; 0; 0; 0; 0]) /\
  Examples.outcome 10
    (mex_mpfr_algorithms (H := ExactInt.mpfr) false 1 (InPlace.prhs 1) 2001
       (Examples.mex_of InPlace.values))
  = Some ([6; 9; 12; 8; 10; 12; 1; 1; 0; 1], false, Some [0; 0; 0; 0; 0; 0]).
Proof.
  split; [|split; vm_compute; reflexivity].
  apply entries_omp_schedule; [by left| |].
  - rewrite <- Permutation_rev. apply NoDup_order_ij.
  - by rewrite <- Permutation_rev.
Qed.

(** C3, the claim as stated fails: it is made for all operand ranges, and
    ranges may overlap.  With [C = [1,4]] and [A = [2,5]] the entry
    [C[0,1]] is also [A[1,0]]: strategy 1 updates it before it computes
    [C[1,0]], strategy 2 after, and the two results differ. *)
Lemma strategies_differ_on_overlap :
  Examples.outcome 5
    (Examples.mtimes_call 1 [1; 2; 3; 4; 5; 1; 1; 1; 1]
       (Examples.range 1 4) (Examples.range 2 5) (Examples.range 6 9) 2 1)
  = Some ([7; 16; 9; 18; 5], false, Some [0; 0; 0; 0]) /\
  Examples.outcome 5
    (Examples.mtimes_call 1 [1; 2; 3; 4; 5; 1; 1; 1; 1]
       (Examples.range 1 4) (Examples.range 2 5) (Examples.range 6 9) 2 2)
  = Some ([7; 10; 17; 26; 5], false, Some [0; 0; 0; 0]).
Proof. split; vm_compute; reflexivity. Qed.

(** C3, amended.  On a conforming call ([C] is [M] by [N], [A] is [M] by
    [K], [B] is [K] by [N]; the three ranges may overlap or be the same)
    strategy 1 returns without error.  Let [d1] be the data it leaves and
    [g] the status codes of the entries, as strategy 1 computes them into
    a cleared array with [ret_stride = 1]; the status array of the call is
    [g] when [nlhs] is not 0, and otherwise the one status of the entry
    stored last, [C[M-1,N-1]].
    - Strategy 2 returns the same pool, the same status array and the same
      error flag, if no cell [C[i,j]] is an operand [A[i',k]] or [B[k,j']]
      of an entry [C[i',j']] that the two strategies compute in the other
      order ([i < i'] and [j' < j], or the other way round).  That holds
      when [C] overlaps neither [A] nor [B] and also when [C] is the same
      range as [A] and [B] is elsewhere (lemmas [no_alias_conflict_free],
      [in_place_conflict_free]); it fails in [strategies_differ_on_overlap].
    - Strategies 3 to 6, in whatever order the statements of different
      iterations of the parallel loops run, leave the same data [d1], if
      no cell [C[i,j]] is an operand of an entry computed in another
      iteration (3: another row [i']; 4: another column [j']; 5 and 6:
      another entry).  When [nlhs] is not 0 they leave the same status
      array; when [nlhs] is 0 all entries store into the one cell and what
      is left is the status of one of them.  Every fused multiply-add of
      an entry is done in the order [k = 0 .. K-1] in all six strategies,
      so that no rounding differs.
    Strategy 7 ([mpfr_apa_dot]) and strategy 8 ([mplapack_Rgemm]) have no
    result in this development. *)
Theorem strategies_agree `{Mpfr} (MPLAPACK : bool) (nlhs : Z)
    (prhs1 prhs2 : list mxArray) (m : mex) d (a1 a2 : mtimes_args) (N K : Z) :
  data (mex_pool m) = Some d -> data_block (mex_pool m) ->
  decodes prhs1 (mex_pool m) a1 -> decodes prhs2 (mex_pool m) a2 ->
  arg_strategy a1 = 1 -> arg_strategy a2 = 2 ->
  arg_C a2 = arg_C a1 -> arg_A a2 = arg_A a1 -> arg_B a2 = arg_B a1 ->
  arg_prec a2 = arg_prec a1 -> arg_rnd a2 = arg_rnd a1 -> arg_M a2 = arg_M a1 ->
  conforming a1 N K ->
  exists m1 d1 st1 g,
    mex_mpfr_algorithms MPLAPACK nlhs prhs1 2001 m = Ok m1 /\
    throw_error m1 = throw_error m /\
    data (mex_pool m1) = Some d1 /\ plhs0 m1 = Some st1 /\
    mpfr_apa_mmm MPLAPACK d (start (arg_C a1) - 1) (start (arg_A a1) - 1)
      (start (arg_B a1) - 1) (arg_prec a1) (arg_rnd a1) (arg_M a1) N K
      (replicate (Z.to_nat (arg_M a1 * N)) 0) 1 1
    = Ok (d1, g, false) /\
    (nlhs <> 0 -> st1 = g) /\
    (nlhs = 0 -> 0 < N ->
     st1 = [default 0 (g !! epos (arg_M a1) (arg_M a1 - 1, N - 1))]) /\
    (conflict_free (start (arg_C a1) - 1) (start (arg_A a1) - 1)
       (start (arg_B a1) - 1) (arg_M a1) N K crossing ->
     mex_mpfr_algorithms MPLAPACK nlhs prhs2 2001 m = Ok m1) /\
    (forall strategy sched,
       3 <= strategy <= 6 -> omp_schedule strategy (arg_M a1) N K sched ->
       conflict_free (start (arg_C a1) - 1) (start (arg_A a1) - 1)
         (start (arg_B a1) - 1) (arg_M a1) N K (concurrent strategy) ->
       exists st',
         mpfr_apa_mmm_omp (start (arg_C a1) - 1) (start (arg_A a1) - 1)
           (start (arg_B a1) - 1) (arg_rnd a1) (arg_M a1) N K sched d
           (new_status_array nlhs (arg_M a1 * N)) (if nlhs =? 0 then 0 else 1)
         = Ok (d1, st') /\
         (nlhs <> 0 -> st' = st1) /\
         (nlhs = 0 ->
            N = 0 /\ st' = st1 \/
            exists e, in_matrix (arg_M a1) N e /\
              st' = [default 0 (g !! epos (arg_M a1) e)])).
Proof.
  intros Hd Hblock Hdec1 Hdec2 Hs1 Hs2 EC EA EB Eprec Ernd EM Hconf.
  assert (conforming a2 N K) as Hconf2.
  { unfold conforming in *. by rewrite EC, EA, EB, EM. }
  pose proof Hdec1 as (_ & HC & HA & HB & _).
  apply extract_idx_valid in HC, HA, HB.
  pose proof (mtimes_bounds _ d a1 N K Hd Hblock HC HA HB Hconf) as Hb.
  rewrite (cmd_mtimes_conforming MPLAPACK nlhs prhs1 m d a1 N K) by done.
  rewrite (cmd_mtimes_conforming MPLAPACK nlhs prhs2 m d a2 N K) by done.
  rewrite EC, EA, EB, Eprec, Ernd, EM, Hs1, Hs2.
  rewrite (strategy_1_run _ _ _ _ _ N K MPLAPACK) by done.
  cbn [mbind res_bind mret res_ret fst snd].
  eexists _, _, _, _. split; [reflexivity|].
  cbn [throw_error mex_pool plhs0].
  split; [by rewrite orb_false_r|]. split; [reflexivity|].
  split; [reflexivity|].
  split; [by apply reference_run|].
  rewrite last_order_ij.
  split; [intros Hn; by rewrite decide_False|].
  split.
  { intros Hn HN. rewrite decide_True by done.
    rewrite decide_True by (destruct Hconf; done). done. }
  split.
  { intros Hfree. rewrite (strategy_2_run _ _ _ _ _ N K MPLAPACK) by done.
    rewrite (strategy_1_run _ _ _ _ _ N K MPLAPACK) by done.
    cbn [mbind res_bind mret res_ret fst snd]. by rewrite last_order_ij. }
  intros strategy sched Hstrat Hsched Hfree.
  destruct (omp_run _ _ _ (arg_rnd a1) _ N K strategy sched d nlhs Hb Hstrat
              Hsched Hfree)
    as (st' & -> & Hst1 & Hst0).
  exists st'. split; [done|]. split.
  - intros Hn. rewrite decide_False by done. by apply Hst1.
  - intros Hn. destruct (Hst0 Hn) as [[HN ->]|He]; [left|by right].
    assert (N = 0) as -> by (destruct Hconf; lia).
    split; [done|]. rewrite decide_True by done.
    by rewrite decide_False by lia.
Qed.

Lemma strategies_agree_witness :
  exists m1 d1 st1,
    mex_mpfr_algorithms (H := ExactInt.mpfr) false 1 (InPlace.prhs 1)
      2001 (Examples.mex_of InPlace.values) = Ok m1 /\
    data (mex_pool m1) = Some d1 /\ plhs0 m1 = Some st1 /\
    mex_mpfr_algorithms (H := ExactInt.mpfr) false 1 (InPlace.prhs 2)
      2001 (Examples.mex_of InPlace.values) = Ok m1 /\
    mpfr_apa_mmm_omp (H := ExactInt.mpfr) (1 - 1) (1 - 1) (7 - 1) MPFR_RNDN
      3 2 2 (order_ij 3 2 ≫= mmm_body 2) InPlace.data
      (new_status_array 1 (3 * 2)) 1
    = Ok (d1, st1).
Proof.
  assert (conforming (InPlace.args 1) 2 2) as Hconf
    by (unfold conforming; simpl; lia).
  assert (arg_A (InPlace.args 1) = arg_C (InPlace.args 1)) as EA
    by reflexivity.
  assert (end_ (arg_C (InPlace.args 1)) < start (arg_B (InPlace.args 1)) \/
          end_ (arg_B (InPlace.args 1)) < start (arg_C (InPlace.args 1)))
    as HCB by (left; simpl; lia).
  destruct (strategies_agree (H := ExactInt.mpfr) false 1
              (InPlace.prhs 1) (InPlace.prhs 2)
              (Examples.mex_of InPlace.values) InPlace.data
              (InPlace.args 1) (InPlace.args 2) 2 2)
    as (m1 & d1 & st1 & g & H1 & _ & Hd & Hst & _ & _ & _ & H2 & H3);
    try reflexivity.
  - eexists. split; [reflexivity|]. vm_compute. repeat split; congruence.
  - repeat split; vm_compute; reflexivity.
  - repeat split; vm_compute; reflexivity.
  - exact Hconf.
  - exists m1, d1, st1. split; [exact H1|]. split; [exact Hd|].
    split; [exact Hst|]. split.
    + apply H2.
      apply (in_place_conflict_free (InPlace.args 1) 2 2 crossing Hconf EA HCB).
      exact crossing_rows.
    + destruct (H3 3 (order_ij 3 2 ≫= mmm_body 2)) as (st' & Hrun & Hs & _).
      * lia.
      * apply loops_omp_schedule. lia.
      * apply (in_place_conflict_free (InPlace.args 1) 2 2 (concurrent 3)
                 Hconf EA HCB).
        intros e e' He. exact He.
      * rewrite <- (Hs ltac:(lia)). exact Hrun.
Defined.

(** ** The transposition *)

Section Transpose.
Context `{Mpfr}.
Variables (R O : Z) (rnd : mpfr_rnd_t) (ropM ropN : Z).

Lemma transpose_shape_length d d' :
  length d = length d' ->
  transpose_shape d' R O ropM ropN -> transpose_shape d R O ropM ropN.
Proof. intros Hl []. split; rewrite ?Hl; done. Qed.

Lemma tshape_index d i j :
  transpose_shape d R O ropM ropN -> in_matrix ropM ropN (i, j) ->
  wrap (j * ropM) = j * ropM /\ wrap (i * ropN) = i * ropN /\
  0 <= ropM * j + i < ropM * ropN /\ 0 <= ropN * i + j < ropM * ropN.
Proof.
  intros [] [Hi Hj]. simpl in *.
  assert (0 <= ropM * j + i < ropM * ropN) by nia.
  assert (0 <= ropN * i + j < ropM * ropN) by nia.
  split; [apply wrap_small; nia|]. split; [apply wrap_small; nia|]. done.
Qed.

Lemma transpose_set_Ok d ret_ptr ret_stride ij :
  transpose_shape d R O ropM ropN ->
  status_shape ret_ptr ret_stride ropM ropN ->
  in_matrix ropM ropN ij ->
  transpose_set R O rnd ropM ropN ret_stride ij.1 ij.2 (d, ret_ptr)
  = Ok (<[cpos R ropM ij := (transposed d R O rnd ropM ropN ij).1]> d,
        <[Z.to_nat (ij.1 * ret_stride) :=
            (transposed d R O rnd ropM ropN ij).2]> ret_ptr).
Proof.
  destruct ij as [i j]. intros Hs Hr Hij.
  destruct (tshape_index d i j Hs Hij) as (EwR & EwO & HR & HO).
  destruct Hs. pose proof Hij as [Hi Hj]. simpl in Hi, Hj.
  unfold transpose_set, transposed, cpos. cbn [fst snd].
  rewrite EwR, EwO.
  replace (R + j * ropM + i) with (R + ropM * j + i) by lia.
  replace (O + i * ropN + j) with (O + ropN * i + j) by lia.
  rewrite load_cell by lia. cbn [mbind res_bind].
  rewrite load_cell by lia. cbn [mbind res_bind].
  rewrite (store_cell d) by lia. cbn [mbind res_bind].
  assert (wrap (i * ret_stride) = i * ret_stride /\
          0 <= i * ret_stride < Z.of_nat (length ret_ptr)) as [Ew Hb].
  { destruct Hr as [[-> Hl]|[-> Hl]].
    - rewrite Z.mul_0_r. split; [by apply wrap_small|lia].
    - rewrite Z.mul_1_r. split; [apply wrap_small; nia|nia]. }
  rewrite Ew, store_cell by done. done.
Qed.

(** The cells of [rop] written one after the other, in the order of [l]:
    each receives the cell of [op] that the initial array holds. *)
Lemma transpose_entries_Ok d0 ret_stride (l : list (Z * Z)) :
  transpose_shape d0 R O ropM ropN ->
  NoDup l -> (forall ij, ij ∈ l -> in_matrix ropM ropN ij) ->
  forall d ret_ptr,
    status_shape ret_ptr ret_stride ropM ropN ->
    length d = length d0 ->
    (forall p, O <= p < O + ropM * ropN -> cell d p = cell d0 p) ->
    (forall ij, ij ∈ l ->
                cell d (R + ropM * ij.2 + ij.1) = cell d0 (R + ropM * ij.2 + ij.1)) ->
    foldM (fun ij => transpose_set R O rnd ropM ropN ret_stride ij.1 ij.2) l
      (d, ret_ptr)
    = Ok (writes (cpos R ropM) (fun ij => (transposed d0 R O rnd ropM ropN ij).1) l d,
          writes (fun ij => Z.to_nat (ij.1 * ret_stride))
            (fun ij => (transposed d0 R O rnd ropM ropN ij).2) l ret_ptr).
Proof.
  intros Hs. induction l as [|ij l IH]; intros Hnd Hin d ret_ptr Hr Hl HO HR;
    [done|].
  apply NoDup_cons in Hnd as [Hij Hnd].
  assert (in_matrix ropM ropN ij) as Hm by apply Hin, list_elem_of_here.
  pose proof (transpose_shape_length d d0 Hl Hs) as Hsd.
  cbn [foldM]. rewrite (transpose_set_Ok d ret_ptr ret_stride ij) by done.
  cbn [mbind res_bind]. rewrite !writes_cons.
  destruct (tshape_index d ij.1 ij.2 Hsd) as (_ & _ & HRi & HOi);
    [by destruct ij|].
  assert (transposed d R O rnd ropM ropN ij = transposed d0 R O rnd ropM ropN ij)
    as ->.
  { unfold transposed. rewrite (HR ij) by apply list_elem_of_here.
    destruct Hsd. rewrite (HO (O + ropN * ij.1 + ij.2)) by lia. done. }
  destruct Hsd.
  assert (forall p x, 0 <= p -> Z.to_nat p <> cpos R ropM ij ->
            cell (<[cpos R ropM ij := x]> d) p = cell d p) as Hother.
  { intros p x Hp Hne. unfold cell. by rewrite list_lookup_insert_ne. }
  apply IH.
  - done.
  - intros ij' Hij'. by apply Hin, list_elem_of_further.
  - destruct Hr as [[-> Hlen]|[-> Hlen]]; [left|right];
      (split; [done|rewrite length_insert; lia]).
  - rewrite length_insert. done.
  - intros p Hp. rewrite Hother; [by apply HO|lia|unfold cpos; lia].
  - intros ij' Hij'.
    assert (in_matrix ropM ropN ij') as Hm' by by apply Hin, list_elem_of_further.
    rewrite Hother.
    + by apply HR, list_elem_of_further.
    + destruct Hm' as [? ?]. nia.
    + intros Hp. apply Hij.
      replace ij with ij'; [done|].
      apply (cpos_inj R ropM ropN); try done. lia.
Qed.
End Transpose.

Section TransposeCall.
Context `{Mpfr}.
Variable MPLAPACK : bool.

(** On a call whose ranges have [ropM * ropN] cells each and do not
    overlap, no check fires and every cell of [rop] is written. *)
Lemma cmd_transpose_Ok (nlhs : Z) (prhs : list mxArray) (m : mex) d
    (rop op : idx_t) (rnd : mpfr_rnd_t) (ropM ropN : Z) :
  data (mex_pool m) = Some d -> data_block (mex_pool m) ->
  transpose_decodes prhs (mex_pool m) rop op rnd ropM ->
  0 < ropM -> 0 <= ropN ->
  end_ rop - start rop + 1 = ropM * ropN ->
  end_ op - start op + 1 = ropM * ropN ->
  end_ rop < start op \/ end_ op < start rop ->
  transpose_shape d (start rop - 1) (start op - 1) ropM ropN /\
  mex_mpfr_algorithms MPLAPACK nlhs prhs 2000 m
  = Ok {| mex_pool :=
            set_data
              (Some (writes (cpos (start rop - 1) ropM)
                       (fun ij => (transposed d (start rop - 1) (start op - 1)
                                     rnd ropM ropN ij).1)
                       (order_ij ropM ropN) d))
              (mex_pool m);
          throw_error := throw_error m;
          plhs0 :=
            Some (writes (fun ij => Z.to_nat (ij.1 * (if nlhs =? 0 then 0 else 1)))
                    (fun ij => (transposed d (start rop - 1) (start op - 1)
                                  rnd ropM ropN ij).2)
                    (order_ij ropM ropN)
                    (new_status_array nlhs (ropM * ropN))) |}.
Proof.
  intros Hd Hblock (Hn & HR & HO & Hrnd & HM) HMpos HN HlR HlO Hdisj.
  pose proof (extract_idx_valid _ _ _ _ HR) as HvR.
  pose proof (extract_idx_valid _ _ _ _ HO) as HvO.
  destruct (valid_range_facts _ _ Hblock HvR) as (ER & LR & ? & ? & ?).
  destruct (valid_range_facts _ _ Hblock HvO) as (EO & LO & ? & ? & ?).
  assert (transpose_shape d (start rop - 1) (start op - 1) ropM ropN) as Hs.
  { destruct Hblock as (d' & Hd' & Hl & Hsz & Hcap).
    rewrite Hd in Hd'. injection Hd' as <-. split; lia. }
  split; [done|].
  unfold mex_mpfr_algorithms, cmd_transpose.
  rewrite Hn, HR. cbn [Nat.eqb negb mbind res_bind].
  rewrite HO. cbn [mbind res_bind].
  rewrite Hrnd. cbn [mbind res_bind].
  rewrite HM. cbn [mbind res_bind default from_option failed orb].
  unfold id, udiv. rewrite LR, LO, HlR, HlO, ER, EO.
  rewrite Z.eqb_refl. cbn [negb].
  destruct (Z.eqb_spec ropM 0) as [?|_]; [lia|].
  replace ((ropM * ropN) `div` ropM) with ropN
    by (rewrite Z.mul_comm, Z.div_mul; lia).
  cbn [mbind res_bind]. rewrite Hd. cbn [deref mbind res_bind].
  rewrite loops_ij.
  rewrite (transpose_entries_Ok (start rop - 1) (start op - 1) rnd ropM ropN d);
    try done.
  - apply NoDup_order_ij.
  - intros ij. apply elem_of_order_ij.
  - apply status_shape_new. nia.
Qed.

Lemma transpose_cells d R O ropM ropN (v : Z * Z -> mpfr_t) :
  transpose_shape d R O ropM ropN ->
  length (writes (cpos R ropM) v (order_ij ropM ropN) d) = length d /\
  (forall i j, in_matrix ropM ropN (i, j) ->
     cell (writes (cpos R ropM) v (order_ij ropM ropN) d) (R + ropM * j + i)
     = v (i, j)) /\
  (forall p, 0 <= p -> p < R \/ R + ropM * ropN <= p ->
     cell (writes (cpos R ropM) v (order_ij ropM ropN) d) p = cell d p).
Proof.
  intros Hs. split; [apply writes_length|]. split.
  - intros i j Hij. unfold cell.
    destruct (tshape_index R O ropM ropN d i j Hs Hij) as (_ & _ & HR & _).
    change (Z.to_nat (R + ropM * j + i)) with (cpos R ropM (i, j)).
    rewrite (writes_lookup_at (cpos R ropM) v _ d (i, j));
      [done|by apply elem_of_order_ij| |].
    + intros ij' Hij' Hp. f_equal. apply (cpos_inj R ropM ropN); try done.
      * by destruct Hs as [_ _ _ [? _]].
      * by apply elem_of_order_ij.
    + destruct Hs. unfold cpos. simpl. lia.
  - intros p Hp Hout. unfold cell. rewrite writes_lookup_other; [done|].
    intros [i j] Hij Hpos. apply elem_of_order_ij in Hij.
    destruct (tshape_index R O ropM ropN d i j Hs Hij) as (_ & _ & HR & _).
    destruct Hs. unfold cpos in Hpos. simpl in Hpos. lia.
Qed.
End TransposeCall.

(** C9.  Let [X] hold an [M] by [N] matrix, let [Y] be a range of the same
    length that does not overlap [X], and let [W] be a range of the same
    length that does not overlap [Y] ([W] may be [X] itself); each cell of
    [Y] and of [W] has the precision of the element it is to receive (as
    when all elements have one precision).  Transposing [X] into [Y] with
    [N] output rows and then [Y] into [W] with [M] output rows returns
    without error, and
    - after the first call [Y] holds the transpose: [Y[j,i]] is what
      [X[i,j]] held, and no cell outside [Y] has changed;
    - after the second call every [W[i,j]] is what the first call left in
      [Y[j,i]], which is what [X[i,j]] held at the start, and no cell
      outside [W] has changed.
    With [W = X] this is the round trip.  The property of MPFR used:
    [mpfr_set] between two variables of the same precision copies the
    value unchanged. *)
Theorem transpose_round_trip `{Mpfr} (MPLAPACK : bool) (nlhs1 nlhs2 : Z)
    (prhs1 prhs2 : list mxArray) (m : mex) d (X Y W : idx_t)
    (rnd1 rnd2 : mpfr_rnd_t) (M N : Z) :
  (forall rop op rnd,
      mpfr_get_prec rop = mpfr_get_prec op -> (mpfr_set rop op rnd).1 = op) ->
  data (mex_pool m) = Some d -> data_block (mex_pool m) ->
  0 < M -> 0 < N ->
  end_ X - start X + 1 = M * N -> end_ Y - start Y + 1 = M * N ->
  end_ W - start W + 1 = M * N ->
  end_ X < start Y \/ end_ Y < start X ->
  end_ W < start Y \/ end_ Y < start W ->
  (forall i j, in_matrix M N (i, j) ->
     mpfr_get_prec (cell d (start Y - 1 + N * i + j))
     = mpfr_get_prec (cell d (start X - 1 + M * j + i)) /\
     mpfr_get_prec (cell d (start W - 1 + M * j + i))
     = mpfr_get_prec (cell d (start X - 1 + M * j + i))) ->
  transpose_decodes prhs1 (mex_pool m) Y X rnd1 N ->
  transpose_decodes prhs2 (mex_pool m) W Y rnd2 M ->
  exists m1 m2 d1 d2,
    mex_mpfr_algorithms MPLAPACK nlhs1 prhs1 2000 m = Ok m1 /\
    mex_mpfr_algorithms MPLAPACK nlhs2 prhs2 2000 m1 = Ok m2 /\
    throw_error m2 = throw_error m /\
    data (mex_pool m1) = Some d1 /\ data (mex_pool m2) = Some d2 /\
    (forall i j, in_matrix M N (i, j) ->
       cell d1 (start Y - 1 + N * i + j) = cell d (start X - 1 + M * j + i) /\
       cell d2 (start W - 1 + M * j + i) = cell d1 (start Y - 1 + N * i + j) /\
       cell d2 (start W - 1 + M * j + i) = cell d (start X - 1 + M * j + i)) /\
    (forall p, 0 <= p -> p < start Y - 1 \/ end_ Y <= p ->
       cell d1 p = cell d p) /\
    (forall p, 0 <= p -> p < start W - 1 \/ end_ W <= p ->
       cell d2 p = cell d1 p).
Proof.
  intros Hexact Hd Hblock HM HN HlX HlY HlW Hdisj HdisjW Hprec Hdec1 Hdec2.
  pose proof Hdec1 as (_ & HvY & HvX & _).
  pose proof Hdec2 as (_ & HvW & _).
  apply extract_idx_valid in HvY, HvX, HvW.
  apply is_valid_true in HvY, HvX, HvW.
  destruct (cmd_transpose_Ok MPLAPACK nlhs1 prhs1 m d Y X rnd1 N M)
    as (Hs1 & Hrun1); try (done || lia).
  set (d1 := writes (cpos (start Y - 1) N)
               (fun ij => (transposed d (start Y - 1) (start X - 1) rnd1 N M ij).1)
               (order_ij N M) d) in *.
  destruct (transpose_cells d (start Y - 1) (start X - 1) N M
              (fun ij => (transposed d (start Y - 1) (start X - 1) rnd1 N M ij).1)
              Hs1) as (Hlen1 & Hin1 & Hout1).
  fold d1 in Hlen1, Hin1, Hout1.
  match type of Hrun1 with _ = Ok ?r => set (m1 := r) in * end.
  assert (data_block (mex_pool m1)) as Hblock1.
  { destruct Hblock as (d' & Hd' & Hl & Hsz & Hcap).
    rewrite Hd in Hd'. injection Hd' as <-.
    exists d1. simpl. rewrite Hlen1. done. }
  destruct (cmd_transpose_Ok MPLAPACK nlhs2 prhs2 m1 d1 W Y rnd2 M N)
    as (Hs2 & Hrun2); try (done || lia).
  destruct (transpose_cells d1 (start W - 1) (start Y - 1) M N
              (fun ij => (transposed d1 (start W - 1) (start Y - 1) rnd2 M N ij).1)
              Hs2) as (Hlen2 & Hin2 & Hout2).
  (* what the first call leaves in [Y] *)
  assert (forall i j, in_matrix M N (i, j) ->
            cell d1 (start Y - 1 + N * i + j) = cell d (start X - 1 + M * j + i))
    as HY.
  { intros i j [Hi Hj]. simpl in Hi, Hj.
    rewrite (Hin1 j i) by (split; done).
    unfold transposed. cbn [fst snd]. apply Hexact.
    by apply (Hprec i j). }
  eexists _, _, _, _. split; [exact Hrun1|]. split; [exact Hrun2|].
  split; [done|]. split; [reflexivity|]. split; [reflexivity|].
  split; [|split].
  - intros i j Hij. pose proof Hij as [Hi Hj]. simpl in Hi, Hj.
    assert (cell (writes (cpos (start W - 1) M)
                    (fun ij => (transposed d1 (start W - 1) (start Y - 1)
                                  rnd2 M N ij).1) (order_ij M N) d1)
              (start W - 1 + M * j + i)
            = cell d1 (start Y - 1 + N * i + j)) as HW.
    { rewrite (Hin2 i j) by done. unfold transposed. cbn [fst snd].
      apply Hexact. rewrite (HY i j) by done.
      rewrite Hout1; [by apply (Hprec i j)|nia|nia]. }
    split; [by apply HY|]. split; [exact HW|].
    rewrite HW. by apply HY.
  - intros p Hp Hrange. apply Hout1; [done|lia].
  - intros p Hp Hrange. apply Hout2; [done|lia].
Qed.

Lemma transpose_round_trip_witness :
  exists m1 m2 d1 d2,
    mex_mpfr_algorithms (H := ExactInt.mpfr) false 1
      (Examples.transpose_prhs (Examples.range 7 12) (Examples.range 1 6) 3)
      2000 (Examples.mex_of ThreeRanges.values) = Ok m1 /\
    mex_mpfr_algorithms (H := ExactInt.mpfr) false 1
      (Examples.transpose_prhs (Examples.range 13 18) (Examples.range 7 12) 2)
      2000 m1 = Ok m2 /\
    throw_error m2 = throw_error (Examples.mex_of ThreeRanges.values) /\
    data (mex_pool m1) = Some d1 /\ data (mex_pool m2) = Some d2 /\
    (forall i j, in_matrix 2 3 (i, j) ->
       cell d1 (7 - 1 + 3 * i + j) = cell ThreeRanges.data (1 - 1 + 2 * j + i) /\
       cell d2 (13 - 1 + 2 * j + i) = cell d1 (7 - 1 + 3 * i + j) /\
       cell d2 (13 - 1 + 2 * j + i)
       = cell ThreeRanges.data (1 - 1 + 2 * j + i)) /\
    (forall p, 0 <= p -> p < 7 - 1 \/ 12 <= p ->
       cell d1 p = cell ThreeRanges.data p) /\
    (forall p, 0 <= p -> p < 13 - 1 \/ 18 <= p -> cell d2 p = cell d1 p).
Proof.
  apply (transpose_round_trip (H := ExactInt.mpfr) false 1 1
           (Examples.transpose_prhs (Examples.range 7 12) (Examples.range 1 6) 3)
           (Examples.transpose_prhs (Examples.range 13 18) (Examples.range 7 12) 2)
           (Examples.mex_of ThreeRanges.values) ThreeRanges.data
           (Examples.range 1 6) (Examples.range 7 12) (Examples.range 13 18)
           MPFR_RNDN MPFR_RNDN 2 3);
    try reflexivity; try (simpl; lia).
  - eexists. split; [reflexivity|]. vm_compute. repeat split; congruence.
  - repeat split; vm_compute; reflexivity.
  - repeat split; vm_compute; reflexivity.
Defined.

(** ** Lists of free entries *)

Lemma pairwise_delete (R : idx_t -> idx_t -> Prop) (l : list idx_t) (k : nat) :
  pairwise R l -> pairwise R (delete k l).
Proof.
  intros Hp i j e f Hij. rewrite !list_lookup_delete.
  repeat case_decide; intros He Hf; (eapply Hp; [|exact He|exact Hf]; lia).
Qed.

Lemma pairwise_insert (R : idx_t -> idx_t -> Prop) (l : list idx_t) (k : nat)
    (e' : idx_t) :
  pairwise R l ->
  (forall j g, j <> k -> l !! j = Some g -> R e' g /\ R g e') ->
  pairwise R (<[k := e']> l).
Proof.
  intros Hp He' i j e f Hij Hi Hj.
  apply list_lookup_insert_Some in Hi as [(-> & -> & _)|[Hik Hi]];
    apply list_lookup_insert_Some in Hj as [(-> & -> & _)|[Hjk Hj]].
  - done.
  - by apply (He' j f).
  - by apply (He' i e).
  - by apply (Hp i j).
Qed.

Lemma pairwise_snoc (R : idx_t -> idx_t -> Prop) (l : list idx_t) (x : idx_t) :
  pairwise R l -> (forall g, g ∈ l -> R g x /\ R x g) ->
  pairwise R (l ++ [x]).
Proof.
  intros Hp Hx i j e f Hij Hi Hj.
  apply lookup_app_Some in Hi as [Hi|[Hil Hi]];
    apply lookup_app_Some in Hj as [Hj|[Hjl Hj]].
  - by apply (Hp i j).
  - apply list_lookup_singleton_Some in Hj as [_ <-].
    apply Hx. by eapply list_elem_of_lookup_2.
  - apply list_lookup_singleton_Some in Hi as [_ <-].
    apply Hx. by eapply list_elem_of_lookup_2.
  - apply list_lookup_singleton_Some in Hi as [Hi _].
    apply list_lookup_singleton_Some in Hj as [Hj _]. lia.
Qed.

Lemma neighbours_adjacent (size : Z) (fi fj : idx_t) :
  size < 2 ^ 64 -> entry_ok size fi -> entry_ok size fj ->
  neighbours fi fj = true <-> adjacent fi fj.
Proof.
  intros Hs (? & ? & ?) (? & ? & ?). unfold neighbours, adjacent.
  rewrite orb_true_iff, !Z.eqb_eq.
  assert (forall e s, 0 <= e < 2 ^ 64 -> 1 <= s < 2 ^ 64 ->
                      wrap (e + 1) = s <-> e + 1 = s) as Hw.
  { intros e s He Hs1. destruct (Z_lt_ge_dec (e + 1) (2 ^ 64)).
    - by rewrite wrap_small by lia.
    - rewrite wrap_over by lia. lia. }
  rewrite (Hw (end_ fi) (start fj)), (Hw (end_ fj) (start fi)) by lia. done.
Qed.

(** Merging two adjacent entries gives their union. *)
Lemma merged_union (fi fj : idx_t) :
  start fi <= end_ fi -> start fj <= end_ fj -> adjacent fi fj ->
  (end_ fi + 1 = start fj /\ start (merged fi fj) = start fi /\
   end_ (merged fi fj) = end_ fj) \/
  (end_ fj + 1 = start fi /\ start (merged fi fj) = start fj /\
   end_ (merged fi fj) = end_ fi).
Proof.
  intros Hi Hj [Ha|Ha]; [left|right]; unfold merged; simpl;
    destruct (Z.leb_spec (start fi) (start fj)), (Z.geb_spec (end_ fi) (end_ fj));
    lia.
Qed.

(** ** The free-list array and its live entries *)

Section FreeListState.
Context `{Mpfr}.

Lemma live_lookup (s : pool) a (k : nat) :
  free_list s = Some a -> (k < Z.to_nat (free_list_size s))%nat ->
  live s !! k = a !! k.
Proof. intros Ha Hk. unfold live. rewrite Ha. by apply lookup_take_lt. Qed.

Lemma live_length (s : pool) :
  free_list_block s -> free_list_size s <> 0 \/ free_list s <> None ->
  length (live s) = Z.to_nat (free_list_size s).
Proof.
  intros (Hsz & Hcap & Hblock) Hne. unfold live.
  destruct (free_list s) as [a|].
  - rewrite length_take. lia.
  - simpl. destruct Hne; [lia|done].
Qed.

Lemma fl_get_live (s : pool) (k : nat) e :
  (k < Z.to_nat (free_list_size s))%nat ->
  fl_get s (Z.of_nat k) = Ok e -> live s !! k = Some e.
Proof.
  intros Hk Hget. apply fl_get_inv in Hget as (a & Ha & _ & He).
  rewrite Nat2Z.id in He. by rewrite (live_lookup s a).
Qed.

Lemma live_fl_get (s : pool) (k : nat) e :
  live s !! k = Some e -> fl_get s (Z.of_nat k) = Ok e.
Proof.
  unfold live. destruct (free_list s) as [a|] eqn:Ha; [|done].
  intros He. apply lookup_take_Some in He as [He _].
  by apply (fl_get_Ok s a).
Qed.

Lemma fl_put_live (s s' : pool) (k : nat) e :
  (k < Z.to_nat (free_list_size s))%nat ->
  fl_put s (Z.of_nat k) e = Ok s' ->
  live s' = <[k := e]> (live s) /\ same_data s s' /\
  free_list_size s' = free_list_size s /\
  (free_list_block s -> free_list_block s').
Proof.
  intros Hk. unfold fl_put.
  destruct (free_list s) as [a|] eqn:Ha; [|done]. simpl.
  destruct (store a (Z.of_nat k) e) as [a'|] eqn:Hst; [|done]. simpl.
  apply store_inv in Hst as (_ & Hlt & ->). rewrite Nat2Z.id in *.
  intros [= <-]. unfold live, same_data, free_list_block. simpl. rewrite Ha.
  split; [by rewrite take_insert_lt|]. split; [done|]. split; [done|].
  by rewrite length_insert.
Qed.

(** The loop of [free_list_remove] on an array without a cell [i + k]. *)
Lemma free_list_remove_loop_short (k i : nat) (s : pool) a :
  free_list s = Some a -> (0 < k)%nat -> (length a <= i + k)%nat ->
  free_list_remove_loop k (Z.of_nat i) s = Err OutOfBounds.
Proof.
  revert i s a. induction k as [|k IH]; intros i s a Ha Hk Hlen; [lia|].
  simpl. replace (Z.of_nat i + 1) with (Z.of_nat (S i)) by lia.
  destruct (decide (length a <= S i)%nat) as [Hshort|Hlong].
  - unfold fl_get. rewrite Ha. simpl. by rewrite load_oob.
  - destruct (lookup_lt_is_Some_2 a (S i)) as [e He]; [lia|].
    rewrite (fl_get_Ok s a (S i) e Ha He). simpl.
    rewrite (fl_put_Ok s a i e Ha) by lia. simpl.
    apply (IH (S i) _ (<[i:=e]> a)); [done|lia|rewrite length_insert; lia].
Qed.

(** What a call of [free_list_remove] that returns has done. *)
Lemma free_list_remove_inv (k : nat) (s s' : pool) :
  free_list_block s -> (k < Z.to_nat (free_list_size s))%nat ->
  free_list_remove (Z.of_nat k) s = Ok s' ->
  free_list_size s < free_list_capacity s /\
  live s' = delete k (live s) /\ same_data s s' /\
  free_list_size s' = free_list_size s - 1 /\ free_list_block s'.
Proof.
  intros (Hsz & Hcap & Hblock) Hk Hrun.
  destruct (free_list s) as [a|] eqn:Ha.
  2:{ unfold free_list_remove in Hrun.
      replace (Z.to_nat (free_list_size s - Z.of_nat k))
        with (S (Z.to_nat (free_list_size s - Z.of_nat k) - 1)) in Hrun by lia.
      simpl in Hrun. unfold fl_get in Hrun. by rewrite Ha in Hrun. }
  destruct (decide (Z.to_nat (free_list_size s) < length a)%nat) as [Hspare|Hfull].
  - destruct (free_list_remove_Ok k s a Ha Hk Hspare ltac:(lia))
      as (a' & Hrun' & Hl & Htake & _).
    rewrite Hrun' in Hrun. injection Hrun as <-.
    unfold live, same_data, free_list_block. simpl. rewrite Ha.
    split; [lia|]. split; [done|]. split; [done|]. split; [done|].
    rewrite Hl. lia.
  - unfold free_list_remove in Hrun.
    rewrite (free_list_remove_loop_short _ k s a Ha) in Hrun; [done|lia|lia].
Qed.

(** With a spare cell every call returns. *)
Lemma free_list_remove_spare (k : nat) (s : pool) :
  free_list_block s -> (k < Z.to_nat (free_list_size s))%nat ->
  free_list_size s < free_list_capacity s ->
  exists s', free_list_remove (Z.of_nat k) s = Ok s'.
Proof.
  intros (Hsz & Hcap & Hblock) Hk Hspare.
  destruct (free_list s) as [a|] eqn:Ha; [|lia].
  destruct (free_list_remove_Ok k s a Ha Hk ltac:(lia) ltac:(lia))
    as (a' & Hrun' & _). eauto.
Qed.
End FreeListState.

(** ** What one turn of [free_list_compress] has done *)

Section CompressPass.
Context `{Mpfr}.

Lemma compress_inner_Some (n i j : nat) (s s' : pool) :
  free_list_compress_inner n (Z.of_nat i) (Z.of_nat j) s = Ok (Some s') ->
  exists (j' : nat) fi fj s1,
    (j <= j' < j + n)%nat /\
    fl_get s (Z.of_nat i) = Ok fi /\ fl_get s (Z.of_nat j') = Ok fj /\
    neighbours fi fj = true /\
    fl_put s (Z.of_nat i) (merged fi fj) = Ok s1 /\
    free_list_remove (Z.of_nat j') s1 = Ok s'.
Proof.
  revert j. induction n as [|n IH]; intros j; simpl; [done|].
  destruct (fl_get s (Z.of_nat i)) as [fi|] eqn:Hi; simpl; [|done].
  destruct (fl_get s (Z.of_nat j)) as [fj|] eqn:Hj; simpl; [|done].
  destruct (neighbours fi fj) eqn:Hn.
  - destruct (fl_put s (Z.of_nat i) (merged fi fj)) as [s1|] eqn:Hput;
      simpl; [|done].
    destruct (free_list_remove (Z.of_nat j) s1) as [s2|] eqn:Hrm; simpl; [|done].
    intros [= <-]. exists j, fi, fj, s1. repeat split; (done || lia).
  - replace (Z.of_nat j + 1) with (Z.of_nat (S j)) by lia. intros Hrec.
    destruct (IH (S j) Hrec) as (j' & fi' & fj' & s1 & Hr & Hi' & Hrest).
    exists j', fi', fj', s1. split; [lia|done].
Qed.

Lemma compress_inner_None (n i j : nat) (s : pool) :
  free_list_compress_inner n (Z.of_nat i) (Z.of_nat j) s = Ok None ->
  forall j' : nat, (j <= j' < j + n)%nat ->
    exists fi fj, fl_get s (Z.of_nat i) = Ok fi /\
                  fl_get s (Z.of_nat j') = Ok fj /\ neighbours fi fj = false.
Proof.
  revert j. induction n as [|n IH]; intros j; simpl; [intros _ j'; lia|].
  destruct (fl_get s (Z.of_nat i)) as [fi|] eqn:Hi; simpl; [|done].
  destruct (fl_get s (Z.of_nat j)) as [fj|] eqn:Hj; simpl; [|done].
  destruct (neighbours fi fj) eqn:Hn.
  - destruct (fl_put s (Z.of_nat i) (merged fi fj)) as [s1|]; simpl; [|done].
    destruct (free_list_remove (Z.of_nat j) s1); simpl; done.
  - replace (Z.of_nat j + 1) with (Z.of_nat (S j)) by lia. intros Hrec j' Hj'.
    destruct (decide (j' = j)) as [->|Hne].
    + exists fi, fj. done.
    + apply (IH (S j) Hrec). lia.
Qed.

Lemma compress_pass_Some (n i : nat) (s s' : pool) :
  free_list_compress_pass n (Z.of_nat i) s = Ok (Some s') ->
  (exists (k : nat) fi,
      (i <= k < i + n)%nat /\ fl_get s (Z.of_nat k) = Ok fi /\
      end_ fi = data_size s /\
      free_list_remove (Z.of_nat k) (set_data_size (wrap (start fi - 1)) s)
      = Ok s') \/
  (exists (k j' : nat) fi fj s1,
      (i <= k < i + n)%nat /\ (k < j')%nat /\
      Z.of_nat j' < free_list_size s /\
      fl_get s (Z.of_nat k) = Ok fi /\ fl_get s (Z.of_nat j') = Ok fj /\
      neighbours fi fj = true /\
      fl_put s (Z.of_nat k) (merged fi fj) = Ok s1 /\
      free_list_remove (Z.of_nat j') s1 = Ok s').
Proof.
  revert i. induction n as [|n IH]; intros i; simpl; [done|].
  destruct (fl_get s (Z.of_nat i)) as [fi|] eqn:Hi; simpl; [|done].
  destruct (Z.eqb_spec (end_ fi) (data_size s)) as [Hend|Hend].
  - destruct (free_list_remove _ _) as [s1|] eqn:Hrm; simpl; [|done].
    intros [= <-]. left. exists i, fi. repeat split; (done || lia).
  - replace (Z.of_nat i + 1) with (Z.of_nat (S i)) by lia.
    destruct (free_list_compress_inner _ _ _ s) as [[s1|]|] eqn:Hinner;
      simpl; [| |done].
    + intros [= <-]. right.
      apply compress_inner_Some in Hinner
        as (j' & fi' & fj & s1' & Hr & Hi' & Hj' & Hn & Hput & Hrm).
      rewrite Hi in Hi'. injection Hi' as <-.
      exists i, j', fi, fj, s1'. repeat split; (done || lia).
    + intros Hrec. destruct (IH (S i) Hrec) as
        [(k & fk & Hr & Hrest)|(k & j' & fk & fj & s1 & Hr & Hrest)].
      * left. exists k, fk. split; [lia|done].
      * right. exists k, j', fk, fj, s1. split; [lia|done].
Qed.

Lemma compress_pass_None (n i : nat) (s : pool) :
  free_list_compress_pass n (Z.of_nat i) s = Ok None ->
  forall k : nat, (i <= k < i + n)%nat ->
    exists fi, fl_get s (Z.of_nat k) = Ok fi /\ end_ fi <> data_size s /\
      forall j' : nat, (k < j')%nat -> Z.of_nat j' < free_list_size s ->
        exists fj, fl_get s (Z.of_nat j') = Ok fj /\ neighbours fi fj = false.
Proof.
  revert i. induction n as [|n IH]; intros i; simpl; [intros _ k; lia|].
  destruct (fl_get s (Z.of_nat i)) as [fi|] eqn:Hi; simpl; [|done].
  destruct (Z.eqb_spec (end_ fi) (data_size s)) as [Hend|Hend].
  - destruct (free_list_remove _ _); simpl; done.
  - replace (Z.of_nat i + 1) with (Z.of_nat (S i)) by lia.
    destruct (free_list_compress_inner _ _ _ s) as [[s1|]|] eqn:Hinner;
      simpl; [done| |done].
    intros Hrec k Hk. destruct (decide (k = i)) as [->|Hne].
    + exists fi. split; [done|]. split; [done|].
      intros j' Hj' Hlt.
      destruct (compress_inner_None _ _ _ _ Hinner j') as (fi' & fj & Hi' & Hj & Hn);
        [lia|].
      rewrite Hi in Hi'. injection Hi' as <-. eauto.
    + apply (IH (S i) Hrec). lia.
Qed.
End CompressPass.

(** ** The two rules keep the invariant *)

Section Rules.
Context `{Mpfr}.

Lemma fl_get_lt (s : pool) (k : nat) e :
  free_list_block s -> fl_get s (Z.of_nat k) = Ok e ->
  Z.of_nat k < free_list_capacity s.
Proof.
  intros (_ & _ & Hblock) Hget.
  apply fl_get_inv in Hget as (a & Ha & _ & He). rewrite Ha in Hblock.
  apply lookup_lt_Some in He. lia.
Qed.

Lemma rule1_inv (k : nat) (s s' : pool) fi :
  pool_inv s -> (k < Z.to_nat (free_list_size s))%nat ->
  fl_get s (Z.of_nat k) = Ok fi -> end_ fi = data_size s ->
  free_list_remove (Z.of_nat k) (set_data_size (wrap (start fi - 1)) s) = Ok s' ->
  pool_inv s' /\ live s' = delete k (live s) /\
  free_list_size s' = free_list_size s - 1 /\
  data_size s' = start fi - 1 /\
  data s' = data s /\ data_capacity s' = data_capacity s /\
  free_list_capacity s' = free_list_capacity s.
Proof.
  intros (Hblock & Hsize & Hok & Hdisj) Hk Hget Hend Hrm.
  apply fl_get_live in Hget; [|done].
  pose proof (proj1 (Forall_lookup _ _) Hok k fi Hget) as (Hf1 & Hf2 & Hf3).
  apply free_list_remove_inv in Hrm
    as (_ & Hlive & (Hd & Hdc & Hds & Hfc) & Hfs & Hblock'); [|done|done].
  simpl in *. rewrite wrap_small in Hds by lia.
  change (live (set_data_size (wrap (start fi - 1)) s)) with (live s) in Hlive.
  assert (Forall (entry_ok (data_size s')) (live s')) as Hok'.
  { rewrite Hlive, Hds. apply Forall_lookup. intros i g Hg.
    rewrite list_lookup_delete in Hg.
    assert (exists i', i' <> k /\ live s !! i' = Some g) as (i' & Hne & Hg').
    { case_decide; [exists i|exists (S i)]; split; (done || lia). }
    pose proof (proj1 (Forall_lookup _ _) Hok i' g Hg') as (Hg1 & Hg2 & Hg3).
    destruct (Hdisj i' k g fi Hne Hg' Hget) as [?|?]; unfold entry_ok; lia. }
  assert (pairwise disjoint (live s')) as Hdisj'.
  { rewrite Hlive. by apply pairwise_delete. }
  split; [|repeat split; (done || lia)].
  split; [done|]. split; [lia|done].
Qed.

Lemma rule2_inv (k j' : nat) (s s1 s' : pool) fi fj :
  pool_inv s -> (k < j')%nat -> Z.of_nat j' < free_list_size s ->
  fl_get s (Z.of_nat k) = Ok fi -> fl_get s (Z.of_nat j') = Ok fj ->
  neighbours fi fj = true ->
  fl_put s (Z.of_nat k) (merged fi fj) = Ok s1 ->
  free_list_remove (Z.of_nat j') s1 = Ok s' ->
  pool_inv s' /\ live s' = delete j' (<[k := merged fi fj]> (live s)) /\
  free_list_size s' = free_list_size s - 1 /\ same_data s s'.
Proof.
  intros (Hblock & Hsize & Hok & Hdisj) Hkj Hj Hgi Hgj Hn Hput Hrm.
  apply fl_get_live in Hgi; [|lia]. apply fl_get_live in Hgj; [|lia].
  pose proof (proj1 (Forall_lookup _ _) Hok k fi Hgi) as Hoki.
  pose proof (proj1 (Forall_lookup _ _) Hok j' fj Hgj) as Hokj.
  apply (neighbours_adjacent (data_size s)) in Hn; [|lia|done|done].
  apply fl_put_live in Hput as (Hlive1 & Hsame1 & Hfs1 & Hblock1); [|lia].
  apply free_list_remove_inv in Hrm
    as (_ & Hlive & Hsame & Hfs & Hblock'); [|by apply Hblock1|lia].
  destruct Hsame1 as (Hd1 & Hdc1 & Hds1 & Hfc1).
  destruct Hsame as (Hd & Hdc & Hds & Hfc).
  rewrite Hlive1 in Hlive.
  assert (same_data s s') as Hsame'.
  { unfold same_data. rewrite Hd, Hdc, Hds, Hfc. done. }
  split; [|split; [done|split; [lia|done]]].
  destruct Hoki as (Hi1 & Hi2 & Hi3), Hokj as (Hj1 & Hj2 & Hj3).
  pose proof (merged_union fi fj Hi2 Hj2 Hn) as Hm.
  (* every entry of the new list is the merged one or an old one that is
     neither of the two *)
  assert (forall i g, live s' !! i = Some g ->
            (i = k /\ g = merged fi fj) \/
            (i <> k /\ exists i', i' <> k /\ i' <> j' /\ live s !! i' = Some g /\
                                 ((i' = i /\ (i < j')%nat) \/
                                  (i' = S i /\ (j' <= i)%nat)))) as Hcases.
  { intros i g. rewrite Hlive, list_lookup_delete.
    case_decide as Hij.
    - intros Hg. apply list_lookup_insert_Some in Hg as [(-> & -> & _)|[Hne Hg]].
      + by left.
      + right. split; [done|]. exists i. repeat split; (done || lia || (left; lia) || (right; lia)).
    - intros Hg. apply list_lookup_insert_Some in Hg as [(Heq & _ & _)|[Hne Hg]].
      + lia.
      + right. split; [lia|]. exists (S i). repeat split; (done || lia || (left; lia) || (right; lia)). }
  assert (forall i' g, i' <> k -> i' <> j' -> live s !! i' = Some g ->
            disjoint (merged fi fj) g /\ disjoint g (merged fi fj)) as Hmg.
  { intros i' g Hk' Hj' Hg.
    pose proof (proj1 (Forall_lookup _ _) Hok i' g Hg) as (Hg1 & Hg2 & Hg3).
    pose proof (Hdisj i' k g fi Hk' Hg Hgi) as Hgi'.
    pose proof (Hdisj i' j' g fj Hj' Hg Hgj) as Hgj'.
    unfold disjoint in *. lia. }
  split; [done|]. split; [lia|]. split.
  - rewrite Hds, Hds1. apply Forall_lookup. intros i g Hg.
    destruct (Hcases i g Hg) as [(-> & ->)|(_ & i' & _ & _ & Hg' & _)].
    + unfold entry_ok. lia.
    + by apply (proj1 (Forall_lookup _ _) Hok i' g).
  - intros i1 i2 g1 g2 Hne Hg1 Hg2.
    destruct (Hcases i1 g1 Hg1) as [(-> & ->)|(Hk1 & i1' & Hk1' & Hj1' & Hg1' & Hi1')];
      destruct (Hcases i2 g2 Hg2) as [(-> & ->)|(Hk2 & i2' & Hk2' & Hj2' & Hg2' & Hi2')].
    + done.
    + by apply (Hmg i2' g2).
    + by apply (Hmg i1' g1).
    + apply (Hdisj i1' i2' g1 g2); [|done|done].
      (* the two old positions differ: the list skips position [j'] *)
      lia.
Qed.
End Rules.

(** ** [free_list_compress] keeps the invariant and compacts *)

Section Compress.
Context `{Mpfr}.

Lemma compress_pass_inv (s s' : pool) :
  pool_inv s ->
  free_list_compress_pass (Z.to_nat (free_list_size s)) 0 s = Ok (Some s') ->
  pool_inv s' /\ shrunk s s' /\ free_list_size s' = free_list_size s - 1.
Proof.
  intros Hinv Hpass. change 0 with (Z.of_nat 0) in Hpass.
  pose proof Hinv as (Hblock & Hsize & Hok & Hdisj).
  apply compress_pass_Some in Hpass
    as [(k & fi & Hk & Hget & Hend & Hrm)
       |(k & j' & fi & fj & s1 & Hk & Hkj & Hj & Hgi & Hgj & Hn & Hput & Hrm)].
  - pose proof (fl_get_live s k fi ltac:(lia) Hget) as Hlive.
    pose proof (proj1 (Forall_lookup _ _) Hok k fi Hlive) as (? & ? & ?).
    destruct (rule1_inv k s s' fi Hinv ltac:(lia) Hget Hend Hrm)
      as (Hinv' & _ & Hfs & Hds & Hd & Hdc & Hfc).
    split; [done|]. split; [|done]. unfold shrunk. repeat split; (done || lia).
  - destruct (rule2_inv k j' s s1 s' fi fj Hinv Hkj Hj Hgi Hgj Hn Hput Hrm)
      as (Hinv' & _ & Hfs & (Hd & Hdc & Hds & Hfc)).
    split; [done|]. split; [|done]. unfold shrunk. repeat split; (done || lia).
Qed.

Lemma compress_pass_compacted (s : pool) :
  pool_inv s ->
  free_list_compress_pass (Z.to_nat (free_list_size s)) 0 s = Ok None ->
  compacted s.
Proof.
  intros (Hblock & Hsize & Hok & Hdisj) Hpass. change 0 with (Z.of_nat 0) in Hpass.
  pose proof (compress_pass_None _ _ _ Hpass) as Hnone.
  assert (forall k e, live s !! k = Some e ->
                      (k < Z.to_nat (free_list_size s))%nat) as Hlt.
  { intros k e He. unfold live in He. destruct (free_list s); [|done].
    by apply lookup_take_Some in He as [_ ?]. }
  split.
  - apply Forall_lookup. intros k e He.
    destruct (Hnone k) as (fi & Hget & Hend & _); [specialize (Hlt k e He); lia|].
    apply live_fl_get in He. rewrite He in Hget. by injection Hget as <-.
  - assert (forall i j e f, (i < j)%nat -> live s !! i = Some e ->
                            live s !! j = Some f -> ~ adjacent e f) as Hlt_adj.
    { intros i j e f Hij He Hf.
      pose proof (Hlt _ _ He). pose proof (Hlt _ _ Hf).
      destruct (Hnone i) as (fi & Hgi & _ & Hinner); [lia|].
      destruct (Hinner j) as (fj & Hgj & Hn); [lia|lia|].
      pose proof (live_fl_get _ _ _ He) as He'.
      pose proof (live_fl_get _ _ _ Hf) as Hf'.
      rewrite He' in Hgi. rewrite Hf' in Hgj.
      injection Hgi as <-. injection Hgj as <-.
      intros Hadj.
      apply (neighbours_adjacent (data_size s)) in Hadj; [congruence|lia| |].
      - by apply (proj1 (Forall_lookup _ _) Hok i e).
      - by apply (proj1 (Forall_lookup _ _) Hok j f). }
    intros i j e f Hne He Hf.
    destruct (decide (i < j)%nat).
    + by apply (Hlt_adj i j).
    + intros Hadj. apply (Hlt_adj j i f e); [lia|done|done|].
      unfold adjacent in *. tauto.
Qed.

Lemma compress_loop_inv (fuel : nat) (s s' : pool) :
  pool_inv s -> free_list_compress_loop fuel s = Ok s' ->
  pool_inv s' /\ compacted s' /\ shrunk s s'.
Proof.
  revert s. induction fuel as [|fuel IH]; intros s Hinv; simpl; [done|].
  destruct (free_list_compress_pass _ 0 s) as [[s1|]|] eqn:Hpass; simpl; [| |done].
  - intros Hloop.
    destruct (compress_pass_inv s s1 Hinv Hpass) as (Hinv1 & Hsh1 & _).
    destruct (IH s1 Hinv1 Hloop) as (Hinv' & Hc & Hsh).
    split; [done|]. split; [done|].
    unfold shrunk in *. destruct Hsh1 as (E1 & E2 & E3 & ? & ?).
    destruct Hsh as (E1' & E2' & E3' & ? & ?).
    repeat split; (congruence || lia).
  - intros [= <-]. split; [done|]. split; [by apply compress_pass_compacted|].
    unfold shrunk. repeat split; lia.
Qed.
End Compress.

(** ** [mex_mpfr_mark_free] keeps the invariant *)

Section MarkFree.
Context `{Mpfr}.

Lemma mark_free_extend_inl (o : mx_alloc idx_t) (s s' : pool) :
  mark_free_extend o s = inl s' -> free_list s' = None.
Proof.
  unfold mark_free_extend. destruct (_ =? _); [|done].
  destruct (match free_list s with Some _ => _ | None => _ end); [done|].
  by intros [= <-].
Qed.

(** After "Extend space if necessary" the entries are as before and
    there is room for one more. *)
Lemma mark_free_extend_inr (o : mx_alloc idx_t) (s s1 : pool) :
  pool_inv s -> free_list_capacity s + DATA_CHUNK_SIZE < 2 ^ 64 ->
  mark_free_extend o s = inr s1 ->
  pool_inv s1 /\ live s1 = live s /\
  free_list_size s1 = free_list_size s /\
  free_list_size s1 < free_list_capacity s1 /\
  free_list_capacity s <= free_list_capacity s1 /\
  data s1 = data s /\ data_size s1 = data_size s /\
  data_capacity s1 = data_capacity s.
Proof.
  intros ((Hsz & Hcap & Hblock) & Hsize & Hok & Hdisj) Hroom.
  unfold mark_free_extend, DATA_CHUNK_SIZE in *.
  destruct (Z.eqb_spec (free_list_size s) (free_list_capacity s)) as [Hfull|Hne].
  - rewrite wrap_small by lia.
    destruct (free_list s) as [a|] eqn:Ha.
    + destruct o as [|junk]; [done|]. simpl. intros [= <-].
      assert (live (set_free_list_capacity (free_list_capacity s + 1000)
                (set_free_list
                   (Some (take (Z.to_nat (free_list_capacity s + 1000)) a ++
                          replicate (Z.to_nat (free_list_capacity s + 1000)
                                     - length a) junk)) s)) = live s) as Hlive.
      { unfold live. simpl. rewrite Ha.
        rewrite take_app_le by (rewrite length_take; lia).
        rewrite take_take. f_equal. lia. }
      unfold pool_inv, free_list_block, free_list_inv. rewrite Hlive. simpl.
      rewrite length_app, length_take, length_replicate.
      repeat split; (done || lia).
    + destruct o as [|junk]; [done|]. simpl. intros [= <-].
      unfold pool_inv, free_list_block, free_list_inv, live in *. simpl.
      rewrite Ha in *. rewrite length_replicate.
      replace (Z.to_nat (free_list_size s)) with 0%nat by lia.
      repeat split; (done || lia).
  - intros [= <-]. unfold pool_inv, free_list_block, free_list_inv.
    repeat split; (done || lia).
Qed.

(** Appending a valid range that overlaps no entry. *)
Lemma mark_free_append (s1 s3 : pool) (idx : idx_t) d' :
  pool_inv s1 -> free_list_size s1 < free_list_capacity s1 ->
  is_valid idx s1 = true ->
  (forall e, e ∈ live s1 -> disjoint idx e) ->
  fl_put (set_data (Some d') s1) (free_list_size s1) idx = Ok s3 ->
  let s4 := set_free_list_size (wrap (free_list_size s3 + 1)) s3 in
  pool_inv s4 /\ live s4 = live s1 ++ [idx] /\
  free_list_size s4 = free_list_size s1 + 1 /\
  data s4 = Some d' /\ data_size s4 = data_size s1 /\
  data_capacity s4 = data_capacity s1 /\
  free_list_capacity s4 = free_list_capacity s1.
Proof.
  intros ((Hsz & Hcap & Hblock) & Hsize & Hok & Hdisj) Hroom Hv Hnew.
  apply is_valid_true in Hv.
  unfold fl_put. simpl.
  destruct (free_list s1) as [a|] eqn:Ha; [|lia]. simpl.
  destruct (store a (free_list_size s1) idx) as [a'|] eqn:Hst; [|done]. simpl.
  apply store_inv in Hst as (_ & Hlt & ->).
  intros [= <-]. simpl. rewrite wrap_small by lia.
  assert (live (set_free_list_size (free_list_size s1 + 1)
            (set_free_list (Some (<[Z.to_nat (free_list_size s1) := idx]> a))
               (set_data (Some d') s1))) = live s1 ++ [idx]) as Hlive.
  { unfold live. simpl. rewrite Ha.
    replace (Z.to_nat (free_list_size s1 + 1))
      with (S (Z.to_nat (free_list_size s1))) by lia.
    rewrite (take_S_r _ _ idx) by (by apply list_lookup_insert_eq).
    by rewrite take_insert_ge by lia. }
  unfold pool_inv, free_list_block, free_list_inv. rewrite Hlive. simpl.
  rewrite length_insert.
  split; [|repeat split; (done || lia)].
  split; [repeat split; (done || lia)|]. split; [done|]. split.
  - apply Forall_app. split; [done|]. by apply Forall_singleton.
  - apply pairwise_snoc; [done|]. intros g Hg.
    specialize (Hnew g Hg). unfold disjoint in *. tauto.
Qed.

Lemma mark_free_inv (o : mx_alloc idx_t) (idx : idx_t) (s s' : pool) :
  pool_inv s -> is_valid idx s = true ->
  (forall e, e ∈ live s -> disjoint idx e) ->
  free_list_capacity s + DATA_CHUNK_SIZE < 2 ^ 64 ->
  mex_mpfr_mark_free o idx s = Ok s' -> free_list s' <> None ->
  pool_inv s' /\ compacted s'.
Proof.
  intros Hinv Hv Hnew Hroom. unfold mex_mpfr_mark_free. rewrite Hv. simpl.
  destruct (mark_free_extend o s) as [sl|s1] eqn:Hext.
  { intros [= <-] Hne. by apply mark_free_extend_inl in Hext. }
  destruct (mark_free_extend_inr o s s1 Hinv Hroom Hext)
    as (Hinv1 & Hlive1 & Hfs1 & Hroom1 & _ & Hd1 & Hds1 & _).
  destruct (deref (data s1)) as [d|]; simpl; [|done].
  destruct (init_cells _ _ d) as [d'|]; simpl; [|done].
  destruct (fl_put _ _ idx) as [s3|] eqn:Hput; simpl; [|done].
  intros Hloop _.
  destruct (mark_free_append s1 s3 idx d' Hinv1 Hroom1) as (Hinv4 & _);
    [by rewrite <- Hv; unfold is_valid; rewrite Hds1
    |by rewrite Hlive1|done|].
  by destruct (compress_loop_inv _ _ _ Hinv4 Hloop) as (? & ? & _).
Qed.
End MarkFree.

(** ** [mex_mpfr_allocate] keeps the invariant *)

Section Allocate.
Context `{Mpfr}.

(** What the reuse loop has done when it returned from the function:
    entry [k] is the first that is long enough. *)
Lemma allocate_reuse_Some (n i : nat) (count : Z) (s : pool) r idx' s' :
  allocate_reuse n (Z.of_nat i) count s = Ok (Some (r, idx', s')) ->
  exists (k : nat) fi,
    (i <= k < i + n)%nat /\ fl_get s (Z.of_nat k) = Ok fi /\
    count <= Range.length fi /\
    (forall (k' : nat) fi', (i <= k' < k)%nat ->
        fl_get s (Z.of_nat k') = Ok fi' -> Range.length fi' < count) /\
    idx' = {| start := start fi; end_ := wrap (wrap (start fi + count) - 1) |} /\
    r = Z.b2z (is_valid idx' s') /\
    ((count < Range.length fi /\
      fl_put s (Z.of_nat k) {| start := wrap (start fi + count); end_ := end_ fi |}
      = Ok s') \/
     (count = Range.length fi /\ free_list_remove (Z.of_nat k) s = Ok s')).
Proof.
  revert i. induction n as [|n IH]; intros i; simpl; [done|].
  destruct (fl_get s (Z.of_nat i)) as [fi|] eqn:Hi; simpl; [|done].
  destruct (Z.leb_spec count (Range.length fi)) as [Hle|Hgt].
  - match goal with |- (?m ≫= _) = _ -> _ => destruct m as [s1|] eqn:Hs1 end;
      simpl; [|done].
    intros [= <- <- <-]. exists i, fi.
    split; [lia|]. split; [done|]. split; [done|]. split; [intros; lia|].
    split; [done|]. split; [done|].
    destruct (Z.ltb_spec count (Range.length fi)); [left|right];
      (split; [lia|done]).
  - replace (Z.of_nat i + 1) with (Z.of_nat (S i)) by lia. intros Hrec.
    destruct (IH (S i) Hrec) as (k & fk & Hk & Hget & Hlen & Hfirst & Hrest).
    exists k, fk. split; [lia|]. split; [done|]. split; [done|].
    split; [|done]. intros k' fi' Hk' Hget'.
    destruct (decide (k' = i)) as [->|Hne].
    + rewrite Hi in Hget'. by injection Hget' as <-.
    + apply (Hfirst k'); [lia|done].
Qed.

Lemma allocate_reuse_None (n i : nat) (count : Z) (s : pool) :
  allocate_reuse n (Z.of_nat i) count s = Ok None ->
  forall (k : nat), (i <= k < i + n)%nat ->
    exists fi, fl_get s (Z.of_nat k) = Ok fi /\ Range.length fi < count.
Proof.
  revert i. induction n as [|n IH]; intros i; simpl; [intros _ k; lia|].
  destruct (fl_get s (Z.of_nat i)) as [fi|] eqn:Hi; simpl; [|done].
  destruct (Z.leb_spec count (Range.length fi)) as [Hle|Hgt].
  - match goal with |- (?m ≫= _) = _ -> _ => destruct m as [s1|] end;
      simpl; done.
  - replace (Z.of_nat i + 1) with (Z.of_nat (S i)) by lia. intros Hrec k Hk.
    destruct (decide (k = i)) as [->|Hne]; [by exists fi|].
    apply (IH (S i) Hrec). lia.
Qed.

(** The length of an entry of the list, without wrap-around. *)
Lemma entry_length (size : Z) (e : idx_t) :
  size < 2 ^ 64 -> entry_ok size e ->
  Range.length e = end_ e - start e + 1.
Proof.
  intros Hs (? & ? & ?). unfold Range.length.
  rewrite wrap_wrap_add. apply wrap_small. lia.
Qed.

(** "Check if there is enough space" does not touch the free list or
    [data_size]. *)
Lemma allocate_extend_frame (fuel : nat) (o : mx_alloc mpfr_t) (count : Z)
    (s : pool) (x : pool + pool) :
  allocate_extend fuel o count s = Ok x ->
  let s1 := match x with inl s1 | inr s1 => s1 end in
  free_list s1 = free_list s /\ free_list_size s1 = free_list_size s /\
  free_list_capacity s1 = free_list_capacity s /\ data_size s1 = data_size s.
Proof.
  unfold allocate_extend.
  destruct (_ >? _); [|by intros [= <-]].
  destruct (new_capacity_loop _ _ _) as [c|]; simpl; [|done].
  destruct (match data s with Some _ => _ | None => _ end) as [d|];
    [|by intros [= <-]].
  destruct (init_cells _ _ d) as [d'|]; simpl; [|done].
  by intros [= <-].
Qed.

Lemma pool_inv_frame (s s1 : pool) :
  free_list s1 = free_list s -> free_list_size s1 = free_list_size s ->
  free_list_capacity s1 = free_list_capacity s ->
  data_size s <= data_size s1 < 2 ^ 64 ->
  pool_inv s -> pool_inv s1.
Proof.
  intros Hfl Hfs Hfc Hds ((Hsz & Hcap & Hblock) & Hsize & Hok & Hdisj).
  unfold pool_inv, free_list_block, free_list_inv, live in *.
  rewrite Hfl, Hfs, Hfc.
  split; [done|]. split; [lia|]. split; [|done].
  eapply Forall_impl; [exact Hok|]. intros e (? & ? & ?). unfold entry_ok. lia.
Qed.

Lemma allocate_inv (fuel : nat) (o : mx_alloc mpfr_t) (count : Z) (idx : idx_t)
    (s : pool) r idx' s' :
  pool_inv s -> 0 <= count -> data_size s + count < 2 ^ 64 ->
  mex_mpfr_allocate fuel o count idx s = Ok (r, idx', s') ->
  pool_inv s'.
Proof.
  intros Hinv Hc Hsum. unfold mex_mpfr_allocate.
  destruct (Z.eqb_spec count 0) as [->|Hne]; [by intros [= _ _ <-]|].
  destruct (allocate_reuse _ 0 count s) as [[[[r1 idx1] s1]|]|] eqn:Hreuse;
    simpl; [| |done].
  - intros [= <- <- <-]. change 0 with (Z.of_nat 0) in Hreuse.
    apply allocate_reuse_Some in Hreuse
      as (k & fi & Hk & Hget & Hlen & _ & _ & _ & Hstep).
    pose proof Hinv as (Hblock & Hsize & Hok & Hdisj).
    pose proof (fl_get_live s k fi ltac:(lia) Hget) as Hlive.
    pose proof (proj1 (Forall_lookup _ _) Hok k fi Hlive) as Hokk.
    rewrite (entry_length (data_size s)) in * by (done || lia).
    destruct Hokk as (Hf1 & Hf2 & Hf3).
    destruct Hstep as [(Hlt & Hput)|(Heq & Hrm)].
    + apply fl_put_live in Hput as (Hl & (Hd & Hdc & Hds & Hfc) & Hfs & Hb);
        [|lia].
      rewrite wrap_small in Hl by lia.
      unfold pool_inv, free_list_inv. rewrite Hl, Hds.
      split; [by apply Hb|]. split; [done|]. split.
      * apply Forall_insert; [done|]. unfold entry_ok. simpl. lia.
      * apply pairwise_insert; [done|]. intros j g Hj Hg.
        pose proof (Hdisj j k g fi Hj Hg Hlive) as Hgf.
        unfold disjoint in *. simpl. lia.
    + apply free_list_remove_inv in Hrm
        as (_ & Hl & (Hd & Hdc & Hds & Hfc) & Hfs & Hb); [|done|lia].
      unfold pool_inv, free_list_inv. rewrite Hl, Hds.
      split; [done|]. split; [done|]. split.
      * by apply Forall_delete.
      * by apply pairwise_delete.
  - destruct (allocate_extend fuel o count s) as [x|] eqn:Hext; simpl; [|done].
    pose proof (allocate_extend_frame _ _ _ _ _ Hext) as Hframe.
    pose proof Hinv as (_ & Hsize & _).
    destruct x as [sl|sr]; simpl in Hframe;
      destruct Hframe as (Hfl & Hfs & Hfc & Hds); intros [= <- <- <-].
    + apply (pool_inv_frame s); (done || lia).
    + apply (pool_inv_frame s); try done. simpl.
      rewrite Hds, wrap_small by lia. lia.
Qed.
End Allocate.

(** ** The invariant across the operations of the pool *)

Lemma pool_1_5_free_inv : pool_inv Examples.pool_1_5_free.
Proof.
  assert (live Examples.pool_1_5_free = [Examples.range 1 5]) as Hlive
    by (vm_compute; reflexivity).
  unfold pool_inv, free_list_inv. rewrite Hlive.
  split; [|split].
  - vm_compute. repeat split; congruence.
  - vm_compute. split; congruence.
  - split.
    + apply Forall_singleton. vm_compute. repeat split; congruence.
    + intros i j e f Hne Hi Hj.
      apply list_lookup_singleton_Some in Hi as [-> _].
      apply list_lookup_singleton_Some in Hj as [-> _]. done.
Qed.

Lemma returns_intro {A B : Type} (r : res A) (f : A -> B) (b : B)
    (P : A -> Prop) :
  (a ← r; mret (f a)) = Ok b -> (forall a, r = Ok a -> f a = b -> P a) ->
  returns r P.
Proof.
  destruct r as [a|]; simpl; [|done]. intros [= <-] HP. by apply HP.
Qed.

(** C5, the claim as stated fails: [mex_mpfr_mark_free] accepts every
    valid range, also one that is free already.  On a pool of 11 slots
    whose free list is [[1,5]], freeing [[1,3]] leaves the entries
    [[1,5]] and [[1,3]], which overlap. *)
Lemma mark_free_of_a_free_range_overlaps :
  pool_inv Examples.pool_1_5_free /\
  returns
    (mex_mpfr_mark_free (H := ExactInt.mpfr) (mx_block Examples.idx0)
       (Examples.range 1 3) Examples.pool_1_5_free)
    (fun s' => live s' = [Examples.range 1 5; Examples.range 1 3] /\
               ~ free_list_inv s').
Proof.
  split; [apply pool_1_5_free_inv|].
  apply (returns_intro _ live [Examples.range 1 5; Examples.range 1 3]).
  - vm_compute. reflexivity.
  - intros s' _ Hlive. split; [done|]. intros [_ Hd].
    rewrite Hlive in Hd.
    specialize (Hd 0%nat 1%nat (Examples.range 1 5) (Examples.range 1 3)
                  ltac:(done) eq_refl eq_refl).
    unfold disjoint in Hd. simpl in Hd. lia.
Qed.

(** C5, amended.  In a pool that satisfies the invariant (the free-list
    array has [free_list_capacity] cells, the entries are sub-ranges of
    [1, data_size] and pairwise do not overlap):
    - [mex_mpfr_allocate (count)], when it returns and
      [data_size + count] does not overflow, leaves a pool that satisfies
      the invariant;
    - [mex_mpfr_mark_free (idx)] for a valid [idx] that overlaps no free
      entry, when it returns with the free-list array in place, leaves a
      pool that satisfies the invariant and in which no two entries are
      adjacent and no entry ends at [data_size];
    - [mex_mpfr_mark_free (idx)] for an invalid [idx] changes nothing.
    A call does not return when [free_list_remove] reads past the array
    (C8); the array is not in place after a failed growth (C7). *)
Theorem pool_operations_keep_invariant `{Mpfr} (s : pool) :
  pool_inv s ->
  (forall fuel o count idx r idx' s',
      0 <= count -> data_size s + count < 2 ^ 64 ->
      mex_mpfr_allocate fuel o count idx s = Ok (r, idx', s') ->
      pool_inv s') /\
  (forall o idx s',
      is_valid idx s = true ->
      (forall e, e ∈ live s -> disjoint idx e) ->
      free_list_capacity s + DATA_CHUNK_SIZE < 2 ^ 64 ->
      mex_mpfr_mark_free o idx s = Ok s' -> free_list s' <> None ->
      pool_inv s' /\ compacted s') /\
  (forall o idx, is_valid idx s = false -> mex_mpfr_mark_free o idx s = Ok s).
Proof.
  intros Hinv. split; [|split].
  - intros fuel o count idx r idx' s' Hc Hsum Hrun.
    by apply (allocate_inv fuel o count idx s r idx' s').
  - intros o idx s' Hv Hnew Hroom Hrun Hne.
    by apply (mark_free_inv o idx s s').
  - intros o idx Hv. unfold mex_mpfr_mark_free. by rewrite Hv.
Qed.

Lemma pool_operations_keep_invariant_witness :
  returns
    (mex_mpfr_mark_free (H := ExactInt.mpfr) (mx_block Examples.idx0)
       (Examples.range 6 9) Examples.pool_1_5_free)
    (fun s' => live s' = [Examples.range 1 9] /\ pool_inv s' /\ compacted s').
Proof.
  apply (returns_intro _ (fun s' => (live s', failed (free_list s')))
           ([Examples.range 1 9], false)).
  - vm_compute. reflexivity.
  - intros s' Hrun [= Hlive Hfl]. split; [done|].
    apply (proj1 (proj2 (pool_operations_keep_invariant (H := ExactInt.mpfr)
                           Examples.pool_1_5_free pool_1_5_free_inv))
             (mx_block Examples.idx0) (Examples.range 6 9)).
    + vm_compute. reflexivity.
    + intros e He.
      assert (live Examples.pool_1_5_free = [Examples.range 1 5]) as Hl
        by (vm_compute; reflexivity).
      rewrite Hl in He. apply list_elem_of_singleton in He as ->.
      unfold disjoint. simpl. lia.
    + simpl. unfold DATA_CHUNK_SIZE. lia.
    + exact Hrun.
    + intros Hnone. rewrite Hnone in Hfl. discriminate.
Defined.

(** ** Calls that return

    With the invariant and room in the arrays the loops of the allocator
    run to their end. *)

Section Progress.
Context `{Mpfr}.

Lemma init_cells_Ok (n i : nat) (d : list mpfr_t) :
  (i + n <= length d)%nat ->
  exists d', init_cells n (Z.of_nat i) d = Ok d' /\ length d' = length d.
Proof.
  revert i d. induction n as [|n IH]; intros i d Hlen; simpl.
  - by exists d.
  - rewrite store_Ok by lia. simpl.
    replace (Z.of_nat i + 1) with (Z.of_nat (S i)) by lia.
    destruct (IH (S i) (<[i := mpfr_init]> d)) as (d' & Hrun & Hl);
      [rewrite length_insert; lia|].
    exists d'. split; [done|]. by rewrite Hl, length_insert.
Qed.

Lemma init_cells_length (n : nat) (i : Z) (d d' : list mpfr_t) :
  init_cells n i d = Ok d' -> length d' = length d.
Proof.
  revert i d. induction n as [|n IH]; intros i d; simpl.
  - by intros [= ->].
  - destruct (store d i mpfr_init) as [d1|] eqn:Hst; simpl; [|done].
    apply store_inv in Hst as (_ & _ & ->). intros Hrec.
    rewrite (IH _ _ Hrec). by rewrite length_insert.
Qed.

Lemma live_lt (s : pool) (k : nat) e :
  live s !! k = Some e -> (k < Z.to_nat (free_list_size s))%nat.
Proof.
  unfold live. destruct (free_list s); [|done].
  intros He. by apply lookup_take_Some in He as [_ ?].
Qed.

Lemma live_is_Some (s : pool) (k : nat) :
  free_list_block s -> (k < Z.to_nat (free_list_size s))%nat ->
  is_Some (live s !! k).
Proof.
  intros (Hsz & Hcap & Hblock) Hk. unfold live.
  destruct (free_list s) as [a|]; [|lia].
  apply lookup_lt_is_Some_2. rewrite length_take. lia.
Qed.

Lemma fl_get_returns (s : pool) (k : nat) :
  free_list_block s -> (k < Z.to_nat (free_list_size s))%nat ->
  exists e, fl_get s (Z.of_nat k) = Ok e /\ live s !! k = Some e.
Proof.
  intros Hblock Hk. destruct (live_is_Some s k Hblock Hk) as [e He].
  exists e. split; [by apply live_fl_get|done].
Qed.

Lemma fl_put_returns (s : pool) (k : nat) e :
  free_list_block s -> Z.of_nat k < free_list_capacity s ->
  exists s', fl_put s (Z.of_nat k) e = Ok s'.
Proof.
  intros (Hsz & Hcap & Hblock) Hk.
  destruct (free_list s) as [a|] eqn:Ha; [|lia].
  rewrite (fl_put_Ok s a k e Ha) by lia. eauto.
Qed.

Lemma compress_inner_returns (n i j : nat) (s : pool) :
  free_list_block s -> free_list_size s < free_list_capacity s ->
  (i < j)%nat -> (j + n <= Z.to_nat (free_list_size s))%nat ->
  exists r, free_list_compress_inner n (Z.of_nat i) (Z.of_nat j) s = Ok r.
Proof.
  intros Hblock Hspare. revert j.
  induction n as [|n IH]; intros j Hij Hn; simpl; [by eexists|].
  destruct (fl_get_returns s i Hblock) as (fi & -> & _); [lia|].
  destruct (fl_get_returns s j Hblock) as (fj & -> & _); [lia|]. simpl.
  destruct (neighbours fi fj).
  - destruct (fl_put_returns s i (merged fi fj) Hblock) as [s1 Hput]; [lia|].
    rewrite Hput. simpl.
    apply fl_put_live in Hput as (_ & (_ & _ & _ & Hfc) & Hfs & Hb); [|lia].
    destruct (free_list_remove_spare j s1) as [s2 ->]; [by apply Hb|lia|lia|].
    simpl. by eexists.
  - replace (Z.of_nat j + 1) with (Z.of_nat (S j)) by lia.
    apply IH; lia.
Qed.

Lemma compress_pass_returns (n i : nat) (s : pool) :
  free_list_block s -> free_list_size s < free_list_capacity s ->
  (i + n <= Z.to_nat (free_list_size s))%nat ->
  exists r, free_list_compress_pass n (Z.of_nat i) s = Ok r.
Proof.
  intros Hblock Hspare. revert i.
  induction n as [|n IH]; intros i Hn; simpl; [by eexists|].
  destruct (fl_get_returns s i Hblock) as (fi & -> & _); [lia|]. simpl.
  destruct (end_ fi =? data_size s).
  - destruct (free_list_remove_spare i (set_data_size (wrap (start fi - 1)) s))
      as [s1 ->]; [done|simpl; lia|done|].
    simpl. by eexists.
  - replace (Z.of_nat i + 1) with (Z.of_nat (S i)) by lia.
    destruct (compress_inner_returns
                (Z.to_nat (free_list_size s - Z.of_nat (S i))) i (S i) s)
      as [r ->]; [done|done|lia|lia|].
    simpl. destruct r; [by eexists|]. apply IH. lia.
Qed.

(** On a compacted list one turn of the loop changes nothing. *)
Lemma compacted_pass_None (s : pool) :
  pool_inv s -> compacted s -> free_list_size s < free_list_capacity s ->
  free_list_compress_pass (Z.to_nat (free_list_size s)) 0 s = Ok None.
Proof.
  intros Hinv [Hend Hadj] Hspare.
  pose proof Hinv as (Hblock & Hsize & Hok & Hdisj).
  destruct (compress_pass_returns (Z.to_nat (free_list_size s)) 0 s)
    as [r Hr]; [done|done|lia|].
  change (Z.of_nat 0) with 0 in Hr. rewrite Hr.
  destruct r as [s'|]; [exfalso|done].
  change 0 with (Z.of_nat 0) in Hr.
  apply compress_pass_Some in Hr
    as [(k & fi & Hk & Hget & Hfi & _)
       |(k & j' & fi & fj & s1 & Hk & Hkj & Hj & Hgi & Hgj & Hn & _)].
  - apply fl_get_live in Hget; [|lia].
    by apply (proj1 (Forall_lookup _ _) Hend k fi Hget).
  - apply fl_get_live in Hgi; [|lia]. apply fl_get_live in Hgj; [|lia].
    apply (neighbours_adjacent (data_size s)) in Hn; [|lia| |].
    + apply (Hadj k j' fi fj); [lia|done|done|done].
    + by apply (proj1 (Forall_lookup _ _) Hok k fi).
    + by apply (proj1 (Forall_lookup _ _) Hok j' fj).
Qed.

Lemma compress_compacted (s : pool) :
  pool_inv s -> compacted s -> free_list_size s < free_list_capacity s ->
  free_list_compress s = Ok s.
Proof.
  intros Hinv Hc Hspare. unfold free_list_compress.
  cbn [free_list_compress_loop]. by rewrite compacted_pass_None.
Qed.

(** One merge that leaves a compacted list ends the loop. *)
Lemma compress_one_merge (s s' : pool) :
  pool_inv s -> free_list_size s < free_list_capacity s ->
  free_list_compress_pass (Z.to_nat (free_list_size s)) 0 s = Ok (Some s') ->
  compacted s' -> free_list_compress s = Ok s'.
Proof.
  intros Hinv Hspare Hpass Hc.
  destruct (compress_pass_inv s s' Hinv Hpass)
    as (Hinv' & (_ & _ & Hfc & _ & _) & Hfs).
  pose proof Hinv' as ((? & _) & _).
  unfold free_list_compress. cbn [free_list_compress_loop].
  rewrite Hpass. cbn [mbind res_bind].
  destruct (Z.to_nat (free_list_size s)) as [|fuel] eqn:Hfuel; [lia|].
  cbn [free_list_compress_loop].
  rewrite compacted_pass_None; [done|done|done|lia].
Qed.

(** The fuel of [free_list_compress] is enough: every turn but the last
    removes one entry. *)
Lemma free_list_compress_fuel (fuel : nat) (s : pool) :
  pool_inv s -> free_list_size s < free_list_capacity s ->
  (Z.to_nat (free_list_size s) < fuel)%nat ->
  exists s', free_list_compress_loop fuel s = Ok s'.
Proof.
  revert s. induction fuel as [|fuel IH]; intros s Hinv Hspare Hfuel; [lia|].
  pose proof Hinv as (Hblock & _).
  destruct (compress_pass_returns (Z.to_nat (free_list_size s)) 0 s)
    as [r Hpass]; [done|done|lia|].
  change (Z.of_nat 0) with 0 in Hpass.
  cbn [free_list_compress_loop]. rewrite Hpass. cbn [mbind res_bind].
  destruct r as [s1|]; [|by exists s].
  destruct (compress_pass_inv s s1 Hinv Hpass)
    as (Hinv1 & (_ & _ & Hfc & _ & _) & Hfs).
  pose proof Hinv1 as ((? & _) & _).
  apply IH; [done|lia|lia].
Qed.

Lemma free_list_compress_returns (s : pool) :
  pool_inv s -> free_list_size s < free_list_capacity s ->
  exists s', free_list_compress s = Ok s'.
Proof.
  intros Hinv Hspare. apply free_list_compress_fuel; [done|done|lia].
Qed.
End Progress.

(** ** What [mex_mpfr_mark_free] and [mex_mpfr_allocate] do when they return *)

Section MarkFreeRuns.
Context `{Mpfr}.

Lemma mark_free_extend_room (o : mx_alloc idx_t) (s : pool) :
  pool_inv s -> room_to_free o s ->
  exists s1, mark_free_extend o s = inr s1 /\
    pool_inv s1 /\ live s1 = live s /\
    free_list_size s1 = free_list_size s /\
    free_list_size s1 + 1 < free_list_capacity s1 /\
    data s1 = data s /\ data_size s1 = data_size s /\
    data_capacity s1 = data_capacity s.
Proof.
  intros Hinv [Hroom|(Hfull & Ho & Hcap)].
  - exists s. unfold mark_free_extend.
    destruct (Z.eqb_spec (free_list_size s) (free_list_capacity s)); [lia|].
    split; [done|]. split; [done|]. repeat split; (done || lia).
  - destruct o as [|junk]; [done|].
    assert (exists s1, mark_free_extend (mx_block junk) s = inr s1 /\
              free_list_capacity s1 = free_list_capacity s + DATA_CHUNK_SIZE)
      as (s1 & Hext & Hfc).
    { unfold mark_free_extend. rewrite (proj2 (Z.eqb_eq _ _) Hfull).
      pose proof Hinv as ((? & ? & _) & _).
      rewrite wrap_small by (unfold DATA_CHUNK_SIZE in *; lia).
      destruct (free_list s); simpl; by eexists. }
    destruct (mark_free_extend_inr _ s s1 Hinv Hcap Hext)
      as (Hinv1 & Hl & Hfs & _ & _ & Hd & Hds & Hdc).
    exists s1. unfold DATA_CHUNK_SIZE in *.
    split; [done|]. split; [done|]. repeat split; (done || lia).
Qed.

(** Up to the call of [free_list_compress], [mex_mpfr_mark_free] appends
    the range to the free list. *)
Lemma mark_free_appends (o : mx_alloc idx_t) (idx : idx_t) (s : pool) :
  pool_inv s -> data_array s -> is_valid idx s = true ->
  (forall e, e ∈ live s -> disjoint idx e) ->
  room_to_free o s ->
  exists s4, mex_mpfr_mark_free o idx s = free_list_compress s4 /\
    pool_inv s4 /\ live s4 = live s ++ [idx] /\
    free_list_size s4 = free_list_size s + 1 /\
    free_list_size s4 < free_list_capacity s4 /\
    data_size s4 = data_size s /\ data_capacity s4 = data_capacity s.
Proof.
  intros Hinv (Hds & Hdc & Hdata) Hv Hnew Hroom.
  destruct (mark_free_extend_room o s Hinv Hroom)
    as (s1 & Hext & Hinv1 & Hl1 & Hfs1 & Hroom1 & Hd1 & Hds1 & Hdc1).
  unfold mex_mpfr_mark_free. rewrite Hv, Hext. cbn [negb].
  pose proof (proj1 (is_valid_true _ _) Hv) as (Hv1 & Hv2 & Hv3).
  rewrite Hd1. destruct (data s) as [d|]; [|lia]. cbn [deref mbind res_bind].
  rewrite wrap_small by lia.
  destruct (init_cells_Ok (Z.to_nat (end_ idx - (start idx - 1)))
              (Z.to_nat (start idx - 1)) d) as (d' & Hinit & Hlen'); [lia|].
  rewrite Z2Nat.id in Hinit by lia. rewrite Hinit.
  cbn [mbind res_bind].
  pose proof Hinv1 as (Hblock1 & _).
  assert (free_list_block (set_data (Some d') s1)) as Hblock1' by done.
  destruct (fl_put_returns (set_data (Some d') s1)
              (Z.to_nat (free_list_size s1)) idx Hblock1') as [s3 Hput].
  { destruct Hblock1 as (? & _). simpl. lia. }
  destruct Hblock1 as ((? & ?) & _).
  rewrite Z2Nat.id in Hput by lia. rewrite Hput. cbn [mbind res_bind].
  destruct (mark_free_append s1 s3 idx d' Hinv1 ltac:(lia))
    as (Hinv4 & Hl4 & Hfs4 & Hd4 & Hds4 & Hdc4 & Hfc4);
    [by rewrite <- Hv; unfold is_valid; rewrite Hds1
    |by rewrite Hl1|done|].
  eexists. split; [done|]. split; [exact Hinv4|].
  split; [by rewrite Hl4, Hl1|]. repeat split; lia.
Qed.

(** With room in the free list [mex_mpfr_mark_free] returns. *)
Lemma mark_free_returns (o : mx_alloc idx_t) (idx : idx_t) (s : pool) :
  pool_inv s -> data_array s -> is_valid idx s = true ->
  (forall e, e ∈ live s -> disjoint idx e) ->
  room_to_free o s ->
  exists s', mex_mpfr_mark_free o idx s = Ok s' /\ free_list s' <> None.
Proof.
  intros Hinv Hdata Hv Hnew Hroom.
  destruct (mark_free_appends o idx s Hinv Hdata Hv Hnew Hroom)
    as (s4 & Hrun & Hinv4 & Hl4 & Hfs4 & Hroom4 & _).
  destruct (free_list_compress_returns s4 Hinv4 Hroom4) as [s' Hs'].
  exists s'. rewrite Hrun. split; [done|].
  destruct (compress_loop_inv _ _ _ Hinv4 Hs')
    as (((_ & _ & Hblock') & _) & _ & (_ & _ & Hfc' & _)).
  destruct Hinv4 as ((? & _) & _).
  destruct (free_list s'); [done|lia].
Qed.
End MarkFreeRuns.

Section AllocateRuns.
Context `{Mpfr}.

(** The reuse loop stops at the first entry that is long enough. *)
Lemma allocate_reuse_fit (n i : nat) (count : Z) (s : pool) (k : nat) fk :
  free_list_block s -> (i <= k < i + n)%nat ->
  live s !! k = Some fk -> count <= Range.length fk ->
  (forall (k' : nat) f', (i <= k' < k)%nat -> live s !! k' = Some f' ->
                         Range.length f' < count) ->
  count < Range.length fk \/ free_list_size s < free_list_capacity s ->
  let idx' := {| start := start fk;
                 end_ := wrap (wrap (start fk + count) - 1) |} in
  exists s', allocate_reuse n (Z.of_nat i) count s
             = Ok (Some (Z.b2z (is_valid idx' s'), idx', s')) /\
             same_data s s'.
Proof.
  intros Hblock Hk Hfk Hfit Hfirst Hroom idx'. revert i Hk Hfirst.
  pose proof (live_lt _ _ _ Hfk) as Hlt.
  induction n as [|n IH]; intros i Hk Hfirst; [lia|]. simpl.
  destruct (fl_get_returns s i Hblock) as (fi & -> & Hfi); [lia|].
  cbn [mbind res_bind].
  destruct (decide (i = k)) as [->|Hne].
  - rewrite Hfk in Hfi. injection Hfi as <-.
    rewrite (proj2 (Z.leb_le _ _) Hfit).
    destruct (Z.ltb_spec count (Range.length fk)) as [Hlong|Hexact].
    + destruct (fl_put_returns s k
                  {| start := wrap (start fk + count); end_ := end_ fk |} Hblock)
        as [s' Hput]; [destruct Hblock as (? & _); lia|].
      rewrite Hput. cbn [mbind res_bind].
      apply fl_put_live in Hput as (_ & Hsame & _); [|done].
      by exists s'.
    + destruct Hroom as [?|Hspare]; [lia|].
      destruct (free_list_remove_spare k s Hblock Hlt Hspare) as [s' Hrm].
      rewrite Hrm. cbn [mbind res_bind].
      apply free_list_remove_inv in Hrm as (_ & _ & Hsame & _); [|done|done].
      by exists s'.
  - assert (Range.length fi < count) as Hshort by (apply (Hfirst i); [lia|done]).
    destruct (Z.leb_spec count (Range.length fi)); [lia|].
    replace (Z.of_nat i + 1) with (Z.of_nat (S i)) by lia.
    apply IH; [lia|]. intros k' f' Hk'. apply Hfirst. lia.
Qed.

(** Without an entry that is long enough the loop runs to its end. *)
Lemma allocate_reuse_no_fit (n i : nat) (count : Z) (s : pool) :
  free_list_block s -> (i + n <= Z.to_nat (free_list_size s))%nat ->
  (forall (k : nat) f, live s !! k = Some f -> Range.length f < count) ->
  allocate_reuse n (Z.of_nat i) count s = Ok None.
Proof.
  intros Hblock Hn Hshort. revert i Hn.
  induction n as [|n IH]; intros i Hn; [done|]. simpl.
  destruct (fl_get_returns s i Hblock) as (fi & -> & Hfi); [lia|].
  cbn [mbind res_bind]. specialize (Hshort i fi Hfi).
  destruct (Z.leb_spec count (Range.length fi)); [lia|].
  replace (Z.of_nat i + 1) with (Z.of_nat (S i)) by lia.
  apply IH. lia.
Qed.

Lemma new_capacity_loop_enough (fuel : nat) (need c c' : Z) :
  new_capacity_loop fuel need c = Ok c' -> need <= c'.
Proof.
  revert c. induction fuel as [|fuel IH]; intros c; simpl.
  - destruct (Z.gtb_spec need c); [done|]. intros [= <-]. lia.
  - destruct (Z.gtb_spec need c); [apply IH|]. intros [= <-]. lia.
Qed.

Lemma new_capacity_loop_range (fuel : nat) (need c c' : Z) :
  0 <= c < 2 ^ 64 -> new_capacity_loop fuel need c = Ok c' -> 0 <= c' < 2 ^ 64.
Proof.
  revert c. induction fuel as [|fuel IH]; intros c Hc; simpl.
  - destruct (need >? c); [done|]. by intros [= <-].
  - destruct (need >? c); [apply IH, wrap_range|]. by intros [= <-].
Qed.

(** After "Check if there is enough space" there is. *)
Lemma allocate_extend_inr (fuel : nat) (o : mx_alloc mpfr_t) (count : Z)
    (s s1 : pool) :
  data_array s -> 0 <= data_size s + count < 2 ^ 64 ->
  allocate_extend fuel o count s = Ok (inr s1) ->
  data_size s + count <= data_capacity s1 /\ data_capacity s1 < 2 ^ 64 /\
  match data s1 with
  | Some d => Z.of_nat (length d) = data_capacity s1
  | None => data_capacity s1 = 0
  end.
Proof.
  intros (Hds & Hdc & Hdata) Hsum. unfold allocate_extend.
  rewrite (wrap_small (data_size s + count)) by lia.
  destruct (Z.gtb_spec (data_size s + count) (data_capacity s)) as [Hgt|Hle].
  - destruct (new_capacity_loop _ _ _) as [c|] eqn:Hloop; simpl; [|done].
    pose proof (new_capacity_loop_enough _ _ _ _ Hloop).
    assert (0 <= data_capacity s < 2 ^ 64) as Hc0 by lia.
    pose proof (new_capacity_loop_range _ _ _ _ Hc0 Hloop).
    destruct (match data s with Some _ => _ | None => _ end) as [d|] eqn:Hd;
      [|done].
    destruct (init_cells _ _ d) as [d'|] eqn:Hinit; simpl; [|done].
    intros [= <-]. simpl. split; [lia|]. split; [lia|].
    rewrite (init_cells_length _ _ _ _ Hinit).
    destruct o as [|junk]; [by destruct (data s)|].
    destruct (data s) as [d0|]; simpl in Hd; injection Hd as <-.
    + rewrite length_app, length_take, length_replicate. lia.
    + rewrite length_replicate. lia.
  - by intros [= <-].
Qed.
End AllocateRuns.

(** ** The pools that are reached *)

Section Reachable.
Context `{Mpfr}.

Lemma allocate_compacted (fuel : nat) (o : mx_alloc mpfr_t) (count : Z)
    (idx : idx_t) (s : pool) r idx' s' :
  pool_inv s -> compacted s -> 0 <= count -> data_size s + count < 2 ^ 64 ->
  mex_mpfr_allocate fuel o count idx s = Ok (r, idx', s') ->
  compacted s'.
Proof.
  intros Hinv [Hend Hadj] Hc Hsum. unfold mex_mpfr_allocate.
  pose proof Hinv as (Hblock & Hsize & Hok & Hdisj).
  destruct (Z.eqb_spec count 0) as [->|Hne]; [by intros [= _ _ <-]|].
  destruct (allocate_reuse _ 0 count s) as [[[[r1 idx1] s1]|]|] eqn:Hreuse;
    simpl; [| |done].
  - intros [= <- <- <-]. change 0 with (Z.of_nat 0) in Hreuse.
    apply allocate_reuse_Some in Hreuse
      as (k & fk & Hk & Hget & Hlen & _ & _ & _ & Hstep).
    pose proof (fl_get_live s k fk ltac:(lia) Hget) as Hfk.
    pose proof (proj1 (Forall_lookup _ _) Hok k fk Hfk) as Hokk.
    pose proof (proj1 (Forall_lookup _ _) Hend k fk Hfk) as Hendk.
    simpl in Hendk.
    rewrite (entry_length (data_size s)) in * by (done || lia).
    destruct Hokk as (Hf1 & Hf2 & Hf3).
    destruct Hstep as [(Hlt & Hput)|(Heq & Hrm)].
    + apply fl_put_live in Hput as (Hl & (_ & _ & Hds & _) & _); [|lia].
      rewrite wrap_small in Hl by lia.
      unfold compacted. rewrite Hl, Hds. split.
      * by apply Forall_insert.
      * apply pairwise_insert; [done|]. intros j g Hj Hg.
        pose proof (proj1 (Forall_lookup _ _) Hok j g Hg) as (? & ? & ?).
        pose proof (Hdisj j k g fk Hj Hg Hfk) as Hd.
        pose proof (Hadj j k g fk Hj Hg Hfk) as Ha.
        unfold disjoint, adjacent in *. simpl. lia.
    + apply free_list_remove_inv in Hrm
        as (_ & Hl & (_ & _ & Hds & _) & _); [|done|lia].
      unfold compacted. rewrite Hl, Hds. split.
      * by apply Forall_delete.
      * by apply pairwise_delete.
  - destruct (allocate_extend fuel o count s) as [x|] eqn:Hext; simpl; [|done].
    pose proof (allocate_extend_frame _ _ _ _ _ Hext) as Hframe.
    destruct x as [sl|sr]; simpl in Hframe;
      destruct Hframe as (Hfl & Hfs & Hfc & Hds); intros [= <- <- <-].
    + unfold compacted, live. by rewrite Hfl, Hfs, Hds.
    + unfold compacted, live. simpl. rewrite Hfl, Hfs, Hds.
      rewrite wrap_small by lia. split; [|done].
      apply Forall_lookup. intros j g Hg.
      pose proof (proj1 (Forall_lookup _ _) Hok j g Hg) as (? & ? & ?). lia.
Qed.

Lemma allocate_data_array (fuel : nat) (o : mx_alloc mpfr_t) (count : Z)
    (idx : idx_t) (s : pool) r idx' s' :
  pool_inv s -> data_array s -> 0 <= count -> data_size s + count < 2 ^ 64 ->
  mex_mpfr_allocate fuel o count idx s = Ok (r, idx', s') -> r <> 0 ->
  data_array s'.
Proof.
  intros Hinv Hdata Hc Hsum. unfold mex_mpfr_allocate.
  pose proof Hinv as (Hblock & Hsize & Hok & Hdisj).
  destruct (Z.eqb_spec count 0) as [->|Hne]; [by intros [= <- _ _]|].
  destruct (allocate_reuse _ 0 count s) as [[[[r1 idx1] s1]|]|] eqn:Hreuse;
    simpl; [| |done].
  - intros [= <- <- <-] _. change 0 with (Z.of_nat 0) in Hreuse.
    apply allocate_reuse_Some in Hreuse
      as (k & fk & Hk & Hget & Hlen & _ & _ & _ & Hstep).
    assert (same_data s s1) as (Hd & Hdc & Hds & _).
    { destruct Hstep as [(Hlt & Hput)|(Heq & Hrm)].
      - by apply fl_put_live in Hput as (_ & ? & _); [|lia].
      - by apply free_list_remove_inv in Hrm as (_ & _ & ? & _); [|done|lia]. }
    unfold data_array. by rewrite Hd, Hdc, Hds.
  - destruct (allocate_extend fuel o count s) as [[sl|sr]|] eqn:Hext; simpl;
      [by intros [= <- _ _]| |done].
    pose proof (allocate_extend_frame _ _ _ _ _ Hext) as (_ & _ & _ & Hds).
    simpl in Hds.
    assert (0 <= data_size s + count < 2 ^ 64) as Hsum' by lia.
    destruct (allocate_extend_inr _ _ _ _ _ Hdata Hsum' Hext)
      as (Hcap & Hcap' & Harr).
    intros [= <- <- <-] _. unfold data_array. simpl.
    rewrite Hds, wrap_small by lia. split; [lia|]. by split.
Qed.

Lemma mark_free_data_array (o : mx_alloc idx_t) (idx : idx_t) (s s' : pool) :
  pool_inv s -> data_array s -> is_valid idx s = true ->
  (forall e, e ∈ live s -> disjoint idx e) ->
  free_list_capacity s + DATA_CHUNK_SIZE < 2 ^ 64 ->
  mex_mpfr_mark_free o idx s = Ok s' -> free_list s' <> None ->
  data_array s'.
Proof.
  intros Hinv (Hds & Hdc & Hdata) Hv Hnew Hroom.
  unfold mex_mpfr_mark_free. rewrite Hv. simpl.
  destruct (mark_free_extend o s) as [sl|s1] eqn:Hext.
  { intros [= <-] Hne. by apply mark_free_extend_inl in Hext. }
  destruct (mark_free_extend_inr o s s1 Hinv Hroom Hext)
    as (Hinv1 & Hlive1 & Hfs1 & Hroom1 & _ & Hd1 & Hds1 & Hdc1).
  rewrite Hd1. destruct (data s) as [d|]; simpl; [|done].
  destruct (init_cells _ _ d) as [d'|] eqn:Hinit; simpl; [|done].
  destruct (fl_put _ _ idx) as [s3|] eqn:Hput; simpl; [|done].
  intros Hloop _.
  destruct (mark_free_append s1 s3 idx d' Hinv1 Hroom1)
    as (Hinv4 & _ & _ & Hd4 & Hds4 & Hdc4 & _);
    [by rewrite <- Hv; unfold is_valid; rewrite Hds1
    |by rewrite Hlive1|done|].
  destruct (compress_loop_inv _ _ _ Hinv4 Hloop)
    as ((_ & Hsize' & _) & _ & (Hd' & Hdc' & _ & Hds' & _)).
  unfold data_array. rewrite Hd', Hdc', Hd4, Hdc4, Hdc1.
  rewrite (init_cells_length _ _ _ _ Hinit).
  split; [lia|]. by split.
Qed.

(** Every pool that is reached satisfies the invariant, is compacted and
    has its data array. *)
Lemma reachable_inv (s : pool) :
  reachable s -> pool_inv s /\ compacted s /\ data_array s.
Proof.
  induction 1 as [|s fuel o count idx r idx' s' _ (Hinv & Hc & Hd) Hcount Hsum Hrun Hr
                  |s o idx s' _ (Hinv & Hc & Hd) Hv Hnew Hroom Hrun Hfl].
  - assert (pairwise_nil : forall R, pairwise R []).
    { intros R i j e f _ Hi. by destruct i. }
    unfold pool_inv, free_list_block, free_list_inv, compacted, data_array,
      live. simpl.
    repeat split; (lia || apply pairwise_nil || constructor).
  - split; [|split].
    + exact (allocate_inv fuel o count idx s r idx' s' Hinv Hcount Hsum Hrun).
    + exact (allocate_compacted fuel o count idx s r idx' s' Hinv Hc Hcount
               Hsum Hrun).
    + exact (allocate_data_array fuel o count idx s r idx' s' Hinv Hd Hcount
               Hsum Hrun Hr).
  - destruct (mark_free_inv o idx s s' Hinv Hv Hnew Hroom Hrun Hfl).
    split; [done|]. split; [done|].
    exact (mark_free_data_array o idx s s' Hinv Hd Hv Hnew Hroom Hrun Hfl).
Qed.
End Reachable.

(** ** Freeing the range that was allocated last *)

Lemma elem_of_delete_lookup (l : list idx_t) (k : nat) (g : idx_t) :
  g ∈ delete k l -> exists j, j <> k /\ l !! j = Some g.
Proof.
  intros Hg. apply list_elem_of_lookup in Hg as [j Hj].
  rewrite list_lookup_delete in Hj.
  case_decide; [exists j|exists (S j)]; split; (done || lia).
Qed.

Lemma live_length_block `{Mpfr} (s : pool) :
  free_list_block s -> length (live s) = Z.to_nat (free_list_size s).
Proof.
  intros (Hsz & Hcap & Hblock). unfold live.
  destruct (free_list s) as [a|]; [rewrite length_take|simpl]; lia.
Qed.

Section FreeAfterAllocate.
Context `{Mpfr}.
Variables (s : pool) (count : Z).
Hypothesis Hinv : pool_inv s.
Hypothesis Hc : compacted s.
Hypothesis Hdata : data_array s.
Hypothesis Hcount : 0 < count.
Hypothesis Hsum : data_size s + count < 2 ^ 64.

(** The range was the head of an entry that is longer: freeing it merges
    it with the rest of that entry, and the list is as before. *)
Lemma free_of_head (o' : mx_alloc idx_t) (k : nat) fk s1 :
  live s !! k = Some fk -> count < Range.length fk ->
  fl_put s (Z.of_nat k) {| start := wrap (start fk + count); end_ := end_ fk |}
  = Ok s1 ->
  room_to_free o' s1 ->
  exists s2,
    mex_mpfr_mark_free o'
      {| start := start fk; end_ := wrap (wrap (start fk + count) - 1) |} s1
    = Ok s2 /\
    pool_inv s2 /\ live s2 = live s /\ data_size s2 = data_size s /\
    data_capacity s2 = data_capacity s /\
    free_list_size s2 < free_list_capacity s2.
Proof.
  intros Hfk Hlong Hput Hroom.
  pose proof Hinv as (Hblock & Hsize & Hok & Hdisj).
  pose proof Hc as [Hend Hadj].
  pose proof (live_lt _ _ _ Hfk) as Hk.
  pose proof (proj1 (Forall_lookup _ _) Hok k fk Hfk) as Hokk.
  pose proof (proj1 (Forall_lookup _ _) Hend k fk Hfk) as Hendk.
  simpl in Hendk.
  rewrite (entry_length (data_size s)) in Hlong by (done || lia).
  destruct Hokk as (Hf1 & Hf2 & Hf3).
  rewrite (wrap_small (start fk + count)) in Hput |- * by lia.
  rewrite (wrap_small (start fk + count - 1)) by lia.
  set (rest := {| start := start fk + count; end_ := end_ fk |}) in *.
  set (idx1 := {| start := start fk; end_ := start fk + count - 1 |}).
  assert (length (live s) = Z.to_nat (free_list_size s)) as Hlen
    by (apply live_length; [done|left; lia]).
  (* the entries other than [k] *)
  assert (forall j g, j <> k -> live s !! j = Some g ->
            1 <= start g <= end_ g /\ end_ g <= data_size s /\
            (end_ g < start fk \/ end_ fk < start g) /\
            end_ g + 1 <> start fk /\ end_ fk + 1 <> start g /\
            end_ g <> data_size s) as Hold.
  { intros j g Hj Hg.
    pose proof (proj1 (Forall_lookup _ _) Hok j g Hg) as (? & ? & ?).
    pose proof (proj1 (Forall_lookup _ _) Hend j g Hg).
    pose proof (Hdisj j k g fk Hj Hg Hfk) as Hd.
    pose proof (Hadj j k g fk Hj Hg Hfk) as Ha.
    unfold disjoint, adjacent in *. lia. }
  apply fl_put_live in Hput as (Hl1 & (Hd1 & Hdc1 & Hds1 & Hfc1) & Hfs1 & Hb1);
    [|done].
  assert (pool_inv s1) as Hinv1.
  { unfold pool_inv, free_list_inv. rewrite Hl1, Hds1.
    split; [by apply Hb1|]. split; [done|]. split.
    - apply Forall_insert; [done|]. unfold entry_ok. simpl. lia.
    - apply pairwise_insert; [done|]. intros j g Hj Hg.
      pose proof (Hold j g Hj Hg). unfold disjoint. simpl. lia. }
  assert (data_array s1) as Hdata1.
  { unfold data_array. by rewrite Hd1, Hdc1, Hds1. }
  assert (is_valid idx1 s1 = true) as Hv1.
  { apply is_valid_true. rewrite Hds1. simpl. lia. }
  assert (forall e, e ∈ live s1 -> disjoint idx1 e) as Hnew.
  { intros e He. rewrite Hl1 in He. apply list_elem_of_lookup in He as [j Hj].
    apply list_lookup_insert_Some in Hj as [(-> & <- & _)|[Hne Hj]].
    - unfold disjoint. simpl. lia.
    - pose proof (Hold j e ltac:(lia) Hj). unfold disjoint. simpl. lia. }
  destruct (mark_free_appends o' idx1 s1 Hinv1 Hdata1 Hv1 Hnew Hroom)
    as (s4 & Hrun & Hinv4 & Hl4 & Hfs4 & Hroom4 & Hds4 & Hdc4).
  rewrite Hrun, Hl1 in *. clear Hrun.
  pose proof Hinv4 as (Hblock4 & Hsize4 & Hok4 & Hdisj4).
  assert (forall j g, live s4 !! j = Some g ->
            (j = k /\ g = rest) \/ (j = length (live s) /\ g = idx1) \/
            (j <> k /\ (j < length (live s))%nat /\ live s !! j = Some g))
    as Hcases.
  { intros j g. rewrite Hl4. intros Hg.
    apply lookup_app_Some in Hg as [Hg|[Hj Hg]].
    - apply list_lookup_insert_Some in Hg as [(-> & <- & _)|[Hne Hg]];
        [by left|].
      right. right. split; [done|]. split; [|done].
      by apply lookup_lt_Some in Hg.
    - rewrite length_insert in *.
      apply list_lookup_singleton_Some in Hg as [Hj' <-].
      right. left. split; [lia|done]. }
  destruct (compress_pass_returns (Z.to_nat (free_list_size s4)) 0 s4)
    as [r Hpass]; [done|done|lia|].
  assert (Hmerge :
    exists s5, r = Some s5 /\ pool_inv s5 /\ live s5 = live s /\
               same_data s4 s5 /\ free_list_size s5 = free_list_size s4 - 1).
  { destruct r as [s5|].
    - exists s5. split; [done|].
      apply compress_pass_Some in Hpass
        as [(k' & fi & Hk' & Hget & Hfi & _)
           |(k' & j' & fi & fj & s' & Hk' & Hkj & Hj & Hgi & Hgj & Hn & Hput & Hrm)].
      + exfalso. apply fl_get_live in Hget; [|lia].
        destruct (Hcases k' fi Hget) as [(-> & ->)|[(-> & ->)|(Hne & _ & Hg)]].
        * unfold rest in Hfi. simpl in Hfi. lia.
        * unfold idx1 in Hfi. simpl in Hfi. lia.
        * pose proof (Hold k' fi Hne Hg). lia.
      + pose proof (fl_get_live s4 k' fi ltac:(lia) Hgi) as Hli.
        pose proof (fl_get_live s4 j' fj ltac:(lia) Hgj) as Hlj.
        pose proof Hn as Hn'.
        apply (neighbours_adjacent (data_size s4)) in Hn';
          [|lia|by apply (proj1 (Forall_lookup _ _) Hok4 k' fi)
               |by apply (proj1 (Forall_lookup _ _) Hok4 j' fj)].
        assert (k' = k /\ j' = length (live s) /\ fi = rest /\ fj = idx1)
          as (-> & -> & -> & ->).
        { destruct (Hcases k' fi Hli) as [(-> & ->)|[(-> & ->)|(Hnei & Hlti & Hgi')]];
            destruct (Hcases j' fj Hlj) as [(-> & ->)|[(-> & ->)|(Hnej & Hltj & Hgj')]];
            try done; try lia; exfalso; unfold adjacent, rest, idx1 in Hn';
            simpl in Hn'.
          - pose proof (Hold j' fj Hnej Hgj'). lia.
          - pose proof (Hold k' fi Hnei Hgi'). lia.
          - pose proof (Hold k' fi Hnei Hgi'). lia.
          - apply (Hadj k' j' fi fj); [lia|done|done|]. exact Hn'. }
        destruct (rule2_inv k (length (live s)) s4 s' s5 rest idx1
                    Hinv4 Hkj Hj Hgi Hgj Hn Hput Hrm)
          as (Hinv5 & Hl5 & Hfs5 & Hsame5).
        split; [done|]. split; [|done].
        rewrite Hl5, Hl4. rewrite insert_app_l by (rewrite length_insert; lia).
        rewrite list_insert_insert_eq.
        assert (merged rest idx1 = fk) as ->.
        { unfold merged. simpl.
          destruct (Z.leb_spec (start fk + count) (start fk)); [lia|].
          destruct (Z.geb_spec (end_ fk) (start fk + count - 1)); [|lia].
          by destruct fk. }
        rewrite list_insert_id by done.
        by rewrite delete_middle, app_nil_r.
    - exfalso. change (Z.of_nat 0) with 0 in Hpass.
      destruct (compress_pass_compacted s4 Hinv4 Hpass) as [_ Hadj4].
      apply (Hadj4 k (length (live s)) rest idx1); [lia| | |].
      + rewrite Hl4. rewrite lookup_app_l by (rewrite length_insert; lia).
        apply list_lookup_insert_eq. lia.
      + rewrite Hl4. apply list_lookup_middle. by rewrite length_insert.
      + unfold adjacent. simpl. lia. }
  destruct Hmerge
    as (s5 & -> & Hinv5 & Hl5 & (Hd5 & Hdc5 & Hds5 & Hfc5) & Hfs5).
  exists s5. split.
  - apply compress_one_merge; [done|done|done|].
    unfold compacted. by rewrite Hl5, Hds5, Hds4, Hds1.
  - split; [done|]. split; [done|]. repeat split; lia.
Qed.

(** The range was a whole entry: freeing it puts the entry at the end of
    the list. *)
Lemma free_of_whole (o' : mx_alloc idx_t) (k : nat) fk s1 :
  live s !! k = Some fk -> count = Range.length fk ->
  free_list_remove (Z.of_nat k) s = Ok s1 ->
  room_to_free o' s1 ->
  exists s2,
    mex_mpfr_mark_free o'
      {| start := start fk; end_ := wrap (wrap (start fk + count) - 1) |} s1
    = Ok s2 /\
    pool_inv s2 /\ live s2 = delete k (live s) ++ [fk] /\
    data_size s2 = data_size s /\ data_capacity s2 = data_capacity s /\
    free_list_size s2 < free_list_capacity s2.
Proof.
  intros Hfk Hexact Hrm Hroom.
  pose proof Hinv as (Hblock & Hsize & Hok & Hdisj).
  pose proof Hc as [Hend Hadj].
  pose proof (live_lt _ _ _ Hfk) as Hk.
  pose proof (proj1 (Forall_lookup _ _) Hok k fk Hfk) as Hokk.
  pose proof (proj1 (Forall_lookup _ _) Hend k fk Hfk) as Hendk.
  simpl in Hendk.
  rewrite (entry_length (data_size s)) in Hexact by (done || lia).
  destruct Hokk as (Hf1 & Hf2 & Hf3).
  rewrite (wrap_small (start fk + count)) by lia.
  rewrite (wrap_small (start fk + count - 1)) by lia.
  replace {| start := start fk; end_ := start fk + count - 1 |} with fk
    by (destruct fk; simpl in *; f_equal; lia).
  apply free_list_remove_inv in Hrm
    as (Hspare & Hl1 & (Hd1 & Hdc1 & Hds1 & Hfc1) & Hfs1 & Hb1); [|done|done].
  assert (forall g, g ∈ delete k (live s) ->
            disjoint fk g /\ ~ adjacent g fk /\ ~ adjacent fk g) as Hold.
  { intros g Hg. apply elem_of_delete_lookup in Hg as (j & Hj & Hg).
    pose proof (Hdisj j k g fk Hj Hg Hfk) as Hd.
    pose proof (Hadj j k g fk Hj Hg Hfk) as Ha.
    unfold disjoint, adjacent in *. lia. }
  assert (pool_inv s1) as Hinv1.
  { unfold pool_inv, free_list_inv. rewrite Hl1, Hds1.
    split; [done|]. split; [done|]. split.
    - by apply Forall_delete.
    - by apply pairwise_delete. }
  assert (data_array s1) as Hdata1.
  { unfold data_array. by rewrite Hd1, Hdc1, Hds1. }
  assert (is_valid fk s1 = true) as Hv1.
  { apply is_valid_true. rewrite Hds1. lia. }
  assert (forall e, e ∈ live s1 -> disjoint fk e) as Hnew.
  { intros e He. rewrite Hl1 in He. by apply Hold. }
  destruct (mark_free_appends o' fk s1 Hinv1 Hdata1 Hv1 Hnew Hroom)
    as (s4 & Hrun & Hinv4 & Hl4 & Hfs4 & Hroom4 & Hds4 & Hdc4).
  rewrite Hrun, Hl1 in *. clear Hrun.
  exists s4. split.
  - apply compress_compacted; [done| |done].
    unfold compacted. rewrite Hl4, Hds4, Hds1. split.
    + apply Forall_app. split; [by apply Forall_delete|by apply Forall_singleton].
    + apply pairwise_snoc; [by apply pairwise_delete|].
      intros g Hg. by apply Hold.
  - split; [done|]. split; [done|]. repeat split; lia.
Qed.

(** The range was new slots at the end of the pool: freeing it takes
    them off again (Rule 1). *)
Lemma free_of_fresh (o' : mx_alloc idx_t) s1 :
  free_list s1 = free_list s -> free_list_size s1 = free_list_size s ->
  free_list_capacity s1 = free_list_capacity s ->
  data_size s1 = data_size s + count -> data_array s1 ->
  room_to_free o' s1 ->
  exists s2,
    mex_mpfr_mark_free o'
      {| start := data_size s + 1; end_ := data_size s + count |} s1 = Ok s2 /\
    pool_inv s2 /\ live s2 = live s /\ data_size s2 = data_size s /\
    data_capacity s2 = data_capacity s1 /\
    free_list_size s2 < free_list_capacity s2.
Proof.
  intros Hfl1 Hfs1 Hfc1 Hds1 Hdata1 Hroom.
  pose proof Hinv as (Hblock & Hsize & Hok & Hdisj).
  pose proof Hc as [Hend Hadj].
  set (idx1 := {| start := data_size s + 1; end_ := data_size s + count |}).
  assert (live s1 = live s) as Hl1 by (unfold live; by rewrite Hfl1, Hfs1).
  assert (pool_inv s1) as Hinv1 by (apply (pool_inv_frame s); (done || lia)).
  assert (is_valid idx1 s1 = true) as Hv1.
  { apply is_valid_true. rewrite Hds1. simpl. lia. }
  assert (forall j g, live s !! j = Some g ->
            1 <= start g <= end_ g /\ end_ g < data_size s) as Hold.
  { intros j g Hg.
    pose proof (proj1 (Forall_lookup _ _) Hok j g Hg) as (? & ? & ?).
    pose proof (proj1 (Forall_lookup _ _) Hend j g Hg) as He. simpl in He. lia. }
  assert (forall e, e ∈ live s1 -> disjoint idx1 e) as Hnew.
  { intros e He. rewrite Hl1 in He. apply list_elem_of_lookup in He as [j Hj].
    pose proof (Hold j e Hj). unfold disjoint. simpl. lia. }
  destruct (mark_free_appends o' idx1 s1 Hinv1 Hdata1 Hv1 Hnew Hroom)
    as (s4 & Hrun & Hinv4 & Hl4 & Hfs4 & Hroom4 & Hds4 & Hdc4).
  rewrite Hrun, Hl1 in *. clear Hrun.
  pose proof Hinv4 as (Hblock4 & Hsize4 & Hok4 & Hdisj4).
  pose proof (live_length_block s Hblock) as Hlen.
  assert (forall j g, live s4 !! j = Some g ->
            (j = length (live s) /\ g = idx1) \/
            ((j < length (live s))%nat /\ live s !! j = Some g)) as Hcases.
  { intros j g. rewrite Hl4. intros Hg.
    apply lookup_app_Some in Hg as [Hg|[Hj Hg]].
    - right. split; [|done]. by apply lookup_lt_Some in Hg.
    - apply list_lookup_singleton_Some in Hg as [Hj' <-].
      left. split; [lia|done]. }
  destruct (compress_pass_returns (Z.to_nat (free_list_size s4)) 0 s4)
    as [r Hpass]; [done|done|lia|].
  assert (Hshrink :
    exists s5, r = Some s5 /\ pool_inv s5 /\ live s5 = live s /\
               data_size s5 = data_size s /\
               data_capacity s5 = data_capacity s4 /\
               free_list_capacity s5 = free_list_capacity s4 /\
               free_list_size s5 = free_list_size s4 - 1).
  { destruct r as [s5|].
    - exists s5. split; [done|].
      apply compress_pass_Some in Hpass
        as [(k' & fi & Hk' & Hget & Hfi & Hrm)
           |(k' & j' & fi & fj & s' & Hk' & Hkj & Hj & Hgi & Hgj & Hn & Hput & Hrm)].
      + pose proof (fl_get_live s4 k' fi ltac:(lia) Hget) as Hli.
        destruct (Hcases k' fi Hli) as [(-> & ->)|(_ & Hg)].
        * destruct (rule1_inv (length (live s)) s4 s5 idx1 Hinv4 ltac:(lia)
                      Hget Hfi Hrm)
            as (Hinv5 & Hl5 & Hfs5 & Hds5 & Hd5 & Hdc5 & Hfc5).
          split; [done|]. split.
          { by rewrite Hl5, Hl4, delete_middle, app_nil_r. }
          unfold idx1 in Hds5. simpl in Hds5. repeat split; lia.
        * pose proof (Hold k' fi Hg). lia.
      + exfalso.
        pose proof (fl_get_live s4 k' fi ltac:(lia) Hgi) as Hli.
        pose proof (fl_get_live s4 j' fj ltac:(lia) Hgj) as Hlj.
        apply (neighbours_adjacent (data_size s4)) in Hn;
          [|lia|by apply (proj1 (Forall_lookup _ _) Hok4 k' fi)
               |by apply (proj1 (Forall_lookup _ _) Hok4 j' fj)].
        destruct (Hcases k' fi Hli) as [(-> & ->)|(Hlti & Hgi')]; [lia|].
        destruct (Hcases j' fj Hlj) as [(-> & ->)|(Hltj & Hgj')].
        * pose proof (Hold k' fi Hgi'). unfold adjacent, idx1 in Hn.
          simpl in Hn. lia.
        * apply (Hadj k' j' fi fj); [lia|done|done|done].
    - exfalso. change (Z.of_nat 0) with 0 in Hpass.
      destruct (compress_pass_compacted s4 Hinv4 Hpass) as [Hend4 _].
      apply (proj1 (Forall_lookup _ _) Hend4 (length (live s)) idx1).
      + rewrite Hl4. by apply list_lookup_middle.
      + unfold idx1. simpl. lia. }
  destruct Hshrink as (s5 & -> & Hinv5 & Hl5 & Hds5 & Hdc5 & Hfc5 & Hfs5).
  exists s5. split.
  - apply compress_one_merge; [done|done|done|].
    unfold compacted. by rewrite Hl5, Hds5.
  - split; [done|]. split; [done|]. repeat split; lia.
Qed.
End FreeAfterAllocate.

(** ** Allocate, free, allocate again *)

Section AllocateAgain.
Context `{Mpfr}.

Lemma allocate_first_fit (fuel : nat) (o : mx_alloc mpfr_t) (count : Z)
    (idx : idx_t) (s : pool) (k : nat) fk :
  free_list_block s -> count <> 0 ->
  live s !! k = Some fk -> count <= Range.length fk ->
  (forall (k' : nat) f', (k' < k)%nat -> live s !! k' = Some f' ->
                         Range.length f' < count) ->
  count < Range.length fk \/ free_list_size s < free_list_capacity s ->
  let idx' := {| start := start fk;
                 end_ := wrap (wrap (start fk + count) - 1) |} in
  exists s', mex_mpfr_allocate fuel o count idx s
             = Ok (Z.b2z (is_valid idx' s'), idx', s') /\
             same_data s s'.
Proof.
  intros Hblock Hcount Hfk Hfit Hfirst Hroom idx'.
  pose proof (live_lt _ _ _ Hfk) as Hk.
  unfold mex_mpfr_allocate.
  destruct (Z.eqb_spec count 0); [done|].
  destruct (allocate_reuse_fit (Z.to_nat (free_list_size s)) 0 count s k fk)
    as (s' & Hrun & Hsame); [done|lia|done|done| |done|].
  { intros k' f' Hk'. apply Hfirst. lia. }
  change (Z.of_nat 0) with 0 in Hrun. rewrite Hrun. by exists s'.
Qed.

Lemma allocate_at_end (fuel : nat) (o : mx_alloc mpfr_t) (count : Z)
    (idx : idx_t) (s : pool) :
  free_list_block s -> count <> 0 ->
  (forall (k : nat) f, live s !! k = Some f -> Range.length f < count) ->
  wrap (data_size s + count) <= data_capacity s ->
  let s' := set_data_size (wrap (data_size s + count)) s in
  let idx' := {| start := wrap (data_size s + 1);
                 end_ := wrap (data_size s + count) |} in
  mex_mpfr_allocate fuel o count idx s = Ok (Z.b2z (is_valid idx' s'), idx', s').
Proof.
  intros Hblock Hcount Hshort Hcap s' idx'.
  unfold mex_mpfr_allocate.
  destruct (Z.eqb_spec count 0); [done|].
  pose proof (allocate_reuse_no_fit (Z.to_nat (free_list_size s)) 0 count s
                Hblock ltac:(lia) Hshort) as Hreuse.
  change (Z.of_nat 0) with 0 in Hreuse. rewrite Hreuse. cbn [mbind res_bind].
  unfold allocate_extend.
  destruct (Z.gtb_spec (wrap (data_size s + count)) (data_capacity s)); [lia|].
  done.
Qed.
End AllocateAgain.

(** ** The small pools *)

Lemma pairwise_nil (R : idx_t -> idx_t -> Prop) : pairwise R [].
Proof. intros i j e f _ Hi. by destruct i. Qed.

Lemma pairwise_cons (R : idx_t -> idx_t -> Prop) (x : idx_t) (l : list idx_t) :
  Forall (fun y => R x y /\ R y x) l -> pairwise R l -> pairwise R (x :: l).
Proof.
  intros Hx Hl i j e f Hne Hi Hj.
  destruct i as [|i], j as [|j]; simpl in Hi, Hj; [done| | |].
  - injection Hi as <-.
    by apply (proj1 (Forall_lookup _ _) Hx j f Hj).
  - injection Hj as <-.
    by apply (proj1 (Forall_lookup _ _) Hx i e Hi).
  - apply (Hl i j); (done || lia).
Qed.

Ltac solve_entries :=
  repeat first [apply pairwise_nil | apply pairwise_cons | constructor];
  unfold entry_ok, disjoint, adjacent; simpl; lia.

Lemma small_pool_live (size : Z) (entries : list idx_t) :
  live (SmallPools.small_pool size entries) = entries.
Proof.
  unfold live, SmallPools.small_pool. simpl.
  by rewrite Nat2Z.id, take_app_length.
Qed.

Lemma small_pool_inv (size : Z) (entries : list idx_t) :
  (length entries <= 8)%nat -> 0 <= size < 2 ^ 64 ->
  Forall (entry_ok size) entries -> pairwise disjoint entries ->
  pool_inv (SmallPools.small_pool size entries).
Proof.
  intros Hlen Hsize Hok Hdisj.
  unfold pool_inv, free_list_inv. rewrite small_pool_live.
  split; [|done]. unfold free_list_block. simpl.
  rewrite length_app, length_replicate. lia.
Qed.

Lemma small_pool_data_array (size : Z) (entries : list idx_t) :
  0 <= size <= 12 -> data_array (SmallPools.small_pool size entries).
Proof. intros Hsize. unfold data_array. simpl. lia. Qed.

Lemma small_pool_compacted (size : Z) (entries : list idx_t) :
  Forall (fun e => end_ e <> size) entries ->
  pairwise (fun e f => ~ adjacent e f) entries ->
  compacted (SmallPools.small_pool size entries).
Proof. intros Hend Hadj. unfold compacted. by rewrite small_pool_live. Qed.

Lemma fragmented_inv : pool_inv SmallPools.fragmented.
Proof. apply small_pool_inv; [simpl; lia|lia| |]; solve_entries. Qed.

Lemma compact_inv : pool_inv SmallPools.compact.
Proof. apply small_pool_inv; [simpl; lia|lia| |]; solve_entries. Qed.

Lemma compact_compacted : compacted SmallPools.compact.
Proof. apply small_pool_compacted; solve_entries. Qed.

Lemma compact_data_array : data_array SmallPools.compact.
Proof. by apply small_pool_data_array. Qed.

(** ** Allocate, free, allocate again: the three cases *)

Section Again.
Context `{Mpfr}.

(** The three ways in which the first call returns, the pool after the
    range has been freed, and what the next call returns. *)
Lemma free_then_allocate_cases (fuel : nat) (o : mx_alloc mpfr_t)
    (o' : mx_alloc idx_t) (count : Z) (idx : idx_t) (s : pool) r idx1 s1 :
  pool_inv s -> compacted s -> data_array s ->
  0 <= count -> data_size s + count < 2 ^ 64 ->
  mex_mpfr_allocate fuel o count idx s = Ok (r, idx1, s1) -> r <> 0 ->
  room_to_free o' s1 ->
  exists s2, mex_mpfr_mark_free o' idx1 s1 = Ok s2 /\
    forall fuel' o'' idx', exists idx2 s3,
      mex_mpfr_allocate fuel' o'' count idx' s2 = Ok (r, idx2, s3) /\
      data_size s3 = data_size s1 /\ data_capacity s3 = data_capacity s1 /\
      ((forall k j fk fj, ~ exact_fit_then_later_fit count (live s) k j fk fj) ->
       idx2 = idx1) /\
      (forall k j fk fj, exact_fit_then_later_fit count (live s) k j fk fj ->
         idx1 = {| start := start fk; end_ := end_ fk |} /\
         idx2 = {| start := start fj; end_ := start fj + count - 1 |} /\
         idx2 <> idx1).
Proof.
  intros Hinv Hc Hdata Hcount Hsum Hrun Hr Hroom.
  pose proof Hinv as (Hblock & Hsize & Hok & Hdisj).
  unfold mex_mpfr_allocate in Hrun.
  destruct (Z.eqb_spec count 0) as [->|Hne]; [by injection Hrun as <- _ _|].
  assert (0 < count) as Hpos by lia.
  destruct (allocate_reuse _ 0 count s) as [[[[r1 i1] s1']|]|] eqn:Hreuse;
    simpl in Hrun; [| |done].
  - injection Hrun as -> -> ->. change 0 with (Z.of_nat 0) in Hreuse.
    apply allocate_reuse_Some in Hreuse
      as (k & fk & Hk & Hget & Hfit & Hfirst & -> & -> & Hstep).
    pose proof (fl_get_live s k fk ltac:(lia) Hget) as Hfk.
    assert (forall (k' : nat) f', (k' < k)%nat -> live s !! k' = Some f' ->
                                  Range.length f' < count) as Hfirst'.
    { intros k' f' Hk' Hf'. apply (Hfirst k'); [lia|by apply live_fl_get]. }
    pose proof (proj1 (Forall_lookup _ _) Hok k fk Hfk) as Hokk.
    pose proof (entry_length (data_size s) fk ltac:(lia) Hokk) as Hlenk.
    destruct Hokk as (Hk1 & Hk2 & Hk3).
    (* the entry first fit takes is entry [k] *)
    assert (forall k0 f0, live s !! k0 = Some f0 -> count <= Range.length f0 ->
              (forall (k' : nat) f', (k' < k0)%nat -> live s !! k' = Some f' ->
                                     Range.length f' < count) ->
              k0 = k) as Hsame.
    { intros k0 f0 Hf0 Hfit0 Hfirst0.
      destruct (lt_eq_lt_dec k0 k) as [[Hlt|?]|Hgt]; [|done|].
      - pose proof (Hfirst' k0 f0 Hlt Hf0). lia.
      - pose proof (Hfirst0 k fk Hgt Hfk). lia. }
    destruct Hstep as [(Hlong & Hput)|(Hexact & Hrm)].
    + destruct (free_of_head s count Hinv Hc Hdata Hpos Hsum o' k fk s1
                  Hfk Hlong Hput Hroom)
        as (s2 & Hfree & Hinv2 & Hl2 & Hds2 & Hdc2 & Hroom2).
      apply fl_put_live in Hput as (_ & (_ & Hdc1 & Hds1 & _) & _); [|lia].
      exists s2. split; [done|]. intros fuel' o'' idx'.
      destruct (allocate_first_fit fuel' o'' count idx' s2 k fk)
        as (s3 & Hrun3 & (_ & Hdc3 & Hds3 & _));
        [apply Hinv2|done|by rewrite Hl2|done|by rewrite Hl2|by left|].
      eexists _, s3. split.
      { rewrite Hrun3. unfold is_valid. by rewrite Hds3, Hds2, Hds1. }
      split; [lia|]. split; [lia|]. split; [done|].
      intros k0 j fk0 fj (Hfk0 & Hex0 & Hfirst0 & _).
      assert (k0 = k) as -> by (apply (Hsame k0 fk0); (done || lia)).
      rewrite Hfk in Hfk0. injection Hfk0 as <-. lia.
    + destruct (free_of_whole s count Hinv Hc Hdata Hsum o' k fk s1
                  Hfk Hexact Hrm Hroom)
        as (s2 & Hfree & Hinv2 & Hl2 & Hds2 & Hdc2 & Hroom2).
      apply free_list_remove_inv in Hrm
        as (_ & _ & (_ & Hdc1 & Hds1 & _) & _); [|done|lia].
      exists s2. split; [done|]. intros fuel' o'' idx'.
      assert (wrap (wrap (start fk + count) - 1) = end_ fk) as Hend.
      { rewrite (wrap_small (start fk + count)) by lia.
        rewrite wrap_small by lia. lia. }
      (* is there an entry behind [k] that is long enough? *)
      destruct (list_find (fun f => count <= Range.length f)
                  (drop (S k) (live s))) as [[i fj]|] eqn:Hfind.
      * apply list_find_Some in Hfind as (Hi & Hfitj & Hmin).
        rewrite lookup_drop in Hi. set (j := (S k + i)%nat) in *.
        assert (forall (j' : nat) f', (k < j' < j)%nat ->
                  live s !! j' = Some f' -> Range.length f' < count) as Hmin'.
        { intros j' f' Hj' Hf'.
          destruct (Z.lt_ge_cases (Range.length f') count) as [?|Hge]; [done|].
          exfalso. apply (Hmin (j' - S k)%nat f'); [|lia|lia].
          rewrite lookup_drop.
          by replace (S k + (j' - S k))%nat with j' by lia. }
        pose proof (proj1 (Forall_lookup _ _) Hok j fj Hi) as Hokj.
        pose proof (entry_length (data_size s) fj ltac:(lia) Hokj) as Hlenj.
        destruct Hokj as (Hj1 & Hj2 & Hj3).
        destruct (allocate_first_fit fuel' o'' count idx' s2 (j - 1) fj)
          as (s3 & Hrun3 & (_ & Hdc3 & Hds3 & _)).
        -- apply Hinv2.
        -- done.
        -- rewrite Hl2, lookup_app_l.
           ++ rewrite list_lookup_delete_ge by lia.
              by replace (S (j - 1)) with j by lia.
           ++ rewrite length_delete by (by eexists).
              apply lookup_lt_Some in Hi. lia.
        -- done.
        -- intros k' f' Hk'. rewrite Hl2.
           destruct (decide (k' < length (delete k (live s)))%nat) as [Hin|Hout].
           ++ rewrite lookup_app_l by done. rewrite list_lookup_delete.
              case_decide.
              ** by apply Hfirst'.
              ** apply Hmin'. lia.
           ++ rewrite length_delete in Hout by (by eexists).
              apply lookup_lt_Some in Hi. lia.
        -- by right.
        -- eexists _, s3. split.
           { rewrite Hrun3. unfold is_valid.
             rewrite Hds3, Hds2, Hds1. rewrite Hend.
             rewrite (wrap_small (start fj + count)) by lia.
             rewrite (wrap_small (start fj + count - 1)) by lia.
             cbn [start end_].
             destruct (Z.leb_spec 1 (start fk)); [|lia].
             destruct (Z.leb_spec (start fk) (end_ fk)); [|lia].
             destruct (Z.leb_spec (end_ fk) (data_size s)); [|lia].
             destruct (Z.leb_spec 1 (start fj)); [|lia].
             destruct (Z.leb_spec (start fj) (start fj + count - 1)); [|lia].
             destruct (Z.leb_spec (start fj + count - 1) (data_size s)); [|lia].
             reflexivity. }
           split; [lia|]. split; [lia|].
           assert (start fj <> start fk) as Hstart.
           { pose proof (Hdisj j k fj fk ltac:(lia) Hi Hfk) as Hd.
             unfold disjoint in Hd. lia. }
           split.
           { intros Hnone. exfalso. apply (Hnone k j fk fj).
             unfold exact_fit_then_later_fit.
             split; [done|]. split; [done|]. split; [done|].
             split; [lia|]. split; [done|]. split; [done|]. done. }
           intros k0 j0 fk0 fj0
             (Hfk0 & Hex0 & Hfirst0 & Hkj0 & Hfj0 & Hfit0 & Hmin0).
           assert (k0 = k) as -> by (apply (Hsame k0 fk0); (done || lia)).
           rewrite Hfk in Hfk0. injection Hfk0 as <-.
           assert (j0 = j) as ->.
           { destruct (lt_eq_lt_dec j0 j) as [[Hlt|?]|Hgt]; [|done|].
             - pose proof (Hmin' j0 fj0 ltac:(lia) Hfj0). lia.
             - pose proof (Hmin0 j fj ltac:(lia) Hi). lia. }
           rewrite Hi in Hfj0. injection Hfj0 as <-.
           split; [by rewrite Hend|]. split; [done|].
           intros [= Hs _]. done.
      * pose proof (proj1 (list_find_None _ _) Hfind) as Hnone.
        destruct (allocate_first_fit fuel' o'' count idx' s2
                    (length (delete k (live s))) fk)
          as (s3 & Hrun3 & (_ & Hdc3 & Hds3 & _)).
        -- apply Hinv2.
        -- done.
        -- rewrite Hl2. by apply list_lookup_middle.
        -- lia.
        -- intros k' f' Hk'. rewrite Hl2, lookup_app_l by done.
           rewrite list_lookup_delete. case_decide.
           ++ by apply Hfirst'.
           ++ intros Hf'.
              destruct (Z.lt_ge_cases (Range.length f') count) as [?|Hge];
                [done|].
              exfalso.
              apply (proj1 (Forall_lookup _ _) Hnone (S k' - S k)%nat f');
                [|lia].
              rewrite lookup_drop.
              by replace (S k + (S k' - S k))%nat with (S k') by lia.
        -- by right.
        -- eexists _, s3. split.
           { rewrite Hrun3. unfold is_valid. by rewrite Hds3, Hds2, Hds1. }
           split; [lia|]. split; [lia|]. split; [done|].
           intros k0 j0 fk0 fj0
             (Hfk0 & Hex0 & Hfirst0 & Hkj0 & Hfj0 & Hfit0 & Hmin0).
           exfalso.
           assert (k0 = k) as -> by (apply (Hsame k0 fk0); (done || lia)).
           apply (proj1 (Forall_lookup _ _) Hnone (j0 - S k)%nat fj0); [|lia].
           rewrite lookup_drop.
           by replace (S k + (j0 - S k))%nat with j0 by lia.
  - change 0 with (Z.of_nat 0) in Hreuse.
    pose proof (allocate_reuse_None _ _ _ _ Hreuse) as Hnone.
    assert (forall (k : nat) f, live s !! k = Some f -> Range.length f < count)
      as Hshort.
    { intros k f Hf. pose proof (live_lt _ _ _ Hf).
      destruct (Hnone k) as (fi & Hget & Hlen); [lia|].
      rewrite (live_fl_get _ _ _ Hf) in Hget. by injection Hget as <-. }
    destruct (allocate_extend fuel o count s) as [[sl|sr]|] eqn:Hext;
      simpl in Hrun; [by injection Hrun as <- _ _| |done].
    pose proof (allocate_extend_frame _ _ _ _ _ Hext) as (Hfl & Hfs & Hfc & Hds).
    simpl in Hfl, Hfs, Hfc, Hds.
    assert (0 <= data_size s + count < 2 ^ 64) as Hsum' by lia.
    destruct (allocate_extend_inr _ _ _ _ _ Hdata Hsum' Hext)
      as (Hcap & Hcap' & Harr).
    rewrite Hds in Hrun.
    rewrite (wrap_small (data_size s + count)),
      (wrap_small (data_size s + 1)) in Hrun by lia.
    injection Hrun as <- <- <-.
    destruct (free_of_fresh s count Hinv Hc Hpos Hsum o'
                (set_data_size (data_size s + count) sr))
      as (s2 & Hfree & Hinv2 & Hl2 & Hds2 & Hdc2 & Hroom2);
      [done|done|done|done| |done|].
    { unfold data_array. simpl. split; [lia|]. by split. }
    exists s2. split; [done|]. intros fuel' o'' idx'.
    rewrite (allocate_at_end fuel' o'' count idx' s2);
      [|apply Hinv2|done|by rewrite Hl2
       |rewrite Hds2, wrap_small by lia; simpl in Hdc2; lia].
    eexists _, _. rewrite Hds2.
    rewrite (wrap_small (data_size s + count)),
      (wrap_small (data_size s + 1)) by lia.
    split; [reflexivity|]. simpl in *. split; [lia|]. split; [lia|].
    split; [done|].
    intros k0 j0 fk0 fj0 (Hfk0 & Hex0 & _).
    pose proof (Hshort k0 fk0 Hfk0). lia.
Qed.
End Again.

(** C4, the claim as stated fails.  The pool reached from the empty pool
    by [allocate (21)], [mark_free ([1, 5])] and [mark_free ([10, 20])] has
    the free list [[1, 5]; [10, 20]]; it satisfies the invariant and is
    compacted.  There [allocate (5)] returns [[1, 5]] and removes that
    entry, [mark_free ([1, 5])] appends it after [[10, 20]], and the second
    [allocate (5)] takes the first entry that is long enough, now
    [[10, 20]]: it returns [[10, 14]]. *)
Lemma second_allocate_takes_later_entry :
  returns Examples.two_free_entries
    (fun s => live s = [Examples.range 1 5; Examples.range 10 20] /\
              pool_inv s /\ compacted s /\ data_array s /\
              Examples.allocate_free_allocate_run 5 s
              = Ok (Examples.range 1 5, Examples.range 10 14)).
Proof.
  apply (returns_intro _
           (fun s => (live s, data_size s, free_list_size s,
                      free_list_capacity s, length <$> free_list s,
                      data_capacity s, length <$> data s,
                      Examples.allocate_free_allocate_run 5 s))
           ([Examples.range 1 5; Examples.range 10 20], 21, 2, 1000,
            Some 1000%nat, 1000, Some 1000%nat,
            Ok (Examples.range 1 5, Examples.range 10 14))).
  - vm_compute. reflexivity.
  - intros s _ [= Hl Hds Hfs Hfc Hfl Hdc Hd Hrun].
    split; [done|].
    assert (forall R : idx_t -> idx_t -> Prop,
              R (Examples.range 1 5) (Examples.range 10 20) ->
              R (Examples.range 10 20) (Examples.range 1 5) ->
              pairwise R [Examples.range 1 5; Examples.range 10 20])
      as Hpair.
    { intros R H1 H2 i j e f Hne.
      destruct i as [|[|i]], j as [|[|j]]; try done; by intros [= <-] [= <-]. }
    split; [|split; [|split; [|done]]].
    + unfold pool_inv, free_list_block, free_list_inv.
      rewrite Hl, Hds, Hfs, Hfc.
      destruct (free_list s) as [a|]; [|done]. injection Hfl as Hfl.
      split; [repeat split; (done || lia)|]. split; [lia|]. split.
      * repeat constructor; simpl; lia.
      * apply Hpair; unfold disjoint; simpl; lia.
    + unfold compacted. rewrite Hl, Hds. split.
      * repeat constructor; simpl; lia.
      * apply Hpair; unfold adjacent; simpl; lia.
    + unfold data_array. rewrite Hds, Hdc.
      destruct (data s) as [d|]; [|done]. injection Hd as Hd.
      repeat split; try lia. exact (f_equal Z.of_nat Hd).
Qed.

(** C4, amended.  Let the pool satisfy the invariant, be compacted and
    have its data array, and let [data_size + count < 2^64].  If
    [mex_mpfr_allocate (count)] returns nonzero with the range [idx1], and
    the free list has room for the call of [mex_mpfr_mark_free], then
    [mex_mpfr_mark_free (idx1)] returns, and after it every call
    [mex_mpfr_allocate (count)], whatever the memory manager would answer,
    returns the same nonzero value and leaves [data_size] and
    [data_capacity] as the first allocation left them.  The range it
    returns is [idx1] again, except in one case: the entry that first fit
    took (the first of [count] slots or more) had exactly [count] slots,
    and an entry behind it has [count] slots or more.  In that case, and
    only then, the range differs: [idx1] was that whole entry, and the
    second call returns the first [count] slots of the next entry behind
    it that is long enough.  (Every pool that is reached from the initial
    one satisfies the invariant and is compacted: lemma [reachable_inv].) *)
Theorem allocate_free_allocate `{Mpfr} (fuel : nat) (o : mx_alloc mpfr_t)
    (o' : mx_alloc idx_t) (count : Z) (idx : idx_t) (s : pool) r idx1 s1 :
  pool_inv s -> compacted s -> data_array s ->
  0 <= count -> data_size s + count < 2 ^ 64 ->
  mex_mpfr_allocate fuel o count idx s = Ok (r, idx1, s1) -> r <> 0 ->
  room_to_free o' s1 ->
  exists s2, mex_mpfr_mark_free o' idx1 s1 = Ok s2 /\
    forall fuel' o'' idx', exists idx2 s3,
      mex_mpfr_allocate fuel' o'' count idx' s2 = Ok (r, idx2, s3) /\
      data_size s3 = data_size s1 /\ data_capacity s3 = data_capacity s1 /\
      (idx2 = idx1 <->
       ~ exists k j fk fj, exact_fit_then_later_fit count (live s) k j fk fj) /\
      (forall k j fk fj, exact_fit_then_later_fit count (live s) k j fk fj ->
         idx1 = {| start := start fk; end_ := end_ fk |} /\
         idx2 = {| start := start fj; end_ := start fj + count - 1 |}).
Proof.
  intros Hinv Hc Hdata Hcount Hsum Hrun Hr Hroom.
  destruct (free_then_allocate_cases fuel o o' count idx s r idx1 s1
              Hinv Hc Hdata Hcount Hsum Hrun Hr Hroom) as (s2 & Hfree & Hnext).
  exists s2. split; [exact Hfree|]. intros fuel' o'' idx'.
  destruct (Hnext fuel' o'' idx') as (idx2 & s3 & Hrun2 & Hds & Hdc & Hsame & Hdiff).
  exists idx2, s3. split; [exact Hrun2|]. split; [exact Hds|].
  split; [exact Hdc|]. split; [split|].
  - intros Heq (k & j & fk & fj & Hbad).
    destruct (Hdiff k j fk fj Hbad) as (_ & _ & Hne). by apply Hne.
  - intros Hnone. apply Hsame. intros k j fk fj Hbad.
    apply Hnone. by exists k, j, fk, fj.
  - intros k j fk fj Hbad. destruct (Hdiff k j fk fj Hbad) as (? & ? & _).
    by split.
Qed.

Lemma allocate_free_allocate_witness :
  exists s2,
    mex_mpfr_mark_free (H := ExactInt.mpfr) (mx_block Examples.idx0)
      (Examples.range 1 3) (SmallPools.small_pool 11 [Examples.range 7 9])
    = Ok s2 /\
    forall fuel' o'' idx', exists idx2 s3,
      mex_mpfr_allocate fuel' o'' 3 idx' s2 = Ok (1, idx2, s3) /\
      data_size s3 = data_size (SmallPools.small_pool 11 [Examples.range 7 9]) /\
      data_capacity s3
      = data_capacity (SmallPools.small_pool 11 [Examples.range 7 9]) /\
      (idx2 = Examples.range 1 3 <->
       ~ exists k j fk fj,
           exact_fit_then_later_fit 3 (live SmallPools.compact) k j fk fj) /\
      (forall k j fk fj,
         exact_fit_then_later_fit 3 (live SmallPools.compact) k j fk fj ->
         Examples.range 1 3 = {| start := start fk; end_ := end_ fk |} /\
         idx2 = {| start := start fj; end_ := start fj + 3 - 1 |}).
Proof.
  apply (allocate_free_allocate (H := ExactInt.mpfr) 1 mx_null
           (mx_block Examples.idx0) 3 Examples.idx0 SmallPools.compact 1).
  - exact compact_inv.
  - exact compact_compacted.
  - exact compact_data_array.
  - lia.
  - simpl. lia.
  - reflexivity.
  - lia.
  - left. simpl. lia.
Defined.

(** ** Which slots are free

    The allocator keeps no record of the slots in use: a slot is free when
    an entry of the free list covers it. *)

Lemma elem_of_delete_iff (l : list idx_t) (k : nat) (g : idx_t) :
  g ∈ delete k l <-> exists j, j <> k /\ l !! j = Some g.
Proof.
  split; [apply elem_of_delete_lookup|].
  intros (j & Hj & Hg). apply list_elem_of_lookup.
  destruct (decide (j < k)%nat).
  - exists j. by rewrite list_lookup_delete_lt.
  - exists (j - 1)%nat. rewrite list_lookup_delete_ge by lia.
    by replace (S (j - 1)) with j by lia.
Qed.

Section FreeSlots.
Context `{Mpfr}.

(** Rule 1 gives back to the pool the slots of the entry it removes. *)
Lemma rule1_slots (k : nat) (s s' : pool) fi :
  pool_inv s -> (k < Z.to_nat (free_list_size s))%nat ->
  fl_get s (Z.of_nat k) = Ok fi -> end_ fi = data_size s ->
  free_list_remove (Z.of_nat k) (set_data_size (wrap (start fi - 1)) s) = Ok s' ->
  forall p, free_slot s p <-> free_slot s' p \/ data_size s' < p <= data_size s.
Proof.
  intros Hinv Hk Hget Hend Hrm p.
  destruct (rule1_inv k s s' fi Hinv Hk Hget Hend Hrm)
    as (Hinv' & Hl' & _ & Hds' & _).
  apply fl_get_live in Hget; [|done].
  destruct Hinv as (_ & _ & Hok & Hdisj).
  unfold free_slot, in_range. rewrite Hl', Hds'. split.
  - intros (e & He & Hp). apply list_elem_of_lookup in He as [j Hj].
    destruct (decide (j = k)) as [->|Hne].
    + rewrite Hget in Hj. injection Hj as <-. right. lia.
    + left. exists e. split; [|done]. apply elem_of_delete_iff. eauto.
  - intros [(e & He & Hp)|Hp].
    + exists e. split; [|done]. by apply list_elem_of_delete_inv in He.
    + exists fi. split; [by eapply list_elem_of_lookup_2|lia].
Qed.

(** Rule 2 replaces two adjacent entries by their union. *)
Lemma rule2_slots (k j' : nat) (s s1 s' : pool) fi fj :
  pool_inv s -> (k < j')%nat -> Z.of_nat j' < free_list_size s ->
  fl_get s (Z.of_nat k) = Ok fi -> fl_get s (Z.of_nat j') = Ok fj ->
  neighbours fi fj = true ->
  fl_put s (Z.of_nat k) (merged fi fj) = Ok s1 ->
  free_list_remove (Z.of_nat j') s1 = Ok s' ->
  forall p, free_slot s p <-> free_slot s' p.
Proof.
  intros Hinv Hkj Hj Hgi Hgj Hn Hput Hrm p.
  destruct (rule2_inv k j' s s1 s' fi fj Hinv Hkj Hj Hgi Hgj Hn Hput Hrm)
    as (Hinv' & Hl' & _).
  apply fl_get_live in Hgi; [|lia]. apply fl_get_live in Hgj; [|lia].
  destruct Hinv as (_ & Hsize & Hok & Hdisj).
  pose proof (proj1 (Forall_lookup _ _) Hok k fi Hgi) as Hoki.
  pose proof (proj1 (Forall_lookup _ _) Hok j' fj Hgj) as Hokj.
  apply (neighbours_adjacent (data_size s)) in Hn; [|lia|done|done].
  destruct Hoki as (? & Hi2 & ?), Hokj as (? & Hj2 & ?).
  pose proof (merged_union fi fj Hi2 Hj2 Hn) as Hm.
  unfold free_slot, in_range. rewrite Hl'. split.
  - intros (e & He & Hp). apply list_elem_of_lookup in He as [j Hje].
    destruct (decide (j = k \/ j = j')) as [Hin|Hout].
    + exists (merged fi fj). split.
      * apply elem_of_delete_iff. exists k. split; [lia|].
        apply list_lookup_insert_eq. by apply lookup_lt_Some in Hgi.
      * assert (e = fi \/ e = fj) as [->| ->]
          by (destruct Hin as [-> | ->]; [left|right]; congruence).
        -- lia.
        -- lia.
    + exists e. split; [|done].
      apply elem_of_delete_iff. exists j. split; [lia|].
      rewrite list_lookup_insert_ne by lia. done.
  - intros (e & He & Hp).
    apply elem_of_delete_iff in He as (j & Hne & Hje).
    apply list_lookup_insert_Some in Hje as [(-> & <- & _)|[Hnk Hje]].
    + assert (start fi <= p <= end_ fi \/ start fj <= p <= end_ fj) as [?|?]
        by lia.
      * exists fi. split; [by eapply list_elem_of_lookup_2|done].
      * exists fj. split; [by eapply list_elem_of_lookup_2|done].
    + exists e. split; [by eapply list_elem_of_lookup_2|done].
Qed.

Lemma compress_pass_slots (s s' : pool) :
  pool_inv s ->
  free_list_compress_pass (Z.to_nat (free_list_size s)) 0 s = Ok (Some s') ->
  forall p, free_slot s p <-> free_slot s' p \/ data_size s' < p <= data_size s.
Proof.
  intros Hinv Hpass p.
  destruct (compress_pass_inv s s' Hinv Hpass) as (_ & (_ & _ & _ & Hds & _) & _).
  change 0 with (Z.of_nat 0) in Hpass.
  apply compress_pass_Some in Hpass
    as [(k & fi & Hk & Hget & Hend & Hrm)
       |(k & j' & fi & fj & s1 & Hk & Hkj & Hj & Hgi & Hgj & Hn & Hput & Hrm)].
  - apply (rule1_slots k s s' fi); (done || lia).
  - rewrite (rule2_slots k j' s s1 s' fi fj Hinv Hkj Hj Hgi Hgj Hn Hput Hrm p).
    destruct (rule2_inv k j' s s1 s' fi fj Hinv Hkj Hj Hgi Hgj Hn Hput Hrm)
      as (_ & _ & _ & (_ & _ & Hds' & _)).
    split; [by left|]. intros [?|?]; [done|exfalso; lia].
Qed.

Lemma compress_loop_slots (fuel : nat) (s s' : pool) :
  pool_inv s -> free_list_compress_loop fuel s = Ok s' ->
  forall p, free_slot s p <-> free_slot s' p \/ data_size s' < p <= data_size s.
Proof.
  revert s. induction fuel as [|fuel IH]; intros s Hinv; simpl; [done|].
  destruct (free_list_compress_pass _ 0 s) as [[s1|]|] eqn:Hpass; simpl; [| |done].
  - intros Hloop p.
    destruct (compress_pass_inv s s1 Hinv Hpass) as (Hinv1 & (_ & _ & _ & Hds1 & _) & _).
    destruct (compress_loop_inv _ _ _ Hinv1 Hloop) as (_ & _ & (_ & _ & _ & Hds' & _)).
    rewrite (compress_pass_slots s s1 Hinv Hpass p), (IH s1 Hinv1 Hloop p).
    split.
    + intros [[?|?]|?]; [by left|right; lia|right; lia].
    + intros [?|?]; [by left; left|].
      destruct (decide (p <= data_size s1)); [left; right; lia|right; lia].
  - intros [= <-] p. split; [by left|]. intros [?|?]; [done|exfalso; lia].
Qed.
End FreeSlots.

(** X1.  [free_list_compress] on a pool that satisfies the invariant and
    has a spare cell behind the entries of the free list returns; the
    pool it leaves satisfies the invariant and is compacted; the data
    array and its capacity are untouched and [data_size] has not grown.
    No free slot is lost and none is invented: a slot is covered by an
    entry before the call exactly when afterwards it is covered by an
    entry or lies above the new [data_size].  A second call changes
    nothing. *)
Theorem free_list_compress_conserves `{Mpfr} (s : pool) :
  pool_inv s -> free_list_size s < free_list_capacity s ->
  exists s', free_list_compress s = Ok s' /\
    pool_inv s' /\ compacted s' /\
    data s' = data s /\ data_capacity s' = data_capacity s /\
    data_size s' <= data_size s /\
    (forall p, free_slot s p <->
               free_slot s' p \/ data_size s' < p <= data_size s) /\
    free_list_compress s' = Ok s'.
Proof.
  intros Hinv Hspare.
  destruct (free_list_compress_returns s Hinv Hspare) as [s' Hrun].
  exists s'. split; [done|].
  destruct (compress_loop_inv _ _ _ Hinv Hrun)
    as (Hinv' & Hc & (Hd & Hdc & Hfc & Hds & Hfs)).
  repeat (split; [done|]). split.
  - exact (compress_loop_slots _ s s' Hinv Hrun).
  - apply compress_compacted; [done|done|lia].
Qed.

Lemma free_list_compress_conserves_witness :
  exists s', free_list_compress SmallPools.fragmented = Ok s' /\
    pool_inv s' /\ compacted s' /\
    data s' = data SmallPools.fragmented /\
    data_capacity s' = data_capacity SmallPools.fragmented /\
    data_size s' <= data_size SmallPools.fragmented /\
    (forall p, free_slot SmallPools.fragmented p <->
               free_slot s' p \/
               data_size s' < p <= data_size SmallPools.fragmented) /\
    free_list_compress s' = Ok s'.
Proof.
  apply (free_list_compress_conserves (H := ExactInt.mpfr) SmallPools.fragmented).
  - exact fragmented_inv.
  - reflexivity.
Defined.

(** ** The cells of the data array across [mex_mpfr_mark_free] *)

Section CellsOfThePool.
Context `{Mpfr}.

Lemma init_cells_lookup (n i : nat) (d d' : list mpfr_t) :
  init_cells n (Z.of_nat i) d = Ok d' ->
  forall q : nat,
    d' !! q = if decide (i <= q < i + n)%nat then Some mpfr_init else d !! q.
Proof.
  revert i d. induction n as [|n IH]; intros i d; simpl.
  - intros [= <-] q. case_decide; [lia|done].
  - destruct (store d (Z.of_nat i) mpfr_init) as [d1|] eqn:Hst; simpl; [|done].
    apply store_inv in Hst as (_ & Hlt & ->). rewrite Nat2Z.id in *.
    replace (Z.of_nat i + 1) with (Z.of_nat (S i)) by lia.
    intros Hrec q. rewrite (IH _ _ Hrec q).
    destruct (decide (q = i)) as [->|Hne].
    + rewrite decide_False by lia. rewrite decide_True by lia.
      by apply list_lookup_insert_eq.
    + rewrite list_lookup_insert_ne by done.
      repeat case_decide; (done || lia).
Qed.

(** [mex_mpfr_mark_free] on a range that is in use: the steps of a call
    that finds room in the free list. *)
Lemma mark_free_run (o : mx_alloc idx_t) (idx : idx_t) (s : pool) :
  pool_inv s -> data_array s -> is_valid idx s = true ->
  (forall e, e ∈ live s -> disjoint idx e) ->
  room_to_free o s ->
  exists d d' s4 s',
    data s = Some d /\
    init_cells (Z.to_nat (end_ idx - (start idx - 1))) (start idx - 1) d
    = Ok d' /\
    data s4 = Some d' /\ pool_inv s4 /\ live s4 = live s ++ [idx] /\
    data_size s4 = data_size s /\ data_capacity s4 = data_capacity s /\
    free_list_size s4 < free_list_capacity s4 /\
    free_list_compress s4 = Ok s' /\
    mex_mpfr_mark_free o idx s = Ok s'.
Proof.
  intros Hinv (Hds & Hdc & Hdata) Hv Hnew Hroom.
  destruct (mark_free_extend_room o s Hinv Hroom)
    as (s1 & Hext & Hinv1 & Hl1 & Hfs1 & Hroom1 & Hd1 & Hds1 & Hdc1).
  unfold mex_mpfr_mark_free. rewrite Hv, Hext. cbn [negb].
  pose proof (proj1 (is_valid_true _ _) Hv) as (Hv1 & Hv2 & Hv3).
  rewrite Hd1. destruct (data s) as [d|]; [|lia]. cbn [deref mbind res_bind].
  rewrite wrap_small by lia.
  destruct (init_cells_Ok (Z.to_nat (end_ idx - (start idx - 1)))
              (Z.to_nat (start idx - 1)) d) as (d' & Hinit & Hlen'); [lia|].
  rewrite Z2Nat.id in Hinit by lia. rewrite Hinit.
  cbn [mbind res_bind].
  pose proof Hinv1 as (Hblock1 & _).
  assert (free_list_block (set_data (Some d') s1)) as Hblock1' by done.
  destruct (fl_put_returns (set_data (Some d') s1)
              (Z.to_nat (free_list_size s1)) idx Hblock1') as [s3 Hput].
  { destruct Hblock1 as (? & _). simpl. lia. }
  destruct Hblock1 as ((? & ?) & _).
  rewrite Z2Nat.id in Hput by lia. rewrite Hput. cbn [mbind res_bind].
  destruct (mark_free_append s1 s3 idx d' Hinv1 ltac:(lia))
    as (Hinv4 & Hl4 & Hfs4 & Hd4 & Hds4 & Hdc4 & Hfc4);
    [by rewrite <- Hv; unfold is_valid; rewrite Hds1
    |by rewrite Hl1|done|].
  match goal with |- context [free_list_compress ?x] => set (s4 := x) in * end.
  destruct (free_list_compress_returns s4 Hinv4 ltac:(lia)) as [s' Hs'].
  exists d, d', s4, s'.
  split; [done|]. split; [done|]. split; [done|]. split; [done|].
  split; [by rewrite Hl4, Hl1|]. repeat split; (done || lia).
Qed.
End CellsOfThePool.

(** X2.  [mex_mpfr_mark_free] of a valid range that overlaps no free
    entry, in a pool that satisfies the invariant and has room in the
    free-list array, returns; the data array keeps its length and its
    capacity, every cell of the range holds a freshly initialised
    variable and every other cell holds what it held. *)
Theorem mark_free_resets_range `{Mpfr} (o : mx_alloc idx_t) (idx : idx_t)
    (s : pool) :
  pool_inv s -> data_array s -> is_valid idx s = true ->
  (forall e, e ∈ live s -> disjoint idx e) ->
  room_to_free o s ->
  exists s' d d',
    mex_mpfr_mark_free o idx s = Ok s' /\
    data s = Some d /\ data s' = Some d' /\ length d' = length d /\
    data_capacity s' = data_capacity s /\
    forall p, 1 <= p ->
      d' !! Z.to_nat (p - 1)
      = if decide (in_range idx p) then Some mpfr_init
        else d !! Z.to_nat (p - 1).
Proof.
  intros Hinv Hdata Hv Hnew Hroom.
  destruct (mark_free_run o idx s Hinv Hdata Hv Hnew Hroom)
    as (d & d' & s4 & s' & Hd & Hinit & Hd4 & Hinv4 & _ & _ & Hdc4 & _
        & Hcomp & Hrun).
  destruct (compress_loop_inv _ _ _ Hinv4 Hcomp)
    as (_ & _ & (Hd' & Hdc' & _)).
  pose proof (proj1 (is_valid_true _ _) Hv) as (Hv1 & Hv2 & Hv3).
  exists s', d, d'. split; [done|]. split; [done|].
  split; [by rewrite Hd'|]. split; [by apply init_cells_length in Hinit|].
  split; [lia|]. intros p Hp.
  replace (start idx - 1) with (Z.of_nat (Z.to_nat (start idx - 1))) in Hinit
    by lia.
  rewrite (init_cells_lookup _ _ _ _ Hinit). unfold in_range.
  repeat case_decide; (done || lia).
Qed.

Lemma mark_free_resets_range_witness :
  exists s' d d',
    mex_mpfr_mark_free (H := ExactInt.mpfr) (mx_block Examples.idx0)
      (Examples.range 5 6) SmallPools.compact = Ok s' /\
    data SmallPools.compact = Some d /\ data s' = Some d' /\
    length d' = length d /\
    data_capacity s' = data_capacity SmallPools.compact /\
    forall p, 1 <= p ->
      d' !! Z.to_nat (p - 1)
      = if decide (in_range (Examples.range 5 6) p) then Some mpfr_init
        else d !! Z.to_nat (p - 1).
Proof.
  apply (mark_free_resets_range (H := ExactInt.mpfr) (mx_block Examples.idx0)
           (Examples.range 5 6) SmallPools.compact).
  - exact compact_inv.
  - exact compact_data_array.
  - reflexivity.
  - apply Forall_forall. unfold SmallPools.compact. rewrite small_pool_live.
    solve_entries.
  - left. simpl. lia.
Defined.

Section MarkFreeSlots.
Context `{Mpfr}.

Lemma mark_free_slots (o : mx_alloc idx_t) (idx : idx_t) (s : pool) :
  pool_inv s -> data_array s -> is_valid idx s = true ->
  (forall e, e ∈ live s -> disjoint idx e) ->
  room_to_free o s ->
  exists s',
    mex_mpfr_mark_free o idx s = Ok s' /\
    pool_inv s' /\ compacted s' /\ data_size s' <= data_size s /\
    forall p, free_slot s p \/ in_range idx p <->
              free_slot s' p \/ data_size s' < p <= data_size s.
Proof.
  intros Hinv Hdata Hv Hnew Hroom.
  destruct (mark_free_run o idx s Hinv Hdata Hv Hnew Hroom)
    as (d & d' & s4 & s' & _ & _ & _ & Hinv4 & Hl4 & Hds4 & _ & _
        & Hcomp & Hrun).
  destruct (compress_loop_inv _ _ _ Hinv4 Hcomp)
    as (Hinv' & Hc' & (_ & _ & _ & Hds' & _)).
  exists s'. split; [done|]. split; [done|]. split; [done|].
  split; [lia|]. intros p.
  rewrite <- Hds4. rewrite <- (compress_loop_slots _ s4 s' Hinv4 Hcomp p).
  unfold free_slot. rewrite Hl4. split.
  - intros [(e & He & Hp)|Hp].
    + exists e. split; [|done]. apply elem_of_app. by left.
    + exists idx. split; [|done]. apply elem_of_app. right.
      apply list_elem_of_singleton. done.
  - intros (e & He & Hp). apply elem_of_app in He as [He|He].
    + left. by exists e.
    + apply list_elem_of_singleton in He as ->. by right.
Qed.
End MarkFreeSlots.

(** X3.  Under the same conditions, after [mex_mpfr_mark_free] the slots
    of the range are free or lie above the new [data_size] (the call has
    given them back by lowering [data_size]), every slot that was free
    still is or lies above the new [data_size], and no other slot has
    become free; [data_size] has not grown. *)
Theorem mark_free_frees_range `{Mpfr} (o : mx_alloc idx_t) (idx : idx_t)
    (s : pool) :
  pool_inv s -> data_array s -> is_valid idx s = true ->
  (forall e, e ∈ live s -> disjoint idx e) ->
  room_to_free o s ->
  exists s',
    mex_mpfr_mark_free o idx s = Ok s' /\
    data_size s' <= data_size s /\
    forall p, free_slot s p \/ in_range idx p <->
              free_slot s' p \/ data_size s' < p <= data_size s.
Proof.
  intros Hinv Hdata Hv Hnew Hroom.
  destruct (mark_free_slots o idx s Hinv Hdata Hv Hnew Hroom)
    as (s' & Hrun & _ & _ & Hds & Hslots).
  by exists s'.
Qed.

Lemma mark_free_frees_range_witness :
  exists s',
    mex_mpfr_mark_free (H := ExactInt.mpfr) (mx_block Examples.idx0)
      (Examples.range 10 11) SmallPools.compact = Ok s' /\
    data_size s' <= data_size SmallPools.compact /\
    forall p, free_slot SmallPools.compact p \/
              in_range (Examples.range 10 11) p <->
              free_slot s' p \/
              data_size s' < p <= data_size SmallPools.compact.
Proof.
  apply (mark_free_frees_range (H := ExactInt.mpfr) (mx_block Examples.idx0)
           (Examples.range 10 11) SmallPools.compact).
  - exact compact_inv.
  - exact compact_data_array.
  - reflexivity.
  - apply Forall_forall. unfold SmallPools.compact. rewrite small_pool_live.
    solve_entries.
  - left. simpl. lia.
Defined.

(** ** The range [mex_mpfr_allocate] returns *)

Section AllocateCases.
Context `{Mpfr}.

(** The two ways in which [mex_mpfr_allocate] returns nonzero. *)
Lemma allocate_cases (fuel : nat) (o : mx_alloc mpfr_t) (count : Z)
    (idx : idx_t) (s : pool) r idx' s' :
  pool_inv s -> 0 <= count -> data_size s + count < 2 ^ 64 ->
  mex_mpfr_allocate fuel o count idx s = Ok (r, idx', s') -> r <> 0 ->
  0 < count /\
  ((exists (k : nat) fk,
      live s !! k = Some fk /\ count <= end_ fk - start fk + 1 /\
      (forall (k' : nat) f', (k' < k)%nat -> live s !! k' = Some f' ->
                             Range.length f' < count) /\
      idx' = {| start := start fk; end_ := start fk + count - 1 |} /\
      same_data s s' /\
      live s' = (if decide (count < end_ fk - start fk + 1)
                 then <[k := {| start := start fk + count; end_ := end_ fk |}]>
                        (live s)
                 else delete k (live s))) \/
   ((forall e, e ∈ live s -> Range.length e < count) /\
    idx' = {| start := data_size s + 1; end_ := data_size s + count |} /\
    live s' = live s /\ data_size s' = data_size s + count /\
    exists sr, allocate_extend fuel o count s = Ok (inr sr) /\
               data s' = data sr /\ data_capacity s' = data_capacity sr)).
Proof.
  intros Hinv Hc Hsum Hrun Hr.
  pose proof Hinv as (Hblock & Hsize & Hok & Hdisj).
  unfold mex_mpfr_allocate in Hrun.
  destruct (Z.eqb_spec count 0) as [->|Hne]; [by injection Hrun as <- _ _|].
  split; [lia|].
  destruct (allocate_reuse _ 0 count s) as [[[[r1 i1] s1']|]|] eqn:Hreuse;
    simpl in Hrun; [| |done].
  - left. injection Hrun as -> -> ->. change 0 with (Z.of_nat 0) in Hreuse.
    apply allocate_reuse_Some in Hreuse
      as (k & fk & Hk & Hget & Hfit & Hfirst & -> & _ & Hstep).
    pose proof (fl_get_live s k fk ltac:(lia) Hget) as Hfk.
    pose proof (proj1 (Forall_lookup _ _) Hok k fk Hfk) as Hokk.
    rewrite (entry_length (data_size s)) in * by (done || lia).
    destruct Hokk as (Hf1 & Hf2 & Hf3).
    rewrite (wrap_small (start fk + count)) in * by lia.
    rewrite (wrap_small (start fk + count - 1)) in * by lia.
    exists k, fk. split; [done|]. split; [done|]. split.
    { intros k' f' Hk' Hf'. apply (Hfirst k'); [lia|by apply live_fl_get]. }
    split; [done|].
    destruct Hstep as [(Hlong & Hput)|(Hexact & Hrm)].
    + apply fl_put_live in Hput as (Hl & Hsame & _); [|lia].
      split; [done|]. by rewrite decide_True by lia.
    + apply free_list_remove_inv in Hrm as (_ & Hl & Hsame & _); [|done|lia].
      split; [done|]. by rewrite decide_False by lia.
  - right. change 0 with (Z.of_nat 0) in Hreuse.
    pose proof (allocate_reuse_None _ _ _ _ Hreuse) as Hnone.
    destruct (allocate_extend fuel o count s) as [[sl|sr]|] eqn:Hext;
      simpl in Hrun; [by injection Hrun as <- _ _| |done].
    pose proof (allocate_extend_frame _ _ _ _ _ Hext) as (Hfl & Hfs & Hfc & Hds).
    simpl in Hfl, Hfs, Hfc, Hds. rewrite Hds in Hrun.
    rewrite (wrap_small (data_size s + count)),
      (wrap_small (data_size s + 1)) in Hrun by lia.
    injection Hrun as <- <- <-. split.
    { intros e He. apply list_elem_of_lookup in He as [k Hk].
      pose proof (live_lt _ _ _ Hk).
      destruct (Hnone k) as (fi & Hget & Hlen); [lia|].
      rewrite (live_fl_get _ _ _ Hk) in Hget. by injection Hget as <-. }
    split; [done|]. split; [unfold live; simpl; by rewrite Hfl, Hfs|].
    split; [done|]. by exists sr.
Qed.
End AllocateCases.

(** X4.  First fit.  When [mex_mpfr_allocate (count)] returns nonzero in
    a pool that satisfies the invariant, then either the range it returns
    is the first [count] slots of the first entry of the free list that
    has [count] slots or more (every earlier entry is shorter); the entry
    is shortened from the front, or deleted when it had exactly [count]
    slots, the other entries keep their order, and [data_size] and
    [data_capacity] are as before; or no entry has [count] slots, the
    range is the [count] slots after [data_size], the free list is as
    before and [data_size] has grown by [count]. *)
Theorem allocate_first_fit_policy `{Mpfr} (fuel : nat) (o : mx_alloc mpfr_t)
    (count : Z) (idx : idx_t) (s : pool) r idx' s' :
  pool_inv s -> 0 <= count -> data_size s + count < 2 ^ 64 ->
  mex_mpfr_allocate fuel o count idx s = Ok (r, idx', s') -> r <> 0 ->
  (exists (k : nat) fk,
      live s !! k = Some fk /\ count <= Range.length fk /\
      (forall (k' : nat) f', (k' < k)%nat -> live s !! k' = Some f' ->
                             Range.length f' < count) /\
      idx' = {| start := start fk; end_ := start fk + count - 1 |} /\
      live s' = (if decide (count < Range.length fk)
                 then <[k := {| start := start fk + count; end_ := end_ fk |}]>
                        (live s)
                 else delete k (live s)) /\
      data_size s' = data_size s /\ data_capacity s' = data_capacity s) \/
  ((forall e, e ∈ live s -> Range.length e < count) /\
   idx' = {| start := data_size s + 1; end_ := data_size s + count |} /\
   live s' = live s /\ data_size s' = data_size s + count).
Proof.
  intros Hinv Hc Hsum Hrun Hr.
  destruct (allocate_cases fuel o count idx s r idx' s' Hinv Hc Hsum Hrun Hr)
    as (_ & [(k & fk & Hfk & Hfit & Hfirst & -> & (_ & Hdc & Hds & _) & Hl)
            |(Hshort & -> & Hl & Hds & _)]).
  - left. exists k, fk. split; [done|].
    destruct Hinv as (_ & Hsize & Hok & _).
    rewrite (entry_length (data_size s)); [done|lia|].
    by apply (proj1 (Forall_lookup _ _) Hok k fk).
  - by right.
Qed.

Lemma allocate_first_fit_policy_witness :
  (exists (k : nat) fk,
      live SmallPools.compact !! k = Some fk /\ 2 <= Range.length fk /\
      (forall (k' : nat) f', (k' < k)%nat ->
         live SmallPools.compact !! k' = Some f' -> Range.length f' < 2) /\
      Examples.range 1 2 = {| start := start fk; end_ := start fk + 2 - 1 |} /\
      live (SmallPools.small_pool 11 [Examples.range 3 3; Examples.range 7 9])
      = (if decide (2 < Range.length fk)
         then <[k := {| start := start fk + 2; end_ := end_ fk |}]>
                (live SmallPools.compact)
         else delete k (live SmallPools.compact)) /\
      data_size (SmallPools.small_pool 11 [Examples.range 3 3; Examples.range 7 9])
      = data_size SmallPools.compact /\
      data_capacity
        (SmallPools.small_pool 11 [Examples.range 3 3; Examples.range 7 9])
      = data_capacity SmallPools.compact) \/
  ((forall e, e ∈ live SmallPools.compact -> Range.length e < 2) /\
   Examples.range 1 2
   = {| start := data_size SmallPools.compact + 1;
        end_ := data_size SmallPools.compact + 2 |} /\
   live (SmallPools.small_pool 11 [Examples.range 3 3; Examples.range 7 9])
   = live SmallPools.compact /\
   data_size (SmallPools.small_pool 11 [Examples.range 3 3; Examples.range 7 9])
   = data_size SmallPools.compact + 2).
Proof.
  apply (allocate_first_fit_policy (H := ExactInt.mpfr) 1 mx_null 2
           Examples.idx0 SmallPools.compact 1).
  - exact compact_inv.
  - lia.
  - simpl. lia.
  - reflexivity.
  - lia.
Defined.

(** The slots of the returned range against the slots of the free
    list. *)
Lemma allocate_slots `{Mpfr} (fuel : nat) (o : mx_alloc mpfr_t)
    (count : Z) (idx : idx_t) (s : pool) r idx' s' :
  pool_inv s -> 0 <= count -> data_size s + count < 2 ^ 64 ->
  mex_mpfr_allocate fuel o count idx s = Ok (r, idx', s') -> r <> 0 ->
  (forall p, in_range idx' p ->
             (free_slot s p /\ data_size s' = data_size s) \/
             (data_size s < p /\ data_size s' = end_ idx')) /\
  (forall p, free_slot s' p <-> free_slot s p /\ ~ in_range idx' p).
Proof.
  intros Hinv Hc Hsum Hrun Hr.
  pose proof Hinv as (Hblock & Hsize & Hok & Hdisj).
  destruct (allocate_cases fuel o count idx s r idx' s' Hinv Hc Hsum Hrun Hr)
    as (Hpos & [(k & fk & Hfk & Hfit & Hfirst & -> & (_ & _ & Hds & _) & Hl')
               |(Hshort & -> & Hl' & Hds & _)]).
  - pose proof (proj1 (Forall_lookup _ _) Hok k fk Hfk) as (Hf1 & Hf2 & Hf3).
    assert (forall j g, j <> k -> live s !! j = Some g ->
              forall p, in_range g p -> ~ in_range fk p) as Hother.
    { intros j g Hj Hg p Hp.
      pose proof (Hdisj j k g fk Hj Hg Hfk) as Hd.
      unfold disjoint, in_range in *. lia. }
    split.
    + intros p Hp. left. split; [|done]. exists fk.
      split; [by eapply list_elem_of_lookup_2|].
      unfold in_range in *. simpl in Hp. lia.
    + intros p. unfold free_slot. rewrite Hl'. case_decide as Hlong; split.
      * intros (e & He & Hp). apply list_elem_of_lookup in He as [j Hj].
        apply list_lookup_insert_Some in Hj as [(-> & <- & _)|[Hne Hj]].
        -- split; [exists fk; split; [by eapply list_elem_of_lookup_2|]|];
             unfold in_range in *; simpl in *; lia.
        -- split; [exists e; split; [by eapply list_elem_of_lookup_2|done]|].
           pose proof (Hother j e ltac:(lia) Hj p Hp).
           unfold in_range in *. simpl. lia.
      * intros [(e & He & Hp) Hout]. apply list_elem_of_lookup in He as [j Hj].
        destruct (decide (j = k)) as [->|Hne].
        -- rewrite Hfk in Hj. injection Hj as <-.
           exists {| start := start fk + count; end_ := end_ fk |}. split.
           ++ apply list_elem_of_lookup. exists k.
              apply list_lookup_insert_eq. by apply lookup_lt_Some in Hfk.
           ++ unfold in_range in *. simpl in *. lia.
        -- exists e. split; [|done]. apply list_elem_of_lookup. exists j.
           by rewrite list_lookup_insert_ne.
      * intros (e & He & Hp). apply elem_of_delete_iff in He as (j & Hj & He).
        split; [exists e; split; [by eapply list_elem_of_lookup_2|done]|].
        pose proof (Hother j e Hj He p Hp). unfold in_range in *. simpl. lia.
      * intros [(e & He & Hp) Hout]. apply list_elem_of_lookup in He as [j Hj].
        destruct (decide (j = k)) as [->|Hne].
        -- rewrite Hfk in Hj. injection Hj as <-.
           exfalso. apply Hout. unfold in_range in *. simpl. lia.
        -- exists e. split; [|done]. apply elem_of_delete_iff. eauto.
  - split.
    + intros p Hp. right. unfold in_range in Hp. simpl in *. lia.
    + intros p. unfold free_slot. rewrite Hl'. split.
      * intros (e & He & Hp). split; [by exists e|].
        pose proof (proj1 (Forall_forall _ _) Hok e He) as (? & ? & ?).
        unfold in_range in *. simpl. lia.
      * by intros [? _].
Qed.

(** X5.  The slots [mex_mpfr_allocate] hands out were free or are new, and
    afterwards they are not free: when the call returns nonzero in a pool
    that satisfies the invariant, every slot of the returned range either
    was covered by a free entry (and then [data_size] is unchanged) or
    lies above the old [data_size] (and then the range ends at the new
    [data_size]); the slots that are free after the call are those that
    were free before and are not in the returned range. *)
Theorem allocate_takes_free_slots `{Mpfr} (fuel : nat) (o : mx_alloc mpfr_t)
    (count : Z) (idx : idx_t) (s : pool) r idx' s' :
  pool_inv s -> 0 <= count -> data_size s + count < 2 ^ 64 ->
  mex_mpfr_allocate fuel o count idx s = Ok (r, idx', s') -> r <> 0 ->
  (forall p, in_range idx' p ->
             (free_slot s p /\ data_size s' = data_size s) \/
             (data_size s < p /\ data_size s' = end_ idx')) /\
  (forall p, free_slot s' p <-> free_slot s p /\ ~ in_range idx' p).
Proof. exact (allocate_slots fuel o count idx s r idx' s'). Qed.

Lemma allocate_takes_free_slots_witness :
  (forall p, in_range (Examples.range 1 3) p ->
             (free_slot SmallPools.compact p /\
              data_size (SmallPools.small_pool 11 [Examples.range 7 9])
              = data_size SmallPools.compact) \/
             (data_size SmallPools.compact < p /\
              data_size (SmallPools.small_pool 11 [Examples.range 7 9])
              = end_ (Examples.range 1 3))) /\
  (forall p, free_slot (SmallPools.small_pool 11 [Examples.range 7 9]) p <->
             free_slot SmallPools.compact p /\
             ~ in_range (Examples.range 1 3) p).
Proof.
  apply (allocate_takes_free_slots (H := ExactInt.mpfr) 1 mx_null 3
           Examples.idx0 SmallPools.compact 1).
  - exact compact_inv.
  - lia.
  - simpl. lia.
  - reflexivity.
  - lia.
Defined.

(** ** Growth of the data array *)

Section Growth.
Context `{Mpfr}.

Lemma new_capacity_loop_chunks (fuel : nat) (need c c' : Z) :
  0 <= c -> need + DATA_CHUNK_SIZE <= 2 ^ 64 ->
  new_capacity_loop fuel need c = Ok c' ->
  c <= c' /\ (c' - c) mod DATA_CHUNK_SIZE = 0 /\
  (c' = c \/ c' < need + DATA_CHUNK_SIZE).
Proof.
  unfold DATA_CHUNK_SIZE. intros Hc Hneed. revert c Hc.
  induction fuel as [|fuel IH]; intros c Hc; simpl.
  - destruct (Z.gtb_spec need c); [done|]. intros [= <-].
    rewrite Z.sub_diag. split; [lia|]. split; [done|by left].
  - destruct (Z.gtb_spec need c) as [Hgt|Hle].
    + unfold DATA_CHUNK_SIZE. rewrite wrap_small by lia. intros Hrec.
      destruct (IH (c + 1000) ltac:(lia) Hrec) as (Hle' & Hmod & Hlast).
      split; [lia|]. split; [|right; lia].
      replace (c' - c) with (c' - (c + 1000) + 1 * 1000) by lia.
      by rewrite Z_mod_plus_full.
    + intros [= <-]. rewrite Z.sub_diag. split; [lia|]. split; [done|by left].
Qed.

Lemma new_capacity_loop_returns (fuel : nat) (need c : Z) :
  0 <= c -> need + DATA_CHUNK_SIZE <= 2 ^ 64 ->
  need - c <= DATA_CHUNK_SIZE * Z.of_nat fuel ->
  exists c', new_capacity_loop fuel need c = Ok c'.
Proof.
  unfold DATA_CHUNK_SIZE. intros Hc Hneed. revert c Hc.
  induction fuel as [|fuel IH]; intros c Hc Hfuel; simpl.
  - destruct (Z.gtb_spec need c); [lia|]. by eexists.
  - destruct (Z.gtb_spec need c); [|by eexists].
    unfold DATA_CHUNK_SIZE. rewrite wrap_small by lia. apply IH; lia.
Qed.

(** The cells of the array after "Check if there is enough space": the
    old ones keep their content, the new ones are initialised. *)
Lemma allocate_extend_cells (fuel : nat) (o : mx_alloc mpfr_t) (count : Z)
    (s sr : pool) :
  data_array s -> 0 < count -> data_size s + count < 2 ^ 64 ->
  allocate_extend fuel o count s = Ok (inr sr) ->
  exists d', data sr = Some d' /\
    Z.of_nat (length d') = data_capacity sr /\
    data_capacity s <= data_capacity sr /\
    forall q : nat, Z.of_nat q < data_capacity sr ->
      d' !! q = if decide (Z.of_nat q < data_capacity s)
                then d ← data s; d !! q
                else Some mpfr_init.
Proof.
  intros (Hds & Hdc & Hdata) Hc Hsum. unfold allocate_extend.
  rewrite (wrap_small (data_size s + count)) by lia.
  destruct (Z.gtb_spec (data_size s + count) (data_capacity s)) as [Hgt|Hle].
  - destruct (new_capacity_loop _ _ _) as [c|] eqn:Hloop; simpl; [|done].
    pose proof (new_capacity_loop_enough _ _ _ _ Hloop) as Hc1.
    assert (0 <= data_capacity s < 2 ^ 64) as Hc0 by lia.
    pose proof (new_capacity_loop_range _ _ _ _ Hc0 Hloop) as Hc2.
    destruct (match data s with Some _ => _ | None => _ end) as [d0|] eqn:Hd0;
      [|done].
    destruct (init_cells _ _ d0) as [d'|] eqn:Hinit; simpl; [|done].
    intros [= <-]. simpl. exists d'. split; [done|].
    assert (length d0 = Z.to_nat c /\
            forall q : nat, Z.of_nat q < data_capacity s ->
                            d0 !! q = (d ← data s; d !! q)) as [Hlen0 Hold].
    { destruct o as [|junk]; [by destruct (data s)|].
      destruct (data s) as [d|]; simpl in Hd0; injection Hd0 as <-.
      - split.
        + rewrite length_app, length_take, length_replicate. lia.
        + intros q Hq. simpl. rewrite lookup_app_l by (rewrite length_take; lia).
          apply lookup_take_lt. lia.
      - split; [by rewrite length_replicate|]. intros q Hq. lia. }
    rewrite (init_cells_length _ _ _ _ Hinit), Hlen0.
    split; [lia|]. split; [lia|]. intros q Hq.
    rewrite <- (Z2Nat.id (data_capacity s)) in Hinit at 2 by lia.
    rewrite (init_cells_lookup _ _ _ _ Hinit).
    repeat case_decide; try lia; [done|by apply Hold].
  - intros [= <-]. destruct (data s) as [d|]; [|lia].
    exists d. split; [done|]. split; [done|]. split; [lia|].
    intros q Hq. by rewrite decide_True by lia.
Qed.

Lemma allocate_extend_returns (fuel : nat) (o : mx_alloc mpfr_t) (count : Z)
    (s : pool) :
  data_array s -> 0 < count ->
  data_size s + count + DATA_CHUNK_SIZE <= 2 ^ 64 ->
  o <> mx_null -> count <= DATA_CHUNK_SIZE * Z.of_nat fuel ->
  exists sr, allocate_extend fuel o count s = Ok (inr sr) /\
    (data_capacity sr - data_capacity s) mod DATA_CHUNK_SIZE = 0 /\
    (data_capacity sr = data_capacity s \/
     data_capacity sr < data_size s + count + DATA_CHUNK_SIZE).
Proof.
  intros (Hds & Hdc & Hdata) Hc Hsum Ho Hfuel. unfold allocate_extend.
  unfold DATA_CHUNK_SIZE in Hsum.
  rewrite (wrap_small (data_size s + count)) by lia.
  destruct (Z.gtb_spec (data_size s + count) (data_capacity s)) as [Hgt|Hle].
  - destruct (new_capacity_loop_returns fuel (data_size s + count)
                (data_capacity s)) as [c Hloop];
      [lia|unfold DATA_CHUNK_SIZE; lia|lia|].
    rewrite Hloop. cbn [mbind res_bind].
    pose proof (new_capacity_loop_enough _ _ _ _ Hloop) as Hc1.
    destruct (new_capacity_loop_chunks fuel (data_size s + count)
                (data_capacity s) c) as (Hc2 & Hmod & Hlast);
      [lia|unfold DATA_CHUNK_SIZE; lia|done|].
    destruct o as [|junk]; [done|].
    assert (exists d0, match data s with
                       | Some d => mxRealloc (mx_block junk) d c
                       | None => mxMalloc (mx_block junk) c
                       end = Some d0 /\ length d0 = Z.to_nat c) as (d0 & -> & Hlen0).
    { destruct (data s) as [d|]; simpl; eexists; (split; [done|]).
      - rewrite length_app, length_take, length_replicate. lia.
      - by rewrite length_replicate. }
    destruct (init_cells_Ok (Z.to_nat (c - data_capacity s))
                (Z.to_nat (data_capacity s)) d0) as (d' & Hinit & _); [lia|].
    rewrite Z2Nat.id in Hinit by lia. rewrite Hinit.
    cbn [mbind res_bind mret res_ret]. eexists. split; [done|]. simpl.
    split; [done|]. destruct Hlast; [by left|right; done].
  - exists s. split; [done|]. rewrite Z.sub_diag. split; [done|by left].
Qed.
End Growth.

(** X6.  [mex_mpfr_allocate] never changes a stored value: when it
    returns nonzero, the data array is in place with [data_capacity]
    cells, the capacity has not shrunk, every cell below the old capacity
    holds what it held, and every cell from the old capacity on holds a
    freshly initialised variable. *)
Theorem allocate_keeps_values `{Mpfr} (fuel : nat) (o : mx_alloc mpfr_t)
    (count : Z) (idx : idx_t) (s : pool) r idx' s' :
  pool_inv s -> data_array s -> 0 <= count -> data_size s + count < 2 ^ 64 ->
  mex_mpfr_allocate fuel o count idx s = Ok (r, idx', s') -> r <> 0 ->
  exists d', data s' = Some d' /\
    Z.of_nat (length d') = data_capacity s' /\
    data_capacity s <= data_capacity s' /\
    forall q : nat, Z.of_nat q < data_capacity s' ->
      d' !! q = if decide (Z.of_nat q < data_capacity s)
                then d ← data s; d !! q
                else Some mpfr_init.
Proof.
  intros Hinv Hdata Hc Hsum Hrun Hr.
  destruct (allocate_cases fuel o count idx s r idx' s' Hinv Hc Hsum Hrun Hr)
    as (Hpos & [(k & fk & Hfk & _ & _ & _ & (Hd & Hdc & _) & _)
               |(_ & _ & _ & _ & sr & Hext & Hd & Hdc)]).
  - destruct Hinv as (_ & _ & Hok & _).
    pose proof (proj1 (Forall_lookup _ _) Hok k fk Hfk) as (? & ? & ?).
    destruct Hdata as (Hds & Hcap & Hdata).
    rewrite Hd, Hdc. destruct (data s) as [d|]; [|lia].
    exists d. split; [done|]. split; [done|]. split; [lia|].
    intros q Hq. by rewrite decide_True by lia.
  - rewrite Hd, Hdc. by apply (allocate_extend_cells fuel o count s sr).
Qed.

Lemma allocate_keeps_values_witness :
  exists d', data SmallPools.grown = Some d' /\
    Z.of_nat (length d') = data_capacity SmallPools.grown /\
    data_capacity SmallPools.compact <= data_capacity SmallPools.grown /\
    forall q : nat, Z.of_nat q < data_capacity SmallPools.grown ->
      d' !! q = if decide (Z.of_nat q < data_capacity SmallPools.compact)
                then d ← data SmallPools.compact; d !! q
                else Some mpfr_init.
Proof.
  apply (allocate_keeps_values (H := ExactInt.mpfr) 1 (mx_block 7) 4
           Examples.idx0 SmallPools.compact 1 (Examples.range 12 15)).
  - exact compact_inv.
  - exact compact_data_array.
  - lia.
  - simpl. lia.
  - reflexivity.
  - lia.
Defined.

(** X7.  Without a free entry of [count] slots, when the memory manager
    grants the request and the loop that computes the new capacity is
    given its turns, [mex_mpfr_allocate (count)] returns 1 with the
    [count] slots after [data_size]; the free list is untouched, the new
    [data_size] is within the capacity, the capacity has grown by a
    multiple of [DATA_CHUNK_SIZE], and if it has grown at all then by no
    more than needed: less than one chunk lies above the new
    [data_size]. *)
Theorem allocate_grows_in_chunks `{Mpfr} (fuel : nat) (o : mx_alloc mpfr_t)
    (count : Z) (idx : idx_t) (s : pool) :
  pool_inv s -> data_array s -> 0 < count ->
  (forall e, e ∈ live s -> Range.length e < count) ->
  data_size s + count + DATA_CHUNK_SIZE <= 2 ^ 64 ->
  o <> mx_null -> count <= DATA_CHUNK_SIZE * Z.of_nat fuel ->
  exists s',
    mex_mpfr_allocate fuel o count idx s
    = Ok (1, {| start := data_size s + 1; end_ := data_size s + count |}, s') /\
    data_size s' = data_size s + count /\ live s' = live s /\
    data_size s' <= data_capacity s' /\
    (data_capacity s' - data_capacity s) mod DATA_CHUNK_SIZE = 0 /\
    (data_capacity s' = data_capacity s \/
     data_capacity s' < data_size s' + DATA_CHUNK_SIZE).
Proof.
  intros Hinv Hdata Hc Hshort Hsum Ho Hfuel.
  pose proof Hinv as (Hblock & Hsize & _).
  destruct (allocate_extend_returns fuel o count s Hdata Hc Hsum Ho Hfuel)
    as (sr & Hext & Hmod & Hlast).
  pose proof (allocate_extend_frame _ _ _ _ _ Hext) as (Hfl & Hfs & Hfc & Hds).
  simpl in Hfl, Hfs, Hfc, Hds.
  unfold DATA_CHUNK_SIZE in Hsum.
  assert (0 <= data_size s + count < 2 ^ 64) as Hsum' by lia.
  destruct (allocate_extend_inr _ _ _ _ _ Hdata Hsum' Hext) as (Hcap & _).
  unfold mex_mpfr_allocate.
  destruct (Z.eqb_spec count 0); [lia|].
  pose proof (allocate_reuse_no_fit (Z.to_nat (free_list_size s)) 0 count s
                Hblock ltac:(lia)) as Hreuse.
  change (Z.of_nat 0) with 0 in Hreuse. rewrite Hreuse.
  2:{ intros k f Hf. apply Hshort. by eapply list_elem_of_lookup_2. }
  cbn [mbind res_bind]. rewrite Hext. cbn [mbind res_bind].
  rewrite Hds, (wrap_small (data_size s + count)),
    (wrap_small (data_size s + 1)) by lia.
  eexists. split.
  - unfold is_valid. simpl.
    destruct (Z.leb_spec 1 (data_size s + 1)); [|lia].
    destruct (Z.leb_spec (data_size s + 1) (data_size s + count)); [|lia].
    destruct (Z.leb_spec (data_size s + count) (data_size s + count)); [|lia].
    reflexivity.
  - simpl. split; [done|]. split; [unfold live; simpl; by rewrite Hfl, Hfs|].
    split; [lia|]. split; [done|]. done.
Qed.

Lemma allocate_grows_in_chunks_witness :
  exists s',
    mex_mpfr_allocate (H := ExactInt.mpfr) 1 (mx_block 7) 4 Examples.idx0
      SmallPools.compact
    = Ok (1, {| start := data_size SmallPools.compact + 1;
                end_ := data_size SmallPools.compact + 4 |}, s') /\
    data_size s' = data_size SmallPools.compact + 4 /\
    live s' = live SmallPools.compact /\
    data_size s' <= data_capacity s' /\
    (data_capacity s' - data_capacity SmallPools.compact) mod DATA_CHUNK_SIZE
    = 0 /\
    (data_capacity s' = data_capacity SmallPools.compact \/
     data_capacity s' < data_size s' + DATA_CHUNK_SIZE).
Proof.
  apply (allocate_grows_in_chunks (H := ExactInt.mpfr) 1 (mx_block 7) 4
           Examples.idx0 SmallPools.compact).
  - exact compact_inv.
  - exact compact_data_array.
  - lia.
  - apply Forall_forall. unfold SmallPools.compact. rewrite small_pool_live.
    repeat constructor.
  - unfold DATA_CHUNK_SIZE. simpl. lia.
  - discriminate.
  - unfold DATA_CHUNK_SIZE. lia.
Defined.

(** ** Removal of an entry *)

(** X8.  [free_list_remove (i)] for an entry [i] of a free list whose
    array has a spare cell behind the entries returns; the entries are
    the old ones with entry [i] deleted, in their order; there is one
    entry less and nothing else of the pool has changed.  (Without the
    spare cell the loop reads past the array.) *)
Theorem free_list_remove_deletes `{Mpfr} (i : nat) (s : pool) :
  free_list_block s -> (i < Z.to_nat (free_list_size s))%nat ->
  free_list_size s < free_list_capacity s ->
  exists s', free_list_remove (Z.of_nat i) s = Ok s' /\
    live s' = delete i (live s) /\
    free_list_size s' = free_list_size s - 1 /\
    free_list_capacity s' = free_list_capacity s /\
    data s' = data s /\ data_size s' = data_size s /\
    data_capacity s' = data_capacity s.
Proof.
  intros Hblock Hi Hspare.
  destruct (free_list_remove_spare i s Hblock Hi Hspare) as [s' Hrun].
  exists s'. split; [done|].
  apply free_list_remove_inv in Hrun
    as (_ & Hl & (Hd & Hdc & Hds & Hfc) & Hfs & _); [|done|done].
  repeat split; done.
Qed.

Lemma free_list_remove_deletes_witness :
  exists s', free_list_remove (Z.of_nat 1) SmallPools.fragmented = Ok s' /\
    live s' = delete 1%nat (live SmallPools.fragmented) /\
    free_list_size s' = free_list_size SmallPools.fragmented - 1 /\
    free_list_capacity s' = free_list_capacity SmallPools.fragmented /\
    data s' = data SmallPools.fragmented /\
    data_size s' = data_size SmallPools.fragmented /\
    data_capacity s' = data_capacity SmallPools.fragmented.
Proof.
  apply (free_list_remove_deletes (H := ExactInt.mpfr) 1 SmallPools.fragmented).
  - exact (proj1 fragmented_inv).
  - simpl. lia.
  - reflexivity.
Defined.

(** ** Allocating and freeing again *)

(** X9.  In a pool that satisfies the invariant and is compacted, a call
    of [mex_mpfr_allocate] that returns nonzero, followed by
    [mex_mpfr_mark_free] of the returned range (with room in the
    free-list array), restores the pool as far as its users see it:
    [data_size] is as before the two calls and exactly the same slots are
    free.  (The order of the free-list entries may differ.) *)
Theorem allocate_then_free_restores `{Mpfr} (fuel : nat) (o : mx_alloc mpfr_t)
    (o' : mx_alloc idx_t) (count : Z) (idx : idx_t) (s : pool) r idx1 s1 :
  pool_inv s -> compacted s -> data_array s ->
  0 <= count -> data_size s + count < 2 ^ 64 ->
  mex_mpfr_allocate fuel o count idx s = Ok (r, idx1, s1) -> r <> 0 ->
  room_to_free o' s1 ->
  exists s2, mex_mpfr_mark_free o' idx1 s1 = Ok s2 /\
    data_size s2 = data_size s /\
    forall p, free_slot s2 p <-> free_slot s p.
Proof.
  intros Hinv [Hend _] Hdata Hc Hsum Hrun Hr Hroom.
  pose proof (allocate_inv _ _ _ _ _ _ _ _ Hinv Hc Hsum Hrun) as Hinv1.
  pose proof (allocate_data_array _ _ _ _ _ _ _ _ Hinv Hdata Hc Hsum Hrun Hr)
    as Hdata1.
  destruct (allocate_slots fuel o count idx s r idx1 s1
              Hinv Hc Hsum Hrun Hr) as [Hfrom Hafter].
  destruct (allocate_cases fuel o count idx s r idx1 s1 Hinv Hc Hsum Hrun Hr)
    as (Hpos & Hcases).
  pose proof Hinv as (_ & Hsize & Hok & _).
  (* an entry never reaches the last slot of a compacted pool *)
  assert (forall p, free_slot s p -> 1 <= p < data_size s) as Hin.
  { intros p (e & He & Hp).
    pose proof (proj1 (Forall_forall _ _) Hok e He) as (? & ? & ?).
    pose proof (proj1 (Forall_forall _ _) Hend e He) as Hne. simpl in Hne.
    unfold in_range in Hp. lia. }
  assert (start idx1 <= end_ idx1 /\ 1 <= start idx1 /\
          end_ idx1 <= data_size s1 /\ data_size s <= data_size s1 /\
          (data_size s1 = data_size s \/ start idx1 = data_size s + 1 /\
                                         end_ idx1 = data_size s1)) as Hidx.
  { destruct Hcases
      as [(k & fk & Hfk & Hfit & _ & -> & (_ & _ & Hds & _) & _)
         |(_ & -> & _ & Hds & _)]; simpl.
    - pose proof (proj1 (Forall_lookup _ _) Hok k fk Hfk) as (? & ? & ?). lia.
    - lia. }
  destruct Hidx as (Hi1 & Hi2 & Hi3 & Hi4 & Hi5).
  assert (is_valid idx1 s1 = true) as Hv by (apply is_valid_true; lia).
  assert (forall e, e ∈ live s1 -> disjoint idx1 e) as Hnew.
  { intros e He. pose proof Hinv1 as (_ & _ & Hok1 & _).
    pose proof (proj1 (Forall_forall _ _) Hok1 e He) as (? & ? & ?).
    unfold disjoint.
    destruct (decide (end_ idx1 < start e \/ end_ e < start idx1)); [done|].
    exfalso.
    destruct (proj1 (Hafter (Z.max (start e) (start idx1)))) as [_ Hout].
    - exists e. split; [done|]. unfold in_range. lia.
    - apply Hout. unfold in_range. lia. }
  destruct (mark_free_slots o' idx1 s1 Hinv1 Hdata1 Hv Hnew Hroom)
    as (s2 & Hfree & Hinv2 & [Hend2 _] & Hds2 & Hslots).
  pose proof Hinv2 as (_ & Hsize2 & Hok2 & _).
  assert (forall p, free_slot s2 p -> 1 <= p < data_size s2) as Hin2.
  { intros p (e & He & Hp).
    pose proof (proj1 (Forall_forall _ _) Hok2 e He) as (? & ? & ?).
    pose proof (proj1 (Forall_forall _ _) Hend2 e He) as Hne. simpl in Hne.
    unfold in_range in Hp. lia. }
  assert (forall p, in_range idx1 p -> free_slot s p \/ data_size s < p) as Hfrom'.
  { intros p Hp. destruct (Hfrom p Hp) as [[? _]|[? _]]; [by left|by right]. }
  assert (data_size s2 = data_size s) as Hsame.
  { destruct (decide (data_size s2 < data_size s)) as [Hlt|Hge].
    - exfalso.
      destruct (proj2 (Hslots (data_size s))) as [Hf|Hi]; [right; lia| |].
      + apply Hafter in Hf as [Hf _]. apply Hin in Hf. lia.
      + destruct (Hfrom' _ Hi) as [Hf|?]; [apply Hin in Hf|]; lia.
    - destruct (decide (data_size s < data_size s2)) as [Hgt|?]; [|lia].
      exfalso.
      destruct (proj1 (Hslots (data_size s2))) as [Hf|?].
      + right. unfold in_range. lia.
      + apply Hin2 in Hf. lia.
      + lia. }
  exists s2. split; [done|]. split; [done|]. intros p. split.
  - intros Hf. pose proof (Hin2 p Hf).
    destruct (proj2 (Hslots p)) as [Hf1|Hi]; [by left| |].
    + by apply Hafter in Hf1 as [? _].
    + destruct (Hfrom' _ Hi) as [?|?]; [done|lia].
  - intros Hf. pose proof (Hin p Hf).
    destruct (decide (in_range idx1 p)) as [Hi|Hout].
    + destruct (proj1 (Hslots p)) as [?|?]; [by right|done|lia].
    + destruct (proj1 (Hslots p)) as [?|?]; [|done|lia].
      left. by apply Hafter.
Qed.

Lemma allocate_then_free_restores_witness :
  exists s2,
    mex_mpfr_mark_free (H := ExactInt.mpfr) (mx_block Examples.idx0)
      (Examples.range 1 2)
      (SmallPools.small_pool 11 [Examples.range 3 3; Examples.range 7 9])
    = Ok s2 /\
    data_size s2 = data_size SmallPools.compact /\
    forall p, free_slot s2 p <-> free_slot SmallPools.compact p.
Proof.
  apply (allocate_then_free_restores (H := ExactInt.mpfr) 1 mx_null
           (mx_block Examples.idx0) 2 Examples.idx0 SmallPools.compact 1).
  - exact compact_inv.
  - exact compact_compacted.
  - exact compact_data_array.
  - lia.
  - simpl. lia.
  - reflexivity.
  - lia.
  - left. simpl. lia.
Defined.

(** ** Failure of the memory manager, and [mpfr_tidy_up] *)

Section TidyUp.
Context `{Mpfr}.

Lemma tidy_up_returns (s : pool) :
  data_array s -> mpfr_tidy_up s = Ok initial_pool.
Proof.
  unfold mpfr_tidy_up, for_. intros (Hds & Hdc & Hdata).
  assert (forall (n i : nat),
            (Z.of_nat (i + n) <= data_size s) ->
            for_loop n (Z.of_nat i)
              (fun i (_ : unit) => d ← deref (data s); _ ← load d i; mret tt) tt
            = Ok tt) as Hloop.
  { induction n as [|n IH]; intros i Hin; [done|]. simpl.
    destruct (data s) as [d|]; [|lia]. simpl.
    destruct (lookup_lt_is_Some_2 d i) as [x Hx]; [lia|].
    rewrite (load_Ok d i x Hx). simpl.
    replace (Z.of_nat i + 1) with (Z.of_nat (S i)) by lia.
    apply IH. lia. }
  change 0 with (Z.of_nat 0). rewrite Hloop by lia. done.
Qed.

Lemma tidy_up_null (s : pool) :
  data s = None -> 0 < data_size s -> mpfr_tidy_up s = Err NullPointer.
Proof.
  unfold mpfr_tidy_up, for_. intros Hd Hpos.
  destruct (Z.to_nat (data_size s)) as [|n] eqn:Hn; [lia|].
  simpl. by rewrite Hd.
Qed.

(** A return of 0 for a request of one slot or more comes from the
    memory manager. *)
Lemma allocate_zero (fuel : nat) (o : mx_alloc mpfr_t) (count : Z)
    (idx : idx_t) (s : pool) idx' s' :
  pool_inv s -> 0 < count -> data_size s + count < 2 ^ 64 ->
  mex_mpfr_allocate fuel o count idx s = Ok (0, idx', s') ->
  o = mx_null /\ idx' = idx /\ s' = set_data None s /\
  data_capacity s < data_size s + count /\
  forall e, e ∈ live s -> Range.length e < count.
Proof.
  intros Hinv Hc Hsum Hrun.
  pose proof Hinv as (Hblock & Hsize & Hok & Hdisj).
  unfold mex_mpfr_allocate in Hrun.
  destruct (Z.eqb_spec count 0) as [->|Hne]; [lia|].
  destruct (allocate_reuse _ 0 count s) as [[[[r1 i1] s1']|]|] eqn:Hreuse;
    simpl in Hrun; [| |done].
  - exfalso. injection Hrun as -> -> ->. change 0 with (Z.of_nat 0) in Hreuse.
    apply allocate_reuse_Some in Hreuse
      as (k & fk & Hk & Hget & Hfit & Hfirst & -> & Hr & Hstep).
    pose proof (fl_get_live s k fk ltac:(lia) Hget) as Hfk.
    pose proof (proj1 (Forall_lookup _ _) Hok k fk Hfk) as Hokk.
    rewrite (entry_length (data_size s)) in * by (done || lia).
    destruct Hokk as (Hf1 & Hf2 & Hf3).
    rewrite (wrap_small (start fk + count)) in * by lia.
    rewrite (wrap_small (start fk + count - 1)) in * by lia.
    assert (data_size s' = data_size s) as Hds.
    { destruct Hstep as [(Hlong & Hput)|(Hexact & Hrm)].
      - by apply fl_put_live in Hput as (_ & (_ & _ & ? & _) & _); [|lia].
      - by apply free_list_remove_inv in Hrm
          as (_ & _ & (_ & _ & ? & _) & _); [|done|lia]. }
    unfold is_valid in Hr. simpl in Hr. rewrite Hds in Hr.
    destruct (Z.leb_spec 1 (start fk)); [|lia].
    destruct (Z.leb_spec (start fk) (start fk + count - 1)); [|lia].
    destruct (Z.leb_spec (start fk + count - 1) (data_size s)); [|lia].
    done.
  - change 0 with (Z.of_nat 0) in Hreuse.
    pose proof (allocate_reuse_None _ _ _ _ Hreuse) as Hnone.
    assert (forall e, e ∈ live s -> Range.length e < count) as Hshort.
    { intros e He. apply list_elem_of_lookup in He as [k Hk].
      pose proof (live_lt _ _ _ Hk).
      destruct (Hnone k) as (fi & Hget & Hlen); [lia|].
      rewrite (live_fl_get _ _ _ Hk) in Hget. by injection Hget as <-. }
    destruct (allocate_extend fuel o count s) as [[sl|sr]|] eqn:Hext;
      simpl in Hrun; [| |done].
    + injection Hrun as <- <-. unfold allocate_extend in Hext.
      rewrite (wrap_small (data_size s + count)) in Hext by lia.
      destruct (Z.gtb_spec (data_size s + count) (data_capacity s)); [|done].
      destruct (new_capacity_loop _ _ _) as [c|]; simpl in Hext; [|done].
      destruct o as [|junk].
      * destruct (data s); simpl in Hext; by injection Hext as <-.
      * destruct (data s); simpl in Hext;
          by destruct (init_cells _ _ _).
    + exfalso.
      pose proof (allocate_extend_frame _ _ _ _ _ Hext) as (_ & _ & _ & Hds).
      simpl in Hds. rewrite Hds in Hrun.
      rewrite (wrap_small (data_size s + count)),
        (wrap_small (data_size s + 1)) in Hrun by lia.
      injection Hrun as Hr _ _. unfold is_valid in Hr. simpl in Hr.
      destruct (Z.leb_spec 1 (data_size s + 1)); [|lia].
      destruct (Z.leb_spec (data_size s + 1) (data_size s + count)); [|lia].
      destruct (Z.leb_spec (data_size s + count) (data_size s + count)); [|lia].
      done.
Qed.
End TidyUp.

(** Without the bound on [data_size + count] the sum the code computes
    wraps around: on [SmallPools.compact] (eleven slots in use) a request
    for [2^64 - 1] slots finds [data_size + count = 10] below the capacity,
    asks for no memory, writes the range [[12, 10]] to [*idx], lowers
    [data_size] to 10 and returns 0 because that range is not valid. *)
Lemma wrapped_request_returns_zero :
  (r ← mex_mpfr_allocate (H := ExactInt.mpfr) 1 mx_null (2 ^ 64 - 1)
         Examples.idx0 SmallPools.compact;
   mret (r.1, data_size r.2, data_capacity r.2, length <$> data r.2))
  = Ok (0, Examples.range 12 10, 10, 12, Some 12%nat).
Proof. vm_compute. reflexivity. Qed.

(** X10.  In a pool that satisfies the invariant, let [count >= 1] slots
    be requested and let [data_size + count < 2^64], so that the sum the
    code computes does not wrap around.  Then the call returns 0 only when
    the memory manager has refused to extend the data array: no free
    entry had [count] slots, the capacity did not suffice, [*idx] is
    untouched, and the pool is left with [data == NULL] while
    [data_size], [data_capacity] and the free list are as before.
    (Without the bound on the sum there is another way to return 0:
    lemma [wrapped_request_returns_zero].) *)
Theorem allocate_zero_is_out_of_memory `{Mpfr} (fuel : nat)
    (o : mx_alloc mpfr_t) (count : Z) (idx : idx_t) (s : pool) idx' s' :
  pool_inv s -> 0 < count -> data_size s + count < 2 ^ 64 ->
  mex_mpfr_allocate fuel o count idx s = Ok (0, idx', s') ->
  o = mx_null /\ idx' = idx /\
  data_capacity s < data_size s + count /\
  (forall e, e ∈ live s -> Range.length e < count) /\
  data s' = None /\ data_size s' = data_size s /\
  data_capacity s' = data_capacity s /\ live s' = live s.
Proof.
  intros Hinv Hc Hsum Hrun.
  destruct (allocate_zero fuel o count idx s idx' s' Hinv Hc Hsum Hrun)
    as (-> & -> & -> & Hcap & Hshort).
  done.
Qed.

Lemma allocate_zero_is_out_of_memory_witness :
  @mx_null (@mpfr_t ExactInt.mpfr) = mx_null /\ Examples.idx0 = Examples.idx0 /\
  data_capacity SmallPools.compact < data_size SmallPools.compact + 4 /\
  (forall e, e ∈ live SmallPools.compact -> Range.length e < 4) /\
  data (set_data None SmallPools.compact) = None /\
  data_size (set_data None SmallPools.compact) = data_size SmallPools.compact /\
  data_capacity (set_data None SmallPools.compact)
  = data_capacity SmallPools.compact /\
  live (set_data None SmallPools.compact) = live SmallPools.compact.
Proof.
  apply (allocate_zero_is_out_of_memory (H := ExactInt.mpfr) 1 mx_null 4
           Examples.idx0 SmallPools.compact).
  - exact compact_inv.
  - lia.
  - simpl. lia.
  - reflexivity.
Defined.

(** X11.  [mpfr_tidy_up] after a failed growth.  On a pool with slots in
    use [mpfr_tidy_up] returns and leaves the initial state.  After a call
    of [mex_mpfr_allocate] that returned 0 for want of memory it does
    not: [data_size] still counts the slots while [data] is [NULL], and
    the first [mpfr_clear (&data[i])] goes through the null pointer. *)
Theorem tidy_up_after_failed_growth `{Mpfr} (fuel : nat)
    (o : mx_alloc mpfr_t) (count : Z) (idx : idx_t) (s : pool) idx' s' :
  pool_inv s -> data_array s -> 0 < data_size s ->
  0 < count -> data_size s + count < 2 ^ 64 ->
  mex_mpfr_allocate fuel o count idx s = Ok (0, idx', s') ->
  mpfr_tidy_up s = Ok initial_pool /\ mpfr_tidy_up s' = Err NullPointer.
Proof.
  intros Hinv Hdata Hpos Hc Hsum Hrun.
  destruct (allocate_zero fuel o count idx s idx' s' Hinv Hc Hsum Hrun)
    as (-> & -> & -> & Hcap & Hshort).
  split; [by apply tidy_up_returns|by apply tidy_up_null].
Qed.

Lemma tidy_up_after_failed_growth_witness :
  mpfr_tidy_up SmallPools.compact = Ok initial_pool /\
  mpfr_tidy_up (set_data None SmallPools.compact) = Err NullPointer.
Proof.
  apply (tidy_up_after_failed_growth (H := ExactInt.mpfr) 1 mx_null 4
           Examples.idx0 SmallPools.compact Examples.idx0).
  - exact compact_inv.
  - exact compact_data_array.
  - simpl. lia.
  - lia.
  - simpl. lia.
  - reflexivity.
Defined.

(** X12.  Every pool that is reached from the initial one by calls of
    [mex_mpfr_allocate] that return nonzero and calls of
    [mex_mpfr_mark_free] on valid ranges that overlap no free entry (every
    request of memory being granted, and the pool staying below [2^64]
    slots) satisfies the invariant, is compacted (no two free entries are
    adjacent, none ends at [data_size]) and has its data array in place
    with [data_size] within the capacity; [mpfr_tidy_up] on it returns
    and leaves the initial state. *)
Theorem reachable_pools_are_compacted `{Mpfr} (s : pool) :
  reachable s ->
  pool_inv s /\ compacted s /\ data_array s /\
  mpfr_tidy_up s = Ok initial_pool.
Proof.
  intros Hs. destruct (reachable_inv s Hs) as (Hinv & Hc & Hdata).
  repeat (split; [done|]). by apply tidy_up_returns.
Qed.

Lemma reachable_pools_are_compacted_witness :
  pool_inv Examples.pool_of_5 /\ compacted Examples.pool_of_5 /\
  data_array Examples.pool_of_5 /\
  mpfr_tidy_up Examples.pool_of_5 = Ok initial_pool.
Proof.
  apply (reachable_pools_are_compacted (H := ExactInt.mpfr)).
  apply (reachable_allocate (H := ExactInt.mpfr) initial_pool 1 (mx_block 0) 5
           Examples.idx0 1 (Examples.range 1 5)).
  - apply reachable_initial.
  - lia.
  - simpl. lia.
  - reflexivity.
  - lia.
Defined.

(** ** Reading the arguments *)

(** X13.  A rounding mode that [export_rounding_mode] has turned into a
    [double] and that comes back as a scalar argument is read by
    [extract_rounding_mode] as the mode it was. *)
Theorem rounding_mode_round_trip (rnd : mpfr_rnd_t) (k : nat)
    (prhs : list mxArray) :
  prhs !! k = Some (mxCreateDoubleScalar (export_rounding_mode rnd)) ->
  extract_rounding_mode k prhs = Ok (Some rnd).
Proof.
  intros Hk. unfold extract_rounding_mode, extract_si, extract_d.
  rewrite Hk. by destruct rnd.
Qed.

Lemma rounding_mode_round_trip_witness :
  extract_rounding_mode 1
    [Examples.mx_string; mxCreateDoubleScalar (export_rounding_mode MPFR_RNDD)]
  = Ok (Some MPFR_RNDD).
Proof.
  apply (rounding_mode_round_trip MPFR_RNDD 1
           [Examples.mx_string;
            mxCreateDoubleScalar (export_rounding_mode MPFR_RNDD)]).
  reflexivity.
Defined.

(** X14.  [extract_idx] looks at the first two elements of its argument
    and at nothing behind them: an array of more than two elements is read
    as the array of its first two.  When it returns 1 the array is
    numeric, the range it has written is made of these two elements, and
    the range is valid in the pool. *)
Theorem extract_idx_reads_two_cells `{Mpfr} (k : nat) (prhs : list mxArray)
    (s : pool) (a : mxArray) (d0 d1 : spec_float) (rest : list spec_float) :
  prhs !! k = Some a -> mx_pr a = d0 :: d1 :: rest ->
  extract_idx k prhs s
  = extract_idx 0 [{| mx_numeric := mx_numeric a; mx_pr := [d0; d1] |}] s /\
  forall idx, extract_idx k prhs s = Ok (Some idx) ->
    mxIsNumeric a = true /\ start idx = trunc d0 /\ end_ idx = trunc d1 /\
    is_valid idx s = true.
Proof.
  intros Hk Hpr. split.
  - unfold extract_idx, extract_ui_vector.
    rewrite Hk, Hpr. simpl. unfold mxIsNumeric. simpl.
    by destruct (mx_numeric a).
  - intros idx Hrun. pose proof (extract_idx_valid k prhs s idx Hrun) as Hv.
    unfold extract_idx, extract_ui_vector in Hrun. rewrite Hk, Hpr in Hrun.
    destruct (mxIsNumeric a) eqn:Hnum; [|done]. simpl in Hrun.
    destruct (ge_zero d0 && mxIsFinite d0 && floor_eq d0); [|done].
    unfold double_to_uint64 in Hrun.
    destruct ((0 <=? trunc d0) && (trunc d0 <? 2 ^ 64)); [|done].
    simpl in Hrun.
    destruct (ge_zero d1 && mxIsFinite d1 && floor_eq d1); [|done].
    destruct ((0 <=? trunc d1) && (trunc d1 <? 2 ^ 64)); [|done].
    simpl in Hrun. destruct (is_valid _ s); [|done].
    by injection Hrun as <-.
Qed.

Lemma extract_idx_reads_two_cells_witness :
  extract_idx 0 [Examples.mx_numbers [2; 4; 9]] SmallPools.compact
  = extract_idx 0
      [{| mx_numeric := mx_numeric (Examples.mx_numbers [2; 4; 9]);
          mx_pr := [Examples.double_of_Z 2; Examples.double_of_Z 4] |}]
      SmallPools.compact /\
  forall idx,
    extract_idx 0 [Examples.mx_numbers [2; 4; 9]] SmallPools.compact
    = Ok (Some idx) ->
    mxIsNumeric (Examples.mx_numbers [2; 4; 9]) = true /\
    start idx = trunc (Examples.double_of_Z 2) /\
    end_ idx = trunc (Examples.double_of_Z 4) /\
    is_valid idx SmallPools.compact = true.
Proof.
  apply (extract_idx_reads_two_cells (H := ExactInt.mpfr) 0
           [Examples.mx_numbers [2; 4; 9]] SmallPools.compact
           (Examples.mx_numbers [2; 4; 9])
           (Examples.double_of_Z 2) (Examples.double_of_Z 4)
           [Examples.double_of_Z 9]).
  - reflexivity.
  - reflexivity.
Defined.

(** ** What the two commands do with arguments they reject *)

(** X15.  [mpfr_t.transpose] with a number of rows that is zero, or that
    [extract_ui] does not accept, sets the error flag and goes on: the
    next statement, [length (&rop) / ropM], divides by zero. *)
Theorem transpose_divides_by_zero_rows `{Mpfr} (MPLAPACK : bool) (nlhs : Z)
    (prhs : list mxArray)
    (m : mex) rop op rnd :
  length prhs = 5%nat ->
  extract_idx 1 prhs (mex_pool m) = Ok (Some rop) ->
  extract_idx 2 prhs (mex_pool m) = Ok (Some op) ->
  extract_rounding_mode 3 prhs = Ok (Some rnd) ->
  extract_ui 4 prhs = Ok None \/ extract_ui 4 prhs = Ok (Some 0) ->
  mex_mpfr_algorithms MPLAPACK nlhs prhs 2000 m = Err DivisionByZero.
Proof.
  intros Hn HR HO Hrnd HM. unfold mex_mpfr_algorithms, cmd_transpose.
  rewrite Hn, HR. cbn [Nat.eqb negb mbind res_bind].
  rewrite HO. cbn [mbind res_bind]. rewrite Hrnd. cbn [mbind res_bind].
  by destruct HM as [-> | ->].
Qed.

(** X16.  [mpfr_t.mtimes] with [M] zero, or not accepted by [extract_ui],
    sets the error flag and goes on: [length (&C) / M] divides by zero. *)
Theorem mtimes_divides_by_zero_rows `{Mpfr} (MPLAPACK : bool) (nlhs : Z)
    (prhs : list mxArray)
    (m : mex) C A B prec rnd ostrategy :
  length prhs = 8%nat ->
  extract_idx 1 prhs (mex_pool m) = Ok (Some C) ->
  extract_idx 2 prhs (mex_pool m) = Ok (Some A) ->
  extract_idx 3 prhs (mex_pool m) = Ok (Some B) ->
  extract_prec 4 prhs = Ok (Some prec) ->
  extract_rounding_mode 5 prhs = Ok (Some rnd) ->
  extract_ui 6 prhs = Ok None \/ extract_ui 6 prhs = Ok (Some 0) ->
  extract_ui 7 prhs = Ok ostrategy ->
  mex_mpfr_algorithms MPLAPACK nlhs prhs 2001 m = Err DivisionByZero.
Proof.
  intros Hn HC HA HB Hprec Hrnd HM Hs. unfold mex_mpfr_algorithms, cmd_mtimes.
  rewrite Hn, HC. cbn [Nat.eqb negb mbind res_bind].
  rewrite HA. cbn [mbind res_bind]. rewrite HB. cbn [mbind res_bind].
  rewrite Hprec. cbn [mbind res_bind]. rewrite Hrnd. cbn [mbind res_bind].
  by destruct HM as [-> | ->]; cbn [mbind res_bind]; rewrite Hs.
Qed.

(** X17.  A call of [mex_mpfr_algorithms] that returns has either set the
    error flag and touched nothing else, or it was one of the two
    commands and every argument read by [MEX_MPFR_T], [MEX_MPFR_PREC_T]
    and [MEX_MPFR_RND_T] was accepted; then all its ranges are valid in
    the pool.  (A command code other than 2000 and 2001 is of the first
    kind.) *)
Theorem algorithms_run_on_valid_ranges `{Mpfr} (MPLAPACK : bool) (nlhs : Z)
    (prhs : list mxArray)
    (cmd_code : Z) (m m' : mex) :
  mex_mpfr_algorithms MPLAPACK nlhs prhs cmd_code m = Ok m' ->
  m' = MEX_FCN_ERR m \/
  (cmd_code = 2000 /\
   exists rop op rnd,
     extract_idx 1 prhs (mex_pool m) = Ok (Some rop) /\
     extract_idx 2 prhs (mex_pool m) = Ok (Some op) /\
     extract_rounding_mode 3 prhs = Ok (Some rnd) /\
     is_valid rop (mex_pool m) = true /\ is_valid op (mex_pool m) = true) \/
  (cmd_code = 2001 /\
   exists C A B prec rnd,
     extract_idx 1 prhs (mex_pool m) = Ok (Some C) /\
     extract_idx 2 prhs (mex_pool m) = Ok (Some A) /\
     extract_idx 3 prhs (mex_pool m) = Ok (Some B) /\
     extract_prec 4 prhs = Ok (Some prec) /\
     extract_rounding_mode 5 prhs = Ok (Some rnd) /\
     is_valid C (mex_pool m) = true /\ is_valid A (mex_pool m) = true /\
     is_valid B (mex_pool m) = true).
Proof.
  destruct (decide (cmd_code = 2000)) as [->|H0];
    [|destruct (decide (cmd_code = 2001)) as [->|H1]].
  - unfold mex_mpfr_algorithms, cmd_transpose.
    destruct (negb _); [intros [= <-]; by left|].
    destruct (extract_idx 1 prhs _) as [[rop|]|] eqn:HR; simpl;
      [|intros [= <-]; by left|done].
    destruct (extract_idx 2 prhs _) as [[op|]|] eqn:HO; simpl;
      [|intros [= <-]; by left|done].
    destruct (extract_rounding_mode 3 prhs) as [[rnd|]|] eqn:Hrnd; simpl;
      [|intros [= <-]; left; by destruct (negb _)|done].
    intros _. right. left. split; [done|]. exists rop, op, rnd.
    repeat split; try done; by eapply extract_idx_valid.
  - unfold mex_mpfr_algorithms, cmd_mtimes.
    destruct (negb _); [intros [= <-]; by left|].
    destruct (extract_idx 1 prhs _) as [[C|]|] eqn:HC; simpl;
      [|intros [= <-]; by left|done].
    destruct (extract_idx 2 prhs _) as [[A|]|] eqn:HA; simpl;
      [|intros [= <-]; by left|done].
    destruct (extract_idx 3 prhs _) as [[B|]|] eqn:HB; simpl;
      [|intros [= <-]; by left|done].
    destruct (extract_prec 4 prhs) as [[prec|]|] eqn:Hprec; simpl;
      [|intros [= <-]; by left|done].
    destruct (extract_rounding_mode 5 prhs) as [[rnd|]|] eqn:Hrnd; simpl;
      [|intros [= <-]; by left|done].
    intros _. right. right. split; [done|]. exists C, A, B, prec, rnd.
    repeat split; try done; by eapply extract_idx_valid.
  - intros Hrun. left. unfold mex_mpfr_algorithms in Hrun.
    destruct cmd_code as [|p|p]; [by injection Hrun| |by injection Hrun].
    repeat (destruct p as [p|p|]; try by injection Hrun);
      exfalso; (by apply H0) || (by apply H1).
Qed.
Lemma transpose_divides_by_zero_rows_witness :
  mex_mpfr_algorithms (H := ExactInt.mpfr) false 1
    (Examples.transpose_prhs (Examples.range 7 12) (Examples.range 1 6) 0)
    2000 (SmallPools.small_mex (SmallPools.small_pool 12 []))
  = Err DivisionByZero.
Proof.
  apply (transpose_divides_by_zero_rows (H := ExactInt.mpfr) false 1
           (Examples.transpose_prhs (Examples.range 7 12) (Examples.range 1 6) 0)
           (SmallPools.small_mex (SmallPools.small_pool 12 []))
           (Examples.range 7 12) (Examples.range 1 6) MPFR_RNDN).
  - reflexivity.
  - reflexivity.
  - reflexivity.
  - reflexivity.
  - right. reflexivity.
Defined.

Lemma mtimes_divides_by_zero_rows_witness :
  mex_mpfr_algorithms (H := ExactInt.mpfr) false 1
    (Examples.mtimes_prhs (Examples.range 1 4) (Examples.range 5 8)
       (Examples.range 9 12) 0 1)
    2001 (SmallPools.small_mex (SmallPools.small_pool 12 []))
  = Err DivisionByZero.
Proof.
  apply (mtimes_divides_by_zero_rows (H := ExactInt.mpfr) false 1
           (Examples.mtimes_prhs (Examples.range 1 4) (Examples.range 5 8)
              (Examples.range 9 12) 0 1)
           (SmallPools.small_mex (SmallPools.small_pool 12 []))
           (Examples.range 1 4) (Examples.range 5 8) (Examples.range 9 12)
           53 MPFR_RNDN (Some 1)).
  - reflexivity.
  - reflexivity.
  - reflexivity.
  - reflexivity.
  - reflexivity.
  - reflexivity.
  - right. reflexivity.
  - reflexivity.
Defined.

Lemma algorithms_run_on_valid_ranges_witness :
  SmallPools.after_transpose
  = MEX_FCN_ERR (SmallPools.small_mex (SmallPools.small_pool 12 [])) \/
  (2000 = 2000 /\
   exists rop op rnd,
     extract_idx 1
       (Examples.transpose_prhs (Examples.range 7 12) (Examples.range 1 6) 3)
       (SmallPools.small_pool 12 []) = Ok (Some rop) /\
     extract_idx 2
       (Examples.transpose_prhs (Examples.range 7 12) (Examples.range 1 6) 3)
       (SmallPools.small_pool 12 []) = Ok (Some op) /\
     extract_rounding_mode 3
       (Examples.transpose_prhs (Examples.range 7 12) (Examples.range 1 6) 3)
     = Ok (Some rnd) /\
     is_valid rop (SmallPools.small_pool 12 []) = true /\
     is_valid op (SmallPools.small_pool 12 []) = true) \/
  (2000 = 2001 /\
   exists C A B prec rnd,
     extract_idx 1
       (Examples.transpose_prhs (Examples.range 7 12) (Examples.range 1 6) 3)
       (SmallPools.small_pool 12 []) = Ok (Some C) /\
     extract_idx 2
       (Examples.transpose_prhs (Examples.range 7 12) (Examples.range 1 6) 3)
       (SmallPools.small_pool 12 []) = Ok (Some A) /\
     extract_idx 3
       (Examples.transpose_prhs (Examples.range 7 12) (Examples.range 1 6) 3)
       (SmallPools.small_pool 12 []) = Ok (Some B) /\
     extract_prec (H := ExactInt.mpfr) 4
       (Examples.transpose_prhs (Examples.range 7 12) (Examples.range 1 6) 3)
     = Ok (Some prec) /\
     extract_rounding_mode 5
       (Examples.transpose_prhs (Examples.range 7 12) (Examples.range 1 6) 3)
     = Ok (Some rnd) /\
     is_valid C (SmallPools.small_pool 12 []) = true /\
     is_valid A (SmallPools.small_pool 12 []) = true /\
     is_valid B (SmallPools.small_pool 12 []) = true).
Proof.
  apply (algorithms_run_on_valid_ranges (H := ExactInt.mpfr) false 1
           (Examples.transpose_prhs (Examples.range 7 12) (Examples.range 1 6) 3)
           2000 (SmallPools.small_mex (SmallPools.small_pool 12 []))).
  reflexivity.
Defined.

(** ** The status array *)

Lemma writes_app {X Y : Type} (pos : X -> nat) (v : X -> Y) (l1 l2 : list X)
    (a : list Y) :
  writes pos v (l1 ++ l2) a = writes pos v l2 (writes pos v l1 a).
Proof. apply foldl_app. Qed.

(** The last write to a place decides what is found there. *)
Lemma writes_lookup_last {X Y : Type} (pos : X -> nat) (v : X -> Y)
    (l1 l2 : list X) (x : X) (a : list Y) :
  (forall y, y ∈ l2 -> pos y <> pos x) -> (pos x < length a)%nat ->
  writes pos v (l1 ++ x :: l2) a !! pos x = Some (v x).
Proof.
  intros Hl2 Hlen. rewrite writes_app, writes_cons, writes_lookup_other by done.
  apply list_lookup_insert_eq. by rewrite writes_length.
Qed.

(** Row [i] is visited last at its last column. *)
Lemma order_ij_row (M N i : Z) :
  0 <= i < M -> 0 < N ->
  exists l1 l2, order_ij M N = l1 ++ (i, N - 1) :: l2 /\
                forall ij, ij ∈ l2 -> i < ij.1.
Proof.
  intros Hi HN.
  exists ((i' ← seqZ 0 i; (fun j => (i', j)) <$> seqZ 0 N)
          ++ ((fun j => (i, j)) <$> seqZ 0 (N - 1))),
         (i' ← seqZ (i + 1) (M - i - 1); (fun j => (i', j)) <$> seqZ 0 N).
  split.
  - assert ((fun j => (i, j)) <$> seqZ 0 N
            = ((fun j => (i, j)) <$> seqZ 0 (N - 1)) ++ [(i, N - 1)]) as Hrow.
    { replace N with ((N - 1) + 1) at 1 by lia.
      rewrite seqZ_app, fmap_app by lia. done. }
    unfold order_ij.
    replace M with (i + (1 + (M - i - 1))) at 1 by lia.
    rewrite seqZ_app, (seqZ_app _ 1), bind_app, bind_app by lia.
    change (seqZ (0 + i) 1) with [0 + i]. rewrite bind_singleton.
    rewrite !Z.add_0_l, Hrow, <- !app_assoc. reflexivity.
  - intros [i' j'] Hin. apply list_elem_of_bind in Hin as (y & Hy & Hin).
    apply list_elem_of_fmap in Hy as (j & [= -> ->] & _).
    apply elem_of_seqZ in Hin. simpl. lia.
Qed.

(** X18.  The status array of [mpfr_t.mtimes].  On a conforming call
    whose range [C] overlaps neither [A] nor [B], with strategy 1 or 2:
    when the caller asks for an output, the array has one element for each
    entry of [C], and the element of [C[i,j]], at [M * j + i], is the
    bitwise or of the ternary values of the [K] fused multiply-adds into
    [C[i,j]]; when the caller asks for none, the array has one element,
    the status of the entry computed last, [C[M-1,N-1]], and not a
    summary of all entries. *)
Theorem mtimes_status_array `{Mpfr} (MPLAPACK : bool) (nlhs : Z)
    (prhs : list mxArray) (m : mex) d
    (a : mtimes_args) (N K : Z) :
  data (mex_pool m) = Some d -> data_block (mex_pool m) ->
  decodes prhs (mex_pool m) a ->
  arg_strategy a = 1 \/ arg_strategy a = 2 ->
  conforming a N K -> no_alias a ->
  exists m' st,
    mex_mpfr_algorithms MPLAPACK nlhs prhs 2001 m = Ok m' /\
    plhs0 m' = Some st /\
    (nlhs <> 0 ->
       Z.of_nat (length st) = arg_M a * N /\
       forall i j, in_matrix (arg_M a) N (i, j) ->
         st !! Z.to_nat (arg_M a * j + i)
         = Some (entry_after d (start (arg_C a) - 1) (start (arg_A a) - 1)
                   (start (arg_B a) - 1) (arg_rnd a) (arg_M a) K i j).2) /\
    (nlhs = 0 ->
       st = [(entry_after d (start (arg_C a) - 1) (start (arg_A a) - 1)
                (start (arg_B a) - 1) (arg_rnd a) (arg_M a) K
                (arg_M a - 1) (N - 1)).2]).
Proof.
  intros Hd Hblock Hdec Hstrat Hconf Halias.
  pose proof Hdec as (_ & HC & HA & HB & _).
  apply extract_idx_valid in HC, HA, HB.
  pose proof (mtimes_shape _ d a N K Hd Hblock HC HA HB Hconf Halias) as Hs.
  assert (0 < arg_M a /\ 0 < N) as [HM HN].
  { apply is_valid_true in HC. destruct Hconf as (? & ? & ? & ? & _). nia. }
  rewrite (cmd_mtimes_conforming MPLAPACK nlhs prhs m d a N K) by done.
  rewrite (mpfr_apa_mmm_writes MPLAPACK) by
    (done || apply status_shape_new; nia).
  cbn [mbind res_bind mret res_ret fst snd].
  eexists _, _. split; [reflexivity|]. cbn [throw_error mex_pool plhs0].
  split; [reflexivity|].
  set (l := if decide (arg_strategy a = 1) then _ else _).
  assert (forall ij, ij ∈ l <-> in_matrix (arg_M a) N ij) as Hl.
  { intros ij. unfold l. case_decide;
      [apply elem_of_order_ij|apply elem_of_order_ji]. }
  assert (last l = Some (arg_M a - 1, N - 1)) as Hlast.
  { unfold l. case_decide; rewrite ?last_order_ij, ?last_order_ji;
      by rewrite decide_True by done. }
  split.
  - intros Hn. destruct (Z.eqb_spec nlhs 0) as [?|_]; [done|].
    rewrite writes_length. unfold new_status_array.
    destruct (Z.eqb_spec nlhs 0) as [?|_]; [done|].
    rewrite length_replicate. split; [nia|].
    intros i j Hij.
    replace (Z.to_nat (arg_M a * j + i)) with (spos (arg_M a) 1 (i, j))
      by (unfold spos; simpl; f_equal; lia).
    rewrite (writes_lookup_at (spos (arg_M a) 1) _ l _ (i, j)); [done|by apply Hl| |].
    + intros ij' Hij' Hp. f_equal. f_equal; f_equal;
        apply (spos_inj (arg_M a) N) in Hp; try done; by apply Hl.
    + rewrite length_replicate. destruct Hij as [? ?]. unfold spos. simpl in *.
      nia.
  - intros ->. change (0 =? 0) with true. cbv iota.
    rewrite (writes_ext (spos (arg_M a) 0) (fun _ => 0%nat)).
    + rewrite writes_same_place, Hlast. reflexivity.
    + intros ij _. unfold spos. by rewrite Z.mul_0_r.
Qed.

Section TransposeAnyRows.
Context `{Mpfr}.
Variable MPLAPACK : bool.

(** [mpfr_t.transpose] for any positive number of rows: the number of
    columns is the quotient, and a remainder is not looked at. *)
Lemma cmd_transpose_floor (nlhs : Z) (prhs : list mxArray) (m : mex) d
    (rop op : idx_t) (rnd : mpfr_rnd_t) (ropM : Z) :
  data (mex_pool m) = Some d -> data_block (mex_pool m) ->
  transpose_decodes prhs (mex_pool m) rop op rnd ropM ->
  0 < ropM ->
  end_ op - start op = end_ rop - start rop ->
  end_ rop < start op \/ end_ op < start rop ->
  let len := end_ rop - start rop + 1 in
  let ropN := len / ropM in
  0 <= ropN /\ ropM * ropN <= len /\
  transpose_shape d (start rop - 1) (start op - 1) ropM ropN /\
  mex_mpfr_algorithms MPLAPACK nlhs prhs 2000 m
  = Ok {| mex_pool :=
            set_data
              (Some (writes (cpos (start rop - 1) ropM)
                       (fun ij => (transposed d (start rop - 1) (start op - 1)
                                     rnd ropM ropN ij).1)
                       (order_ij ropM ropN) d))
              (mex_pool m);
          throw_error := throw_error m;
          plhs0 :=
            Some (writes (fun ij => Z.to_nat (ij.1 * (if nlhs =? 0 then 0 else 1)))
                    (fun ij => (transposed d (start rop - 1) (start op - 1)
                                  rnd ropM ropN ij).2)
                    (order_ij ropM ropN)
                    (new_status_array nlhs len)) |}.
Proof.
  intros Hd Hblock (Hn & HR & HO & Hrnd & HM) HMpos Hlen Hdisj len ropN.
  pose proof (extract_idx_valid _ _ _ _ HR) as HvR.
  pose proof (extract_idx_valid _ _ _ _ HO) as HvO.
  destruct (valid_range_facts _ _ Hblock HvR) as (ER & LR & ? & ? & ?).
  destruct (valid_range_facts _ _ Hblock HvO) as (EO & LO & ? & ? & ?).
  assert (0 <= ropN) as HN by (apply Z.div_pos; lia).
  assert (ropM * ropN <= len) as Hfloor by (apply Z.mul_div_le; lia).
  assert (transpose_shape d (start rop - 1) (start op - 1) ropM ropN) as Hs.
  { destruct Hblock as (d' & Hd' & Hl & Hsz & Hcap).
    rewrite Hd in Hd'. injection Hd' as <-. split; lia. }
  split; [done|]. split; [done|]. split; [done|].
  unfold mex_mpfr_algorithms, cmd_transpose.
  rewrite Hn, HR. cbn [Nat.eqb negb mbind res_bind].
  rewrite HO. cbn [mbind res_bind].
  rewrite Hrnd. cbn [mbind res_bind].
  rewrite HM. cbn [mbind res_bind default from_option failed orb].
  unfold id, udiv. rewrite LR, LO, ER, EO.
  replace (end_ op - start op + 1) with len by (unfold len; lia).
  fold len. rewrite Z.eqb_refl. cbn [negb].
  destruct (Z.eqb_spec ropM 0) as [?|_]; [lia|].
  cbn [mbind res_bind]. rewrite Hd. cbn [deref mbind res_bind].
  fold ropN. rewrite loops_ij.
  rewrite (transpose_entries_Ok (start rop - 1) (start op - 1) rnd ropM ropN d);
    try done.
  - apply NoDup_order_ij.
  - intros ij. apply elem_of_order_ij.
  - unfold status_shape, new_status_array.
    destruct (nlhs =? 0); rewrite length_replicate; [left|right]; split;
      (done || lia).
Qed.
End TransposeAnyRows.

(** X19.  One call of [mpfr_t.transpose] on two ranges of equal length
    that do not overlap, for any positive number of rows [ropM].  The
    number of columns is the quotient [ropN = length / ropM]; that [ropM]
    divides the length is not checked, and the call returns without an
    error.  [rop[i,j]], at [ropM * j + i], holds what [mpfr_set] makes of
    [op] read at [ropN * i + j]; the cells of [rop] from [ropM * ropN] on
    and every cell outside [rop] are untouched.  The status is written at
    [i * ret_stride], the row alone: when the caller asks for an output,
    the array has one element for each slot of [rop], of which the first
    [ropM] hold the ternary values of the last column, [rop[i, ropN-1]],
    and the others stay zero; when the caller asks for none, the one
    element holds the ternary value of the cell written last. *)
Theorem transpose_cells_and_status `{Mpfr} (MPLAPACK : bool) (nlhs : Z)
    (prhs : list mxArray) (m : mex) d (rop op : idx_t) (rnd : mpfr_rnd_t)
    (ropM ropN : Z) :
  data (mex_pool m) = Some d -> data_block (mex_pool m) ->
  transpose_decodes prhs (mex_pool m) rop op rnd ropM ->
  0 < ropM -> ropN = (end_ rop - start rop + 1) / ropM ->
  end_ op - start op = end_ rop - start rop ->
  end_ rop < start op \/ end_ op < start rop ->
  exists m' d' st,
    mex_mpfr_algorithms MPLAPACK nlhs prhs 2000 m = Ok m' /\
    throw_error m' = throw_error m /\
    data (mex_pool m') = Some d' /\ plhs0 m' = Some st /\
    length d' = length d /\
    (forall i j, in_matrix ropM ropN (i, j) ->
       cell d' (start rop - 1 + ropM * j + i)
       = (mpfr_set (cell d (start rop - 1 + ropM * j + i))
            (cell d (start op - 1 + ropN * i + j)) rnd).1) /\
    (forall p, 0 <= p ->
       p < start rop - 1 \/ start rop - 1 + ropM * ropN <= p ->
       cell d' p = cell d p) /\
    (nlhs <> 0 ->
       Z.of_nat (length st) = end_ rop - start rop + 1 /\
       forall i, 0 <= i < end_ rop - start rop + 1 ->
         st !! Z.to_nat i
         = Some (if decide (i < ropM /\ 0 < ropN)
                 then (mpfr_set (cell d (start rop - 1 + ropM * (ropN - 1) + i))
                         (cell d (start op - 1 + ropN * i + (ropN - 1))) rnd).2
                 else 0)) /\
    (nlhs = 0 ->
       st = [if decide (0 < ropN)
             then (mpfr_set (cell d (start rop - 1 + ropM * ropN - 1))
                     (cell d (start op - 1 + ropM * ropN - 1)) rnd).2
             else 0]).
Proof.
  intros Hd Hblock Hdec HM -> Hlen Hdisj.
  destruct (cmd_transpose_floor MPLAPACK nlhs prhs m d rop op rnd ropM)
    as (HN & Hfloor & Hs & Hrun); try done.
  set (ropN := (end_ rop - start rop + 1) / ropM) in *.
  destruct (transpose_cells d (start rop - 1) (start op - 1) ropM ropN
              (fun ij => (transposed d (start rop - 1) (start op - 1) rnd
                            ropM ropN ij).1) Hs) as (Hl & Hin & Hout).
  eexists _, _, _. split; [exact Hrun|].
  cbn [throw_error mex_pool plhs0 data set_data].
  split; [done|]. split; [reflexivity|]. split; [reflexivity|].
  split; [done|]. split; [|split; [|split]].
  - intros i j Hij. by rewrite Hin.
  - intros p Hp Hrange. by apply Hout.
  - intros Hn. destruct (Z.eqb_spec nlhs 0) as [?|_]; [done|].
    rewrite writes_length. unfold new_status_array.
    destruct (Z.eqb_spec nlhs 0) as [?|_]; [done|].
    rewrite length_replicate. split; [lia|].
    intros i Hi. case_decide as Hrow.
    + destruct Hrow as [Hrow HNpos].
      destruct (order_ij_row ropM ropN i) as (l1 & l2 & -> & Hl2); [lia|done|].
      replace (Z.to_nat i) with (Z.to_nat ((i, ropN - 1).1 * 1)) by (simpl; lia).
      rewrite (writes_lookup_last (fun ij : Z * Z => Z.to_nat (ij.1 * 1))).
      * done.
      * intros ij Hij. specialize (Hl2 ij Hij). simpl. lia.
      * rewrite length_replicate. simpl. lia.
    + rewrite writes_lookup_other.
      * apply lookup_replicate_2. lia.
      * intros [i' j'] Hij. apply elem_of_order_ij in Hij as [Hi' Hj'].
        simpl in *. lia.
  - intros ->. change (0 =? 0) with true. cbv iota.
    rewrite (writes_ext _ (fun _ => 0%nat)).
    + rewrite writes_same_place, last_order_ij.
      case_decide as Hpos.
      * rewrite decide_True by (by destruct Hpos).
        unfold new_status_array, transposed. simpl.
        do 3 f_equal; f_equal; nia.
      * rewrite decide_False by lia. done.
    + intros ij _. by rewrite Z.mul_0_r.
Qed.

(** X20.  [mpfr_t.mtimes] with a strategy that [mpfr_apa_mmm] does not
    have (0, more than 8, or 8 in a build without MPLAPACK), the call
    being conforming otherwise: the error flag is set, no cell of the data
    array is written, and the status array holds zeros. *)
Theorem mtimes_unknown_strategy `{Mpfr} (MPLAPACK : bool) (nlhs : Z)
    (prhs : list mxArray) (m : mex) d
    (a : mtimes_args) (N K : Z) :
  data (mex_pool m) = Some d -> data_block (mex_pool m) ->
  decodes prhs (mex_pool m) a -> conforming a N K ->
  arg_strategy a = 0 \/ 8 < arg_strategy a \/
    (arg_strategy a = 8 /\ MPLAPACK = false) ->
  exists m',
    mex_mpfr_algorithms MPLAPACK nlhs prhs 2001 m = Ok m' /\
    throw_error m' = true /\
    data (mex_pool m') = Some d /\
    plhs0 m' = Some (replicate (Z.to_nat (if nlhs =? 0 then 1 else arg_M a * N)) 0).
Proof.
  intros Hd Hblock Hdec Hconf Hstrat.
  rewrite (cmd_mtimes_conforming MPLAPACK nlhs prhs m d a N K) by done.
  assert (mpfr_apa_mmm MPLAPACK d (start (arg_C a) - 1) (start (arg_A a) - 1)
            (start (arg_B a) - 1) (arg_prec a) (arg_rnd a) (arg_M a) N K
            (new_status_array nlhs (arg_M a * N)) (if nlhs =? 0 then 0 else 1)
            (arg_strategy a)
          = Ok (d, new_status_array nlhs (arg_M a * N), true)) as ->.
  { unfold mpfr_apa_mmm. destruct Hstrat as [-> | [Hbig | [-> ->]]]; [done| |done].
    destruct (arg_strategy a) as [|p|p]; [lia| |lia].
    repeat (destruct p as [p|p|]; try done; try lia). }
  cbn [mbind res_bind mret res_ret fst snd].
  eexists. split; [reflexivity|]. cbn [throw_error mex_pool plhs0 data set_data].
  split; [apply orb_true_r|]. done.
Qed.
Lemma mtimes_status_array_witness :
  exists m' st,
    mex_mpfr_algorithms (H := ExactInt.mpfr) false 1 (Examples.identity_prhs 2)
      2001 (Examples.mex_of Examples.identity_values) = Ok m' /\
    plhs0 m' = Some st /\
    ((1 : Z) <> 0 ->
       Z.of_nat (length st) = 2 * 2 /\
       forall i j, in_matrix 2 2 (i, j) ->
         st !! Z.to_nat (2 * j + i)
         = Some (entry_after Examples.identity_data
                   (1 - 1) (5 - 1) (9 - 1) MPFR_RNDN 2 2 i j).2) /\
    ((1 : Z) = 0 ->
       st = [(entry_after Examples.identity_data
                (1 - 1) (5 - 1) (9 - 1) MPFR_RNDN 2 2 (2 - 1) (2 - 1)).2]).
Proof.
  apply (mtimes_status_array (H := ExactInt.mpfr) false 1
           (Examples.identity_prhs 2) (Examples.mex_of Examples.identity_values)
           Examples.identity_data (Examples.identity_args 2) 2 2).
  - reflexivity.
  - eexists. split; [reflexivity|]. vm_compute. repeat split; congruence.
  - repeat split; vm_compute; reflexivity.
  - right. reflexivity.
  - unfold conforming. simpl. lia.
  - unfold no_alias. simpl. lia.
Defined.

Lemma transpose_cells_and_status_witness :
  exists m' d' st,
    mex_mpfr_algorithms (H := ExactInt.mpfr) false 1
      (Examples.transpose_prhs (Examples.range 7 12) (Examples.range 1 6) 4)
      2000 (Examples.mex_of Examples.matrix_values) = Ok m' /\
    throw_error m' = throw_error (Examples.mex_of Examples.matrix_values) /\
    data (mex_pool m') = Some d' /\ plhs0 m' = Some st /\
    length d' = length Examples.matrix_data /\
    (forall i j, in_matrix 4 1 (i, j) ->
       cell d' (7 - 1 + 4 * j + i)
       = (mpfr_set (cell Examples.matrix_data (7 - 1 + 4 * j + i))
            (cell Examples.matrix_data (1 - 1 + 1 * i + j)) MPFR_RNDN).1) /\
    (forall p, 0 <= p -> p < 7 - 1 \/ 7 - 1 + 4 * 1 <= p ->
       cell d' p = cell Examples.matrix_data p) /\
    ((1 : Z) <> 0 ->
       Z.of_nat (length st) = 12 - 7 + 1 /\
       forall i, 0 <= i < 12 - 7 + 1 ->
         st !! Z.to_nat i
         = Some (if decide (i < 4 /\ 0 < 1)
                 then (mpfr_set
                         (cell Examples.matrix_data (7 - 1 + 4 * (1 - 1) + i))
                         (cell Examples.matrix_data (1 - 1 + 1 * i + (1 - 1)))
                         MPFR_RNDN).2
                 else 0)) /\
    ((1 : Z) = 0 ->
       st = [if decide (0 < 1)
             then (mpfr_set (cell Examples.matrix_data (7 - 1 + 4 * 1 - 1))
                     (cell Examples.matrix_data (1 - 1 + 4 * 1 - 1))
                     MPFR_RNDN).2
             else 0]).
Proof.
  apply (transpose_cells_and_status (H := ExactInt.mpfr) false 1
           (Examples.transpose_prhs (Examples.range 7 12) (Examples.range 1 6) 4)
           (Examples.mex_of Examples.matrix_values) Examples.matrix_data
           (Examples.range 7 12) (Examples.range 1 6) MPFR_RNDN 4 1).
  - reflexivity.
  - eexists. split; [reflexivity|]. vm_compute. repeat split; congruence.
  - repeat split; vm_compute; reflexivity.
  - lia.
  - reflexivity.
  - simpl. lia.
  - simpl. lia.
Defined.

Lemma mtimes_unknown_strategy_witness :
  exists m',
    mex_mpfr_algorithms (H := ExactInt.mpfr) false 1 (Examples.identity_prhs 9)
      2001 (Examples.mex_of Examples.identity_values) = Ok m' /\
    throw_error m' = true /\
    data (mex_pool m') = Some Examples.identity_data /\
    plhs0 m' = Some (replicate (Z.to_nat (if 1 =? 0 then 1 else 2 * 2)) 0).
Proof.
  apply (mtimes_unknown_strategy (H := ExactInt.mpfr) false 1
           (Examples.identity_prhs 9) (Examples.mex_of Examples.identity_values)
           Examples.identity_data (Examples.identity_args 9) 2 2).
  - reflexivity.
  - eexists. split; [reflexivity|]. vm_compute. repeat split; congruence.
  - repeat split; vm_compute; reflexivity.
  - unfold conforming. simpl. lia.
  - right. left. simpl. lia.
Defined.
